(* ===== verification/_CoqProject ===== *)
-Q . S2P
Prelude.v
Sha256.v
Md5.v
Json.v
JsonFacts.v
Text.v
GoTime.v
Decode.v
Assoc.v
Url.v
Sanitizer.v
Identity.v
Authorization.v
Incident.v
Db.v
Sql.v
Http.v
Messaging.v
Storage.v
Lineage.v
EvidenceFacts.v
Records.v
Queues.v
Privacy.v
Fleet.v
Delivery.v
Recovery.v
Governance.v
Quality.v
Investigation.v
Knowledge.v
Snapshot.v
Report.v
Registry.v
Scheduler.v
Toy.v
RegistryFacts.v
Rounds.v
Diagnosis.v
RunText.v
Execution.v
Falco.v
Executor.v
AgentApi.v
Bodies.v
Orchestrator.v
ExecutorRun.v
ExecutorCrash.v
ExecutorDrain.v
ExecutionFacts.v
ExecutionSafety.v
System.v
Evolution.v
ItemGraph.v
ItemEdges.v
Scenario.v
ExecutionProps.v
SystemProps.v
FleetProps.v
Deployment.v
Plant.v
RegistryProps.v
ExecutorProps.v
Bounds.v
QueueProps.v
ItemProps.v
AuthProps.v
Attempt.v
DiagnosisSteps.v
OrchestratorSteps.v
Frontdoor.v
MessagingProps.v
OrchestratorProps.v
ReportProps.v
SchedulerProps.v
DeliveryProps.v
DiagnosisProps.v
Review.v
RecoveryProps.v
