(* ===== verification/Prelude.v ===== *)
(** * KubeBee SRE: a verification development

    KubeBee SRE coordinates incident response.  An orchestrator keeps, for every
    scope (organization, cluster, application), the incidents, the evidence its
    agents report, the diagnoses made of it, the reviews of engineers and the
    actions they approve, in PostgreSQL.  Collectors report evidence and run
    diagnoses; executors carry out approved actions.  What makes the program
    correct is a set of promises about that shared state, under concurrent
    requests, failing statements, lost replies and restarts; this development
    models the code that keeps them, and proves them.

    ** Parts and files

    Foundations.
    - [Prelude]: errors, bytes and strings, machine integers, sorting, tactics.
    - [Sha256], [Md5]: digests, hexadecimal and base64url text.
    - [Json], [JsonFacts]: encoding/json on bytes, and [incident.CanonicalObject]
      (pkg/incident/evidence.go), with its fixed-point and injectivity facts.
    - [GoTime], [Decode], [Assoc]: time.Time with its RFC 3339 text; json.Unmarshal
      into structs field by field, strict or not; maps as lists of their members.

    Data and authority.
    - [Identity]: pkg/identity (scopes, identifiers, principals, tokens).
    - [Authorization]: pkg/authorization (roles, policies, sealed grants).
    - [Incident]: the records of pkg/incident with plan hashes and item seals.
    - [Privacy]: pkg/privacy (observations, their validation, projection).

    The store, pkg/storage/postgres.
    - [Db]: tables, keys, unique indexes, CHECK constraints and foreign keys of
      migrations/*.sql.
    - [Sql]: the effect monad [M], statements, and [Transact] of transaction.go.
    - [Storage], [Records], [Queues]: the methods of [Tx] and [Store], a
      definition per method: items, eligibility and the recursive lineage query;
      agents, actions, runs, reviewed records, the outbox; jobs, leases,
      notifications, interactions, sessions, retention.
    - [Lineage]: the recursive query computes reachability.

    The services, a definition per exported method and per transaction.
    - [Fleet] (pkg/fleet), [Execution] (pkg/execution), [Recovery] (pkg/recovery),
      [Knowledge] (pkg/knowledge), [Report] (pkg/agent/collection/report.go, the intake
      of collectors' reports), [Delivery] (pkg/delivery/service.go, who is told what).
    - [Scheduler] (pkg/scanplan, pkg/scheduler): scan plans, and the queue of triggers
      with its consumer beside the periodic scan, as a step function on events;
      it runs in the scanning agent and shares nothing with the store.
    - [Quality] (pkg/quality with storage/postgres/quality.go): the report on how
      diagnoses fared, its rates in float64.
    - [Governance]: pkg/environment, pkg/ownership, pkg/feedback, pkg/operations
      and the adjudication half of pkg/stewardship.
    - [Investigation], [Snapshot], [Rounds], [Diagnosis]: pkg/investigation (rubric,
      queue, snapshots, the bounded engine, attempts of agents), and
      [Corroborate] of pkg/stewardship.

    The executor, and what it talks to.
    - [Text]: strings.TrimSpace.
    - [Executor] (pkg/agent/executor): the runtime of journal.go, client.go,
      action.go and runtime.go, a definition per method, as programs ([prog]) over
      calls to what lies outside the process: clock, files, orchestrator, cluster.
    - [Registry], [RegistryFacts] (pkg/agent/collection/registry.go): the encrypted
      file of local targets that handles and commitments resolve to, and the map it
      stands for.
    - [AgentApi]: the orchestrator's routes that an executor uses
      (pkg/orchestrator/action_handlers.go, collector_handlers.go, server.go).
    - [ExecutorRun], [ExecutorCrash], [ExecutorDrain]: the journal's text reads
      back; a logic of conditions that hold at every call of a program; nodes that
      crash and restart; a restart that sends what is owed.
    - [Deployment]: any number of executors, the orchestrator and everybody else's
      requests as one step relation, with lost messages and crashes; an executor
      resolves targets in the registry, under its key, from whatever file it finds.
    - [Plant]: a small cluster on which an executor is run to the end.

    The front door.
    - [Url]: the parts of net/url and strings that requests use (split, unescape,
      queries, integers).
    - [Http]: requests, cookies, replies; writeJSON, respondError and decode of
      pkg/orchestrator.
    - [Sanitizer] (pkg/sanitizer): the redaction of texts and values, with a
      leftmost-first matcher for its regular expressions; [Falco] (pkg/falco): the
      events of the webhook, their authentication, decoding and redaction.
    - [Messaging] (pkg/messaging): commands from Slack, Discord and Telegram.
    - [Bodies]: the JSON the handlers read and write.
    - [Orchestrator] (pkg/orchestrator: server.go, auth.go, messaging_bridge.go and
      the handler files, a definition per handler of every route): routing, sign-in, sessions, and
      ServeHTTP over all of it.

    The system and its theorems.
    - [ExecutionFacts], [ExecutionSafety]: the abstract life of an action, and its
      refinement by every request of pkg/execution.
    - [System]: every request of the services, and every transaction of storage
      methods, as one step relation [step] on databases; [system d] says that [d]
      is reached from the empty schema.
    - [Evolution], [Bounds]: what may become of a stored row in any step, and the
      bounds every step keeps.
    - [ItemGraph], [ItemEdges]: what every statement keeps of the graph of items and
      their dependencies; [EvidenceFacts]: which evidence of an incident is read as
      its current evidence.
    - [Scenario], [Toy], [Attempt]: a concrete deployment, cipher and diagnosis on
      which every theorem is instantiated; no definition of the model uses them.
    - [RunText], [DiagnosisSteps], [OrchestratorSteps]: texts that survive jsonb; the
      conversations of an agent, and whatever an HTTP request does, as sequences of
      requests of the system, each with who asked for it.
    - [Frontdoor]: the orchestrator on which the theorems about it are instantiated.
    - [ExecutionProps], [SystemProps], [FleetProps], [QueueProps], [ItemProps],
      [AuthProps], [DiagnosisProps], [Review], [RecoveryProps], [ExecutorProps],
      [RegistryProps], [MessagingProps], [OrchestratorProps], [ReportProps],
      [SchedulerProps], [DeliveryProps]: the theorems.

    ** How Go is rendered

    A Go function that returns [(T, error)] is a function into [res T]; one with
    effects is a computation [M T], a function from a [World] (the database and a
    tick) to a result and a world.  Every statement, clock reading and random
    draw takes the next tick, and the class [Env] says what happens at it: the
    time of the process and of the server, the bytes drawn, whether the statement
    fails and how, and whether a commit whose acknowledgement was lost took
    effect.  A theorem quantified over [Env] therefore holds for all clocks, all
    randomness and all failures.  [Transact] takes an advisory lock on its scope,
    so requests interleave as whole transactions; agents' conversations take
    several, with anything in between.

    A table is the list of its rows; a statement is a filter, a sort or an update
    on it, checked against the constraints of the schema as the server checks
    them.  An int64 is an integer whose arithmetic wraps ([wrap64]); a string is
    its bytes; a float64 that only passes through JSON is its shortest decimal
    text, and one that is computed with ([Quality]) is the exact result rounded to
    the nearest double.  An envelope column holds the value that was encoded into it, except
    where the bytes are hashed or read back by another party (item bodies, job
    inputs, recorded runs), where the JSON text itself is stored, in the form
    jsonb keeps: sorted keys, normalised numbers.  jsonb's inner spaces, which
    no reader distinguishes, are not kept, and negative zero is not among the
    floats.

    ** What the theorems show

    - The approval protocol (C1 to C4, C8, C9, C14): whatever requests run, an action
      goes through the abstract machine of [ExecutionFacts]; its plan is
      immutable and its log only grows; nothing is submitted without the
      approval of an authorized engineer of that very plan, and at most once; a
      receipt closes it once and for good; revoking its executor disarms it.
    - The store (C10 to C12, C16, C18 to C22): evidence is a well-founded
      graph of sealed items whose edges are what the items name; audit records are append-only; quarantine and revocation reach
      every descendant for ever; jobs succeed once and reports are
      taken in once; a notification is sent to those who may read it, at most eight
      times, and no more once it is delivered or acknowledged; the lineage query is
      reachability and ends.
    - Texts and hashes (C23 to C26, C34): canonical JSON is a normal form, items
      and recorded runs are read back as they were sealed, a plan hash names one
      plan; and a body that jsonb rewrites is lost, which is a finding.
    - Identity and authority (C15, C27 to C29): bootstrap tokens, policies,
      grants and logins.
    - Diagnosis and review (C30, C31, C35, C36): the engine is bounded, an accepted
      result is grounded in the orchestrator's own evidence, corroboration and
      recovery are observed.  A claim overlooks the current evidence that a hundred
      items precede, and nothing else, which is a finding; a recovery is decided on
      the newest stored samples of the resource, all of them up to 512.
    - The front door (C7, C13, C17, C32, C33): everything an HTTP request does is a
      sequence of requests of the system, each on the authority of its caller, and
      one that only reads changes nothing; an approval appears only when a signed-in
      principal who may give it, or an authentic chat message of one, asked for that
      very plan; strangers change nothing; chat messages are authentic, and commands
      read back.  The Falco webhook is behind the sign-in, and asks for
      no permission in the scope it writes to, which are findings.
    - The scheduler (C37): the queue is bounded, scans never overlap, and left alone
      it comes to rest with a job started for the latest state of every object.  A
      trigger before the first periodic scan can end it, which is a finding.
    - The executor (C5, C6, C38): over every run of the deployment an action is
      written to the cluster at most once, by an entitled executor, after approval,
      on a target that has the approved commitment under the executor's key;
      the journal file survives every crash with every owed receipt in it; and a
      restart on a working disk sends them all.  One unresolved record keeps an
      executor from enrolling again, which is a finding.
    - The registry (C39, C40): the encrypted file is a map, through any failures,
      and a commitment leads to the very target it was made for.

    ** Bounds and fuel

    [lineage_loop] is given two rounds per stored edge plus one, which [Lineage]
    shows is enough; the JSON reader's fuel is twice the length of its input
    plus two, and [read_fuel_irrelevant] shows that more changes nothing; the
    engine's loop runs at most three rounds by its own bound, and the wait for
    collection checks polls as often as the code does; a float's text has at
    most seventeen digits.  A repetition of a regular expression is tried at most
    once per byte of the text, since each turn must take a byte, and a replacement
    goes on as long as there is text.

    ** Parameters

    Code outside the repository is a parameter: Unicode's letters beyond ASCII
    (class [Unicode]), the label selectors of apimachinery ([Selectors]),
    Ed25519, the identity provider's checks and exchanges (class [Provider]),
    the AEAD of queued grants
    (class [AEAD], with the round trip and the integrity of an authenticated
    cipher as laws), the OIDC verifier, the provider behind a diagnosis
    ([Runner]), what other replicas do between two transactions, and what
    the Go runtime chooses (class [Runtime]: the order in which the members of a map
    are visited, and the text of a read error).  Each is
    instantiated in a witness.  The Kubernetes API objects an executor
    reads, with the predicates of client-go on them, are the class [Kube], of which
    nothing is assumed; AES-GCM of the registry ([GCM]) opens what it sealed and
    adds sixteen bytes; a DNS name that apimachinery accepts ([Names]) is UTF-8; the
    answers of its files are assumed to be those of an atomically replaced file,
    possibly not written, and a receipt token, which was decoded from JSON, to be
    UTF-8.

    ** Not modelled

    Of pkg/orchestrator, config.go, the sign-in store in memory and the embedded
    pages; of HTTP, framing and
    timeouts; of replies, the difference between a nil and an empty slice.  The
    theorems about agents' routes are stated for an orchestrator with a guidance
    service, as pkg/orchestrator/runtime always configures it.  The client of
    pkg/interaction and cmd; the timing of the executor's Run loop and the file-mode
    checks inside its file operations, which are calls; model providers and outgoing
    HTTP (pkg/triage, pkg/notifier, the senders of pkg/delivery); the Lease election
    and the wiring of informers of pkg/scheduler, and EffectiveScope of pkg/scanplan; the Kubernetes analyzers and
    their configuration (pkg/scanner, pkg/config, pkg/metrics), which are functions of third-party API types; the evidence
    collector's informers (pkg/agent/collection); offline evaluation
    (pkg/evaluation); of pkg/sanitizer, structured text, URLs, environment maps and
    the counts of its reports, which the orchestrator does not use, and of the
    arithmetic of [Quality] the fused operations that Go uses on some machines other
    than amd64; the standalone tools and the superseded server and agent
    (pkg/remediation, pkg/playbook, pkg/cache, pkg/plugin, pkg/grpcapi,
    pkg/supportbundle, internal); and opening the connection pool, TLS and running
    the migrations.  Cancellation of a context
    is a failing statement. *)

From stdpp Require Export base strings list gmap sorting.
From Stdlib Require Export Ascii ZArith Lia Bool.
From Stdlib Require Export Permutation Sorted.

#[global] Open Scope Z_scope.

(** ** Errors

    The sentinel errors of the packages the model covers.  A Go function that
    returns [(T, error)] becomes a function into [res T]; the value that some
    of them return next to a non-nil error is not used by any caller and is
    dropped. *)
Inductive GoErr : Type :=
| ErrUnavailable        (* postgres.ErrUnavailable *)
| ErrConflict           (* postgres.ErrConflict *)
| ErrNotFound           (* postgres.ErrNotFound *)
| ErrInvalid            (* postgres.ErrInvalid *)
| ErrAuthCapacity       (* postgres.ErrAuthCapacity *)
| ErrForbidden          (* authorization.ErrForbidden *)
| ErrUnauthenticated    (* identity.ErrUnauthenticated *)
| ErrAgentUnauthorized  (* fleet.ErrAgentUnauthorized *)
| ErrInvalidScope       (* identity.ErrInvalidScope *)
| ErrInvalidItem        (* incident.ErrInvalidItem *)
| ErrInvalidLegacySource (* incident.ErrInvalidLegacySource *)
| ErrProjection         (* privacy.ErrProjection *)
| ErrInvalidConclusion  (* investigation.ErrInvalidConclusion *)
| ErrBusy               (* investigation.ErrBusy *)
| ErrDelivery           (* delivery.ErrDelivery *)
| ErrInteraction        (* interaction.ErrInvalid *)
| ErrOwnership (msg : string) (* the errors.New values of ownership.NewRegistry *)
| ErrRuntime            (* executor.ErrRuntime *)
| ErrReenrollment       (* executor.ErrReenrollment *).

#[export] Instance GoErr_eq_dec : EqDecision GoErr.
Proof. solve_decision. Defined.

Inductive res (A : Type) : Type :=
| Ok (a : A)
| Err (e : GoErr).
Arguments Ok {A} a.
Arguments Err {A} e.

Definition res_bind {A B} (r : res A) (f : A -> res B) : res B :=
  match r with Ok a => f a | Err e => Err e end.

Definition is_ok {A} (r : res A) : bool :=
  match r with Ok _ => true | Err _ => false end.

(** ** Bytes and strings

    A Go string is a byte sequence; [string] is a list of eight-bit
    characters. *)
Definition ord (c : ascii) : Z := Z.of_N (N_of_ascii c).
Definition chr (z : Z) : ascii := ascii_of_N (Z.to_N z).

Definition slen (s : string) : Z := Z.of_nat (String.length s).

Fixpoint str_forall (p : ascii -> bool) (s : string) : bool :=
  match s with
  | EmptyString => true
  | String c s => p c && str_forall p s
  end.

Definition in_range (lo hi : Z) (c : ascii) : bool :=
  (lo <=? ord c) && (ord c <=? hi).

(** [strings.Join]. *)
Fixpoint join (sep : string) (l : list string) : string :=
  match l with
  | [] => ""
  | [x] => x
  | x :: l => x +:+ sep +:+ join sep l
  end.

(** Go's [<] on strings: bytewise lexicographic order. *)
Definition str_ltb (a b : string) : bool := String.ltb a b.
Definition str_leb (a b : string) : bool := String.leb a b.

Definition str_eqb (a b : string) : bool := bool_decide (a = b).

(** [slices.Contains]. *)
Definition mem_str (x : string) (l : list string) : bool := bool_decide (x ∈ l).

(** ** Machine integers

    [int] and [int64] are 64-bit two's complement; [a.Version++] wraps. *)
Definition wrap64 (z : Z) : Z := (z + 2 ^ 63) mod 2 ^ 64 - 2 ^ 63.
Definition int64_ok (z : Z) : Prop := - 2 ^ 63 <= z < 2 ^ 63.

Lemma wrap64_id z : int64_ok z -> wrap64 z = z.
Proof. unfold int64_ok, wrap64. intros H. rewrite Z.mod_small; lia. Qed.

Lemma wrap64_ok z : int64_ok (wrap64 z).
Proof. unfold int64_ok, wrap64. pose proof (Z.mod_pos_bound (z + 2 ^ 63) (2 ^ 64)). lia. Qed.

(** ** Sorting

    [sort.Strings], [sort.Slice] and SQL's [ORDER BY] are modelled by a stable
    insertion sort.  The Go sorts are not stable, so the model fixes one of the
    results the code may produce when the comparison has ties. *)
Section ISort.
Context {A : Type} (leb : A -> A -> bool).

Fixpoint insert_sorted (x : A) (l : list A) : list A :=
  match l with
  | [] => [x]
  | y :: l' => if leb x y then x :: l else y :: insert_sorted x l'
  end.

Fixpoint isort (l : list A) : list A :=
  match l with
  | [] => []
  | x :: l => insert_sorted x (isort l)
  end.

Lemma insert_sorted_perm x l : Permutation (insert_sorted x l) (x :: l).
Proof.
  induction l as [|y l IH]; simpl; [done|].
  destruct (leb x y); [done|]. rewrite IH. apply perm_swap.
Qed.

Lemma isort_perm l : Permutation (isort l) l.
Proof.
  induction l as [|x l IH]; simpl; [done|].
  rewrite insert_sorted_perm. by rewrite IH.
Qed.

Lemma isort_length l : length (isort l) = length l.
Proof. apply Permutation_length, isort_perm. Qed.

Lemma isort_elem x l : x ∈ isort l <-> x ∈ l.
Proof. by rewrite isort_perm. Qed.

Hypothesis leb_total : forall x y, leb x y = true \/ leb y x = true.
Hypothesis leb_trans : forall x y z, leb x y = true -> leb y z = true -> leb x z = true.

Lemma insert_sorted_sorted x l :
  StronglySorted (fun a b => leb a b = true) l ->
  StronglySorted (fun a b => leb a b = true) (insert_sorted x l).
Proof.
  induction 1 as [|y l Hl IH Hy]; simpl; [by repeat constructor|].
  destruct (leb x y) eqn:E.
  - constructor; [by constructor|]. constructor; [done|].
    eapply Forall_impl; [exact Hy|]. simpl. eauto.
  - constructor; [done|].
    rewrite insert_sorted_perm. constructor; [|done].
    destruct (leb_total x y); congruence.
Qed.

Lemma isort_sorted l : StronglySorted (fun a b => leb a b = true) (isort l).
Proof. induction l; simpl; [constructor|]. by apply insert_sorted_sorted. Qed.
End ISort.

(** Two sorted permutations of one list agree when the order is antisymmetric
    on its members. *)
Lemma sorted_perm_eq {A} (R : A -> A -> Prop) (l1 l2 : list A) :
  (forall x y, x ∈ l1 -> y ∈ l1 -> R x y -> R y x -> x = y) ->
  StronglySorted R l1 -> StronglySorted R l2 -> Permutation l1 l2 -> l1 = l2.
Proof.
  revert l2. induction l1 as [|x l1 IH]; intros l2 Hanti H1 H2 Hp.
  - by apply Permutation_nil in Hp as ->.
  - destruct l2 as [|y l2]; [by apply Permutation_sym, Permutation_nil_cons in Hp|].
    inversion H1 as [|? ? Hs1 Hf1]; inversion H2 as [|? ? Hs2 Hf2]; subst.
    rewrite Forall_forall in Hf1, Hf2.
    assert (x = y) as ->.
    { assert (Hx : x ∈ y :: l2) by (rewrite <- Hp; left).
      assert (Hy : y ∈ x :: l1) by (rewrite Hp; left).
      apply elem_of_cons in Hx as [->|Hx]; [done|].
      apply elem_of_cons in Hy as [->|Hy]; [done|].
      apply Hanti; [left|by right|by apply Hf1|by apply Hf2]. }
    f_equal. apply IH; try done.
    + intros a b Ha Hb. apply Hanti; by right.
    + by eapply Permutation_cons_inv.
Qed.

(** ** Boolean reflection and the development's tactics *)
Lemma str_eqb_eq a b : str_eqb a b = true <-> a = b.
Proof. apply bool_decide_eq_true. Qed.
Lemma str_eqb_neq a b : str_eqb a b = false <-> a <> b.
Proof. apply bool_decide_eq_false. Qed.
Lemma str_eqb_refl a : str_eqb a a = true.
Proof. by apply str_eqb_eq. Qed.

Create HintDb go.
Create Rewrite HintDb goeq.

#[export] Hint Rewrite str_eqb_refl andb_true_r andb_true_l andb_false_r
  orb_false_r orb_false_l orb_true_r : goeq.

(** Turn every boolean test in the context into the proposition it decides. *)
Ltac breflect :=
  repeat match goal with
  | H : negb _ = true |- _ => apply negb_true_iff in H
  | H : negb _ = false |- _ => apply negb_false_iff in H
  | H : andb _ _ = true |- _ => apply andb_true_iff in H as [? ?]
  | H : orb _ _ = false |- _ => apply orb_false_iff in H as [? ?]
  | H : orb _ _ = true |- _ => apply orb_true_iff in H
  | H : andb _ _ = false |- _ => apply andb_false_iff in H
  | H : bool_decide _ = true |- _ => apply bool_decide_eq_true in H
  | H : bool_decide _ = false |- _ => apply bool_decide_eq_false in H
  | H : str_eqb _ _ = true |- _ => apply str_eqb_eq in H
  | H : str_eqb _ _ = false |- _ => apply str_eqb_neq in H
  | H : (_ <? _) = true |- _ => apply Z.ltb_lt in H
  | H : (_ <? _) = false |- _ => apply Z.ltb_ge in H
  | H : (_ <=? _) = true |- _ => apply Z.leb_le in H
  | H : (_ <=? _) = false |- _ => apply Z.leb_gt in H
  | H : (_ =? _) = true |- _ => apply Z.eqb_eq in H
  | H : (_ =? _) = false |- _ => apply Z.eqb_neq in H
  end.

(** Case on the test of an [if] in hypothesis [H], discarding branches that
    contradict it. *)
Ltac case_if_in H :=
  match type of H with
  | context [if ?b then _ else _] => let E := fresh "E" in destruct b eqn:E
  end; try discriminate H.

(** Case on the test of the first [if] of the goal. *)
Tactic Notation "case_if" "as" ident(E) :=
  match goal with |- context [if ?b then _ else _] => destruct b eqn:E end.

(** ** Facts on strings and characters *)
Lemma ord_bound c : 0 <= ord c < 256.
Proof. unfold ord. pose proof (N_ascii_bounded c). lia. Qed.

Lemma chr_ord c : chr (ord c) = c.
Proof. unfold chr, ord. rewrite N2Z.id. apply ascii_N_embedding. Qed.

Lemma ord_chr_id z : 0 <= z < 256 -> ord (chr z) = z.
Proof. intros H. unfold ord, chr. rewrite N_ascii_embedding by lia. lia. Qed.

Lemma app_assoc_s (a b c : string) : (a +:+ b) +:+ c = a +:+ (b +:+ c).
Proof. induction a as [|x a IH]; [done|]. unfold String.app in *. simpl. by rewrite IH. Qed.

Lemma app_nil_s (a : string) : a +:+ "" = a.
Proof. induction a as [|x a IH]; [done|]. unfold String.app in *. simpl. by rewrite IH. Qed.

Lemma app_cons_s x (a b : string) : String x a +:+ b = String x (a +:+ b).
Proof. done. Qed.

Lemma app_empty_s (a : string) : "" +:+ a = a.
Proof. done. Qed.

Lemma length_app_s (a b : string) : String.length (a +:+ b) = (String.length a + String.length b)%nat.
Proof. induction a as [|x a IH]; [done|]. rewrite app_cons_s. simpl. by rewrite IH. Qed.

(** Appending is injective on both sides. *)
Lemma app_cancel_l (a b c : string) : a +:+ b = a +:+ c -> b = c.
Proof.
  induction a as [|x a IH]; [by rewrite !app_empty_s|]. rewrite !app_cons_s. intros [= E]. by apply IH.
Qed.
Lemma app_cancel_r (a b c : string) : a +:+ c = b +:+ c -> a = b.
Proof.
  revert b. induction a as [|x a IH]; intros [|y b]; rewrite ?app_empty_s, ?app_cons_s; intros E.
  - done.
  - apply (f_equal String.length) in E. cbn [String.length] in E. rewrite length_app_s in E. lia.
  - apply (f_equal String.length) in E. cbn [String.length] in E. rewrite length_app_s in E. lia.
  - injection E as -> E. f_equal. by apply IH.
Qed.

Lemma in_range_spec lo hi c : in_range lo hi c = true <-> lo <= ord c <= hi.
Proof. unfold in_range. rewrite andb_true_iff, !Z.leb_le. lia. Qed.

(** Evaluate the integer tests of the goal that [lia] decides. *)
Ltac bools_true :=
  repeat match goal with
  | |- context [?a <? ?b] =>
      first [ rewrite (proj2 (Z.ltb_lt a b)) by lia | rewrite (proj2 (Z.ltb_ge a b)) by lia ]
  | |- context [?a <=? ?b] =>
      first [ rewrite (proj2 (Z.leb_le a b)) by lia | rewrite (proj2 (Z.leb_gt a b)) by lia ]
  | |- context [?a =? ?b] =>
      first [ rewrite (proj2 (Z.eqb_eq a b)) by lia | rewrite (proj2 (Z.eqb_neq a b)) by lia ]
  end; cbn [andb orb negb].
