(* ===== verification/Sha256.v ===== *)
(** * Digests and textual encodings of the Go standard library

    Executable models of [crypto/sha256.Sum256], [encoding/hex.EncodeToString]
    and [encoding/base64.RawURLEncoding.EncodeToString], which the program uses
    for plan hashes, credential hashes, identifiers and tokens.  The test
    vectors at the end are the published ones. *)

From S2P Require Import Prelude.

Definition w32 (z : Z) : Z := Z.land z 0xffffffff.
Definition rotr (n x : Z) : Z :=
  Z.lor (Z.shiftr x n) (w32 (Z.shiftl x (32 - n))).
Definition add32 (a b : Z) : Z := w32 (a + b).

(** The first 64 primes, by trial division. *)
Definition is_prime (n : Z) : bool := forallb (fun d => negb (n mod d =? 0)) (seqZ 2 (n - 2)).
Definition primes : list Z := Eval cbv in List.filter is_prime (seqZ 2 310).

(** The integer cube root below [2 ^ bits], bit by bit from the top. *)
Fixpoint cbrt (bits : nat) (n root : Z) : Z :=
  match bits with
  | O => root
  | S bits => let r := root + 2 ^ Z.of_nat bits in cbrt bits n (if r * r * r <=? n then r else root)
  end.

(** The round constants: the first 32 bits of the fractional parts of the cube
    roots of those primes. *)
Definition Sha_K : list Z := Eval cbv in map (fun p => cbrt 40 (p * 2 ^ 96) 0 mod 2 ^ 32) primes.

Record sha_state := mk_sha { sa : Z; sb : Z; sc : Z; sd : Z; se : Z; sf : Z; sg : Z; sh : Z }.

(** The initial state: the same of the square roots of the first eight. *)
Definition sha_init : sha_state := Eval cbv in
  match map (fun p => Z.sqrt (p * 2 ^ 64) mod 2 ^ 32) primes with
  | a :: b :: c :: d :: e :: f :: g :: h :: _ => mk_sha a b c d e f g h
  | _ => mk_sha 0 0 0 0 0 0 0 0
  end.

Definition big_sigma0 x := Z.lxor (rotr 2 x) (Z.lxor (rotr 13 x) (rotr 22 x)).
Definition big_sigma1 x := Z.lxor (rotr 6 x) (Z.lxor (rotr 11 x) (rotr 25 x)).
Definition small_sigma0 x := Z.lxor (rotr 7 x) (Z.lxor (rotr 18 x) (Z.shiftr x 3)).
Definition small_sigma1 x := Z.lxor (rotr 17 x) (Z.lxor (rotr 19 x) (Z.shiftr x 10)).

Definition sha_round (st : sha_state) (kw : Z) : sha_state :=
  let ch := Z.lxor (Z.land (se st) (sf st)) (Z.land (Z.lxor (se st) 0xffffffff) (sg st)) in
  let maj := Z.lxor (Z.land (sa st) (sb st))
               (Z.lxor (Z.land (sa st) (sc st)) (Z.land (sb st) (sc st))) in
  let t1 := w32 (sh st + big_sigma1 (se st) + ch + kw) in
  let t2 := w32 (big_sigma0 (sa st) + maj) in
  mk_sha (add32 t1 t2) (sa st) (sb st) (sc st) (add32 (sd st) t1) (se st) (sf st) (sg st).

(** The message schedule, newest word first. *)
Fixpoint schedule (fuel : nat) (rev_w : list Z) : list Z :=
  match fuel with
  | O => rev_w
  | S fuel =>
      let w i := nth i rev_w 0 in
      schedule fuel (w32 (small_sigma1 (w 1%nat) + w 6%nat + small_sigma0 (w 14%nat) + w 15%nat) :: rev_w)
  end.

Definition compress (st : sha_state) (block : list Z) : sha_state :=
  let w := rev (schedule 48 (rev block)) in
  let st' := fold_left sha_round (zip_with (fun k w => w32 (k + w)) Sha_K w) st in
  mk_sha (add32 (sa st) (sa st')) (add32 (sb st) (sb st')) (add32 (sc st) (sc st'))
    (add32 (sd st) (sd st')) (add32 (se st) (se st')) (add32 (sf st) (sf st'))
    (add32 (sg st) (sg st')) (add32 (sh st) (sh st')).

Fixpoint bytes_of (s : string) : list Z :=
  match s with
  | EmptyString => []
  | String c s => ord c :: bytes_of s
  end.

Fixpoint be_bytes (n : nat) (z : Z) : list Z :=
  match n with
  | O => []
  | S n => be_bytes n (z / 256) ++ [z mod 256]
  end.

Definition pad (msg : list Z) : list Z :=
  let l := Z.of_nat (length msg) in
  msg ++ [0x80] ++ replicate (Z.to_nat ((55 - l) mod 64)) 0 ++ be_bytes 8 (l * 8).

Fixpoint words (l : list Z) : list Z :=
  match l with
  | a :: b :: c :: d :: l => (((a * 256 + b) * 256 + c) * 256 + d) :: words l
  | _ => []
  end.

Fixpoint blocks (fuel : nat) (st : sha_state) (w : list Z) : sha_state :=
  match fuel, w with
  | S fuel, _ :: _ => blocks fuel (compress st (take 16 w)) (drop 16 w)
  | _, _ => st
  end.

(** [sha256.Sum256]: the 32 digest bytes. *)
Definition sha256 (s : string) : list Z :=
  let w := words (pad (bytes_of s)) in
  let st := blocks (length w) sha_init w in
  be_bytes 4 (sa st) ++ be_bytes 4 (sb st) ++ be_bytes 4 (sc st) ++ be_bytes 4 (sd st)
  ++ be_bytes 4 (se st) ++ be_bytes 4 (sf st) ++ be_bytes 4 (sg st) ++ be_bytes 4 (sh st).

(** [hex.EncodeToString]. *)
Definition hex_digit (z : Z) : ascii :=
  if z <? 10 then chr (48 + z) else chr (87 + z).
Fixpoint hex_encode (l : list Z) : string :=
  match l with
  | [] => ""
  | b :: l => String (hex_digit (b / 16)) (String (hex_digit (b mod 16)) (hex_encode l))
  end.

Definition sha256_hex (s : string) : string := hex_encode (sha256 s).

(** [hex.DecodeString] succeeds exactly on even-length strings of hex digits
    of either case. *)
Definition is_hex_char (c : ascii) : bool :=
  in_range 48 57 c || in_range 97 102 c || in_range 65 70 c.
Definition hex_decodable (s : string) : bool :=
  Nat.even (String.length s) && str_forall is_hex_char s.

(** [base64.RawURLEncoding]: the URL alphabet without padding. *)
Definition b64_digit (z : Z) : ascii :=
  if z <? 26 then chr (65 + z)
  else if z <? 52 then chr (71 + z)
  else if z <? 62 then chr (z - 4)
  else if z =? 62 then "-"%char else "_"%char.
Fixpoint base64url (l : list Z) : string :=
  match l with
  | a :: b :: c :: l =>
      String (b64_digit (a / 4)) (String (b64_digit ((a mod 4) * 16 + b / 16))
        (String (b64_digit ((b mod 16) * 4 + c / 64)) (String (b64_digit (c mod 64)) (base64url l))))
  | [a; b] =>
      String (b64_digit (a / 4)) (String (b64_digit ((a mod 4) * 16 + b / 16))
        (String (b64_digit ((b mod 16) * 4)) ""))
  | [a] => String (b64_digit (a / 4)) (String (b64_digit ((a mod 4) * 16)) "")
  | [] => ""
  end.

(** ** Lengths and alphabets *)
Lemma length_be_bytes n z : length (be_bytes n z) = n.
Proof. revert z. induction n as [|n IH]; intros z; simpl; [done|]. rewrite length_app, IH. simpl. lia. Qed.

Lemma length_sha256 s : length (sha256 s) = 32%nat.
Proof. unfold sha256. by rewrite !length_app, !length_be_bytes. Qed.

Lemma be_bytes_bound n z : Forall (fun b => 0 <= b < 256) (be_bytes n z).
Proof.
  revert z. induction n as [|n IH]; intros z; simpl; [constructor|].
  apply Forall_app; split; [apply IH|]. repeat constructor; apply Z.mod_pos_bound; lia.
Qed.

Lemma sha256_bound s : Forall (fun b => 0 <= b < 256) (sha256 s).
Proof. unfold sha256. rewrite !Forall_app. repeat split; apply be_bytes_bound. Qed.

Lemma length_hex_encode l : String.length (hex_encode l) = (2 * length l)%nat.
Proof. induction l as [|b l IH]; simpl; [done|]. rewrite IH. lia. Qed.

(** A digest in hex has the 64 characters the code checks for. *)
Lemma slen_sha256_hex s : slen (sha256_hex s) = 64.
Proof. unfold slen, sha256_hex. by rewrite length_hex_encode, length_sha256. Qed.

Definition is_lower_hex (c : ascii) : bool := in_range 48 57 c || in_range 97 102 c.

Lemma hex_digit_lower z : 0 <= z < 16 -> is_lower_hex (hex_digit z) = true.
Proof.
  intros H. unfold hex_digit, is_lower_hex, in_range.
  destruct (z <? 10) eqn:E; breflect; rewrite ord_chr_id by lia;
    apply orb_true_iff; rewrite !andb_true_iff, !Z.leb_le; lia.
Qed.

Lemma hex_encode_lower l :
  Forall (fun b => 0 <= b < 256) l -> str_forall is_lower_hex (hex_encode l) = true.
Proof.
  induction 1 as [|b l Hb Hl IH]; simpl; [done|].
  rewrite IH, !hex_digit_lower; [done| |].
  - apply Z.mod_pos_bound; lia.
  - split; [apply Z.div_pos; lia|]. apply Z.div_lt_upper_bound; lia.
Qed.

(** [hex.EncodeToString] loses nothing. *)
Lemma hex_digit_inj x y : 0 <= x < 16 -> 0 <= y < 16 -> hex_digit x = hex_digit y -> x = y.
Proof.
  intros Hx Hy H. apply (f_equal ord) in H. unfold hex_digit in H.
  destruct (x <? 10) eqn:Ex, (y <? 10) eqn:Ey; breflect; rewrite !ord_chr_id in H by lia; lia.
Qed.

Lemma hex_encode_inj l1 l2 :
  Forall (fun b => 0 <= b < 256) l1 -> Forall (fun b => 0 <= b < 256) l2 ->
  hex_encode l1 = hex_encode l2 -> l1 = l2.
Proof.
  intros H1. revert l2. induction H1 as [|x l1 Hx H1 IH]; intros l2 H2 E.
  - by destruct H2.
  - destruct H2 as [|y l2 Hy H2]; simpl in E; [discriminate|].
    injection E as E1 E2 E3. f_equal; [|by apply IH].
    apply hex_digit_inj in E1, E2; try (split; [apply Z.div_pos; lia|apply Z.div_lt_upper_bound; lia]);
      try (apply Z.mod_pos_bound; lia).
    rewrite (Z.div_mod x 16), (Z.div_mod y 16); lia.
Qed.

(** ** Published vectors (FIPS 180-4, RFC 4648) *)
Example sha256_empty :
  sha256_hex "" = "e3b0c44298fc1c149afbf4c8996fb92427ae41e4649b934ca495991b7852b855".
Proof. vm_compute. reflexivity. Qed.
Example sha256_abc :
  sha256_hex "abc" = "ba7816bf8f01cfea414140de5dae2223b00361a396177a9cb410ff61f20015ad".
Proof. vm_compute. reflexivity. Qed.
Example sha256_two_blocks :
  sha256_hex "abcdbcdecdefdefgefghfghighijhijkijkljklmklmnlmnomnopnopq"
  = "248d6a61d20638b8e5c026930c3e6039a33ce45964ff2167f6ecedd419db06c1".
Proof. vm_compute. reflexivity. Qed.
Example base64url_foobar : base64url (bytes_of "fooba") = "Zm9vYmE".
Proof. vm_compute. reflexivity. Qed.
