(* ===== verification/Md5.v ===== *)
(** * MD5, the PostgreSQL function [md5(text)]

    pkg/storage/postgres/notifications.go derives the identity of a notification
    from its event and route with [md5(event || '/' || route)]. *)

From S2P Require Import Prelude.
From S2P Require Import Sha256.

Definition Md5_K : list Z := [
   3614090360; 3905402710; 606105819; 3250441966; 4118548399; 1200080426; 2821735955; 4249261313;
   1770035416; 2336552879; 4294925233; 2304563134; 1804603682; 4254626195; 2792965006; 1236535329;
   4129170786; 3225465664; 643717713; 3921069994; 3593408605; 38016083; 3634488961; 3889429448;
   568446438; 3275163606; 4107603335; 1163531501; 2850285829; 4243563512; 1735328473; 2368359562;
   4294588738; 2272392833; 1839030562; 4259657740; 2763975236; 1272893353; 4139469664; 3200236656;
   681279174; 3936430074; 3572445317; 76029189; 3654602809; 3873151461; 530742520; 3299628645;
   4096336452; 1126891415; 2878612391; 4237533241; 1700485571; 2399980690; 4293915773; 2240044497;
   1873313359; 4264355552; 2734768916; 1309151649; 4149444226; 3174756917; 718787259; 3951481745].
Definition Md5_S : list Z :=
  flat_map (fun r => concat (replicate 4 r))
    [[7; 12; 17; 22]; [5; 9; 14; 20]; [4; 11; 16; 23]; [6; 10; 15; 21]].

Definition rotl (n x : Z) : Z := w32 (Z.lor (Z.shiftl x n) (Z.shiftr x (32 - n))).
Definition not32 (x : Z) : Z := Z.lxor x (2 ^ 32 - 1).

Record md5_state := mk_md5 { ma : Z; mb : Z; mc : Z; md : Z }.

Definition md5_mix (i : Z) (st : md5_state) : Z * Z :=
  let b := mb st in let c := mc st in let d := md st in
  if i <? 16 then (Z.lor (Z.land b c) (Z.land (not32 b) d), i)
  else if i <? 32 then (Z.lor (Z.land d b) (Z.land (not32 d) c), (5 * i + 1) mod 16)
  else if i <? 48 then (Z.lxor b (Z.lxor c d), (3 * i + 5) mod 16)
  else (Z.lxor c (Z.lor b (not32 d)), (7 * i) mod 16).

Definition md5_round (block : list Z) (st : md5_state) (iks : Z * (Z * Z)) : md5_state :=
  let '(i, (k, s)) := iks in
  let '(f, g) := md5_mix i st in
  let f' := w32 (f + ma st + k + nth (Z.to_nat g) block 0) in
  mk_md5 (md st) (add32 (mb st) (rotl s f')) (mb st) (mc st).

Definition md5_compress (st : md5_state) (block : list Z) : md5_state :=
  let st' := fold_left (md5_round block) (zip (seqZ 0 64) (zip Md5_K Md5_S)) st in
  mk_md5 (add32 (ma st) (ma st')) (add32 (mb st) (mb st')) (add32 (mc st) (mc st')) (add32 (md st) (md st')).

Definition le_bytes (n : nat) (z : Z) : list Z := rev (be_bytes n z).

Fixpoint le_words (l : list Z) : list Z :=
  match l with
  | a :: b :: c :: d :: l => (((d * 256 + c) * 256 + b) * 256 + a) :: le_words l
  | _ => []
  end.

Fixpoint md5_blocks (fuel : nat) (st : md5_state) (w : list Z) : md5_state :=
  match fuel, w with
  | S fuel, _ :: _ => md5_blocks fuel (md5_compress st (take 16 w)) (drop 16 w)
  | _, _ => st
  end.

Definition md5 (s : string) : string :=
  let msg := bytes_of s in
  let l := Z.of_nat (length msg) in
  let w := le_words (msg ++ [0x80] ++ replicate (Z.to_nat ((55 - l) mod 64)) 0 ++ le_bytes 8 (l * 8)) in
  let st := md5_blocks (length w) (mk_md5 0x67452301 0xefcdab89 0x98badcfe 0x10325476) w in
  hex_encode (le_bytes 4 (ma st) ++ le_bytes 4 (mb st) ++ le_bytes 4 (mc st) ++ le_bytes 4 (md st)).

Example md5_empty : md5 "" = "d41d8cd98f00b204e9800998ecf8427e".
Proof. vm_compute. reflexivity. Qed.
Example md5_alphabet : md5 "abcdefghijklmnopqrstuvwxyz" = "c3fcd3d76192e4007dfb496cca67e13b".
Proof. vm_compute. reflexivity. Qed.
