(* ===== verification/Json.v ===== *)
(** * JSON as [encoding/json] reads and writes it

    The text the program hashes, stores and compares is produced by
    [json.Marshal] and read back by a [json.Decoder].  This file models both
    on bytes: UTF-8 decoding, string quoting with HTML escaping, number
    literals kept verbatim ([UseNumber]), maps printed in key order, and the
    token reader behind [incident.readValue].  [CanonicalObject] of
    pkg/incident/evidence.go is built from them, and the round trip at the end
    shows that canonical text is a fixed point. *)

From S2P Require Import Prelude.

(** ** UTF-8 *)

(** The rune at the head of a non-empty string, as [utf8.DecodeRune]: an
    invalid byte gives [-1] and is skipped alone. *)
Definition cont (c : ascii) : bool := in_range 0x80 0xBF c.

Definition decode_rune (c0 : ascii) (s1 : string) : Z * string :=
  let b0 := ord c0 in
  if b0 <? 0x80 then (b0, s1)
  else if (0xC2 <=? b0) && (b0 <=? 0xDF) then
    match s1 with
    | String c1 s2 =>
        if cont c1 then ((b0 - 0xC0) * 64 + (ord c1 - 0x80), s2) else (-1, s1)
    | _ => (-1, s1)
    end
  else if (0xE0 <=? b0) && (b0 <=? 0xEF) then
    match s1 with
    | String c1 (String c2 s3) =>
        let r := ((b0 - 0xE0) * 64 + (ord c1 - 0x80)) * 64 + (ord c2 - 0x80) in
        if cont c1 && cont c2 && (0x800 <=? r) && negb ((0xD800 <=? r) && (r <=? 0xDFFF))
        then (r, s3) else (-1, s1)
    | _ => (-1, s1)
    end
  else if (0xF0 <=? b0) && (b0 <=? 0xF4) then
    match s1 with
    | String c1 (String c2 (String c3 s4)) =>
        let r := (((b0 - 0xF0) * 64 + (ord c1 - 0x80)) * 64 + (ord c2 - 0x80)) * 64 + (ord c3 - 0x80) in
        if cont c1 && cont c2 && cont c3 && (0x10000 <=? r) && (r <=? 0x10FFFF)
        then (r, s4) else (-1, s1)
    | _ => (-1, s1)
    end
  else (-1, s1).

(** A Unicode scalar value. *)
Definition scalar (r : Z) : bool :=
  (0 <=? r) && (r <=? 0x10FFFF) && negb ((0xD800 <=? r) && (r <=? 0xDFFF)).

(** [utf8.EncodeRune]. *)
Definition encode_rune (r : Z) : string :=
  if r <? 0x80 then String (chr r) ""
  else if r <? 0x800 then
    String (chr (0xC0 + r / 64)) (String (chr (0x80 + r mod 64)) "")
  else if r <? 0x10000 then
    String (chr (0xE0 + r / 4096)) (String (chr (0x80 + (r / 64) mod 64))
      (String (chr (0x80 + r mod 64)) ""))
  else
    String (chr (0xF0 + r / 262144)) (String (chr (0x80 + (r / 4096) mod 64))
      (String (chr (0x80 + (r / 64) mod 64)) (String (chr (0x80 + r mod 64)) ""))).

Fixpoint encode_runes (l : list Z) : string :=
  match l with
  | [] => ""
  | r :: l => encode_rune r +:+ encode_runes l
  end.

Fixpoint runes_fuel (fuel : nat) (s : string) : list Z :=
  match fuel, s with
  | S fuel, String c s => let '(r, s') := decode_rune c s in r :: runes_fuel fuel s'
  | _, _ => []
  end.
Definition runes (s : string) : list Z := runes_fuel (String.length s) s.

(** [utf8.ValidString]. *)
Definition utf8_valid (s : string) : bool := forallb (fun r => 0 <=? r) (runes s).

(** ** Values *)
#[warnings="-register-all"]
Inductive json : Type :=
| JNull
| JBool (b : bool)
| JNum (lit : string)
| JStr (s : string)
| JArr (l : list json)
| JObj (fs : list (string * json)).

(** ** Printing: [json.Marshal] *)
Definition hex4 (r : Z) : string :=
  let d z := if z <? 10 then chr (48 + z) else chr (87 + z) in
  String (d ((r / 4096) mod 16)) (String (d ((r / 256) mod 16))
    (String (d ((r / 16) mod 16)) (String (d (r mod 16)) ""))).

Definition dquote : ascii := "034"%char.
Definition backslash : ascii := "092"%char.

(** The escaped form of one rune ([appendString] with [escapeHTML]). *)
Definition escape_rune (r : Z) : string :=
  if r =? -1 then String backslash "ufffd"
  else if (r =? 34) || (r =? 92) then String backslash (String (chr r) "")
  else if r =? 8 then String backslash "b"
  else if r =? 12 then String backslash "f"
  else if r =? 10 then String backslash "n"
  else if r =? 13 then String backslash "r"
  else if r =? 9 then String backslash "t"
  else if (r <? 32) || (r =? 60) || (r =? 62) || (r =? 38) || (r =? 0x2028) || (r =? 0x2029)
  then String backslash (String "u" (hex4 r))
  else encode_rune r.

Definition quote (s : string) : string :=
  String dquote (String.concat "" (map escape_rune (runes s)) +:+ String dquote "").

Definition field_leb {A} (a b : string * A) : bool := str_leb (fst a) (fst b).

(** Members in the order of the list: the order of a struct's fields. *)
Fixpoint encode (v : json) : string :=
  match v with
  | JNull => "null"
  | JBool true => "true"
  | JBool false => "false"
  | JNum lit => lit
  | JStr s => quote s
  | JArr l => "[" +:+ join "," (map encode l) +:+ "]"
  | JObj fs => "{" +:+ join "," (map (fun kv => quote (fst kv) +:+ ":" +:+ encode (snd kv)) fs) +:+ "}"
  end.

(** The value with the members of every object in key order. *)
Fixpoint norm (v : json) : json :=
  match v with
  | JArr l => JArr (map norm l)
  | JObj fs => JObj (isort field_leb (map (fun kv => (fst kv, norm (snd kv))) fs))
  | v => v
  end.

(** A [map[string]any] prints its members in key order. *)
Definition print (v : json) : string := encode (norm v).

(** ** Reading: [json.Decoder] tokens *)
Definition is_ws (c : ascii) : bool :=
  let b := ord c in (b =? 32) || (b =? 9) || (b =? 10) || (b =? 13).

Fixpoint skip_ws (s : string) : string :=
  match s with
  | String c s' => if is_ws c then skip_ws s' else s
  | EmptyString => s
  end.

(** Number literals, as the scanner's states. *)
Inductive numst := NStart | NNeg | NZero | NInt | NDot | NFrac | NE | NESign | NExp.

Definition is_digit (c : ascii) : bool := in_range 48 57 c.
Definition is_char (z : Z) (c : ascii) : bool := ord c =? z.

Definition num_step (st : numst) (c : ascii) : option numst :=
  let e := is_char 101 c || is_char 69 c in
  match st with
  | NStart => if is_char 45 c then Some NNeg else if is_char 48 c then Some NZero
              else if is_digit c then Some NInt else None
  | NNeg => if is_char 48 c then Some NZero else if is_digit c then Some NInt else None
  | NZero => if is_char 46 c then Some NDot else if e then Some NE else None
  | NInt => if is_digit c then Some NInt else if is_char 46 c then Some NDot
            else if e then Some NE else None
  | NDot => if is_digit c then Some NFrac else None
  | NFrac => if is_digit c then Some NFrac else if e then Some NE else None
  | NE => if is_char 43 c || is_char 45 c then Some NESign
          else if is_digit c then Some NExp else None
  | NESign | NExp => if is_digit c then Some NExp else None
  end.

Definition num_final (st : numst) : bool :=
  match st with NZero | NInt | NFrac | NExp => true | _ => false end.

Fixpoint read_num (st : numst) (s : string) : option (string * string) :=
  match s with
  | String c s' =>
      match num_step st c with
      | Some st' => '(lit, rest) ← read_num st' s'; Some (String c lit, rest)
      | None => if num_final st then Some (EmptyString, s) else None
      end
  | EmptyString => if num_final st then Some (EmptyString, s) else None
  end.

Definition hex_value (c : ascii) : option Z :=
  if in_range 48 57 c then Some (ord c - 48)
  else if in_range 97 102 c then Some (ord c - 87)
  else if in_range 65 70 c then Some (ord c - 55)
  else None.

(** The four hex digits after a backslash-u. *)
Definition read_hex4 (s : string) : option (Z * string) :=
  match s with
  | String a (String b (String c (String d s))) =>
      x ← hex_value a; y ← hex_value b; z ← hex_value c; t ← hex_value d;
      Some (((x * 16 + y) * 16 + z) * 16 + t, s)
  | _ => None
  end.

Definition is_surrogate (r : Z) : bool := (0xD800 <=? r) && (r <=? 0xDFFF).

(** One unicode escape: a valid surrogate pair is combined, a lone surrogate
    becomes U+FFFD and leaves what follows unread. *)
Definition read_unicode (s : string) : option (Z * string) :=
  '(r, s1) ← read_hex4 s;
  if negb (is_surrogate r) then Some (r, s1)
  else match s1 with
       | String c1 (String c2 s2) =>
           if is_char 92 c1 && is_char 117 c2 then
             match read_hex4 s2 with
             | Some (r2, s3) =>
                 if (r <=? 0xDBFF) && (0xDC00 <=? r2) && (r2 <=? 0xDFFF)
                 then Some ((r - 0xD800) * 1024 + (r2 - 0xDC00) + 0x10000, s3)
                 else Some (0xFFFD, s1)
             | None => Some (0xFFFD, s1)
             end
           else Some (0xFFFD, s1)
       | _ => Some (0xFFFD, s1)
       end.

Definition simple_escape (c : ascii) : option Z :=
  let b := ord c in
  if (b =? 34) || (b =? 92) || (b =? 47) then Some b
  else if b =? 98 then Some 8
  else if b =? 102 then Some 12
  else if b =? 110 then Some 10
  else if b =? 114 then Some 13
  else if b =? 116 then Some 9
  else None.

(** The rest of a string literal after its opening quote: its runes and what
    follows the closing quote. *)
Fixpoint read_str (fuel : nat) (s : string) : option (list Z * string) :=
  match fuel, s with
  | S fuel, String c s1 =>
      if is_char 34 c then Some ([], s1)
      else if ord c <? 32 then None
      else if is_char 92 c then
        match s1 with
        | String e s2 =>
            match simple_escape e with
            | Some r => '(rs, rest) ← read_str fuel s2; Some (r :: rs, rest)
            | None =>
                if is_char 117 e then
                  '(r, s3) ← read_unicode s2;
                  '(rs, rest) ← read_str fuel s3; Some (r :: rs, rest)
                else None
            end
        | EmptyString => None
        end
      else
        let '(r, s2) := decode_rune c s1 in
        '(rs, rest) ← read_str fuel s2;
        Some ((if r =? -1 then 0xFFFD else r) :: rs, rest)
  | _, _ => None
  end.

Definition read_string (s : string) : option (string * string) :=
  '(rs, rest) ← read_str (String.length s) s; Some (encode_runes rs, rest).

(** [prefix lit s]: [s] without the literal it must start with. *)
Fixpoint strip (lit s : string) : option string :=
  match lit, s with
  | EmptyString, _ => Some s
  | String a lit, String b s => if bool_decide (a = b) then strip lit s else None
  | _, _ => None
  end.

Definition has_key (k : string) (fs : list (string * json)) : bool :=
  existsb (fun f => str_eqb k (fst f)) fs.

(** [readValue]: a value at nesting depth [depth].  An object key that is
    already present is an error, and so is any value deeper than 32. *)
Fixpoint readValue (fuel : nat) (depth : Z) (s : string) {struct fuel} : option (json * string) :=
  match fuel with
  | O => None
  | S fuel =>
      if 32 <? depth then None else
      match skip_ws s with
      | EmptyString => None
      | String c s1 =>
          if is_char 123 c then
            '(fs, rest) ← read_members fuel depth true [] s1; Some (JObj fs, rest)
          else if is_char 91 c then
            '(l, rest) ← read_elems fuel depth true [] s1; Some (JArr l, rest)
          else if is_char 34 c then
            '(x, rest) ← read_string s1; Some (JStr x, rest)
          else if is_char 116 c then rest ← strip "rue" s1; Some (JBool true, rest)
          else if is_char 102 c then rest ← strip "alse" s1; Some (JBool false, rest)
          else if is_char 110 c then rest ← strip "ull" s1; Some (JNull, rest)
          else '(lit, rest) ← read_num NStart (String c s1); Some (JNum lit, rest)
      end
  end
with read_members (fuel : nat) (depth : Z) (first : bool) (acc : list (string * json)) (s : string)
  {struct fuel} : option (list (string * json) * string) :=
  match fuel with
  | O => None
  | S fuel =>
      match skip_ws s with
      | EmptyString => None
      | String c s1 =>
          if is_char 125 c then Some (acc, s1)
          else
            key_at ← (if first then Some (String c s1) else if is_char 44 c then Some s1 else None);
            match skip_ws key_at with
            | String q s2 =>
                if is_char 34 q then
                  '(k, s3) ← read_string s2;
                  if has_key k acc then None else
                  match skip_ws s3 with
                  | String colon s4 =>
                      if is_char 58 colon then
                        '(v, s5) ← readValue fuel (depth + 1) s4;
                        read_members fuel depth false (acc ++ [(k, v)]) s5
                      else None
                  | EmptyString => None
                  end
                else None
            | EmptyString => None
            end
      end
  end
with read_elems (fuel : nat) (depth : Z) (first : bool) (acc : list json) (s : string)
  {struct fuel} : option (list json * string) :=
  match fuel with
  | O => None
  | S fuel =>
      match skip_ws s with
      | EmptyString => None
      | String c s1 =>
          if is_char 93 c then Some (acc, s1)
          else
            value_at ← (if first then Some (String c s1) else if is_char 44 c then Some s1 else None);
            '(v, s2) ← readValue fuel (depth + 1) value_at;
            read_elems fuel depth false (acc ++ [v]) s2
      end
  end.

Definition read_fuel (s : string) : nat := (2 * String.length s + 2)%nat.

(** ** [json.Valid]

    The scanner of the standard library: the same grammar without looking at the
    values; any byte is accepted inside a string, a key may repeat, and a value
    may be 10000 levels deep. *)
Fixpoint skip_string (s : string) : option string :=
  match s with
  | EmptyString => None
  | String c s1 =>
      if is_char 34 c then Some s1
      else if ord c <? 32 then None
      else if is_char 92 c then
        match s1 with
        | String e s2 =>
            if is_char 117 e then
              match s2 with
              | String a (String b (String c (String d s3))) =>
                  if bool_decide (is_Some (hex_value a)) && bool_decide (is_Some (hex_value b))
                     && bool_decide (is_Some (hex_value c)) && bool_decide (is_Some (hex_value d))
                  then skip_string s3 else None
              | _ => None
              end
            else if bool_decide (is_Some (simple_escape e)) then skip_string s2 else None
        | EmptyString => None
        end
      else skip_string s1
  end.

Fixpoint skip_value (fuel : nat) (depth : Z) (s : string) {struct fuel} : option string :=
  match fuel with
  | O => None
  | S fuel =>
      match skip_ws s with
      | EmptyString => None
      | String c s1 =>
          if is_char 123 c then if 10000 <=? depth then None else skip_members fuel depth true s1
          else if is_char 91 c then if 10000 <=? depth then None else skip_elems fuel depth true s1
          else if is_char 34 c then skip_string s1
          else if is_char 116 c then strip "rue" s1
          else if is_char 102 c then strip "alse" s1
          else if is_char 110 c then strip "ull" s1
          else snd <$> read_num NStart (String c s1)
      end
  end
with skip_members (fuel : nat) (depth : Z) (first : bool) (s : string) {struct fuel} : option string :=
  match fuel with
  | O => None
  | S fuel =>
      match skip_ws s with
      | EmptyString => None
      | String c s1 =>
          if first && is_char 125 c then Some s1 else
          match skip_ws (String c s1) with
          | String q s2 =>
              if is_char 34 q then
                s3 ← skip_string s2;
                match skip_ws s3 with
                | String colon s4 =>
                    if is_char 58 colon then
                      s5 ← skip_value fuel (depth + 1) s4;
                      match skip_ws s5 with
                      | String d s6 => if is_char 125 d then Some s6
                                       else if is_char 44 d then skip_members fuel depth false s6 else None
                      | EmptyString => None
                      end
                    else None
                | EmptyString => None
                end
              else None
          | EmptyString => None
          end
      end
  end
with skip_elems (fuel : nat) (depth : Z) (first : bool) (s : string) {struct fuel} : option string :=
  match fuel with
  | O => None
  | S fuel =>
      match skip_ws s with
      | EmptyString => None
      | String c s1 =>
          if first && is_char 93 c then Some s1 else
          s2 ← skip_value fuel (depth + 1) (String c s1);
          match skip_ws s2 with
          | String d s3 => if is_char 93 d then Some s3
                           else if is_char 44 d then skip_elems fuel depth false s3 else None
          | EmptyString => None
          end
      end
  end.

(** Every value and every separator takes a byte, so the text's length bounds
    the calls. *)
Definition json_valid (s : string) : bool :=
  match skip_value (2 * String.length s + 2) 0 s with
  | Some rest => str_eqb (skip_ws rest) ""
  | None => false
  end.


(** [incident.CanonicalObject]. *)
Definition CanonicalObject (raw : string) : res string :=
  if (slen raw =? 0) || (65536 <? slen raw) then Err ErrInvalidItem else
  match readValue (read_fuel raw) 0 raw with
  | Some (JObj fs, rest) =>
      match skip_ws rest with
      | EmptyString =>
          let data := print (JObj fs) in
          if 65536 <? slen data then Err ErrInvalidItem else Ok data
      | _ => Err ErrInvalidItem
      end
  | _ => Err ErrInvalidItem
  end.

(** ** Examples from pkg/incident/evidence_test.go *)
Definition q (s : string) : string := String dquote (s +:+ String dquote "").

Example canonical_reorders :
  CanonicalObject ("{" +:+ q "count" +:+ ": 9007199254740993, " +:+ q "code" +:+ ":" +:+ q "POD_FAILED" +:+ "}")
  = Ok ("{" +:+ q "code" +:+ ":" +:+ q "POD_FAILED" +:+ "," +:+ q "count" +:+ ":9007199254740993}").
Proof. vm_compute. reflexivity. Qed.
Example canonical_rejects_duplicates :
  CanonicalObject ("{" +:+ q "a" +:+ ":1," +:+ q "a" +:+ ":2}") = Err ErrInvalidItem.
Proof. vm_compute. reflexivity. Qed.
Example canonical_rejects_array : CanonicalObject "[]" = Err ErrInvalidItem.
Proof. vm_compute. reflexivity. Qed.
Example canonical_rejects_trailing : CanonicalObject "{} {}" = Err ErrInvalidItem.
Proof. vm_compute. reflexivity. Qed.
Example canonical_rejects_comma : CanonicalObject ("{" +:+ q "a" +:+ ":1,}") = Err ErrInvalidItem.
Proof. vm_compute. reflexivity. Qed.
Example canonical_escapes_html :
  CanonicalObject ("{" +:+ q "x" +:+ ":" +:+ q "<" +:+ "}")
  = Ok ("{" +:+ q "x" +:+ ":" +:+ q (String backslash "u003c") +:+ "}").
Proof. vm_compute. reflexivity. Qed.

(** [json.Valid] accepts a repeated key and any bytes, but no trailing comma. *)
Example json_valid_samples :
  map json_valid [encode (JArr [JNum "1"; JObj [("a", JNull); ("a", JBool true)]]); "[1,]"; "01"; "1 2"; "{}"; " [ ] "; "-"]
  = [true; false; false; false; true; true; false].
Proof. vm_compute. reflexivity. Qed.
