(* ===== verification/JsonFacts.v ===== *)
(** * Canonical JSON is a fixed point

    UTF-8 and string-literal round trips, independence of the reader from its
    fuel, and the theorem that [CanonicalObject] is idempotent. *)

From S2P Require Import Prelude.
From S2P Require Import Json.

(** ** UTF-8 round trip *)
Lemma scalar_spec r :
  scalar r = true <-> 0 <= r <= 0x10FFFF /\ ~ (0xD800 <= r <= 0xDFFF).
Proof.
  unfold scalar. rewrite !andb_true_iff, negb_true_iff, andb_false_iff, !Z.leb_le, !Z.leb_gt. lia.
Qed.

Lemma cont_chr z : 0 <= z < 64 -> cont (chr (0x80 + z)) = true.
Proof. intros H. unfold cont. apply in_range_spec. rewrite ord_chr_id; lia. Qed.

Lemma decode_encode r rest :
  scalar r = true ->
  exists c s, encode_rune r = String c s /\ decode_rune c (s +:+ rest) = (r, rest)
    /\ (0x80 <= r -> 0x80 <= ord c).
Proof.
  intros Hr. apply scalar_spec in Hr. unfold encode_rune.
  assert (H64 : 0 <= r mod 64 < 64) by (apply Z.mod_pos_bound; lia).
  destruct (r <? 0x80) eqn:E1; [|destruct (r <? 0x800) eqn:E2; [|destruct (r <? 0x10000) eqn:E3]];
    breflect; eexists _, _; split; [reflexivity| | reflexivity| | reflexivity| | reflexivity|].
  - unfold decode_rune. rewrite ord_chr_id by lia. bools_true. split; [done|lia].
  - assert (2 <= r / 64 < 32) by (split; [apply Z.div_le_lower_bound|apply Z.div_lt_upper_bound]; lia).
    unfold decode_rune. rewrite !app_cons_s, app_empty_s, cont_chr by lia.
    rewrite !ord_chr_id by lia. bools_true. split; [|lia]. f_equal.
    pose proof (Z.div_mod r 64). lia.
  - assert (0 <= r / 4096 < 16) by (split; [apply Z.div_pos|apply Z.div_lt_upper_bound]; lia).
    assert (H1 : 0 <= (r / 64) mod 64 < 64) by (apply Z.mod_pos_bound; lia).
    assert (E : r / 64 / 64 = r / 4096) by (rewrite Z.div_div by lia; done).
    pose proof (Z.div_mod r 64). pose proof (Z.div_mod (r / 64) 64).
    unfold decode_rune. rewrite !app_cons_s, app_empty_s, !cont_chr by lia.
    rewrite !ord_chr_id by lia. cbn zeta.
    replace (((0xE0 + r / 4096 - 0xE0) * 64 + (0x80 + (r / 64) mod 64 - 0x80)) * 64
             + (0x80 + r mod 64 - 0x80)) with r by lia.
    bools_true.
    destruct (0xD800 <=? r) eqn:F1, (r <=? 0xDFFF) eqn:F2; breflect; cbn [andb negb]; split; try done; lia.
  - assert (0 <= r / 262144 < 5) by (split; [apply Z.div_pos|apply Z.div_lt_upper_bound]; lia).
    assert (H1 : 0 <= (r / 64) mod 64 < 64) by (apply Z.mod_pos_bound; lia).
    assert (H2 : 0 <= (r / 4096) mod 64 < 64) by (apply Z.mod_pos_bound; lia).
    assert (E : r / 64 / 64 = r / 4096) by (rewrite Z.div_div by lia; done).
    assert (E' : r / 4096 / 64 = r / 262144) by (rewrite Z.div_div by lia; done).
    pose proof (Z.div_mod r 64). pose proof (Z.div_mod (r / 64) 64). pose proof (Z.div_mod (r / 4096) 64).
    unfold decode_rune. rewrite !app_cons_s, app_empty_s, !cont_chr by lia.
    rewrite !ord_chr_id by lia. cbn zeta.
    replace ((((0xF0 + r / 262144 - 0xF0) * 64 + (0x80 + (r / 4096) mod 64 - 0x80)) * 64
             + (0x80 + (r / 64) mod 64 - 0x80)) * 64 + (0x80 + r mod 64 - 0x80)) with r by lia.
    bools_true. split; [done|lia].
Qed.

(** A string that is the encoding of scalar values. *)
Definition utf8 (s : string) : Prop :=
  exists rs, Forall (fun r => scalar r = true) rs /\ s = encode_runes rs.

Lemma encode_rune_nonempty r : exists c s, encode_rune r = String c s.
Proof. unfold encode_rune. repeat destruct (_ <? _); eauto. Qed.

Lemma length_encode_rune r : (1 <= String.length (encode_rune r))%nat.
Proof. destruct (encode_rune_nonempty r) as (c & s & ->). simpl. lia. Qed.

Lemma runes_fuel_encode rs fuel :
  Forall (fun r => scalar r = true) rs -> (String.length (encode_runes rs) <= fuel)%nat ->
  runes_fuel fuel (encode_runes rs) = rs.
Proof.
  intros H. revert fuel. induction H as [|r rs Hr H IH]; intros fuel Hf; simpl.
  - by destruct fuel.
  - destruct (decode_encode r (encode_runes rs) Hr) as (c & s & E & D & _).
    simpl in Hf. rewrite E in *. rewrite app_cons_s in *. simpl in Hf.
    destruct fuel as [|fuel]; [lia|]. simpl. rewrite D. f_equal. apply IH.
    rewrite length_app_s in Hf. lia.
Qed.

Lemma runes_encode rs :
  Forall (fun r => scalar r = true) rs -> runes (encode_runes rs) = rs.
Proof. intros. by apply runes_fuel_encode. Qed.

(** ** String literals *)
Lemma hex_value_digit z : 0 <= z < 16 ->
  hex_value (if z <? 10 then chr (48 + z) else chr (87 + z)) = Some z.
Proof.
  intros H. unfold hex_value, in_range.
  destruct (z <? 10) eqn:E; breflect; rewrite ord_chr_id by lia; bools_true; f_equal; lia.
Qed.

Lemma read_hex4_hex4 r rest : 0 <= r < 65536 -> read_hex4 (hex4 r +:+ rest) = Some (r, rest).
Proof.
  intros H. unfold hex4, read_hex4. rewrite !app_cons_s, app_empty_s.
  rewrite !hex_value_digit by (apply Z.mod_pos_bound; lia). cbn [mbind option_bind].
  do 2 f_equal.
  pose proof (Z.div_mod r 16). pose proof (Z.div_mod (r / 16) 16). pose proof (Z.div_mod (r / 256) 16).
  assert (r / 16 / 16 = r / 256) by (rewrite Z.div_div by lia; done).
  assert (r / 256 / 16 = r / 4096) by (rewrite Z.div_div by lia; done).
  assert (r / 4096 < 16) by (apply Z.div_lt_upper_bound; lia).
  assert (0 <= r / 4096) by (apply Z.div_pos; lia).
  rewrite (Z.mod_small (r / 4096)) by lia. lia.
Qed.

Lemma read_unicode_hex4 r rest :
  0 <= r < 65536 -> is_surrogate r = false -> read_unicode (hex4 r +:+ rest) = Some (r, rest).
Proof. intros H Hs. unfold read_unicode. rewrite read_hex4_hex4 by done. simpl. by rewrite Hs. Qed.

Lemma read_str_escape r rest fuel :
  scalar r = true ->
  read_str (S fuel) (escape_rune r +:+ rest)
  = '(rs, rest') ← read_str fuel rest; Some (r :: rs, rest').
Proof.
  intros Hr. pose proof (proj1 (scalar_spec r) Hr) as Hb.
  unfold escape_rune. rewrite (proj2 (Z.eqb_neq r (-1))) by lia.
  destruct ((r =? 34) || (r =? 92)) eqn:E1.
  { breflect. destruct E1 as [E|E]; breflect; subst; reflexivity. }
  destruct (r =? 8) eqn:E2; [by breflect; subst|].
  destruct (r =? 12) eqn:E3; [by breflect; subst|].
  destruct (r =? 10) eqn:E4; [by breflect; subst|].
  destruct (r =? 13) eqn:E5; [by breflect; subst|].
  destruct (r =? 9) eqn:E6; [by breflect; subst|].
  destruct ((r <? 32) || (r =? 60) || (r =? 62) || (r =? 38) || (r =? 0x2028) || (r =? 0x2029)) eqn:E7.
  - assert (0 <= r < 65536 /\ is_surrogate r = false) as [Hr' Hs].
    { unfold is_surrogate. rewrite andb_false_iff, !Z.leb_gt.
      repeat (breflect; destruct E7 as [E7|E7]); breflect; lia. }
    rewrite !app_cons_s. cbn [read_str].
    change (is_char 34 backslash) with false. change (ord backslash <? 32) with false.
    change (is_char 92 backslash) with true. change (simple_escape "u") with (@None Z).
    change (is_char 117 "u") with true. cbn iota.
    by rewrite read_unicode_hex4.
  - breflect. destruct (decode_encode r rest Hr) as (c & s & E & D & Hc).
    rewrite E, app_cons_s. cbn [read_str].
    assert (32 <= ord c /\ ord c <> 34 /\ ord c <> 92) as (? & ? & ?).
    { destruct (Z_lt_le_dec r 0x80) as [Hl|Hl]; [|specialize (Hc Hl); lia].
      unfold encode_rune in E. rewrite (proj2 (Z.ltb_lt r 0x80)) in E by lia.
      injection E as <- _. rewrite ord_chr_id by lia. lia. }
    unfold is_char. rewrite (proj2 (Z.eqb_neq (ord c) 34)), (proj2 (Z.ltb_ge (ord c) 32)),
      (proj2 (Z.eqb_neq (ord c) 92)) by lia.
    rewrite D. by rewrite (proj2 (Z.eqb_neq r (-1))) by lia.
Qed.

Lemma concat_cons (x : string) l : String.concat "" (x :: l) = x +:+ String.concat "" l.
Proof. destruct l; simpl; [by rewrite app_nil_s|done]. Qed.

Lemma read_str_quote rs rest fuel :
  Forall (fun r => scalar r = true) rs -> (length rs < fuel)%nat ->
  read_str fuel (String.concat "" (map escape_rune rs) +:+ String dquote rest) = Some (rs, rest).
Proof.
  intros H. revert fuel. induction H as [|r rs Hr H IH]; intros fuel Hf; destruct fuel as [|fuel];
    cbn [length] in Hf; try lia.
  - reflexivity.
  - cbn [map]. rewrite concat_cons, app_assoc_s, read_str_escape by done.
    rewrite IH by lia. reflexivity.
Qed.

Lemma length_escape_rune r : (1 <= String.length (escape_rune r))%nat.
Proof.
  unfold escape_rune.
  repeat match goal with |- context [if ?b then _ else _] => destruct b end;
    first [ apply length_encode_rune | simpl; lia ].
Qed.

Lemma length_concat_escape rs :
  (length rs <= String.length (String.concat "" (map escape_rune rs)))%nat.
Proof.
  induction rs as [|r rs IH]; [done|]. cbn [map]. rewrite concat_cons, length_app_s.
  pose proof (length_escape_rune r). simpl. lia.
Qed.

(** Reading what [quote] wrote gives the string back. *)
Lemma read_string_quote s rest :
  utf8 s -> exists tail, quote s +:+ rest = String dquote tail /\ read_string tail = Some (s, rest).
Proof.
  intros (rs & Hrs & ->). unfold quote. rewrite app_cons_s.
  eexists; split; [reflexivity|]. rewrite app_assoc_s, app_cons_s, app_empty_s.
  unfold read_string. rewrite runes_encode by done.
  rewrite read_str_quote; [reflexivity|done|].
  rewrite length_app_s. simpl. pose proof (length_concat_escape rs). lia.
Qed.

(** Every string the reader returns is valid UTF-8. *)
Lemma decode_rune_scalar c s r s' :
  decode_rune c s = (r, s') -> r = -1 \/ scalar r = true.
Proof.
  unfold decode_rune. pose proof (ord_bound c).
  assert (Hc : forall x, cont x = true -> 0x80 <= ord x <= 0xBF) by (intros x; apply in_range_spec).
  destruct (ord c <? 0x80) eqn:E0; [intros [= <- <-]; right; apply scalar_spec; breflect; lia|].
  destruct (_ && _) eqn:E1.
  { destruct s as [|c1 s2]; [intros [= <- <-]; auto|].
    destruct (cont c1) eqn:F1; intros [= <- <-]; [|auto].
    specialize (Hc _ F1). right; apply scalar_spec; breflect; lia. }
  destruct ((0xE0 <=? ord c) && _) eqn:E2.
  { destruct s as [|c1 [|c2 s3]]; try (intros [= <- <-]; by left).
    cbn zeta. case_if as F; intros [= <- <-]; [|auto].
    right; apply scalar_spec. breflect.
    repeat match goal with H : cont _ = true |- _ => apply Hc in H end.
    match goal with H : _ \/ _ |- _ => destruct H end; breflect; lia. }
  destruct ((0xF0 <=? ord c) && _) eqn:E3; [|intros [= <- <-]; by left].
  destruct s as [|c1 [|c2 [|c3 s4]]]; try (intros [= <- <-]; by left).
  cbn zeta. case_if as F; intros [= <- <-]; [|auto].
  right; apply scalar_spec. breflect. lia.
Qed.

Lemma read_hex4_bound s r s' : read_hex4 s = Some (r, s') -> 0 <= r < 65536.
Proof.
  assert (Hd : forall c z, hex_value c = Some z -> 0 <= z < 16).
  { intros c z. unfold hex_value.
    destruct (in_range 48 57 c) eqn:A; [apply in_range_spec in A; intros [= <-]; lia|].
    destruct (in_range 97 102 c) eqn:B; [apply in_range_spec in B; intros [= <-]; lia|].
    destruct (in_range 65 70 c) eqn:C; [apply in_range_spec in C; intros [= <-]; lia|done]. }
  destruct s as [|a [|b [|c [|d s]]]]; try done. simpl.
  destruct (hex_value a) eqn:A; [|done]; destruct (hex_value b) eqn:B; [|done];
  destruct (hex_value c) eqn:C; [|done]; destruct (hex_value d) eqn:D; [|done]. simpl.
  intros [= <- <-]. apply Hd in A, B, C, D. lia.
Qed.

Lemma read_unicode_scalar s r s' : read_unicode s = Some (r, s') -> scalar r = true.
Proof.
  unfold read_unicode. destruct (read_hex4 s) as [[r1 s1]|] eqn:E; [|done]. simpl.
  apply read_hex4_bound in E. unfold is_surrogate.
  assert (F : scalar 0xFFFD = true) by done.
  destruct ((0xD800 <=? r1) && (r1 <=? 0xDFFF)) eqn:Es; simpl.
  - destruct s1 as [|c1 [|c2 s2]]; try (by intros [= <- <-]).
    case_if as E1; [|by intros [= <- <-]].
    destruct (read_hex4 s2) as [[r2 s3]|]; [|by intros [= <- <-]].
    case_if as Ep; [|by intros [= <- <-]].
    intros [= <- <-]. breflect. apply scalar_spec. lia.
  - intros [= <- <-]. breflect. apply scalar_spec. destruct Es; breflect; lia.
Qed.

Lemma read_str_scalar fuel s rs rest :
  read_str fuel s = Some (rs, rest) -> Forall (fun r => scalar r = true) rs.
Proof.
  revert s rs rest. induction fuel as [|fuel IH]; intros s rs rest; [done|].
  destruct s as [|c s1]; [done|]. cbn [read_str].
  destruct (is_char 34 c); [by intros [= <- <-]|].
  destruct (ord c <? 32); [done|].
  destruct (is_char 92 c).
  - destruct s1 as [|e s2]; [done|]. destruct (simple_escape e) as [r|] eqn:E.
    + destruct (read_str fuel s2) as [[rs' rest']|] eqn:R; [|done]. intros [= <- <-].
      constructor; [|by eapply IH].
      unfold simple_escape in E. apply scalar_spec. pose proof (ord_bound e).
      repeat case_if_in E; injection E as <-; lia.
    + destruct (is_char 117 e); [|done].
      destruct (read_unicode s2) as [[r s3]|] eqn:U; [|done]. cbn [mbind option_bind].
      destruct (read_str fuel s3) as [[rs' rest']|] eqn:R; [|done]. intros [= <- <-].
      constructor; [by eapply read_unicode_scalar|by eapply IH].
  - destruct (decode_rune c s1) as [r s2] eqn:D.
    destruct (read_str fuel s2) as [[rs' rest']|] eqn:R; [|done]. intros [= <- <-].
    constructor; [|by eapply IH].
    apply decode_rune_scalar in D as [->|D]; [done|].
    destruct (r =? -1) eqn:Er; [done|done].
Qed.

Lemma read_string_utf8 s x rest : read_string s = Some (x, rest) -> utf8 x.
Proof.
  unfold read_string. destruct (read_str _ s) as [[rs r]|] eqn:E; [|done].
  intros [= <- <-]. exists rs. split; [by eapply read_str_scalar|done].
Qed.

(** ** The reader consumes its input *)
Lemma skip_ws_length s : (String.length (skip_ws s) <= String.length s)%nat.
Proof. induction s as [|c s IH]; simpl; [done|]. destruct (is_ws c); simpl; lia. Qed.

Lemma decode_rune_length c s r s' :
  decode_rune c s = (r, s') -> (String.length s' <= String.length s)%nat.
Proof.
  unfold decode_rune. cbn zeta. destruct s as [|c1 [|c2 [|c3 s]]];
    repeat match goal with |- context [if ?b then _ else _] => destruct b end;
    intros [= <- <-]; simpl; lia.
Qed.

Lemma read_hex4_length s r s' : read_hex4 s = Some (r, s') -> (String.length s' <= String.length s)%nat.
Proof.
  destruct s as [|a [|b [|c [|d s]]]]; try done. simpl.
  destruct (hex_value a); [|done]; destruct (hex_value b); [|done];
  destruct (hex_value c); [|done]; destruct (hex_value d); [|done]. simpl.
  intros [= <- <-]. lia.
Qed.

Lemma read_unicode_length s r s' :
  read_unicode s = Some (r, s') -> (String.length s' <= String.length s)%nat.
Proof.
  unfold read_unicode. destruct (read_hex4 s) as [[r1 s1]|] eqn:E; [|done]. simpl.
  apply read_hex4_length in E.
  case_if as E1; [by intros [= <- <-]|].
  destruct s1 as [|c1 [|c2 s2]]; try (by intros [= <- <-]).
  case_if as E2; [|by intros [= <- <-]].
  destruct (read_hex4 s2) as [[r2 s3]|] eqn:E3; [|by intros [= <- <-]].
  apply read_hex4_length in E3. simpl in E.
  case_if as E4; intros [= <- <-]; simpl; lia.
Qed.

Lemma read_str_length fuel s rs rest :
  read_str fuel s = Some (rs, rest) -> (String.length rest < String.length s)%nat.
Proof.
  revert s rs rest. induction fuel as [|fuel IH]; intros s rs rest; [done|].
  destruct s as [|c s1]; [done|]. cbn [read_str String.length].
  case_if as E; [intros [= <- <-]; lia|].
  case_if as E0; [done|]. case_if as E1.
  - destruct s1 as [|e s2]; [done|]. destruct (simple_escape e) as [r|].
    + destruct (read_str fuel s2) as [[rs' rest']|] eqn:R; [|done]. intros [= <- <-].
      apply IH in R. simpl. lia.
    + case_if as E2; [|done].
      destruct (read_unicode s2) as [[r s3]|] eqn:U; [|done]. cbn [mbind option_bind].
      destruct (read_str fuel s3) as [[rs' rest']|] eqn:R; [|done]. intros [= <- <-].
      apply IH in R. apply read_unicode_length in U. simpl. lia.
  - destruct (decode_rune c s1) as [r s2] eqn:D.
    destruct (read_str fuel s2) as [[rs' rest']|] eqn:R; [|done]. intros [= <- <-].
    apply IH in R. apply decode_rune_length in D. lia.
Qed.

Lemma read_string_length s x rest :
  read_string s = Some (x, rest) -> (String.length rest < String.length s)%nat.
Proof.
  unfold read_string. destruct (read_str _ s) as [[rs r]|] eqn:E; [|done].
  intros [= <- <-]. by eapply read_str_length.
Qed.

Lemma read_num_length st s lit rest :
  read_num st s = Some (lit, rest) ->
  (String.length rest <= String.length s)%nat /\
  (num_final st = false -> (String.length rest < String.length s)%nat).
Proof.
  revert st lit rest. induction s as [|c s IH]; intros st lit rest; simpl.
  - destruct (num_final st); intros [= <- <-]. done.
  - destruct (num_step st c) as [st'|].
    + destruct (read_num st' s) as [[l r]|] eqn:E; [|done]. intros [= <- <-].
      apply IH in E as [E _]. lia.
    + destruct (num_final st); [|done]. intros [= <- <-]. simpl. split; [lia|done].
Qed.

Lemma strip_length lit s rest : strip lit s = Some rest -> (String.length rest <= String.length s)%nat.
Proof.
  revert s. induction lit as [|a lit IH]; intros s; simpl; [by intros [= <-]|].
  destruct s as [|b s]; [done|]. case_bool_decide; [|done]. intros E%IH. simpl. lia.
Qed.

Lemma read_length fuel :
  (forall d s v rest, readValue fuel d s = Some (v, rest) ->
     (String.length rest < String.length s)%nat) /\
  (forall d first acc s fs rest, read_members fuel d first acc s = Some (fs, rest) ->
     (String.length rest < String.length s)%nat) /\
  (forall d first acc s l rest, read_elems fuel d first acc s = Some (l, rest) ->
     (String.length rest < String.length s)%nat).
Proof.
  induction fuel as [|fuel (IHv & IHm & IHe)]; [done|]. split; [|split].
  - intros d s v rest. cbn [readValue]. case_if as E; [done|].
    pose proof (skip_ws_length s) as Hs. destruct (skip_ws s) as [|c s1]; [done|].
    simpl in Hs.
    case_if as E1. { destruct (read_members _ _ _ _ _) as [[? ?]|] eqn:R; [|done].
      intros [= <- <-]. apply IHm in R. lia. }
    case_if as E2. { destruct (read_elems _ _ _ _ _) as [[? ?]|] eqn:R; [|done].
      intros [= <- <-]. apply IHe in R. lia. }
    case_if as E3. { destruct (read_string _) as [[? ?]|] eqn:R; [|done].
      intros [= <- <-]. apply read_string_length in R. lia. }
    case_if as E4. { destruct (strip _ _) eqn:R; [|done]. intros [= <- <-]. apply strip_length in R. lia. }
    case_if as E5. { destruct (strip _ _) eqn:R; [|done]. intros [= <- <-]. apply strip_length in R. lia. }
    case_if as E6. { destruct (strip _ _) eqn:R; [|done]. intros [= <- <-]. apply strip_length in R. lia. }
    destruct (read_num _ _) as [[? ?]|] eqn:R; [|done]. intros [= <- <-].
    apply read_num_length in R as [_ R]. specialize (R eq_refl). simpl in R. lia.
  - intros d first acc s fs rest. cbn [read_members].
    pose proof (skip_ws_length s) as Hs. destruct (skip_ws s) as [|c s1]; [done|]. simpl in Hs.
    case_if as E1; [intros [= <- <-]; lia|].
    destruct (if first then _ else _) as [key_at|] eqn:Ek; [|done]. cbn [mbind option_bind].
    assert (String.length key_at <= String.length s)%nat.
    { destruct first; [|case_if_in Ek]; injection Ek as <-; simpl; lia. }
    pose proof (skip_ws_length key_at). destruct (skip_ws key_at) as [|qc s2]; [done|].
    simpl in *. case_if as E2; [|done].
    destruct (read_string s2) as [[k s3]|] eqn:Rk; [|done]. cbn [mbind option_bind].
    apply read_string_length in Rk. case_if as E3; [done|].
    pose proof (skip_ws_length s3). destruct (skip_ws s3) as [|colon s4]; [done|]. simpl in *.
    case_if as E4; [|done].
    destruct (readValue fuel (d + 1) s4) as [[v s5]|] eqn:Rv; [|done]. cbn [mbind option_bind].
    apply IHv in Rv. intros R%IHm. lia.
  - intros d first acc s l rest. cbn [read_elems].
    pose proof (skip_ws_length s) as Hs. destruct (skip_ws s) as [|c s1]; [done|]. simpl in Hs.
    case_if as E1; [intros [= <- <-]; lia|].
    destruct (if first then _ else _) as [value_at|] eqn:Ek; [|done]. cbn [mbind option_bind].
    assert (String.length value_at <= String.length s)%nat.
    { destruct first; [|case_if_in Ek]; injection Ek as <-; simpl; lia. }
    destruct (readValue fuel (d + 1) value_at) as [[v s5]|] eqn:Rv; [|done]. cbn [mbind option_bind].
    apply IHv in Rv. intros R%IHe. lia.
Qed.

Lemma readValue_length fuel d s v rest :
  readValue fuel d s = Some (v, rest) -> (String.length rest < String.length s)%nat.
Proof. apply (proj1 (read_length fuel)). Qed.

(** ** The fuel is enough: with at least [read_fuel s] of it the reader's answer
    does not depend on how much there is. *)
Lemma read_fuel_irrelevant f1 f2 :
  (forall d s, (2 * String.length s + 2 <= f1)%nat -> (2 * String.length s + 2 <= f2)%nat ->
     readValue f1 d s = readValue f2 d s) /\
  (forall d first acc s, (2 * String.length s + 1 <= f1)%nat -> (2 * String.length s + 1 <= f2)%nat ->
     read_members f1 d first acc s = read_members f2 d first acc s) /\
  (forall d first acc s, (2 * String.length s + 3 <= f1)%nat -> (2 * String.length s + 3 <= f2)%nat ->
     read_elems f1 d first acc s = read_elems f2 d first acc s).
Proof.
  revert f2. induction f1 as [|f1 IH]; intros f2; [repeat split; intros; lia|].
  destruct f2 as [|f2]; [repeat split; intros; lia|].
  destruct (IH f2) as (IHv & IHm & IHe). split; [|split].
  - intros d s H1 H2. cbn [readValue]. case_if as E; [done|].
    pose proof (skip_ws_length s). destruct (skip_ws s) as [|c s1]; [done|]. simpl in *.
    rewrite IHm by lia. rewrite IHe by lia. done.
  - intros d first acc s H1 H2. cbn [read_members].
    pose proof (skip_ws_length s). destruct (skip_ws s) as [|c s1]; [done|]. simpl in *.
    case_if as E1; [done|].
    destruct (if first then _ else _) as [key_at|] eqn:Ek; [|done]. cbn [mbind option_bind].
    assert (String.length key_at <= String.length s)%nat.
    { destruct first; [|case_if_in Ek]; injection Ek as <-; simpl; lia. }
    pose proof (skip_ws_length key_at). destruct (skip_ws key_at) as [|qc s2]; [done|]. simpl in *.
    case_if as E2; [|done].
    destruct (read_string s2) as [[k s3]|] eqn:Rk; [|done]. cbn [mbind option_bind].
    apply read_string_length in Rk. case_if as E3; [done|].
    pose proof (skip_ws_length s3). destruct (skip_ws s3) as [|colon s4]; [done|]. simpl in *.
    case_if as E4; [|done]. rewrite (IHv (d + 1) s4) by lia.
    destruct (readValue f2 (d + 1) s4) as [[v s5]|] eqn:Rv; [|done]. cbn [mbind option_bind].
    apply readValue_length in Rv. apply IHm; lia.
  - intros d first acc s H1 H2. cbn [read_elems].
    pose proof (skip_ws_length s). destruct (skip_ws s) as [|c s1]; [done|]. simpl in *.
    case_if as E1; [done|].
    destruct (if first then _ else _) as [value_at|] eqn:Ek; [|done]. cbn [mbind option_bind].
    assert (String.length value_at <= String.length s)%nat.
    { destruct first; [|case_if_in Ek]; injection Ek as <-; simpl; lia. }
    rewrite (IHv (d + 1) value_at) by lia.
    destruct (readValue f2 (d + 1) value_at) as [[v s5]|] eqn:Rv; [|done]. cbn [mbind option_bind].
    apply readValue_length in Rv. apply IHe; lia.
Qed.

(** ** Values the reader can produce, at a nesting depth *)
#[warnings="-register-all"]
Inductive good (d : Z) : json -> Prop :=
| good_null : d <= 32 -> good d JNull
| good_bool b : d <= 32 -> good d (JBool b)
| good_num lit : d <= 32 -> read_num NStart lit = Some (lit, EmptyString) -> good d (JNum lit)
| good_string s : d <= 32 -> utf8 s -> good d (JStr s)
| good_arr l : d <= 32 -> (forall v, In v l -> good (d + 1) v) -> good d (JArr l)
| good_obj fs : d <= 32 -> NoDup (map fst fs) ->
    (forall k v, In (k, v) fs -> utf8 k /\ good (d + 1) v) -> good d (JObj fs).

Lemma read_num_lit st s lit rest :
  read_num st s = Some (lit, rest) -> read_num st lit = Some (lit, EmptyString).
Proof.
  revert st lit rest. induction s as [|c s IH]; intros st lit rest; simpl.
  - destruct (num_final st) eqn:F; [|done]. intros [= <- <-]. simpl. by rewrite F.
  - destruct (num_step st c) as [st'|] eqn:S.
    + destruct (read_num st' s) as [[l r]|] eqn:E; [|done]. intros [= <- <-].
      simpl. rewrite S. erewrite IH by done. done.
    + destruct (num_final st) eqn:F; [|done]. intros [= <- <-]. simpl. by rewrite F.
Qed.

Lemma has_key_false k fs : has_key k fs = false -> k ∉ map fst fs.
Proof.
  unfold has_key. intros H Hin. apply list_elem_of_In, in_map_iff in Hin as ([k' v] & <- & Hin).
  assert (existsb (fun f => str_eqb k' (fst f)) fs = true); [|simpl in *; congruence].
  apply existsb_exists. exists (k', v). split; [done|]. apply str_eqb_refl.
Qed.

Definition good_fields (d : Z) (fs : list (string * json)) : Prop :=
  NoDup (map fst fs) /\ forall k v, In (k, v) fs -> utf8 k /\ good d v.

Lemma good_fields_snoc d fs k v :
  good_fields d fs -> has_key k fs = false -> utf8 k -> good d v -> good_fields d (fs ++ [(k, v)]).
Proof.
  intros [Hn Hg] Hk Hu Hv. split.
  - rewrite map_app. apply NoDup_app. split; [done|]. split; [|simpl; apply NoDup_singleton].
    intros x Hx Hx'. simpl in Hx'. apply list_elem_of_singleton in Hx' as ->.
    by apply has_key_false in Hk.
  - intros k' v' [H|[[= <- <-]|[]]]%in_app_iff; auto.
Qed.

Lemma read_good fuel :
  (forall d s v rest, readValue fuel d s = Some (v, rest) -> good d v) /\
  (forall d first acc s fs rest, read_members fuel d first acc s = Some (fs, rest) ->
     good_fields (d + 1) acc -> good_fields (d + 1) fs) /\
  (forall d first acc s l rest, read_elems fuel d first acc s = Some (l, rest) ->
     (forall v, In v acc -> good (d + 1) v) -> (forall v, In v l -> good (d + 1) v)).
Proof.
  induction fuel as [|fuel (IHv & IHm & IHe)]; [done|]. split; [|split].
  - intros d s v rest. cbn [readValue]. case_if as E; [done|]. breflect.
    destruct (skip_ws s) as [|c s1]; [done|].
    case_if as E1. { destruct (read_members _ _ _ _ _) as [[? ?]|] eqn:R; [|done].
      intros [= <- <-]. apply IHm in R as [? ?]; [by constructor|]. split; [constructor|done]. }
    case_if as E2. { destruct (read_elems _ _ _ _ _) as [[? ?]|] eqn:R; [|done].
      intros [= <- <-]. constructor; [done|]. by eapply IHe. }
    case_if as E3. { destruct (read_string _) as [[? ?]|] eqn:R; [|done].
      intros [= <- <-]. constructor; [done|]. by eapply read_string_utf8. }
    case_if as E4. { destruct (strip _ _); [|done]. intros [= <- <-]. by constructor. }
    case_if as E5. { destruct (strip _ _); [|done]. intros [= <- <-]. by constructor. }
    case_if as E6. { destruct (strip _ _); [|done]. intros [= <- <-]. by constructor. }
    destruct (read_num _ _) as [[? ?]|] eqn:R; [|done]. intros [= <- <-].
    constructor; [done|]. by eapply read_num_lit.
  - intros d first acc s fs rest. cbn [read_members].
    destruct (skip_ws s) as [|c s1]; [done|].
    case_if as E1; [by intros [= <- <-]|].
    destruct (if first then _ else _) as [key_at|]; [|done]. cbn [mbind option_bind].
    destruct (skip_ws key_at) as [|qc s2]; [done|]. case_if as E2; [|done].
    destruct (read_string s2) as [[k s3]|] eqn:Rk; [|done]. cbn [mbind option_bind].
    apply read_string_utf8 in Rk. case_if as E3; [done|].
    destruct (skip_ws s3) as [|colon s4]; [done|]. case_if as E4; [|done].
    destruct (readValue fuel (d + 1) s4) as [[v s5]|] eqn:Rv; [|done]. cbn [mbind option_bind].
    apply IHv in Rv. intros R Hacc. eapply IHm; [done|]. by apply good_fields_snoc.
  - intros d first acc s l rest. cbn [read_elems].
    destruct (skip_ws s) as [|c s1]; [done|].
    case_if as E1; [by intros [= <- <-]|].
    destruct (if first then _ else _) as [value_at|]; [|done]. cbn [mbind option_bind].
    destruct (readValue fuel (d + 1) value_at) as [[v s5]|] eqn:Rv; [|done]. cbn [mbind option_bind].
    apply IHv in Rv. intros R Hacc. eapply IHe; [done|].
    intros v' [H|[<-|[]]]%in_app_iff; auto.
Qed.

(** ** The reader inverts the printer *)
Section JsonInd.
Context (P : json -> Prop).
Hypothesis Hnull : P JNull.
Hypothesis Hbool : forall b, P (JBool b).
Hypothesis Hnum : forall lit, P (JNum lit).
Hypothesis Hstr : forall s, P (JStr s).
Hypothesis Harr : forall l, (forall v, In v l -> P v) -> P (JArr l).
Hypothesis Hobj : forall fs, (forall k v, In (k, v) fs -> P v) -> P (JObj fs).

Fixpoint json_nested_ind (v : json) : P v.
Proof.
  destruct v as [|b|lit|s|l|fs]; [apply Hnull|apply Hbool|apply Hnum|apply Hstr|apply Harr|apply Hobj].
  - induction l as [|x l IH]; intros v Hin; [destruct Hin|].
    destruct Hin as [<-|Hin]; [apply json_nested_ind|by apply IH].
  - induction fs as [|[k' x] fs IH]; intros k v Hin; [destruct Hin|].
    destruct Hin as [[= <- <-]|Hin]; [apply json_nested_ind|by eapply IH].
Qed.
End JsonInd.

Lemma isort_fields_map {A B} (f : A -> B) (l : list (string * A)) :
  isort field_leb (map (fun kv => (fst kv, f (snd kv))) l)
  = map (fun kv => (fst kv, f (snd kv))) (isort field_leb l).
Proof.
  assert (Hi : forall x m, insert_sorted field_leb (fst x, f (snd x)) (map (fun kv => (fst kv, f (snd kv))) m)
    = map (fun kv => (fst kv, f (snd kv))) (insert_sorted field_leb x m)).
  { intros x m. induction m as [|y m IH]; [done|]. simpl.
    change (field_leb (fst x, f (snd x)) (fst y, f (snd y))) with (field_leb x y).
    destruct (field_leb x y); [done|]. simpl. by rewrite IH. }
  induction l as [|x l IH]; [done|]. simpl. rewrite IH. apply Hi.
Qed.

Lemma str_leb_total a b : str_leb a b = true \/ str_leb b a = true.
Proof. unfold str_leb. destruct (String.leb_total a b) as [->| ->]; auto. Qed.
Lemma str_leb_trans a b c : str_leb a b = true -> str_leb b c = true -> str_leb a c = true.
Proof.
  unfold str_leb. intros H1 H2. apply Is_true_true. etrans; [apply Is_true_true, H1|apply Is_true_true, H2].
Qed.
Lemma str_leb_antisym a b : str_leb a b = true -> str_leb b a = true -> a = b.
Proof. unfold str_leb. apply String.leb_antisym. Qed.

Lemma isort_fields_idem {A} (l : list (string * A)) :
  NoDup (map fst l) -> isort field_leb (isort field_leb l) = isort field_leb l.
Proof.
  intros Hn. apply sorted_perm_eq with (R := fun a b => field_leb a b = true).
  - intros [k1 v1] [k2 v2] H1 H2 L1 L2. rewrite !isort_elem in H1, H2.
    pose proof (str_leb_antisym _ _ L1 L2). simpl in *. subst k2.
    apply list_elem_of_In in H1, H2. f_equal.
    revert H1 H2 Hn. clear. induction l as [|[k v] l IH]; [done|]. simpl.
    rewrite NoDup_cons. intros [[= -> ->]|H1] [[= ->]|H2] [Hk Hn]; [done| | |by apply IH];
      exfalso; subst; apply Hk; apply list_elem_of_In, in_map_iff; eexists; by split; [|done].
  - apply isort_sorted; unfold field_leb; intros; [apply str_leb_total|by eapply str_leb_trans].
  - apply isort_sorted; unfold field_leb; intros; [apply str_leb_total|by eapply str_leb_trans].
  - apply isort_perm.
Qed.

(** What may follow a value: the end, or a character no number continues with. *)
Definition stop (rest : string) : Prop :=
  match rest with
  | EmptyString => True
  | String c _ => forall st, num_step st c = None
  end.

Lemma read_num_app st lit rest :
  stop rest -> read_num st lit = Some (lit, EmptyString) ->
  read_num st (lit +:+ rest) = Some (lit, rest).
Proof.
  intros Hs. revert st. induction lit as [|c lit IH]; intros st H.
  - rewrite app_empty_s. simpl in H. destruct (num_final st) eqn:F; [|done].
    destruct rest as [|c rest]; simpl; [by rewrite F|]. simpl in Hs. by rewrite Hs, F.
  - rewrite app_cons_s. simpl in *. destruct (num_step st c) as [st'|]; [|by destruct (num_final st)].
    destruct (read_num st' lit) as [[l r]|] eqn:E; [|done]. injection H as -> ->.
    by rewrite IH.
Qed.

Lemma num_first c s :
  read_num NStart (String c s) = Some (String c s, EmptyString) -> 45 <= ord c <= 57.
Proof.
  cbn [read_num]. destruct (num_step NStart c) eqn:E; [|done]. intros _.
  unfold num_step, is_char, is_digit in E. destruct (ord c =? 45) eqn:E1; breflect; [lia|].
  destruct (ord c =? 48) eqn:E2; breflect; [lia|].
  destruct (in_range 48 57 c) eqn:E3; [|done]. apply in_range_spec in E3. lia.
Qed.

Definition tail_text (first : bool) (l : list string) : string :=
  if first then join "," l else String.concat "" (map (fun x => "," +:+ x) l).

Lemma join_cons x l : join "," (x :: l) = x +:+ tail_text false l.
Proof.
  revert x. induction l as [|y l IH]; intros x; [by rewrite app_nil_s|].
  change (join "," (x :: y :: l)) with (x +:+ "," +:+ join "," (y :: l)).
  unfold tail_text. cbn [map]. rewrite concat_cons, IH, app_assoc_s. done.
Qed.

Lemma tail_text_cons first x l rest :
  tail_text first (x :: l) +:+ rest
  = (if first then "" else ",") +:+ x +:+ (tail_text false l +:+ rest).
Proof.
  destruct first.
  - change (tail_text true (x :: l)) with (join "," (x :: l)). by rewrite join_cons, app_assoc_s.
  - unfold tail_text. cbn [map]. by rewrite concat_cons, !app_assoc_s.
Qed.

Definition reads (d : Z) (v : json) : Prop :=
  forall rest, stop rest ->
  exists f0, forall f, (f0 <= f)%nat -> readValue f d (encode v +:+ rest) = Some (v, rest).

Lemma stop_delim c rest : In c ["," ; "]"; "}"]%char -> stop (String c rest).
Proof. intros [<-|[<-|[<-|[]]]] []; reflexivity. Qed.

Lemma print_stop l rest c :
  In c ["]"; "}"]%char -> stop (tail_text false l +:+ String c rest).
Proof.
  intros Hc. destruct l as [|x l]; [apply stop_delim; by right|].
  rewrite tail_text_cons. apply stop_delim. by left.
Qed.

Lemma print_head v d rest :
  good d v -> exists c s, encode v +:+ rest = String c s /\ is_ws c = false /\ is_char 93 c = false.
Proof.
  intros [ | | lit _ H | | | ]; simpl.
  - by eexists _, _.
  - destruct b; by eexists _, _.
  - destruct lit as [|c lit]; [done|]. apply num_first in H.
    eexists _, _. split; [apply app_cons_s|]. unfold is_ws, is_char. bools_true. done.
  - by eexists _, _.
  - by eexists _, _.
  - by eexists _, _.
Qed.

Lemma read_elems_print d l first acc rest :
  (forall v, In v l -> good (d + 1) v) -> (forall v, In v l -> reads (d + 1) v) ->
  exists f0, forall f, (f0 <= f)%nat ->
    read_elems f d first acc (tail_text first (map encode l) +:+ String "]" rest)
    = Some (acc ++ l, rest).
Proof.
  revert first acc. induction l as [|v l IH]; intros first acc Hg Hr.
  - exists 1%nat. intros [|f] Hf; [lia|]. rewrite app_nil_r. by destruct first.
  - destruct (IH false (acc ++ [v])) as [f1 H1]; [auto with datatypes..|].
    set (tl := tail_text false (map encode l) +:+ String "]" rest) in *.
    destruct (Hr v (or_introl eq_refl) tl) as [f2 H2].
    { apply print_stop. by left. }
    exists (S (Nat.max f1 f2)). intros [|f] Hf; [lia|].
    cbn [map]. rewrite tail_text_cons. fold tl.
    destruct (print_head v (d + 1) tl) as (c & s & E & Ew & E93); [apply Hg; by left|].
    assert (Hstep : (value_at ← (if first then Some (encode v +:+ tl) else Some (encode v +:+ tl));
       '(x, s2) ← readValue f (d + 1) value_at; read_elems f d false (acc ++ [x]) s2)
       = Some (acc ++ (v :: l), rest)).
    { destruct first; cbn [mbind option_bind]; (rewrite H2 by lia); cbn [mbind option_bind];
        (rewrite H1 by lia); by rewrite <- app_assoc. }
    cbn [read_elems]. destruct first.
    + rewrite app_empty_s, E. cbn [skip_ws]. rewrite Ew, E93, <- E. exact Hstep.
    + exact Hstep.
Qed.

Lemma read_members_print d fs first acc rest :
  good_fields (d + 1) (acc ++ fs) -> (forall k v, In (k, v) fs -> reads (d + 1) v) ->
  exists f0, forall f, (f0 <= f)%nat ->
    read_members f d first acc
      (tail_text first (map (fun kv => quote (fst kv) +:+ ":" +:+ encode (snd kv)) fs) +:+ String "}" rest)
    = Some (acc ++ fs, rest).
Proof.
  revert first acc. induction fs as [|[k v] fs IH]; intros first acc Hg Hr.
  - exists 1%nat. intros [|f] Hf; [lia|]. rewrite app_nil_r. by destruct first.
  - destruct (IH false (acc ++ [(k, v)])) as [f1 H1].
    { by rewrite <- app_assoc. }
    { intros. eapply Hr. by right. }
    set (tl := tail_text false (map (fun kv => quote (fst kv) +:+ ":" +:+ encode (snd kv)) fs)
               +:+ String "}" rest) in *.
    destruct (Hr k v (or_introl eq_refl) tl) as [f2 H2].
    { apply print_stop. right; by left. }
    exists (S (Nat.max f1 f2)). intros [|f] Hf; [lia|].
    destruct Hg as [Hnd Hg].
    destruct (read_string_quote k (":" +:+ encode v +:+ tl)) as (tail & Eq & Rk).
    { apply (Hg k v). apply in_app_iff. right; by left. }
    assert (Hk : has_key k acc = false).
    { destruct (has_key _ _) eqn:E; [|done]. exfalso.
      apply existsb_exists in E as ([k' v'] & Hin & Ek). apply str_eqb_eq in Ek. simpl in Ek. subst k'.
      rewrite map_app in Hnd. apply NoDup_app in Hnd as (_ & Hnd & _).
      apply (Hnd k); [apply list_elem_of_In, in_map_iff; by exists (k, v')|by left]. }
    cbn [map fst snd]. rewrite tail_text_cons, !app_assoc_s. fold tl.
    assert (Hstep : ('(k', s3) ← read_string tail;
       if has_key k' acc then None else
        match skip_ws s3 with
        | String colon s4 => if is_char 58 colon then
            '(v, s5) ← readValue f (d + 1) s4;
            read_members f d false (acc ++ [(k', v)]) s5
          else None
        | EmptyString => None
        end) = Some (acc ++ (k, v) :: fs, rest)).
    { rewrite Rk. cbn [mbind option_bind]. rewrite Hk.
      change (skip_ws (":" +:+ encode v +:+ tl)) with (String ":" (encode v +:+ tl)).
      change (is_char 58 ":") with true. cbn iota.
      rewrite H2 by lia. cbn [mbind option_bind].
      rewrite (H1 f) by lia.
      by rewrite <- app_assoc. }
    cbn [read_members]. destruct first.
    + rewrite app_empty_s, Eq. cbn [skip_ws]. change (is_ws dquote) with false. cbn iota.
      change (is_char 125 dquote) with false. cbn [mbind option_bind skip_ws]. exact Hstep.
    + change (skip_ws ("," +:+ quote k +:+ ":" +:+ encode v +:+ tl))
        with ("," +:+ quote k +:+ ":" +:+ encode v +:+ tl).
      rewrite Eq. exact Hstep.
Qed.

Lemma good_le d v : good d v -> (32 <? d) = false.
Proof. destruct 1; by apply Z.ltb_ge. Qed.

Lemma encode_arr l rest :
  encode (JArr l) +:+ rest = String "[" (tail_text true (map encode l) +:+ String "]" rest).
Proof. cbn [encode]. by rewrite !app_assoc_s. Qed.

Lemma encode_obj fs rest :
  encode (JObj fs) +:+ rest
  = String "{" (tail_text true (map (fun kv => quote (fst kv) +:+ ":" +:+ encode (snd kv)) fs)
      +:+ String "}" rest).
Proof. cbn [encode]. by rewrite !app_assoc_s. Qed.

(** A well-formed value is read back from its text, whatever the order of its
    members. *)
Lemma read_encode v : forall d, good d v -> reads d v.
Proof.
  induction v as [|b|lit|s|l IH|fs IH] using json_nested_ind; intros d Hg rest Hrest;
    pose proof (good_le _ _ Hg) as Hd; inversion Hg as [| |? ? Hnum|? ? Hu|? ? Hl|? ? Hnd Hf']; subst.
  - exists 1%nat. intros [|f] Hf; [lia|]. cbn [readValue]. by rewrite Hd.
  - exists 1%nat. intros [|f] Hf; [lia|]. cbn [readValue]. rewrite Hd. by destruct b.
  - exists 1%nat. intros [|f] Hf; [lia|]. cbn [readValue encode]. rewrite Hd.
    destruct lit as [|c lit]; [done|]. pose proof (num_first _ _ Hnum).
    pose proof (read_num_app NStart (String c lit) rest Hrest Hnum) as Hn.
    rewrite app_cons_s in *. cbn [skip_ws]. unfold is_ws, is_char. bools_true. bools_true. by rewrite Hn.
  - exists 1%nat. intros [|f] Hf; [lia|]. cbn [readValue encode]. rewrite Hd.
    destruct (read_string_quote s rest) as (tail & -> & Hr); [done|].
    change (skip_ws (String dquote tail)) with (String dquote tail).
    change (is_char 123 dquote) with false. change (is_char 91 dquote) with false.
    change (is_char 34 dquote) with true. cbn iota. by rewrite Hr.
  - destruct (read_elems_print d l true [] rest) as [f0 HR]; [by auto|by auto|].
    exists (S f0). intros [|f] Hf; [lia|]. rewrite encode_arr. cbn [readValue]. rewrite Hd.
    cbn [skip_ws]. change (is_ws "[") with false. change (is_char 123 "[") with false.
    change (is_char 91 "[") with true. cbn iota. by rewrite HR by lia.
  - destruct (read_members_print d fs true [] rest) as [f0 HR]; [done| |].
    { intros k v Hin. eapply IH; [done|]. by eapply Hf'. }
    exists (S f0). intros [|f] Hf; [lia|]. rewrite encode_obj. cbn [readValue]. rewrite Hd.
    cbn [skip_ws]. change (is_ws "{") with false. change (is_char 123 "{") with true. cbn iota.
    by rewrite HR by lia.
Qed.

Lemma read_encode_all v : good 0 v -> readValue (read_fuel (encode v)) 0 (encode v) = Some (v, "").
Proof.
  intros Hg. destruct (read_encode _ _ Hg "" I) as [f0 H0]. rewrite app_nil_s in H0.
  rewrite <- (H0 (Nat.max f0 (read_fuel (encode v))) ltac:(lia)).
  apply read_fuel_irrelevant; unfold read_fuel; lia.
Qed.

(** The text of a well-formed value determines it. *)
Lemma encode_inj v1 v2 : good 0 v1 -> good 0 v2 -> encode v1 = encode v2 -> v1 = v2.
Proof.
  intros G1 G2 E. pose proof (read_encode_all _ G1) as R1. pose proof (read_encode_all _ G2) as R2.
  rewrite E in R1. congruence.
Qed.

(** ** Normal forms *)
Lemma norm_obj fs :
  norm (JObj fs) = JObj (map (fun kv => (fst kv, norm (snd kv))) (isort field_leb fs)).
Proof. cbn [norm]. by rewrite isort_fields_map. Qed.

Lemma map_fst_norm (fs : list (string * json)) :
  map fst (map (fun kv => (fst kv, norm (snd kv))) fs) = map fst fs.
Proof. by rewrite map_map. Qed.

Lemma good_norm v : forall d, good d v -> good d (norm v).
Proof.
  induction v as [|b|lit|s|l IH|fs IH] using json_nested_ind; intros d Hg; try done;
    inversion Hg as [| |? ? Hnum|? ? Hu|? ? Hl|? ? Hnd Hf']; subst.
  - constructor; [done|]. intros v Hin. apply in_map_iff in Hin as (w & <- & Hw). by apply IH; auto.
  - rewrite norm_obj. constructor; [done| |].
    + rewrite map_fst_norm. by rewrite isort_perm.
    + intros k v Hin. apply in_map_iff in Hin as ([k' w] & [= <- <-] & Hw).
      rewrite isort_perm in Hw. destruct (Hf' _ _ Hw). split; [done|]. by eapply IH.
Qed.

Lemma norm_idem v : forall d, good d v -> norm (norm v) = norm v.
Proof.
  induction v as [|b|lit|s|l IH|fs IH] using json_nested_ind; intros d Hg; try done;
    inversion Hg as [| |? ? Hnum|? ? Hu|? ? Hl|? ? Hnd Hf']; subst.
  - cbn [norm]. rewrite map_map. f_equal. apply map_ext_in. eauto.
  - rewrite norm_obj, norm_obj. f_equal. rewrite isort_fields_map, isort_fields_idem by done.
    rewrite map_map. apply map_ext_in. intros [k v] Hin. cbn [fst snd]. rewrite isort_perm in Hin.
    f_equal. eapply IH; [done|]. by eapply Hf'.
Qed.

(** ** Canonical objects *)

(** The canonical text is its own canonical form. *)
Lemma CanonicalObject_idempotent raw c :
  CanonicalObject raw = Ok c -> CanonicalObject c = Ok c.
Proof.
  unfold CanonicalObject at 1. intros H. case_if_in H.
  destruct (readValue _ _ raw) as [[v rest]|] eqn:R; [|done].
  destruct v as [| | | | |fs]; try done.
  destruct (skip_ws rest) eqn:Ews; [|done]. cbn zeta in H. case_if_in H.
  assert (c = print (JObj fs)) as -> by congruence.
  apply (proj1 (read_good _)) in R.
  unfold CanonicalObject. rewrite E0. unfold print in *.
  assert ((slen (encode (norm (JObj fs))) =? 0) = false) as ->.
  { apply Z.eqb_neq. unfold slen. rewrite <- (app_nil_s (encode _)), norm_obj, encode_obj. simpl. lia. }
  cbn [orb]. rewrite (read_encode_all _ (good_norm _ _ R)), norm_obj. cbn [skip_ws]. cbn zeta.
  rewrite <- norm_obj, (norm_idem _ _ R), E0. done.
Qed.

(** The canonical text reads as a value whose members are in key order. *)
Lemma CanonicalObject_value raw c :
  CanonicalObject raw = Ok c ->
  exists fs, readValue (read_fuel raw) 0 raw <> None /\ good 0 (JObj fs) /\ norm (JObj fs) = JObj fs /\
    encode (JObj fs) = c /\ readValue (read_fuel c) 0 c = Some (JObj fs, "") /\
    exists v rest, readValue (read_fuel raw) 0 raw = Some (v, rest) /\ skip_ws rest = "" /\ norm v = JObj fs.
Proof.
  unfold CanonicalObject. intros H. case_if_in H.
  destruct (readValue _ _ raw) as [[v rest]|] eqn:R; [|done].
  destruct v as [| | | | |fs]; try done.
  destruct (skip_ws rest) eqn:Ews; [|done]. cbn zeta in H. case_if_in H.
  assert (c = print (JObj fs)) as -> by congruence.
  apply (proj1 (read_good _)) in R as Hg. unfold print.
  exists (map (fun kv => (fst kv, norm (snd kv))) (isort field_leb fs)). rewrite <- norm_obj.
  split; [done|]. split; [by apply good_norm|]. split; [by eapply norm_idem|]. split; [done|].
  split; [by apply read_encode_all, good_norm|]. by exists (JObj fs), rest.
Qed.
