(* ===== verification/Text.v ===== *)
(** * strings.TrimSpace

    The white space of the Unicode standard, as UTF-8.  A suffix that is such an
    encoding is the last rune of the text, since no encoding is a proper suffix of
    another one. *)

From S2P Require Import Prelude.
From S2P Require Import Json.

(** [unicode.IsSpace]. *)
Definition spaces : list string :=
  map encode_rune ([0x09; 0x0A; 0x0B; 0x0C; 0x0D; 0x20; 0x85; 0xA0; 0x1680]
    ++ map (fun n => 0x2000 + Z.of_nat n) (seq 0 11) ++ [0x2028; 0x2029; 0x202F; 0x205F; 0x3000]).

Fixpoint strip_prefixes (l : list string) (s : string) : option string :=
  match l with
  | [] => None
  | p :: l => match strip p s with Some rest => Some rest | None => strip_prefixes l s end
  end.

Fixpoint trim_left (l : list string) (fuel : nat) (s : string) : string :=
  match fuel with
  | O => s
  | S fuel => match strip_prefixes l s with Some rest => trim_left l fuel rest | None => s end
  end.

Fixpoint srev (acc s : string) : string :=
  match s with EmptyString => acc | String c s => srev (String c acc) s end.
Definition reversed (s : string) : string := srev "" s.

Definition TrimSpace (s : string) : string :=
  let left := trim_left spaces (String.length s) s in
  reversed (trim_left (map reversed spaces) (String.length left) (reversed left)).

Example TrimSpace_samples :
  map TrimSpace ["  a b "; String (chr 10) "x"; encode_rune 0x3000 +:+ "y" +:+ encode_rune 0x85; "   "; ""]
  = ["a b"; "x"; "y"; ""; ""].
Proof. vm_compute. reflexivity. Qed.

(** ** Trimming twice is trimming once *)
Lemma srev_app s : forall acc, srev acc s = srev "" s +:+ acc.
Proof.
  induction s as [|c s IH]; intros acc; [done|]. cbn. rewrite (IH (String c acc)), (IH (String c "")).
  by rewrite app_assoc_s.
Qed.
Lemma reversed_app a b : reversed (a +:+ b) = reversed b +:+ reversed a.
Proof.
  unfold reversed. induction a as [|c a IH]; [cbn; by rewrite app_nil_s|]. rewrite app_cons_s. cbn [srev].
  rewrite (srev_app (a +:+ b)), IH, (srev_app a (String c "")). by rewrite app_assoc_s.
Qed.
Lemma reversed_twice s : reversed (reversed s) = s.
Proof.
  induction s as [|c s IH]; [done|]. change (reversed (String c s)) with (srev (String c "") s).
  rewrite srev_app. fold (reversed s). by rewrite reversed_app, IH.
Qed.

Lemma length_reversed s : String.length (reversed s) = String.length s.
Proof.
  induction s as [|c s IH]; [done|]. change (reversed (String c s)) with (srev (String c "") s).
  rewrite srev_app, length_app_s. fold (reversed s). rewrite IH. cbn. lia.
Qed.

Lemma strip_spec p : forall s rest, strip p s = Some rest <-> s = p +:+ rest.
Proof.
  induction p as [|c p IH]; intros s rest; cbn; [split; [by intros [= ->]|by intros ->]|].
  destruct s as [|d s]; [done|]. case_if as E.
  - apply bool_decide_eq_true in E as <-. rewrite IH. split; [by intros ->|by intros [= ->]].
  - apply bool_decide_eq_false in E. split; [done|]. intros [= <- _]. done.
Qed.

Lemma strip_prefixes_app l : forall s x, strip_prefixes l (s +:+ x) = None -> strip_prefixes l s = None.
Proof.
  induction l as [|p l IH]; intros s x; cbn; [done|].
  destruct (strip p s) as [rest|] eqn:E; [|destruct (strip p (s +:+ x)); [done|apply IH]].
  apply strip_spec in E as ->. rewrite app_assoc_s, (proj2 (strip_spec p _ (rest +:+ x)) eq_refl). done.
Qed.
Lemma strip_prefixes_shorter l : Forall (fun p => p <> "") l ->
  forall s rest, strip_prefixes l s = Some rest -> exists p, s = p +:+ rest /\ (String.length rest < String.length s)%nat.
Proof.
  induction 1 as [|p l Hp _ IH]; intros s rest; cbn; [done|]. destruct (strip p s) as [r|] eqn:E; [|apply IH].
  intros [= <-]. apply strip_spec in E as ->. exists p. split; [done|]. rewrite length_app_s.
  destruct p; [done|]. cbn. lia.
Qed.
Lemma trim_left_spec l : Forall (fun p => p <> "") l -> forall fuel s, (String.length s <= fuel)%nat ->
  strip_prefixes l (trim_left l fuel s) = None /\ exists p, s = p +:+ trim_left l fuel s.
Proof.
  intros Hl. induction fuel as [|fuel IH]; intros s Hs; cbn [trim_left].
  - destruct (strip_prefixes l s) as [r|] eqn:E; [apply strip_prefixes_shorter in E as (_ & _ & ?); [lia|done]|].
    split; [done|]. by exists "".
  - destruct (strip_prefixes l s) as [r|] eqn:E; [|split; [done|by exists ""]].
    apply strip_prefixes_shorter in E as (p & -> & Hlt); [|done]. destruct (IH r ltac:(lia)) as [Hn [p' E']].
    split; [done|]. exists (p +:+ p'). by rewrite app_assoc_s, <- E'.
Qed.
Lemma trim_left_done l fuel s : strip_prefixes l s = None -> trim_left l fuel s = s.
Proof. intros E. destruct fuel; cbn [trim_left]; [done|]. by rewrite E. Qed.

Lemma TrimSpace_idempotent s : TrimSpace (TrimSpace s) = TrimSpace s.
Proof.
  assert (H1 : Forall (fun p => p <> "") spaces) by (repeat constructor; discriminate).
  assert (H2 : Forall (fun p => p <> "") (map reversed spaces)) by (repeat constructor; discriminate).
  unfold TrimSpace at 2 3. cbv zeta. set (left := trim_left spaces (String.length s) s).
  destruct (trim_left_spec _ H1 _ s (Nat.le_refl _)) as [Hleft _]. fold left in Hleft.
  assert (Hlen : (String.length (reversed left) <= String.length left)%nat) by (by rewrite length_reversed).
  destruct (trim_left_spec _ H2 _ (reversed left) Hlen) as [Hright [p Hp]].
  set (right := trim_left (map reversed spaces) (String.length left) (reversed left)) in *.
  assert (Hl : strip_prefixes spaces (reversed right) = None).
  { apply (strip_prefixes_app _ _ (reversed p)). rewrite <- reversed_app, <- Hp, reversed_twice. done. }
  unfold TrimSpace. rewrite (trim_left_done _ _ _ Hl), reversed_twice, (trim_left_done _ _ _ Hright). done.
Qed.
