(* ===== verification/GoTime.v ===== *)
(** * time.Time

    An instant is its number of nanoseconds since the Unix epoch, an unbounded
    integer as in Go, where a wall clock covers far more than [int64]
    nanoseconds.  Durations are [int64].  The program converts every instant it
    stores or hashes with [.UTC()], so a location is not kept.  [format] and
    [parse] are the RFC 3339 text of [Time.MarshalJSON] and
    [Time.UnmarshalJSON]; [parse_format] is their round trip. *)

From S2P Require Import Prelude.
From S2P Require Import Json.

Abbreviation Time := Z (only parsing).
Abbreviation Duration := Z (only parsing).

Definition Nanosecond : Duration := 1.
Definition Microsecond : Duration := 1000.
Definition Second : Duration := 1000000000.
Definition Minute : Duration := 60 * Second.
Definition Hour : Duration := 60 * Minute.

(** January 1, year 1, 00:00:00 UTC. *)
Definition zeroTime : Time := -62135596800 * Second.
Definition IsZero (t : Time) : bool := t =? zeroTime.
Definition After (a b : Time) : bool := b <? a.
Definition Before (a b : Time) : bool := a <? b.
Definition Add (t : Time) (d : Duration) : Time := t + d.

(** [t.Sub(u)] saturates at the ends of [Duration]. *)
Definition Sub (t u : Time) : Duration := Z.max (- 2 ^ 63) (Z.min (2 ^ 63 - 1) (t - u)).

(** A [timestamptz] column keeps microseconds; pgx truncates towards the past
    (its binary codec divides the Unix time in nanoseconds by a thousand after
    splitting off the seconds). *)
Definition pgTime (t : Time) : Time := t - t mod 1000.

(** ** Civil dates (proleptic Gregorian) *)
Definition civil_from_days (days : Z) : Z * Z * Z :=
  let z := days + 719468 in
  let era := z / 146097 in
  let doe := z mod 146097 in
  let yoe := (doe - doe / 1460 + doe / 36524 - doe / 146096) / 365 in
  let doy := doe - (365 * yoe + yoe / 4 - yoe / 100) in
  let mp := (5 * doy + 2) / 153 in
  let d := doy - (153 * mp + 2) / 5 + 1 in
  let m := if mp <? 10 then mp + 3 else mp - 9 in
  (yoe + era * 400 + (if m <=? 2 then 1 else 0), m, d).

Definition days_from_civil (y0 m d : Z) : Z :=
  let y := if m <=? 2 then y0 - 1 else y0 in
  let era := y / 400 in
  let yoe := y mod 400 in
  let doy := (153 * (if 2 <? m then m - 3 else m + 9) + 2) / 5 + d - 1 in
  era * 146097 + (yoe * 365 + yoe / 4 - yoe / 100 + doy) - 719468.

Definition leap (y : Z) : bool :=
  (y mod 4 =? 0) && (negb (y mod 100 =? 0) || (y mod 400 =? 0)).
Definition days_in (y m : Z) : Z :=
  if m =? 2 then (if leap y then 29 else 28)
  else if (m =? 4) || (m =? 6) || (m =? 9) || (m =? 11) then 30 else 31.

(** ** Text *)
Definition digit (z : Z) : ascii := chr (48 + z).

(** [n] decimal digits of [z], most significant first. *)
Fixpoint digits (n : nat) (z : Z) : string :=
  match n with
  | O => ""
  | S n => String (digit ((z / 10 ^ Z.of_nat n) mod 10)) (digits n z)
  end.

(** Go's [.999999999]: nine digits with the trailing zeros removed, nothing at
    all when the fraction is zero. *)
Fixpoint trim_zeros (s : string) : string :=
  match s with
  | EmptyString => ""
  | String c s =>
      let s' := trim_zeros s in
      if is_char 48 c && str_eqb s' "" then "" else String c s'
  end.

Definition format (t : Time) : string :=
  let secs := t / Second in
  let nanos := t mod Second in
  let '(y, m, d) := civil_from_days (secs / 86400) in
  let sod := secs mod 86400 in
  let frac := trim_zeros (digits 9 nanos) in
  digits 4 y +:+ "-" +:+ digits 2 m +:+ "-" +:+ digits 2 d +:+ "T" +:+
  digits 2 (sod / 3600) +:+ ":" +:+ digits 2 (sod / 60 mod 60) +:+ ":" +:+ digits 2 (sod mod 60) +:+
  (if str_eqb frac "" then "" else "." +:+ frac) +:+ "Z".

Definition year (t : Time) : Z := fst (fst (civil_from_days (t / Second / 86400))).

(** [Time.MarshalJSON]: an error outside the years 0 to 9999. *)
Definition marshal_time (t : Time) : option string :=
  if (0 <=? year t) && (year t <=? 9999)
  then Some (String dquote (format t +:+ String dquote "")) else None.

Definition digit_value (c : ascii) : option Z :=
  if is_digit c then Some (ord c - 48) else None.

(** Exactly [n] digits, and what follows. *)
Fixpoint read_digits (n : nat) (acc : Z) (s : string) : option (Z * string) :=
  match n, s with
  | O, _ => Some (acc, s)
  | S n, String c s => v ← digit_value c; read_digits n (acc * 10 + v) s
  | S _, EmptyString => None
  end.

(** The digits of a fraction: their value scaled to nanoseconds (digits past
    the ninth are dropped) and what follows.  [scale] is the weight of the next
    digit. *)
Fixpoint read_frac (scale : Z) (acc : Z) (s : string) : Z * string :=
  match s with
  | String c s' =>
      match digit_value c with
      | Some v => read_frac (scale / 10) (acc + v * scale) s'
      | None => (acc, s)
      end
  | EmptyString => (acc, s)
  end.

Definition bounded (lo hi : Z) (r : option (Z * string)) : option (Z * string) :=
  '(v, s) ← r; if (lo <=? v) && (v <=? hi) then Some (v, s) else None.

(** The optional fraction after the seconds. *)
Definition read_fraction (s : string) : Z * string :=
  match s with
  | String p (String c _ as s') =>
      if is_char 46 p && is_digit c then read_frac 100000000 0 s' else (0, s)
  | _ => (0, s)
  end.

(** The zone that ends the text, as seconds east of UTC. *)
Definition read_zone (s : string) : option Z :=
  if str_eqb s "Z" then Some 0 else
  match s with
  | String sign s =>
      sg ← (if is_char 43 sign then Some 1 else if is_char 45 sign then Some (-1) else None);
      '(zh, s) ← bounded 0 23 (read_digits 2 0 s);
      s ← strip ":" s; '(zm, s) ← bounded 0 59 (read_digits 2 0 s);
      if str_eqb s "" then Some (sg * (zh * 3600 + zm * 60)) else None
  | EmptyString => None
  end.

(** [parseRFC3339]: the strict layout, with a numeric zone offset or Z. *)
Definition parse (s : string) : option Time :=
  '(y, s) ← read_digits 4 0 s;
  s ← strip "-" s; '(m, s) ← bounded 1 12 (read_digits 2 0 s);
  s ← strip "-" s; '(d, s) ← bounded 1 (days_in y m) (read_digits 2 0 s);
  s ← strip "T" s; '(hh, s) ← bounded 0 23 (read_digits 2 0 s);
  s ← strip ":" s; '(mi, s) ← bounded 0 59 (read_digits 2 0 s);
  s ← strip ":" s; '(ss, s) ← bounded 0 59 (read_digits 2 0 s);
  let '(ns, s) := read_fraction s in
  off ← read_zone s;
  Some ((days_from_civil y m d * 86400 + hh * 3600 + mi * 60 + ss - off) * Second + ns).

Example format_zero : format zeroTime = "0001-01-01T00:00:00Z".
Proof. vm_compute. reflexivity. Qed.
Example format_some : format (1753437296 * Second + 120000000) = "2025-07-25T09:54:56.12Z".
Proof. vm_compute. reflexivity. Qed.
Example parse_offset : parse "2025-07-25T11:54:56.12+02:00" = Some (1753437296 * Second + 120000000).
Proof. vm_compute. reflexivity. Qed.
Example parse_bad_day : parse "2025-02-29T00:00:00Z" = None.
Proof. vm_compute. reflexivity. Qed.

(** ** Calendar facts

    A day of a 400-year era is split into a year and a day of that year; the
    366 days of a year that starts in March are checked one by one. *)
Lemma year_of_era doe : 0 <= doe < 146097 ->
  let yoe := (doe - doe / 1460 + doe / 36524 - doe / 146096) / 365 in
  let doy := doe - (365 * yoe + yoe / 4 - yoe / 100) in
  0 <= yoe < 400 /\ 0 <= doy <= 365 /\
  (doy = 365 -> (yoe + 1) mod 4 = 0 /\ ((yoe + 1) mod 100 = 0 -> yoe = 399)).
Proof. intros H. cbv zeta. Z.to_euclidean_division_equations. lia. Qed.

(** Month and day of a day counted from the first of March. *)
Definition month_of (doy : Z) : Z :=
  let mp := (5 * doy + 2) / 153 in if mp <? 10 then mp + 3 else mp - 9.
Definition mday_of (doy : Z) : Z := doy - (153 * ((5 * doy + 2) / 153) + 2) / 5 + 1.

Definition doy_ok (doy : Z) : bool :=
  let m := month_of doy in
  let d := mday_of doy in
  ((153 * (if 2 <? m then m - 3 else m + 9) + 2) / 5 + d - 1 =? doy) &&
  (1 <=? m) && (m <=? 12) && (1 <=? d) &&
  (d <=? (if m =? 2 then (if doy =? 365 then 29 else 28) else days_in 0 m)).

Lemma doy_checked : forallb doy_ok (seqZ 0 366) = true.
Proof. vm_compute. reflexivity. Qed.

Lemma leap_shift y e : leap (y + e * 400) = leap y.
Proof.
  unfold leap.
  replace ((y + e * 400) mod 4) with (y mod 4)
    by (replace (e * 400) with (e * 100 * 4) by lia; by rewrite Z_mod_plus_full).
  replace ((y + e * 400) mod 100) with (y mod 100)
    by (replace (e * 400) with (e * 4 * 100) by lia; by rewrite Z_mod_plus_full).
  by rewrite Z_mod_plus_full.
Qed.

Lemma civil_roundtrip days :
  let '(y, m, d) := civil_from_days days in
  days_from_civil y m d = days /\ 1 <= m <= 12 /\ 1 <= d <= days_in y m.
Proof.
  unfold civil_from_days.
  set (doe := (days + 719468) mod 146097). set (e := (days + 719468) / 146097).
  assert (Hb : 0 <= doe < 146097) by (apply Z.mod_pos_bound; lia).
  assert (Hd : days = doe - 719468 + e * 146097)
    by (unfold doe, e; pose proof (Z_div_mod_eq_full (days + 719468) 146097); lia).
  pose proof (year_of_era doe Hb) as Hy. cbv zeta in Hy.
  set (yoe := (doe - doe / 1460 + doe / 36524 - doe / 146096) / 365) in *.
  set (doy := doe - (365 * yoe + yoe / 4 - yoe / 100)) in *.
  destruct Hy as (Hy & Hdoy & Hleap).
  pose proof doy_checked as Hc. rewrite forallb_forall in Hc.
  specialize (Hc doy). rewrite <- list_elem_of_In, elem_of_seqZ in Hc.
  specialize (Hc ltac:(lia)). unfold doy_ok in Hc. cbv zeta in Hc.
  fold (month_of doy). fold (mday_of doy).
  set (m := month_of doy) in *. set (d := mday_of doy) in *. breflect.
  split; [|split; [lia|split; [lia|]]].
  - unfold days_from_civil. case_if as E; breflect.
    + replace (yoe + e * 400 + 1 - 1) with (yoe + e * 400) by lia.
      rewrite Z_mod_plus_full, Z_div_plus_full, Z.mod_small, Z.div_small by lia. lia.
    + rewrite Z.add_0_r, Z_mod_plus_full, Z_div_plus_full, Z.mod_small, Z.div_small by lia. lia.
  - unfold days_in in *. destruct (m =? 2) eqn:Em; [|done]. breflect.
    rewrite Em. change (2 <=? 2) with true. cbv iota.
    replace (yoe + e * 400 + 1) with (yoe + 1 + e * 400) by lia. rewrite leap_shift.
    destruct (Z.eqb_spec doy 365) as [E|E]; [|destruct (leap _); lia].
    destruct (Hleap E) as [H4 H100]. unfold leap. rewrite H4. change (0 =? 0) with true.
    destruct (Z.eqb_spec ((yoe + 1) mod 100) 0) as [E'|E']; [|simpl; lia].
    rewrite (H100 E'). simpl. lia.
Qed.

(** ** Text facts *)
Lemma digit_value_digit z : 0 <= z < 10 -> digit_value (digit z) = Some z.
Proof.
  intros H. assert (In z [0;1;2;3;4;5;6;7;8;9]) as Hin.
  { assert (z = 0 \/ z = 1 \/ z = 2 \/ z = 3 \/ z = 4 \/ z = 5 \/ z = 6 \/ z = 7 \/ z = 8 \/ z = 9) by lia.
    simpl; intuition. }
  simpl in Hin. intuition subst; reflexivity.
Qed.

Lemma read_digits_step n acc z s :
  read_digits n acc (digits n z +:+ s) = Some (acc * 10 ^ Z.of_nat n + z mod 10 ^ Z.of_nat n, s).
Proof.
  revert acc. induction n as [|n IH]; intros acc.
  - simpl. rewrite Z.mod_1_r. do 2 f_equal. lia.
  - cbn [digits]. rewrite app_cons_s. cbn [read_digits].
    rewrite digit_value_digit by (apply Z.mod_pos_bound; lia). simpl.
    rewrite IH. do 2 f_equal.
    rewrite Nat2Z.inj_succ, Z.pow_succ_r by lia.
    rewrite (Z.mul_comm 10), Z.rem_mul_r by lia. lia.
Qed.

Lemma read_digits_digits n z s :
  0 <= z < 10 ^ Z.of_nat n -> read_digits n 0 (digits n z +:+ s) = Some (z, s).
Proof. intros H. rewrite read_digits_step, Z.mod_small by done. done. Qed.

Definition no_digit (s : string) : Prop :=
  match s with String c _ => is_digit c = false | EmptyString => True end.

Lemma read_frac_stop scale acc s : no_digit s -> read_frac scale acc s = (acc, s).
Proof. destruct s as [|c s]; simpl; [done|]. unfold digit_value. by intros ->. Qed.

Lemma is_digit_digit z : 0 <= z < 10 -> is_digit (digit z) = true.
Proof.
  intros H. pose proof (digit_value_digit z H) as E. unfold digit_value in E.
  destruct (is_digit (digit z)); [done|discriminate].
Qed.

Lemma digit_zero z : 0 <= z < 10 -> is_char 48 (digit z) = (z =? 0).
Proof.
  intros H. pose proof (digit_value_digit z H) as E. unfold digit_value in E.
  destruct (is_digit (digit z)); [|discriminate]. injection E as E.
  unfold is_char. destruct (Z.eqb_spec z 0), (Z.eqb_spec (ord (digit z)) 48); lia.
Qed.

(** Dropping trailing zeros keeps the value of a fraction, and drops all of it
    exactly when the fraction is zero. *)
Lemma trim_zeros_spec n z acc s :
  0 <= z < 10 ^ Z.of_nat n -> no_digit s ->
  read_frac (10 ^ Z.of_nat n / 10) acc (trim_zeros (digits n z) +:+ s) = (acc + z, s) /\
  (trim_zeros (digits n z) = "" <-> z = 0).
Proof.
  revert z acc. induction n as [|n IH]; intros z acc Hz Hs.
  - simpl in *. rewrite read_frac_stop by done. split; [f_equal; lia|]. split; [lia|done].
  - rewrite Nat2Z.inj_succ, Z.pow_succ_r in Hz by lia.
    rewrite Nat2Z.inj_succ, Z.pow_succ_r, Z.mul_comm, Z.div_mul by lia.
    set (p := 10 ^ Z.of_nat n) in *. assert (0 < p) by (unfold p; lia).
    assert (Hq : 0 <= z / p < 10).
    { split; [apply Z.div_pos; lia|]. apply Z.div_lt_upper_bound; lia. }
    assert (Hdig : digits n z = digits n (z mod p)).
    { clear -H. unfold p. clear p H. assert (G : forall k, (k <= n)%nat ->
        digits k z = digits k (z mod 10 ^ Z.of_nat n)); [|by apply G].
      intros k. induction k as [|k IHk]; intros Hk; [done|]. simpl. f_equal; [|apply IHk; lia].
      f_equal. replace (Z.of_nat n) with (Z.of_nat k + 1 + (Z.of_nat n - Z.of_nat k - 1)) by lia.
      rewrite Z.pow_add_r, Z.pow_add_r by lia. rewrite Z.pow_1_r.
      set (a := 10 ^ Z.of_nat k). set (b := 10 ^ _).
      assert (0 < a) by (unfold a; lia). assert (0 < b) by (unfold b; lia).
      rewrite <- (Z.mul_assoc a 10 b). rewrite Z.rem_mul_r by lia.
      rewrite (Z.mul_comm a ((z / a) mod (10 * b))), Z.div_add by lia.
      rewrite (Z.div_small (z mod a) a) by (apply Z.mod_pos_bound; lia). rewrite Z.add_0_l.
      rewrite Z.rem_mul_r by lia. rewrite Z.mul_comm, Z_mod_plus_full. by rewrite Z.mod_mod by lia. }
    cbn [digits trim_zeros]. fold p. rewrite (Z.mod_small (z / p)) by lia.
    rewrite digit_zero by lia. rewrite Hdig.
    assert (Hm : 0 <= z mod p < p) by (apply Z.mod_pos_bound; lia).
    pose proof (Z_div_mod_eq_full z p) as Hdm.
    destruct (IH (z mod p) acc Hm Hs) as [_ Hiff].
    destruct ((z / p =? 0) && str_eqb (trim_zeros (digits n (z mod p))) "") eqn:E.
    + apply andb_true_iff in E as [E1 E2]. breflect. apply Hiff in E2.
      rewrite app_empty_s, read_frac_stop by done. rewrite E1, E2 in Hdm.
      split; [f_equal; lia|]. split; [lia|done].
    + rewrite app_cons_s. cbn [read_frac]. rewrite digit_value_digit by lia.
      destruct (IH (z mod p) (acc + z / p * p) Hm Hs) as [-> _].
      split; [f_equal; lia|]. split; [done|]. intros ->.
      rewrite Z.div_0_l, Z.mod_0_l in E by lia. rewrite Z.mod_0_l in Hiff by lia.
      by rewrite (proj2 Hiff eq_refl) in E.
Qed.

Lemma bounded_digits lo hi z s :
  lo <= z <= hi -> 0 <= z < 100 ->
  bounded lo hi (read_digits 2 0 (digits 2 z +:+ s)) = Some (z, s).
Proof.
  intros Hb Hz. rewrite read_digits_digits by (simpl; lia). simpl. by bools_true.
Qed.

Lemma strip_one c s : strip (String c "") (String c s) = Some s.
Proof. simpl. by rewrite bool_decide_eq_true_2. Qed.

Lemma read_fraction_format ns : 0 <= ns < Second ->
  let frac := trim_zeros (digits 9 ns) in
  read_fraction ((if str_eqb frac "" then "" else "." +:+ frac) +:+ "Z") = (ns, "Z").
Proof.
  intros Hn frac. destruct (trim_zeros_spec 9 ns 0 "Z") as [Hr Hz]; [done|done|].
  fold frac in Hr, Hz. destruct (str_eqb frac "") eqn:E; breflect.
  - rewrite app_empty_s. apply Hz in E as ->. done.
  - change (10 ^ Z.of_nat 9 / 10) with 100000000 in Hr. rewrite Z.add_0_l in Hr.
    rewrite !app_cons_s, app_empty_s. unfold read_fraction.
    assert (Hd : forall n z, match trim_zeros (digits n z) with
      String c _ => is_digit c = true | EmptyString => True end).
    { intros n z. destruct n as [|n]; [done|]. cbn [digits trim_zeros].
      case_if as E'; [done|]. apply is_digit_digit, Z.mod_pos_bound. lia. }
    specialize (Hd 9%nat ns). fold frac in Hd. destruct frac as [|c frac]; [done|].
    rewrite app_cons_s in *. rewrite Hd. exact Hr.
Qed.

(** A time whose year has four digits is read back exactly from its text. *)
Lemma parse_format t : 0 <= year t <= 9999 -> parse (format t) = Some t.
Proof.
  unfold year, format. intros Hy.
  pose proof (civil_roundtrip (t / Second / 86400)) as Hc.
  destruct (civil_from_days (t / Second / 86400)) as [[y m] d]. simpl in Hy.
  destruct Hc as (Hdays & Hm & Hd).
  assert (Hs : 0 <= (t / Second) mod 86400 < 86400) by (apply Z.mod_pos_bound; lia).
  assert (Hn : 0 <= t mod Second < Second) by (apply Z.mod_pos_bound; done).
  pose proof (Z_div_mod_eq_full (t / Second) 86400) as E1.
  pose proof (Z_div_mod_eq_full t Second) as E2.
  set (sod := (t / Second) mod 86400) in *. set (ns := t mod Second) in *.
  assert (0 <= sod / 3600 <= 23 /\ 0 <= sod / 60 mod 60 <= 59 /\ 0 <= sod mod 60 <= 59 /\
    sod = sod / 3600 * 3600 + sod / 60 mod 60 * 60 + sod mod 60) as (Hh & Hmi & Hss & Hsod).
  { clear -Hs. Z.to_euclidean_division_equations. lia. }
  assert (Hd31 : d <= 31) by (unfold days_in in Hd; repeat case_match; lia).
  unfold parse. rewrite read_digits_digits by (simpl; lia). cbn [mbind option_bind].
  do 5 (rewrite app_cons_s, app_empty_s, strip_one; cbn [mbind option_bind];
        rewrite bounded_digits by lia; cbn [mbind option_bind]).
  rewrite read_fraction_format by done. cbn [mbind option_bind].
  change (read_zone "Z") with (Some 0). cbn [mbind option_bind].
  f_equal. lia.
Qed.
