(* ===== verification/Decode.v ===== *)
(** * json.Unmarshal into Go structs, and json.Marshal of structs

    [json.Unmarshal] walks an object in document order, matches each key with a
    field exactly or up to case folding, ignores unknown keys, treats [null] as
    a no-op (or as nil for pointers, slices and maps) and reports a type
    mismatch as an error.  A decoder of this file takes the JSON value and the
    target it overwrites; [None] is a non-nil error.

    [json.Marshal] of a struct prints its fields in declaration order; a field
    tagged [omitempty] is dropped when it is empty. *)

From S2P Require Import Prelude.
From S2P Require Import Sha256.
From S2P Require Import Json.
From S2P Require Import JsonFacts.
From S2P Require Import GoTime.

(** ** float64

    A finite double is [m * 2^e]. *)
Inductive float64 : Type :=
| FNaN
| FInf (negative : bool)
| FFin (m e : Z).

#[export] Instance float64_eq_dec : EqDecision float64.
Proof. solve_decision. Defined.

Definition f_zero : float64 := FFin 0 0.

(** [a < b] for two doubles; false as soon as one is NaN. *)
Definition f_ltb (a b : float64) : bool :=
  match a, b with
  | FNaN, _ | _, FNaN => false
  | FInf n, FInf n' => n && negb n'
  | FInf n, FFin _ _ => n
  | FFin _ _, FInf n => negb n
  | FFin m1 e1, FFin m2 e2 =>
      let e := Z.min e1 e2 in m1 * 2 ^ (e1 - e) <? m2 * 2 ^ (e2 - e)
  end.
Definition is_nan (a : float64) : bool := match a with FNaN => true | _ => false end.
Definition is_inf (a : float64) : bool := match a with FInf _ => true | _ => false end.

(** An integer that a double represents exactly. *)
Definition f_of_Z (z : Z) : float64 := FFin z 0.

(** Round the positive rational [n/d] to the nearest double, ties to even;
    [None] when it overflows ([strconv.ErrRange]). *)
Definition round64 (n d : Z) : option (Z * Z) :=
  let k := Z.log2 n - Z.log2 d in
  let e0 := if n * 2 ^ Z.max 0 (- k) <? d * 2 ^ Z.max 0 k then k - 53 else k - 52 in
  let e := Z.max e0 (-1074) in
  let num := n * 2 ^ Z.max 0 (- e) in
  let den := d * 2 ^ Z.max 0 e in
  let q := num / den in
  let r := num mod den in
  let m := if (den <? 2 * r) || ((den =? 2 * r) && Z.odd q) then q + 1 else q in
  if (2 ^ 1024 <=? m * 2 ^ Z.max 0 e) then None else Some (m, e).

(** Sign, integer digits, fraction digits and exponent of a number literal. *)
Fixpoint dec_digits (acc : Z) (count : Z) (s : string) : Z * Z * string :=
  match s with
  | String c s' =>
      match digit_value c with
      | Some v => dec_digits (acc * 10 + v) (count + 1) s'
      | None => (acc, count, s)
      end
  | EmptyString => (acc, count, s)
  end.

Definition split_number (lit : string) : bool * Z * Z :=
  let '(neg, s) := match lit with
                   | String c s => if is_char 45 c then (true, s) else (false, lit)
                   | _ => (false, lit) end in
  let '(ip, _, s) := dec_digits 0 0 s in
  let '(m, fd, s) := match s with
                     | String c s' => if is_char 46 c then dec_digits ip 0 s' else (ip, 0, s)
                     | _ => (ip, 0, s) end in
  let ex := match s with
            | String _ (String c s') =>
                if is_char 45 c then - fst (fst (dec_digits 0 0 s'))
                else if is_char 43 c then fst (fst (dec_digits 0 0 s'))
                else fst (fst (dec_digits 0 0 (String c s')))
            | _ => 0
            end in
  (neg, m, ex - fd).

(** [strconv.ParseFloat] on a JSON number literal.  Exponents past the range of
    a double are decided without computing the power. *)
Definition parse_float (lit : string) : option float64 :=
  let '(neg, m, ex) := split_number lit in
  if m =? 0 then Some f_zero
  else if 400 <? ex then None
  else if ex <? - (400 + Z.log2 m) then Some f_zero
  else '(mm, e) ← (if 0 <=? ex then round64 (m * 10 ^ ex) 1 else round64 m (10 ^ (- ex)));
       Some (FFin (if neg then - mm else mm) e).

(** [strconv.ParseInt(lit, 10, 64)]: the literal must be an integer. *)
Definition parse_int (lit : string) : option Z :=
  let '(neg, s) := match lit with
                   | String c s => if is_char 45 c then (true, s) else (false, lit)
                   | _ => (false, lit) end in
  let '(v, n, rest) := dec_digits 0 0 s in
  let v := if neg : bool then - v else v in
  if str_eqb rest "" && (0 <? n) && (- 2 ^ 63 <=? v) && (v <? 2 ^ 63) then Some v else None.

(** ** Decoders *)
Definition fold_rune (r : Z) : Z :=
  if (65 <=? r) && (r <=? 90) then r + 32
  else if r =? 0x17F then 115 else if r =? 0x212A then 107 else r.
Definition key_matches (name key : string) : bool :=
  bool_decide (map fold_rune (runes key) = map fold_rune (runes name)).

Definition decoder (A : Type) : Type := json -> A -> option A.

Definition dec_string : decoder string := fun v old =>
  match v with JNull => Some old | JStr s => Some s | _ => None end.
Definition dec_int64 : decoder Z := fun v old =>
  match v with JNull => Some old | JNum lit => parse_int lit | _ => None end.
Definition dec_bool : decoder bool := fun v old =>
  match v with JNull => Some old | JBool b => Some b | _ => None end.
Definition dec_float : decoder float64 := fun v old =>
  match v with JNull => Some old | JNum lit => parse_float lit | _ => None end.
Definition dec_time : decoder Time := fun v old =>
  match v with JNull => Some old | JStr s => parse s | _ => None end.

Definition dec_ptr {A} (zero : A) (d : decoder A) : decoder (option A) := fun v old =>
  match v with
  | JNull => Some None
  | _ => a ← d v (default zero old); Some (Some a)
  end.

Fixpoint dec_elems {A} (zero : A) (d : decoder A) (l : list json) (old : list A) : option (list A) :=
  match l with
  | [] => Some []
  | v :: l =>
      a ← d v (match old with o :: _ => o | [] => zero end);
      rest ← dec_elems zero d l (tail old);
      Some (a :: rest)
  end.
Definition dec_list {A} (zero : A) (d : decoder A) : decoder (list A) := fun v old =>
  match v with JNull => Some [] | JArr l => dec_elems zero d l old | _ => None end.

(** A slice whose [nil] is told apart from an empty one: where the program
    prints it, or compares it with [reflect.DeepEqual]. *)
Definition slice (A : Type) : Type := option (list A).
Definition elems {A} (l : slice A) : list A := default [] l.
Definition dec_slice {A} (zero : A) (d : decoder A) : decoder (slice A) := fun v old =>
  match v with JNull => Some None | JArr l => Some <$> dec_elems zero d l (elems old) | _ => None end.
Definition jslice {A} (f : A -> json) (l : slice A) : json :=
  match l with None => JNull | Some l => JArr (map f l) end.

(** A [map[string]A], as the association list of its distinct keys. *)
Fixpoint assoc_set {A} (k : string) (a : A) (m : list (string * A)) : list (string * A) :=
  match m with
  | [] => [(k, a)]
  | (k', a') :: m => if str_eqb k k' then (k, a) :: m else (k', a') :: assoc_set k a m
  end.
Definition assoc {A} (k : string) (m : list (string * A)) : option A :=
  snd <$> List.find (fun kv => str_eqb (fst kv) k) m.

Fixpoint dec_entries {A} (zero : A) (d : decoder A) (fs : list (string * json)) (m : list (string * A))
  : option (list (string * A)) :=
  match fs with
  | [] => Some m
  | (k, v) :: fs => a ← d v zero; dec_entries zero d fs (assoc_set k a m)
  end.
Definition dec_map {A} (zero : A) (d : decoder A) : decoder (list (string * A)) := fun v old =>
  match v with JNull => Some [] | JObj fs => dec_entries zero d fs old | _ => None end.

(** A struct: one decoder per field, each a lens on the struct.  [strict] is
    the decoder's [DisallowUnknownFields]. *)
Definition field_decoder (S : Type) : Type := string * (json -> S -> option S).

Definition dec_field {S} (strict : bool) (fields : list (field_decoder S)) (key : string) (v : json) (s : S) : option S :=
  match List.find (fun f => key_matches (fst f) key) fields with
  | Some f => snd f v s
  | None => if strict then None else Some s
  end.
Fixpoint dec_members {S} (strict : bool) (fields : list (field_decoder S)) (fs : list (string * json)) (s : S) : option S :=
  match fs with
  | [] => Some s
  | (k, v) :: fs => s' ← dec_field strict fields k v s; dec_members strict fields fs s'
  end.
Definition dec_struct {S} (strict : bool) (fields : list (field_decoder S)) : decoder S := fun v s =>
  match v with JNull => Some s | JObj fs => dec_members strict fields fs s | _ => None end.

(** A field read with [d] and written with [set]. *)
Definition field {S A} (name : string) (get : S -> A) (set : A -> S -> S) (d : decoder A) : field_decoder S :=
  (name, fun v s => a ← d v (get s); Some (set a s)).

(** A complete text: one value with only white space after it.  The reader is
    that of [CanonicalObject], which refuses duplicate keys and depths over 32:
    it is used on bodies that [CanonicalObject] produced, where [json.Unmarshal]
    reads the same value. *)
Definition read_json (s : string) : option json :=
  match readValue (read_fuel s) 0 s with
  | Some (v, rest) => if str_eqb (skip_ws rest) "" then Some v else None
  | None => None
  end.

(** [json.Unmarshal(raw, &s) == nil] with the struct it leaves behind. *)
Definition Unmarshal {S} (fields : list (field_decoder S)) (zero : S) (raw : string) : option S :=
  v ← read_json raw; dec_struct false fields v zero.

(** [strictDecode] of pkg/investigation/service.go into a zero struct: a
    canonical object, at most 64 KiB, without unknown fields. *)
Definition strictDecode {S} (fields : bool -> list (field_decoder S)) (zero : S) (raw : string) : option S :=
  match CanonicalObject raw with
  | Err _ => None
  | Ok _ => if 65536 <? slen raw then None else v ← read_json raw; dec_struct true (fields true) v zero
  end.

(** Postgres [j #>> path] on the text of a jsonb object: the text of a string,
    the printed form of another value, NULL for a missing key or [null]. *)
Fixpoint json_at (path : list string) (v : json) : option json :=
  match path with
  | [] => Some v
  | k :: path =>
      match v with
      | JObj fs => kv ← List.find (fun f => str_eqb (fst f) k) fs; json_at path (snd kv)
      | _ => None
      end
  end.
Definition json_text (v : json) : option string :=
  match v with JNull => None | JStr s => Some s | JNum lit => Some lit
             | JBool b => Some (if b then "true" else "false") | v => Some (print v) end.
Definition json_path (raw : string) (path : list string) : option string :=
  v ← read_json raw; w ← json_at path v; json_text w.

(** ** Struct encoders

    A struct becomes a [JObj] whose members are in declaration order and
    [Marshal] is its [encode]; [None] is an encoding error. *)

(** Decimal text ([strconv.AppendInt]). *)
Fixpoint ndigits (fuel : nat) (z : Z) : nat :=
  match fuel with
  | O => 1
  | S fuel => if z <? 10 then 1 else S (ndigits fuel (z / 10))
  end.
Definition show_pos (z : Z) : string := digits (ndigits (Z.to_nat (Z.log2 z)) z) z.
Definition show (z : Z) : string := if z <? 0 then "-" +:+ show_pos (- z) else show_pos z.

Definition jint (z : Z) : json := JNum (show z).
Definition jtime (t : Time) : option json :=
  if (0 <=? year t) && (year t <=? 9999) then Some (JStr (format t)) else None.
Definition omit_if (b : bool) (f : list (string * json)) := if b then [] else f.

Definition Marshal (v : option json) : option string := encode <$> v.

(** *** Printing a float64

    [encoding/json] prints the shortest decimal that reads back as the same
    double ([strconv.AppendFloat] with precision -1), in exponent form below 1e-6
    and from 1e21 on.  The sign of a zero is not kept by [float64]. *)
Fixpoint small_exp (fuel : nat) (j num den : Z) : Z :=
  match fuel with
  | O => 1 - j
  | S fuel => if den <=? num * 10 ^ j then 1 - j else small_exp fuel (j + 1) num den
  end.
(** The [k] with [10^(k-1) <= num/den < 10^k]; a double is at least 2^-1074. *)
Definition dec_exp (num den : Z) : Z :=
  if den <=? num then Z.of_nat (ndigits (Z.to_nat (Z.log2 num)) (num / den)) else small_exp 330 1 num den.

(** [c * 10^s] rounds to the double [num/den]. *)
Definition rounds_to (num den c s : Z) : bool :=
  match round64 (c * 10 ^ Z.max 0 s) (10 ^ Z.max 0 (- s)) with
  | Some (m, e) => m * 2 ^ Z.max 0 e * den =? num * 2 ^ Z.max 0 (- e)
  | None => false
  end.
(** The fewest digits that round to the double, and among those the nearest;
    seventeen always do.  A carry to the next power of ten moves the point. *)
Fixpoint shortest (fuel : nat) (n k num den : Z) : Z * Z * Z :=
  let s := k - n in
  let p := num * 10 ^ Z.max 0 (- s) in
  let q := den * 10 ^ Z.max 0 s in
  let lo := p / q in
  let r := p mod q in
  let lower := (2 * r <? q) || ((2 * r =? q) && Z.even lo) in
  let ok_lo := (0 <? lo) && rounds_to num den lo s in
  let ok_hi := rounds_to num den (lo + 1) s in
  match fuel with
  | O => (lo, n, k)
  | S fuel =>
      if ok_lo && (lower || negb ok_hi) then (lo, n, k)
      else if ok_hi then if lo + 1 =? 10 ^ n then (1, 1, k + 1) else (lo + 1, n, k)
      else shortest fuel (n + 1) k num den
  end.

Definition zeros (n : Z) : string := digits (Z.to_nat n) 0.
(** Positional notation of the [n] digits [d] with the point after the [k]-th. *)
Definition fixed_text (d n k : Z) : string :=
  if k <=? 0 then "0." +:+ zeros (- k) +:+ digits (Z.to_nat n) d
  else if n <=? k then digits (Z.to_nat n) d +:+ zeros (k - n)
  else digits (Z.to_nat k) (d / 10 ^ (n - k)) +:+ "." +:+ digits (Z.to_nat (n - k)) (d mod 10 ^ (n - k)).
Definition exp_text (d n k : Z) : string :=
  digits 1 (d / 10 ^ (n - 1)) +:+ (if n =? 1 then "" else "." +:+ digits (Z.to_nat (n - 1)) (d mod 10 ^ (n - 1)))
  +:+ "e" +:+ (if k - 1 <? 0 then "" else "+") +:+ show (k - 1).

Definition show_float (f : float64) : option string :=
  match f with
  | FNaN | FInf _ => None
  | FFin m e =>
      if m =? 0 then Some "0" else
      let num := Z.abs m * 2 ^ Z.max 0 e in
      let den := 2 ^ Z.max 0 (- e) in
      let k := dec_exp num den in
      let '(d, n, k) := shortest 17 1 k num den in
      let small := f_ltb (FFin (Z.abs m) e) (default f_zero (parse_float "1e-6")) in
      let large := negb (f_ltb (FFin (Z.abs m) e) (f_of_Z (10 ^ 21))) in
      Some ((if m <? 0 then "-" else "") +:+ (if small || large then exp_text d n k else fixed_text d n k))
  end.
Definition jfloat (f : float64) : option json := JNum <$> show_float f.

Example show_float_samples :
  map (fun s => parse_float s ≫= show_float)
    ["0.1"; "1e-7"; "123456789.125"; "5e-324"; "1e21"; "100"; "0.000001"; "0.30000000000000004"; "-2.5"; "1.7976931348623157e308"]
  = map Some
    ["0.1"; "1e-7"; "123456789.125"; "5e-324"; "1e+21"; "100"; "0.000001"; "0.30000000000000004"; "-2.5"; "1.7976931348623157e+308"].
Proof. vm_compute. reflexivity. Qed.

(** ** Round trips of the scalar encoders *)
Lemma ndigits_spec fuel z :
  0 <= z -> Z.log2 z <= Z.of_nat fuel ->
  exists n, ndigits fuel z = S n /\ z < 10 ^ Z.of_nat (S n) /\ (n = O \/ 10 ^ Z.of_nat n <= z).
Proof.
  revert z. induction fuel as [|fuel IH]; intros z Hz Hl.
  - exists O. split; [done|]. split; [|by left].
    destruct (Z.lt_ge_cases 0 z); [|simpl; lia].
    pose proof (Z.log2_spec z ltac:(lia)). pose proof (Z.log2_nonneg z).
    assert (Z.log2 z = 0) as E by lia. rewrite E in *. simpl in *. lia.
  - cbn [ndigits]. case_if as E; breflect.
    + exists O. split; [done|]. split; [simpl; lia|by left].
    + pose proof (Z.div_mod z 10 ltac:(lia)). pose proof (Z.mod_pos_bound z 10 ltac:(lia)).
      assert (Z.log2 (z / 10) <= Z.of_nat fuel) as Hf.
      { assert (Z.log2 (z / 10) < Z.log2 z); [|lia]. apply Z.log2_lt_pow2; [lia|].
        pose proof (Z.log2_spec z ltac:(lia)) as [_ Hu]. rewrite Z.pow_succ_r in Hu by apply Z.log2_nonneg. lia. }
      destruct (IH (z / 10) ltac:(lia) Hf) as (n & -> & Hu & Hlo).
      exists (S n). split; [done|].
      rewrite (Nat2Z.inj_succ (S n)), Z.pow_succ_r by lia. split; [lia|].
      right. rewrite Nat2Z.inj_succ, Z.pow_succ_r in * by lia.
      destruct Hlo as [->|Hlo]; [simpl; lia|lia].
Qed.

Lemma show_pos_spec z : 0 <= z ->
  exists n, show_pos z = digits (S n) z /\ z < 10 ^ Z.of_nat (S n) /\ (n = O \/ 10 ^ Z.of_nat n <= z).
Proof.
  intros Hz. pose proof (Z.log2_nonneg z).
  destruct (ndigits_spec (Z.to_nat (Z.log2 z)) z Hz ltac:(lia)) as (n & E & H1 & H2).
  exists n. unfold show_pos. by rewrite E.
Qed.

Lemma dec_digits_digits n acc cnt z :
  dec_digits acc cnt (digits n z) = (acc * 10 ^ Z.of_nat n + z mod 10 ^ Z.of_nat n, cnt + Z.of_nat n, "").
Proof.
  revert acc cnt. induction n as [|n IH]; intros acc cnt.
  - simpl. rewrite Z.mod_1_r. do 2 f_equal; lia.
  - cbn [digits dec_digits]. rewrite digit_value_digit by (apply Z.mod_pos_bound; lia).
    rewrite IH. rewrite Nat2Z.inj_succ, Z.pow_succ_r by lia.
    rewrite (Z.mul_comm 10), Z.rem_mul_r by lia. do 2 f_equal; lia.
Qed.

Lemma digit_first n z : 0 <= z < 10 ^ Z.of_nat (S n) ->
  digits (S n) z = String (digit (z / 10 ^ Z.of_nat n)) (digits n z) /\ 0 <= z / 10 ^ Z.of_nat n < 10.
Proof.
  intros Hz. rewrite Nat2Z.inj_succ, Z.pow_succ_r in Hz by lia.
  assert (0 <= z / 10 ^ Z.of_nat n < 10).
  { split; [apply Z.div_pos; lia|]. apply Z.div_lt_upper_bound; lia. }
  split; [|done]. cbn [digits]. by rewrite (Z.mod_small (z / _)) by lia.
Qed.

Lemma digit_ord z : 0 <= z < 10 -> ord (digit z) = 48 + z.
Proof. intros H. unfold digit. apply ord_chr_id. lia. Qed.

Lemma parse_int_show z : int64_ok z -> parse_int (show z) = Some z.
Proof.
  unfold int64_ok, show. intros Hz. unfold parse_int. case_if as E; breflect.
  - destruct (show_pos_spec (- z) ltac:(lia)) as (n & -> & Hu & _).
    rewrite app_cons_s, app_empty_s. change (is_char 45 "-") with true. cbv iota.
    rewrite dec_digits_digits, Z.mod_small by lia. cbv beta iota zeta. rewrite Z.mul_0_l, !Z.add_0_l, Z.opp_involutive.
    rewrite str_eqb_refl. by bools_true.
  - destruct (show_pos_spec z ltac:(lia)) as (n & -> & Hu & _).
    destruct (digit_first n z ltac:(lia)) as [Hd Hb].
    rewrite Hd at 1. unfold is_char at 1. rewrite digit_ord by lia. bools_true. cbv iota.
    rewrite dec_digits_digits, Z.mod_small by lia. cbv beta iota zeta. rewrite Z.mul_0_l, !Z.add_0_l.
    rewrite str_eqb_refl. by bools_true.
Qed.

Lemma read_num_digits n z : read_num NInt (digits n z) = Some (digits n z, "").
Proof.
  induction n as [|n IH]; [done|]. cbn [digits read_num num_step].
  rewrite is_digit_digit by (apply Z.mod_pos_bound; lia). by rewrite IH.
Qed.

Lemma num_step_digit st z : 0 <= z < 10 -> st = NStart \/ st = NNeg ->
  num_step st (digit z) = Some (if z =? 0 then NZero else NInt).
Proof.
  intros Hz Hst. assert (num_step st (digit z) =
    if is_char 48 (digit z) then Some NZero else if is_digit (digit z) then Some NInt else None) as ->.
  { destruct Hst as [->| ->]; [|done]. cbn [num_step]. unfold is_char at 1.
    rewrite digit_ord by lia. by bools_true. }
  rewrite digit_zero, is_digit_digit by lia. by destruct (z =? 0).
Qed.

Lemma read_num_show_pos st z : 0 <= z -> st = NStart \/ st = NNeg ->
  read_num st (show_pos z) = Some (show_pos z, "").
Proof.
  intros Hz Hst. destruct (show_pos_spec z Hz) as (n & -> & Hu & Hlo).
  destruct (digit_first n z ltac:(lia)) as [Hd Hb]. rewrite Hd. cbn [read_num].
  rewrite num_step_digit by done. destruct Hlo as [->|Hlo].
  - by destruct (_ =? 0).
  - assert (1 <= z / 10 ^ Z.of_nat n) by (apply Z.div_le_lower_bound; lia).
    bools_true. by rewrite read_num_digits.
Qed.

Lemma good_jint d z : d <= 32 -> good d (jint z).
Proof.
  intros Hd. constructor; [done|]. unfold show. case_if as E; breflect.
  - rewrite app_cons_s, app_empty_s. cbn [read_num].
    change (num_step NStart "-") with (Some NNeg). cbv iota.
    rewrite read_num_show_pos by (lia || by right). done.
  - apply read_num_show_pos; [lia|by left].
Qed.

Lemma jtime_roundtrip t j old : jtime t = Some j -> dec_time j old = Some t.
Proof.
  unfold jtime. intros H. case_if_in H. injection H as <-. breflect. simpl. apply parse_format. lia.
Qed.

(** ASCII text is UTF-8, so every identifier and every formatted time prints
    without loss. *)
Lemma ascii_utf8 s : str_forall (fun c => ord c <? 128) s = true -> utf8 s.
Proof.
  intros H. exists (bytes_of s). induction s as [|c s IH]; [done|].
  simpl in H. breflect. destruct (IH ltac:(done)) as [Hs Es]. pose proof (ord_bound c). split.
  - constructor; [|done]. apply scalar_spec. lia.
  - simpl. rewrite <- Es. unfold encode_rune. bools_true. by rewrite chr_ord.
Qed.

Lemma str_forall_app p a b : str_forall p (a +:+ b) = str_forall p a && str_forall p b.
Proof. induction a as [|c a IH]; [done|]. rewrite app_cons_s. simpl. by rewrite IH, andb_assoc. Qed.

Definition is_ascii (c : ascii) : bool := ord c <? 128.

Lemma digits_ascii n z : str_forall is_ascii (digits n z) = true.
Proof.
  induction n as [|n IH]; [done|]. cbn [digits str_forall]. rewrite IH. unfold is_ascii.
  pose proof (Z.mod_pos_bound (z / 10 ^ Z.of_nat n) 10 ltac:(lia)).
  rewrite digit_ord by lia. by bools_true.
Qed.

Lemma trim_zeros_forall p s : str_forall p s = true -> str_forall p (trim_zeros s) = true.
Proof.
  induction s as [|c s IH]; [done|]. simpl. intros H. breflect.
  case_if as E; [done|]. simpl. by rewrite H, IH.
Qed.

Lemma format_utf8 t : utf8 (format t).
Proof.
  apply ascii_utf8. unfold format. destruct (civil_from_days _) as [[y m] d].
  change (fun c => ord c <? 128) with is_ascii.
  case_if as E; rewrite !str_forall_app, !digits_ascii; [done|].
  by rewrite trim_zeros_forall by apply digits_ascii.
Qed.

Lemma good_jtime d t j : d <= 32 -> jtime t = Some j -> good d j.
Proof.
  unfold jtime. intros Hd H. case_if_in H. injection H as <-. constructor; [done|apply format_utf8].
Qed.

Lemma show_ascii z : str_forall is_ascii (show z) = true.
Proof.
  unfold show, show_pos. case_if as E; [|apply digits_ascii].
  rewrite str_forall_app. by rewrite digits_ascii.
Qed.

Lemma good_object d fs :
  d <= 32 -> NoDup (map fst fs) -> Forall (fun kv => utf8 (fst kv) /\ good (d + 1) (snd kv)) fs ->
  good d (JObj fs).
Proof.
  intros Hd Hn Hf. constructor; [done..|]. intros k v Hin.
  rewrite Forall_forall in Hf. apply (Hf (k, v)). by apply list_elem_of_In.
Qed.

Lemma good_array d l : d <= 32 -> Forall (good (d + 1)) l -> good d (JArr l).
Proof.
  intros Hd Hf. constructor; [done|]. intros v Hin. rewrite Forall_forall in Hf.
  by apply Hf, list_elem_of_In.
Qed.

Lemma good_strings d l : d <= 32 -> Forall utf8 l -> Forall (good d) (map JStr l).
Proof.
  intros Hd Hl. apply Forall_forall. intros v Hv.
  apply list_elem_of_In, in_map_iff in Hv as (s & <- & Hs). constructor; [done|].
  rewrite Forall_forall in Hl. by apply Hl, list_elem_of_In.
Qed.

(** Well-formedness of an encoded struct: literal keys are checked by
    computation, the values by the facts in the context. *)
Ltac good_tac :=
  repeat (first
    [ match goal with |- context [omit_if ?b _] =>
        let E := fresh "E" in destruct b eqn:E; cbn [omit_if app] end
    | match goal with |- good _ (JObj _) =>
        apply good_object; [lia|apply (bool_decide_eq_true_1 _); vm_compute; reflexivity|] end
    | match goal with |- good _ (JArr (map JStr _)) => apply good_array; [lia|apply good_strings; [lia|]] end
    | match goal with |- good _ (jint _) => apply good_jint; lia end
    | match goal with |- good _ (JStr _) => constructor; [lia|] end
    | match goal with |- good _ (JBool _) => constructor; lia end
    | match goal with |- Forall _ (_ :: _) => apply Forall_cons_2; [split; cbn [fst snd]|] end
    | match goal with |- Forall _ [] => apply Forall_nil_2 end
    | assumption
    | match goal with |- utf8 _ => apply ascii_utf8; vm_compute; reflexivity end
    | match goal with H : good ?d ?v |- good ?d' ?v => replace d' with d by lia; exact H end ]).

(** One member of an object against the fields of a struct, by evaluating the
    key comparison. *)
Ltac dec_step :=
  cbn [dec_members]; unfold dec_field; cbn [List.find];
  repeat match goal with
  | |- context [key_matches (fst (field ?a _ _ _)) ?b] =>
      let r := eval vm_compute in (key_matches a b) in
      change (key_matches (fst (field a _ _ _)) b) with r; cbv iota
  end;
  unfold field; cbn [fst snd mbind option_bind].

Lemma dec_strings l : dec_elems "" dec_string (map JStr l) [] = Some l.
Proof. induction l as [|s l IH]; [done|]. cbn [map dec_elems tail]. cbn [mbind option_bind dec_string]. by rewrite IH. Qed.

Example parse_float_tenth : parse_float "0.1" = Some (FFin 7205759403792794 (-56)).
Proof. vm_compute. reflexivity. Qed.
Example parse_float_int : parse_float "3" = Some (FFin 6755399441055744 (-51)).
Proof. vm_compute. reflexivity. Qed.
Example parse_float_range : parse_float "1e309" = None.
Proof. vm_compute. reflexivity. Qed.
Example parse_float_lt : f_ltb (FFin 6755399441055744 (-51)) (f_of_Z 4) = true.
Proof. vm_compute. reflexivity. Qed.
Example show_some : (show (-120), show 0, show 9007199254740993) = ("-120", "0", "9007199254740993").
Proof. vm_compute. reflexivity. Qed.
