(* ===== verification/Assoc.v ===== *)
(** * Association lists: Go maps as lists of their members *)

From S2P Require Import Prelude.
From S2P Require Import Decode.

Section Assoc.
Context {A : Type}.
Implicit Types m : list (string * A).

Lemma assoc_Some k a m : NoDup (map fst m) -> assoc k m = Some a <-> (k, a) ∈ m.
Proof.
  unfold assoc. induction m as [|[k' a'] m IH]; intros Hn; cbn.
  - split; [done|]. by intros ?%elem_of_nil.
  - apply NoDup_cons in Hn as [Hk Hn]. rewrite elem_of_cons. case_if as E.
    + apply str_eqb_eq in E as ->. cbn. split; [intros [= ->]; by left|]. intros [[= ->]|Hin]; [done|].
      exfalso. apply Hk, list_elem_of_fmap. by exists (k, a).
    + apply str_eqb_neq in E. rewrite IH by done. split; [by right|]. by intros [[= -> _]|Hin].
Qed.

Lemma assoc_None k m : assoc k m = None <-> k ∉ map fst m.
Proof.
  unfold assoc. induction m as [|[k' a'] m IH]; cbn.
  - split; [|done]. intros _ ?%elem_of_nil. done.
  - rewrite not_elem_of_cons. case_if as E.
    + apply str_eqb_eq in E as ->. cbn. split; [done|]. by intros [? _].
    + apply str_eqb_neq in E. rewrite IH. split; [intros ?; by split; [intros ->|]|tauto].
Qed.

Lemma assoc_set_keys k a m x : x ∈ map fst (assoc_set k a m) <-> x = k \/ x ∈ map fst m.
Proof.
  induction m as [|[k' a'] m IH]; cbn; [rewrite list_elem_of_singleton, elem_of_nil; tauto|].
  case_if as E; cbn; rewrite !elem_of_cons.
  - apply str_eqb_eq in E as ->. tauto.
  - rewrite IH. tauto.
Qed.

Lemma assoc_set_length k a m : (length m <= length (assoc_set k a m) <= S (length m))%nat.
Proof. induction m as [|[k' a'] m IH]; cbn; [lia|]. case_if as E; cbn; lia. Qed.

Lemma assoc_set_length_in k a m : k ∈ map fst m -> length (assoc_set k a m) = length m.
Proof.
  induction m as [|[k' b] m IH]; cbn; [by intros ?%elem_of_nil|]. intros Hin. case_if as E; [done|].
  cbn. f_equal. apply IH. apply elem_of_cons in Hin as [->|]; [|done]. by rewrite str_eqb_refl in E.
Qed.

Lemma assoc_set_NoDup k a m : NoDup (map fst m) -> NoDup (map fst (assoc_set k a m)).
Proof.
  induction m as [|[k' a'] m IH]; intros Hn; cbn; [apply NoDup_singleton|].
  cbn in Hn. apply NoDup_cons in Hn as [Hk Hn]. case_if as E; cbn; apply NoDup_cons; split; auto.
  - apply str_eqb_eq in E as ->. done.
  - rewrite assoc_set_keys. apply str_eqb_neq in E. intros [->|?]; done.
Qed.

Lemma assoc_set_same k a m : assoc k (assoc_set k a m) = Some a.
Proof.
  unfold assoc. induction m as [|[k' a'] m IH]; cbn; [by rewrite str_eqb_refl|].
  case_if as E; cbn; [by rewrite str_eqb_refl|]. case_if as E2; [|done].
  apply str_eqb_eq in E2 as ->. by rewrite str_eqb_refl in E.
Qed.

Lemma assoc_set_other k k' a m : k <> k' -> assoc k (assoc_set k' a m) = assoc k m.
Proof.
  intros Hne. unfold assoc. induction m as [|[x y] m IH]; cbn.
  - case_if as E; [|done]. by apply str_eqb_eq in E.
  - case_if as E; cbn.
    + apply str_eqb_eq in E as <-. case_if as E2; [by apply str_eqb_eq in E2|done].
    + case_if as E3; [done|]. apply IH.
Qed.

Lemma assoc_set_Forall (P : string * A -> Prop) k a m : Forall P m -> P (k, a) -> Forall P (assoc_set k a m).
Proof.
  intros Hm Ha. induction m as [|[k' a'] m IH]; cbn; [by constructor|].
  apply Forall_cons in Hm as [? Hm]. case_if as E; constructor; auto.
Qed.
End Assoc.

