(* ===== verification/Url.v ===== *)
(** * Texts of requests: net/url, net/http and strconv on bytes

    What the handlers use of the standard library: percent decoding, query
    parameters, white-space separated fields, decimal integers, cookies. *)

From S2P Require Import Prelude.
From S2P Require Import Json.
From S2P Require Import Decode.
From S2P Require Import Text.

Definition slash : ascii := chr 47.

(** ** strings *)

(** [strings.Split] and [strings.Cut] at a byte. *)
Fixpoint split (sep : ascii) (s : string) : list string :=
  match s with
  | EmptyString => [""]
  | String c s =>
      if bool_decide (c = sep) then "" :: split sep s
      else match split sep s with
           | x :: l => String c x :: l
           | [] => [String c ""]
           end
  end.
Fixpoint cut (sep : ascii) (s : string) : string * string :=
  match s with
  | EmptyString => ("", "")
  | String c s => if bool_decide (c = sep) then ("", s) else let '(x, rest) := cut sep s in (String c x, rest)
  end.
Fixpoint has_byte (sep : ascii) (s : string) : bool :=
  match s with EmptyString => false | String c s => bool_decide (c = sep) || has_byte sep s end.
Fixpoint count_byte (sep : ascii) (s : string) : Z :=
  match s with EmptyString => 0 | String c s => (if bool_decide (c = sep) then 1 else 0) + count_byte sep s end.
Definition has_prefix (p s : string) : bool := match strip p s with Some _ => true | None => false end.

(** [strings.TrimRight(s, "/")]. *)
Fixpoint drop_slashes (s : string) : string :=
  match s with String c s' => if bool_decide (c = slash) then drop_slashes s' else s | EmptyString => "" end.
Definition trim_slashes (s : string) : string := reversed (drop_slashes (reversed s)).

(** [textproto.TrimString]: leading and trailing ASCII white space. *)
Fixpoint drop_ws (s : string) : string :=
  match s with String c s' => if is_ws c then drop_ws s' else s | EmptyString => "" end.
Definition trim_string (s : string) : string := reversed (drop_ws (reversed (drop_ws s))).

(** [strings.Fields]: runs of [unicode.IsSpace] separate; the encoding of a
    space starts only where a rune starts. *)
Definition flush (word : string) (l : list string) : list string :=
  if str_eqb word "" then l else reversed word :: l.
Fixpoint fields_loop (fuel : nat) (word s : string) : list string :=
  match fuel, s with
  | S fuel, String c s' =>
      match strip_prefixes spaces s with
      | Some rest => flush word (fields_loop fuel "" rest)
      | None => fields_loop fuel (String c word) s'
      end
  | _, _ => flush word []
  end.
Definition Fields (s : string) : list string := fields_loop (String.length s) "" s.

(** [strings.ToLower] on ASCII. *)
Definition lower_char (c : ascii) : ascii := if in_range 65 90 c then chr (ord c + 32) else c.
Fixpoint lower (s : string) : string :=
  match s with EmptyString => "" | String c s => String (lower_char c) (lower s) end.

(** ** strconv *)

(** [ParseInt(s, 10, 64)]: a JSON integer, with leading zeros or a plus sign. *)
Definition ParseInt (s : string) : option Z :=
  match s with
  | String c rest =>
      if is_char 43 c then if has_prefix "-" rest then None else parse_int rest
      else parse_int s
  | EmptyString => None
  end.

(** [hex.DecodeString]. *)
Fixpoint hex_decode (s : string) : option (list Z) :=
  match s with
  | EmptyString => Some []
  | String a (String b s) => h ← hex_value a; l ← hex_value b; rest ← hex_decode s; Some (16 * h + l :: rest)
  | String _ EmptyString => None
  end.

(** ** net/url *)

(** [url.unescape]; in a query component ([plus]) a plus sign is a space. *)
Fixpoint unescape (plus : bool) (s : string) : option string :=
  match s with
  | EmptyString => Some ""
  | String c s =>
      if is_char 37 c then
        match s with
        | String a (String b s) =>
            h ← hex_value a; l ← hex_value b; rest ← unescape plus s; Some (String (chr (16 * h + l)) rest)
        | _ => None
        end
      else rest ← unescape plus s; Some (String (if plus && is_char 43 c then chr 32 else c) rest)
  end.

Definition Values : Type := list (string * list string).

(** [m[key] = append(m[key], value)]. *)
Definition add_value (key value : string) (m : Values) : Values :=
  assoc_set key (default [] (assoc key m) ++ [value]) m.

(** One setting of [parseQuery]; [None] is an error, after which the loop goes on. *)
Definition parse_setting (m : Values) (setting : string) : option Values :=
  if has_byte (chr 59) setting then None
  else if str_eqb setting "" then Some m
  else let '(k, v) := cut (chr 61) setting in
       key ← unescape true k; value ← unescape true v; Some (add_value key value m).
Fixpoint parse_settings (m : Values) (ok : bool) (l : list string) : Values * bool :=
  match l with
  | [] => (m, ok)
  | x :: l => match parse_setting m x with
              | Some m' => parse_settings m' ok l
              | None => parse_settings m false l
              end
  end.

(** [url.ParseQuery]: the values, and whether there was no error.  More than
    10000 parameters are refused at once. *)
Definition ParseQuery (query : string) : Values * bool :=
  if 10000 <? count_byte (chr 38) query + 1 then ([], false)
  else parse_settings [] true (split (chr 38) query).
Definition Get (m : Values) (key : string) : string :=
  match assoc key m with Some (v :: _) => v | _ => "" end.

(** [url.PathEscape]: what [shouldEscape] keeps in a path segment. *)
Definition path_plain (c : ascii) : bool :=
  in_range 97 122 c || in_range 65 90 c || in_range 48 57 c || existsb (fun z => is_char z c)
    [45; 95; 46; 126; 36; 38; 43; 58; 61; 64].
Definition upper_hex (z : Z) : ascii := if z <? 10 then chr (48 + z) else chr (55 + z).
Fixpoint PathEscape (s : string) : string :=
  match s with
  | EmptyString => ""
  | String c s =>
      if path_plain c then String c (PathEscape s)
      else String (chr 37) (String (upper_hex (ord c / 16)) (String (upper_hex (ord c mod 16)) (PathEscape s)))
  end.

Example url_samples :
  split slash "/api//x" = [""; "api"; ""; "x"] /\ trim_slashes "https://x//" = "https://x"
  /\ Fields ("  approve" +:+ encode_rune 0xA0 +:+ "id " +:+ String (chr 9) "") = ["approve"; "id"]
  /\ ParseInt "+007" = Some 7 /\ ParseInt "--7" = None /\ ParseInt "9223372036854775808" = None
  /\ ParseQuery "a=1&b=x+y%2F&a=&&c" = ([("a", ["1"; ""]); ("b", ["x y/"]); ("c", [""])], true)
  /\ ParseQuery "a=%zz&b;c=2&d=4" = ([("d", ["4"])], false)
  /\ PathEscape "a b/" = "a%20b%2F".
Proof. vm_compute. repeat split; reflexivity. Qed.
