(* ===== verification/Identity.v ===== *)
(** * pkg/identity: scopes, identifiers and verified principals

    scope.go and oidc.go.  Every record of the orchestrator belongs to a scope
    (organization, cluster, application); a principal is an engineer whose OIDC
    token was verified.  The signature check of the go-oidc library is a
    parameter of [Verify]. *)

From S2P Require Import Prelude.
From S2P Require Import Json.
From S2P Require Import Sha256.
From S2P Require Import GoTime.

(** ** Scope *)
Record Scope := mkScope {
  OrganizationID : string;
  ClusterID : string;
  ApplicationID : string
}.
#[export] Instance Scope_eq_dec : EqDecision Scope.
Proof. solve_decision. Defined.

Definition id_char (c : ascii) : bool :=
  in_range 97 122 c || in_range 65 90 c || in_range 48 57 c || is_char 95 c || is_char 45 c.

(** Ranging over the string by runes or by bytes is the same here: a byte of a
    multi-byte rune is at least 0x80 and no rune from 0x80 on is accepted. *)
Definition ValidID (id : string) : bool :=
  negb ((slen id =? 0) || (128 <? slen id)) && str_forall id_char id.

Definition Scope_Validate (s : Scope) : bool :=
  ValidID (OrganizationID s) && ValidID (ClusterID s) && ValidID (ApplicationID s).

Definition Scope_Key (s : Scope) : string :=
  OrganizationID s +:+ "/" +:+ ClusterID s +:+ "/" +:+ ApplicationID s.

Definition scope_eqb (a b : Scope) : bool := bool_decide (a = b).

(** [NewID] on the sixteen random bytes it draws. *)
Definition NewID_of (b : list Z) : string := hex_encode b.

(** ** Principal *)
Record Principal := mkPrincipal {
  P_ID : string;
  Issuer : string;
  Email : string;
  PreferredUsername : string;
  P_Name : string;
  Groups : list string;
  IssuedAt : Time;
  P_ExpiresAt : Time
}.

Definition MaxIdentityAge : Duration := 15 * Minute.

Definition Principal_Valid (p : Principal) (now : Time) : bool :=
  ValidID (P_ID p) && negb (str_eqb (Issuer p) "") && negb (IsZero (IssuedAt p)) &&
  negb (After (IssuedAt p) (Add now (30 * Second))) && Before now (P_ExpiresAt p) &&
  (Sub now (IssuedAt p) <=? MaxIdentityAge).

(** ** OIDC verification *)

(** What [IDTokenVerifier.Verify] returns for a token it accepts, with the
    claims the program decodes from it. *)
Record IDToken := mkIDToken {
  T_Subject : string;
  T_Audience : list string;
  T_Nonce : string;
  T_IssuedAt : Time;
  T_Expiry : Time;
  C_Groups : list string;
  C_AuthorizedParty : string;
  C_NotBefore : Z;
  C_Email : string;
  C_PreferredUsername : string;
  C_Name : string
}.

Record OIDCVerifier := mkOIDCVerifier { V_issuer : string; V_audience : string }.

(** [strings.ContainsAny(s, "\r\n\x00")]. *)
Definition contains_control (s : string) : bool :=
  negb (str_forall (fun c => negb (is_char 13 c || is_char 10 c || is_char 0 c)) s).

Definition valid_group (g : string) : bool :=
  negb (str_eqb g "" || (256 <? slen g) || contains_control g).

Section Verify.
(** The library's signature, issuer, audience and expiry checks followed by
    [token.Claims]. *)
Context (verifier : string -> option IDToken).

Definition Verify (v : OIDCVerifier) (now : Time) (raw : string) : res Principal :=
  if (slen raw =? 0) || (16384 <? slen raw) then Err ErrUnauthenticated else
  match verifier raw with
  | None => Err ErrUnauthenticated
  | Some token =>
      if str_eqb (T_Subject token) "" || (1024 <? slen (T_Subject token))
         || (128 <? Z.of_nat (length (C_Groups token)))
      then Err ErrUnauthenticated else
      if (now / Second <? C_NotBefore token)
         || ((1 <? Z.of_nat (length (T_Audience token)))
             && negb (str_eqb (C_AuthorizedParty token) (V_audience v)))
      then Err ErrUnauthenticated else
      if negb (forallb valid_group (C_Groups token)) then Err ErrUnauthenticated else
      let groups := isort str_leb (C_Groups token) in
      let ageExpiry := Add (T_IssuedAt token) MaxIdentityAge in
      let expiry := if Before ageExpiry (T_Expiry token) then ageExpiry else T_Expiry token in
      let principal := mkPrincipal
        (sha256_hex (V_issuer v +:+ String (chr 0) (T_Subject token)))
        (V_issuer v) (C_Email token) (C_PreferredUsername token) (C_Name token)
        groups (T_IssuedAt token) expiry in
      if Principal_Valid principal now then Ok principal else Err ErrUnauthenticated
  end.

Definition VerifyNonce (v : OIDCVerifier) (now : Time) (raw nonce : string) : res Principal :=
  if str_eqb nonce "" || (16384 <? slen raw) then Err ErrUnauthenticated else
  match verifier raw with
  | None => Err ErrUnauthenticated
  | Some token =>
      if str_eqb (T_Nonce token) nonce then Verify v now raw else Err ErrUnauthenticated
  end.
End Verify.

(** ** Facts *)
Lemma ValidID_nonempty id : ValidID id = true -> id <> "".
Proof. intros H ->. discriminate H. Qed.

Lemma ValidID_chars id : ValidID id = true -> str_forall id_char id = true.
Proof. unfold ValidID. intros H. by breflect. Qed.

Lemma ValidID_length id : ValidID id = true -> 1 <= slen id <= 128.
Proof. unfold ValidID. intros H. breflect. pose proof (Nat2Z.is_nonneg (String.length id)). unfold slen in *. lia. Qed.

Lemma id_char_not_slash c : id_char c = true -> c <> "/"%char.
Proof. intros H ->. discriminate H. Qed.

Lemma str_forall_impl (p p' : ascii -> bool) s :
  (forall c, p c = true -> p' c = true) -> str_forall p s = true -> str_forall p' s = true.
Proof.
  intros Hp. induction s as [|c s IH]; simpl; [done|]. intros H. breflect.
  by rewrite Hp, IH.
Qed.

(** A text without the separator before it is determined by what precedes the
    first separator. *)
Lemma split_at_sep (x : ascii) (a b r1 r2 : string) :
  str_forall (fun c => negb (bool_decide (c = x))) a = true ->
  str_forall (fun c => negb (bool_decide (c = x))) b = true ->
  a +:+ String x r1 = b +:+ String x r2 -> a = b /\ r1 = r2.
Proof.
  revert b. induction a as [|c a IH]; intros [|c' b] Ha Hb; rewrite ?app_empty_s, ?app_cons_s; intros E.
  - by injection E.
  - injection E as -> E. simpl in Hb. by rewrite bool_decide_eq_true_2 in Hb.
  - injection E as -> E. simpl in Ha. by rewrite bool_decide_eq_true_2 in Ha.
  - injection E as -> E. simpl in *. breflect. destruct (IH b) as [-> ->]; [done..|]. done.
Qed.

Lemma ValidID_no_slash id :
  ValidID id = true -> str_forall (fun c => negb (bool_decide (c = "/"%char))) id = true.
Proof.
  intros H. eapply str_forall_impl; [|by apply ValidID_chars].
  intros c Hc. by rewrite bool_decide_eq_false_2 by (by apply id_char_not_slash).
Qed.

Lemma Scope_Validate_spec s :
  Scope_Validate s = true <->
  ValidID (OrganizationID s) = true /\ ValidID (ClusterID s) = true /\ ValidID (ApplicationID s) = true.
Proof. unfold Scope_Validate. rewrite !andb_true_iff. tauto. Qed.

(** Valid scopes are told apart by their keys, the text that selects the
    advisory lock of a transaction and the associated data of a grant. *)
Lemma Key_inj s1 s2 :
  Scope_Validate s1 = true -> Scope_Validate s2 = true -> Scope_Key s1 = Scope_Key s2 -> s1 = s2.
Proof.
  rewrite !Scope_Validate_spec. intros (O1 & C1 & A1) (O2 & C2 & A2) E.
  destruct s1 as [o1 c1 a1], s2 as [o2 c2 a2]. unfold Scope_Key in E. simpl in *.
  apply split_at_sep in E as [-> E]; [|by apply ValidID_no_slash..].
  apply split_at_sep in E as [-> E]; [|by apply ValidID_no_slash..].
  by subst.
Qed.

Lemma lower_hex_id_char c : is_lower_hex c = true -> id_char c = true.
Proof.
  unfold is_lower_hex, id_char, in_range, is_char. intros H. breflect.
  destruct H as [H|H]; breflect; bools_true; by rewrite ?orb_true_r.
Qed.

Lemma hex_encode_ValidID l :
  Forall (fun b => 0 <= b < 256) l -> (1 <= length l <= 64)%nat -> ValidID (hex_encode l) = true.
Proof.
  intros Hb Hl. unfold ValidID, slen. rewrite length_hex_encode. bools_true.
  eapply str_forall_impl; [apply lower_hex_id_char|]. by apply hex_encode_lower.
Qed.

Lemma sha256_hex_ValidID s : ValidID (sha256_hex s) = true.
Proof. apply hex_encode_ValidID; [apply sha256_bound|]. rewrite length_sha256. lia. Qed.

(** What a valid principal is, as arithmetic on its two instants. *)
Lemma Principal_Valid_spec p now :
  Principal_Valid p now = true <->
  ValidID (P_ID p) = true /\ Issuer p <> "" /\ IssuedAt p <> zeroTime /\
  IssuedAt p <= now + 30 * Second /\ now < P_ExpiresAt p /\ now <= IssuedAt p + MaxIdentityAge.
Proof.
  unfold Principal_Valid, IsZero, After, Before, Add, Sub.
  rewrite !andb_true_iff, !negb_true_iff, str_eqb_neq, Z.eqb_neq, Z.ltb_ge, Z.ltb_lt, Z.leb_le.
  unfold MaxIdentityAge, Minute, Second in *. change (2 ^ 63) with 9223372036854775808.
  rewrite Z.max_lub_iff, Z.min_le_iff. intuition lia.
Qed.

(** A principal that [Verify] returns is valid at that moment, carries the
    digest of issuer and subject as its identity, the groups of the token
    sorted, and never outlives the token or fifteen minutes. *)
Lemma Verify_sound verifier v now raw p :
  Verify verifier v now raw = Ok p ->
  exists token, verifier raw = Some token /\
    Principal_Valid p now = true /\
    P_ID p = sha256_hex (V_issuer v +:+ String (chr 0) (T_Subject token)) /\
    Permutation (Groups p) (C_Groups token) /\
    (forall g, g ∈ Groups p -> valid_group g = true) /\
    P_ExpiresAt p <= T_Expiry token /\ P_ExpiresAt p <= T_IssuedAt token + MaxIdentityAge.
Proof.
  unfold Verify. intros H. case_if_in H.
  destruct (verifier raw) as [token|]; [|discriminate]. exists token.
  case_if_in H. case_if_in H. case_if_in H.
  match type of H with context [Principal_Valid ?q _] => set (pr := q) in * end.
  case_if_in H. injection H as <-. split; [done|]. split; [done|]. split; [done|].
  split; [apply isort_perm|]. split.
  - intros g. cbn [Groups pr]. rewrite isort_elem. breflect. rewrite forallb_forall in *.
    intros Hg. apply E2. by apply list_elem_of_In.
  - subst pr. cbn [P_ExpiresAt]. unfold Before, Add in *.
    destruct (Z.ltb_spec (T_IssuedAt token + MaxIdentityAge) (T_Expiry token)); lia.
Qed.
