(* ===== verification/Authorization.v ===== *)
(** * pkg/authorization: bindings, permissions and queued grants

    policy.go, grant.go and shared.go.  A policy binds groups to roles in a
    scope; its version is the digest of its sorted bindings.  A queued grant is
    a principal sealed with AES-GCM under the policy's key, with scope,
    permission and policy version as associated data.  The cipher is the class
    [AEAD]: its laws are those of an authenticated cipher. *)

From S2P Require Import Prelude.
From S2P Require Import Json.
From S2P Require Import JsonFacts.
From S2P Require Import Sha256.
From S2P Require Import GoTime.
From S2P Require Import Decode.
From S2P Require Import Identity.

(** ** Roles and permissions *)
Inductive Permission :=
| Read | Investigate | Feedback | Approve | Adjudicate | ReviewKnowledge | Setup | SecurityPolicy.
#[export] Instance Permission_eq_dec : EqDecision Permission.
Proof. solve_decision. Defined.

Definition perm_string (p : Permission) : string :=
  match p with
  | Read => "read" | Investigate => "investigate" | Feedback => "feedback"
  | Approve => "approve" | Adjudicate => "adjudicate" | ReviewKnowledge => "review_knowledge"
  | Setup => "setup" | SecurityPolicy => "security_policy"
  end.

Definition Viewer := "VIEWER".
Definition Investigator := "INVESTIGATOR".
Definition Owner := "OWNER".
Definition Approver := "APPROVER".
Definition Steward := "STEWARD".
Definition Administrator := "ADMINISTRATOR".
Definition SecurityAdministrator := "SECURITY_ADMINISTRATOR".

(** The map [permissions]; a role that is not a key has a nil slice. *)
Definition permissions (role : string) : list Permission :=
  if str_eqb role Viewer then [Read]
  else if str_eqb role Investigator then [Read; Investigate; Feedback]
  else if str_eqb role Owner then [Read; Investigate; Feedback; Approve]
  else if str_eqb role Approver then [Read; Approve]
  else if str_eqb role Steward then [Read; Feedback; Adjudicate; ReviewKnowledge]
  else if str_eqb role Administrator then [Setup]
  else if str_eqb role SecurityAdministrator then [SecurityPolicy]
  else [].

(** ** Policy *)
Record Binding := mkBinding { B_Scope : Scope; B_Group : string; B_Role : string }.

Record Policy := mkPolicy {
  grantKey : list Z;
  bindings : list Binding;
  version : string
}.

Definition scope_json (s : Scope) : json :=
  JObj [("organization_id", JStr (OrganizationID s)); ("cluster_id", JStr (ClusterID s));
        ("application_id", JStr (ApplicationID s))].
Definition binding_json (b : Binding) : json :=
  JObj [("scope", scope_json (B_Scope b)); ("group", JStr (B_Group b)); ("role", JStr (B_Role b))].

Definition nul : string := String (chr 0) "".

Definition binding_key (b : Binding) : string :=
  Scope_Key (B_Scope b) +:+ nul +:+ B_Group b +:+ nul +:+ B_Role b.

Definition binding_ok (b : Binding) : bool :=
  Scope_Validate (B_Scope b) && valid_group (B_Group b) &&
  match permissions (B_Role b) with [] => false | _ => true end.

(** The loop over the copied bindings with its [seen] map. *)
Fixpoint check_bindings (seen : list string) (l : list Binding) : bool :=
  match l with
  | [] => true
  | b :: l =>
      binding_ok b && negb (mem_str (binding_key b) seen) && check_bindings (binding_key b :: seen) l
  end.

Definition binding_leb (a b : Binding) : bool :=
  str_leb (encode (binding_json a)) (encode (binding_json b)).

(** [NewPolicy] on its bindings and the 32 random bytes of its grant key. *)
Definition NewPolicy (l : list Binding) (key : list Z) : res Policy :=
  let n := Z.of_nat (length l) in
  if (n =? 0) || (10000 <? n) then Err ErrForbidden else
  if negb (check_bindings [] l) then Err ErrForbidden else
  let copied := isort binding_leb l in
  Ok (mkPolicy key copied (sha256_hex (encode (JArr (map binding_json copied))))).

(** A nil [*Policy] is [None]. *)
Definition Version (p : option Policy) : string :=
  match p with None => "" | Some p => version p end.

Definition grants (principal : Principal) (scope : Scope) (permission : Permission) (b : Binding) : bool :=
  scope_eqb (B_Scope b) scope &&
  existsb (fun group => str_eqb (B_Group b) group &&
             existsb (fun allowed => bool_decide (allowed = permission)) (permissions (B_Role b)))
          (Groups principal).

(** [Authorize] at the instant [now] its [time.Now()] returns. *)
Definition Authorize (p : option Policy) (now : Time) (principal : Principal) (scope : Scope)
  (permission : Permission) : bool :=
  match p with
  | None => false
  | Some p =>
      Scope_Validate scope && Principal_Valid principal now &&
      existsb (grants principal scope permission) (bindings p)
  end.

Fixpoint scopes_loop (ok : Scope -> bool) (seen : list string) (l : list Binding) : list Scope :=
  match l with
  | [] => []
  | b :: l =>
      let key := Scope_Key (B_Scope b) in
      if negb (mem_str key seen) && ok (B_Scope b)
      then B_Scope b :: scopes_loop ok (key :: seen) l
      else scopes_loop ok seen l
  end.

(** [ScopesFor] with one clock reading for its loop. *)
Definition ScopesFor (p : Policy) (now : Time) (principal : Principal) (permission : Permission) : list Scope :=
  scopes_loop (fun s => Authorize (Some p) now principal s permission) [] (bindings p).
Definition Scopes (p : option Policy) (now : Time) (principal : Principal) : list Scope :=
  match p with None => [] | Some p => ScopesFor p now principal Read end.

(** ** Facts on policies *)

(** Authority is exactly a binding of this scope for one of the principal's
    groups whose role lists the permission, and a currently valid principal. *)
Lemma Authorize_spec p now principal scope permission :
  Authorize (Some p) now principal scope permission = true <->
  Scope_Validate scope = true /\ Principal_Valid principal now = true /\
  exists b, b ∈ bindings p /\ B_Scope b = scope /\ B_Group b ∈ Groups principal /\
            permission ∈ permissions (B_Role b).
Proof.
  unfold Authorize. rewrite !andb_true_iff, existsb_exists. split.
  - intros [[Hs Hp] (b & Hin & Hg)]. split; [done|]. split; [done|].
    unfold grants in Hg. apply andb_true_iff in Hg as [Hsc Hg].
    apply existsb_exists in Hg as (g & Hgin & Hg). apply andb_true_iff in Hg as [Hgg Ha].
    apply existsb_exists in Ha as (a & Ha & Hap).
    unfold scope_eqb in Hsc. breflect. subst.
    exists b. by rewrite !list_elem_of_In.
  - intros (Hs & Hp & b & Hin & <- & Hg & Ha). split; [done|].
    exists b. split; [by apply list_elem_of_In|]. unfold grants, scope_eqb.
    rewrite bool_decide_eq_true_2 by done. simpl. apply existsb_exists. exists (B_Group b).
    split; [by apply list_elem_of_In|]. rewrite str_eqb_refl. simpl.
    apply existsb_exists. exists permission. split; [by apply list_elem_of_In|].
    by apply bool_decide_eq_true.
Qed.

(** Only owners and approvers approve; nobody who approves can set up agents
    or change the security policy. *)
Lemma approve_roles role :
  Approve ∈ permissions role ->
  (role = Owner \/ role = Approver) /\ (Setup ∉ permissions role) /\ (SecurityPolicy ∉ permissions role).
Proof.
  unfold permissions.
  repeat (case_if as E; breflect; [subst;
    rewrite ?elem_of_cons, ?elem_of_nil; intros Ha; split; [|split]; intuition (by auto || congruence)|clear E]).
  by intros Ha%elem_of_nil.
Qed.

Lemma binding_leb_total a b : binding_leb a b = true \/ binding_leb b a = true.
Proof. apply str_leb_total. Qed.
Lemma binding_leb_trans a b c :
  binding_leb a b = true -> binding_leb b c = true -> binding_leb a c = true.
Proof. apply str_leb_trans. Qed.

Lemma check_bindings_spec seen l :
  check_bindings seen l = true <->
  Forall (fun b => binding_ok b = true) l /\ NoDup (map binding_key l) /\
  (forall b, b ∈ l -> binding_key b ∉ seen).
Proof.
  revert seen. induction l as [|b l IH]; intros seen; simpl.
  - split; [|done]. intros _. split; [constructor|]. split; [constructor|]. by intros b Hb%elem_of_nil.
  - rewrite !andb_true_iff, negb_true_iff, IH, Forall_cons, NoDup_cons.
    unfold mem_str. rewrite bool_decide_eq_false. split.
    + intros [[Hb Hs] (Hl & Hn & Hd)]. repeat split; try done.
      * intros Hin. apply list_elem_of_In, in_map_iff in Hin as (b' & E & Hin).
        apply (Hd b'); [by apply list_elem_of_In|]. rewrite E. by left.
      * intros b' [->|Hb']%elem_of_cons; [done|]. intros Hin. apply (Hd b' Hb'). by right.
    + intros ([Hb Hl] & [Hk Hn] & Hd). repeat split; try done.
      * apply Hd. by left.
      * intros b' Hb' [E|Hin]%elem_of_cons; [|by apply (Hd b'); [right|]].
        apply Hk. rewrite <- E. apply list_elem_of_In, in_map, list_elem_of_In, Hb'.
Qed.

Lemma check_bindings_perm l1 l2 :
  Permutation l1 l2 -> check_bindings [] l1 = check_bindings [] l2.
Proof.
  intros Hp. apply eq_true_iff_eq. rewrite !check_bindings_spec, Hp.
  split; intros (H1 & H2 & H3); (split; [done|]); (split; [by rewrite ?Hp, <- ?Hp in *|]);
    intros b _; apply not_elem_of_nil.
Qed.

Lemma isort_map_key {A B} (f : A -> B) (leb : B -> B -> bool) (l : list A) :
  map f (isort (fun a b => leb (f a) (f b)) l) = isort leb (map f l).
Proof.
  assert (Hi : forall x m, map f (insert_sorted (fun a b => leb (f a) (f b)) x m) = insert_sorted leb (f x) (map f m)).
  { intros x m. induction m as [|y m IH]; [done|]. simpl. destruct (leb (f x) (f y)); [done|]. simpl. by rewrite IH. }
  induction l as [|x l IH]; [done|]. simpl. by rewrite Hi, IH.
Qed.

Lemma isort_str_perm l1 l2 : Permutation l1 l2 -> isort str_leb l1 = isort str_leb l2.
Proof.
  intros Hp. apply sorted_perm_eq with (R := fun a b => str_leb a b = true).
  - intros x y _ _. apply str_leb_antisym.
  - apply isort_sorted; [apply str_leb_total|apply str_leb_trans].
  - apply isort_sorted; [apply str_leb_total|apply str_leb_trans].
  - by rewrite !isort_perm.
Qed.

(** The version of a policy does not depend on the order in which its bindings
    are configured. *)
Lemma NewPolicy_perm l1 l2 k1 k2 :
  Permutation l1 l2 ->
  is_ok (NewPolicy l1 k1) = is_ok (NewPolicy l2 k2) /\
  (forall p1 p2, NewPolicy l1 k1 = Ok p1 -> NewPolicy l2 k2 = Ok p2 -> version p1 = version p2).
Proof.
  intros Hp. unfold NewPolicy. rewrite <- (Permutation_length Hp), <- (check_bindings_perm _ _ Hp).
  case_if as E1; [done|]. case_if as E2; [done|]. split; [done|].
  intros p1 p2 [= <-] [= <-]. cbn [version encode]. do 4 f_equal. rewrite !map_map.
  rewrite !(isort_map_key (fun b => encode (binding_json b)) str_leb).
  apply isort_str_perm. by rewrite Hp.
Qed.

(** Adding bindings never removes authority. *)
Lemma Authorize_mono p q now principal scope permission :
  bindings p ⊆ bindings q ->
  Authorize (Some p) now principal scope permission = true ->
  Authorize (Some q) now principal scope permission = true.
Proof.
  rewrite !Authorize_spec. intros Hs (H1 & H2 & b & Hb & H3). split; [done|]. split; [done|].
  exists b. split; [by apply Hs|done].
Qed.

Lemma scopes_loop_spec ok seen l s :
  (forall b, b ∈ l -> Scope_Validate (B_Scope b) = true) -> Scope_Validate s = true ->
  (s ∈ scopes_loop ok seen l) <->
  (Scope_Key s ∉ seen) /\ ok s = true /\ exists b, b ∈ l /\ B_Scope b = s.
Proof.
  intros Hv Hs. revert seen. induction l as [|b l IH]; intros seen; cbn [scopes_loop].
  - rewrite elem_of_nil. split; [done|]. intros (_ & _ & b & Hb%elem_of_nil & _). done.
  - assert (IH' := IH (fun b' Hb' => Hv b' (list_elem_of_further _ _ _ Hb'))). clear IH.
    case_if as E.
    + apply andb_true_iff in E as [E1 E2]. unfold mem_str in E1. breflect.
      rewrite elem_of_cons, IH', elem_of_cons. split.
      * intros [->|(Hk & Ho & b' & Hb' & Eb)].
        -- split; [done|]. split; [done|]. exists b. split; [by left|done].
        -- split; [tauto|]. split; [done|]. exists b'. split; [by right|done].
      * intros (Hn & Ho & b' & [->|Hb']%elem_of_cons & Eb); [by left|].
        destruct (decide (Scope_Key s = Scope_Key (B_Scope b))) as [Ek|Ek].
        -- left. apply Key_inj; [done|apply Hv; by left|done].
        -- right. split; [by intros [?|?]|]. split; [done|]. by exists b'.
    + rewrite IH'. split.
      * intros (Hn & Ho & b' & Hb' & Eb). split; [done|]. split; [done|]. exists b'. split; [by right|done].
      * intros (Hn & Ho & b' & [->|Hb']%elem_of_cons & <-); [|by split; [|split; [|exists b']]].
        unfold mem_str in E. rewrite bool_decide_eq_false_2, Ho in E by done. done.
Qed.

(** ** Queued grants: grant.go and shared.go *)

(** AES-GCM ([crypto/cipher]): a 12-byte nonce, a 16-byte tag.  Opening what
    was sealed under the same key, nonce and associated data gives the
    plaintext, and under other associated data fails. *)
Class AEAD := {
  seal : list Z -> list Z -> string -> string -> list Z;
  open : list Z -> list Z -> list Z -> string -> option string;
  open_seal : forall k n pt aad, open k n (seal k n pt aad) aad = Some pt;
  open_other : forall k n pt aad aad', aad <> aad' -> open k n (seal k n pt aad) aad' = None;
  seal_overhead : forall k n pt aad, (16 <= length (seal k n pt aad))%nat;
  seal_bytes : forall k n pt aad, Forall (fun b => 0 <= b < 256) (seal k n pt aad)
}.

(** [base64.RawURLEncoding.DecodeString]: line breaks are skipped. *)
Definition b64_value (c : ascii) : option Z :=
  let b := ord c in
  if in_range 65 90 c then Some (b - 65)
  else if in_range 97 122 c then Some (b - 71)
  else if in_range 48 57 c then Some (b + 4)
  else if b =? 45 then Some 62
  else if b =? 95 then Some 63
  else None.

Fixpoint strip_breaks (s : string) : string :=
  match s with
  | EmptyString => ""
  | String c s => if is_char 13 c || is_char 10 c then strip_breaks s else String c (strip_breaks s)
  end.

Fixpoint b64_groups (s : string) : option (list Z) :=
  match s with
  | EmptyString => Some []
  | String a (String b (String c (String d s))) =>
      x ← b64_value a; y ← b64_value b; z ← b64_value c; t ← b64_value d;
      rest ← b64_groups s;
      Some (x * 4 + y / 16 :: (y mod 16) * 16 + z / 4 :: (z mod 4) * 64 + t :: rest)
  | String a (String b (String c EmptyString)) =>
      x ← b64_value a; y ← b64_value b; z ← b64_value c;
      Some [x * 4 + y / 16; (y mod 16) * 16 + z / 4]
  | String a (String b EmptyString) =>
      x ← b64_value a; y ← b64_value b; Some [x * 4 + y / 16]
  | String _ EmptyString => None
  end.
Definition b64_decode (s : string) : option (list Z) := b64_groups (strip_breaks s).

Definition principal_json (p : Principal) : option json :=
  ia ← jtime (IssuedAt p); ea ← jtime (P_ExpiresAt p);
  Some (JObj ([("id", JStr (P_ID p)); ("issuer", JStr (Issuer p))]
    ++ omit_if (str_eqb (Email p) "") [("email", JStr (Email p))]
    ++ omit_if (str_eqb (PreferredUsername p) "") [("preferred_username", JStr (PreferredUsername p))]
    ++ omit_if (str_eqb (P_Name p) "") [("name", JStr (P_Name p))]
    ++ [("issued_at", ia); ("expires_at", ea)])).

(** [queuedPrincipal]; a nil and an empty group list decode alike. *)
Definition queued_json (p : Principal) : option json :=
  pj ← principal_json p;
  Some (JObj [("principal", pj); ("groups", JArr (map JStr (Groups p)))]).

Definition zero_principal : Principal := mkPrincipal "" "" "" "" "" [] zeroTime zeroTime.

Definition set_id v p := mkPrincipal v (Issuer p) (Email p) (PreferredUsername p) (P_Name p) (Groups p) (IssuedAt p) (P_ExpiresAt p).
Definition set_issuer v p := mkPrincipal (P_ID p) v (Email p) (PreferredUsername p) (P_Name p) (Groups p) (IssuedAt p) (P_ExpiresAt p).
Definition set_email v p := mkPrincipal (P_ID p) (Issuer p) v (PreferredUsername p) (P_Name p) (Groups p) (IssuedAt p) (P_ExpiresAt p).
Definition set_username v p := mkPrincipal (P_ID p) (Issuer p) (Email p) v (P_Name p) (Groups p) (IssuedAt p) (P_ExpiresAt p).
Definition set_name v p := mkPrincipal (P_ID p) (Issuer p) (Email p) (PreferredUsername p) v (Groups p) (IssuedAt p) (P_ExpiresAt p).
Definition set_groups v p := mkPrincipal (P_ID p) (Issuer p) (Email p) (PreferredUsername p) (P_Name p) v (IssuedAt p) (P_ExpiresAt p).
Definition set_issued v p := mkPrincipal (P_ID p) (Issuer p) (Email p) (PreferredUsername p) (P_Name p) (Groups p) v (P_ExpiresAt p).
Definition set_expires v p := mkPrincipal (P_ID p) (Issuer p) (Email p) (PreferredUsername p) (P_Name p) (Groups p) (IssuedAt p) v.

Definition principal_fields : list (field_decoder Principal) :=
  [field "id" P_ID set_id dec_string; field "issuer" Issuer set_issuer dec_string;
   field "email" Email set_email dec_string;
   field "preferred_username" PreferredUsername set_username dec_string;
   field "name" P_Name set_name dec_string;
   field "issued_at" IssuedAt set_issued dec_time; field "expires_at" P_ExpiresAt set_expires dec_time].

Definition queued_fields : list (field_decoder (Principal * list string)) :=
  [field "principal" fst (fun p q => (p, snd q)) (dec_struct false principal_fields);
   field "groups" snd (fun g q => (fst q, g)) (dec_list "" dec_string)].

Definition grant_aad (p : Policy) (scope : Scope) (permission : Permission) : string :=
  Scope_Key scope +:+ "/" +:+ perm_string permission +:+ "/" +:+ version p.

Section Grants.
Context `{AEAD}.

(** [SealPrincipal] at [now], with the nonce it draws. *)
Definition SealPrincipal (p : Policy) (now : Time) (nonce : list Z) (principal : Principal)
  (scope : Scope) (permission : Permission) : res string :=
  if negb (Authorize (Some p) now principal scope permission) then Err ErrForbidden else
  let raw := default "" (Marshal (queued_json principal)) in
  Ok (base64url (nonce ++ seal (grantKey p) nonce raw (grant_aad p scope permission))).

Definition OpenPrincipal (p : option Policy) (now : Time) (token : string)
  (scope : Scope) (permission : Permission) : res Principal :=
  match p with
  | None => Err ErrForbidden
  | Some p =>
      if negb (Scope_Validate scope) || (65536 <? slen token) then Err ErrForbidden else
      match b64_decode token with
      | None => Err ErrForbidden
      | Some encoded =>
          if Z.of_nat (length encoded) <? 12 + 16 then Err ErrForbidden else
          match open (grantKey p) (take 12 encoded) (drop 12 encoded) (grant_aad p scope permission) with
          | None => Err ErrForbidden
          | Some raw =>
              match Unmarshal queued_fields (zero_principal, []) raw with
              | None => Err ErrForbidden
              | Some (q, groups) =>
                  let q := set_groups groups q in
                  if Authorize (Some p) now q scope permission then Ok q else Err ErrForbidden
              end
          end
      end
  end.
End Grants.

(** HMAC-SHA256 with a key of at most 64 bytes. *)
Fixpoint string_of (l : list Z) : string :=
  match l with [] => "" | b :: l => String (chr b) (string_of l) end.
Definition hmac_sha256 (key : list Z) (msg : string) : list Z :=
  let k := key ++ replicate (64 - length key) 0 in
  let ipad := string_of (map (Z.lxor 0x36) k) in
  let opad := string_of (map (Z.lxor 0x5c) k) in
  sha256 (opad +:+ string_of (sha256 (ipad +:+ msg))).

Definition SetGrantKey (p : option Policy) (master : list Z) (generation : string) : res Policy :=
  match p with
  | None => Err ErrForbidden
  | Some p =>
      if negb (Z.of_nat (length master) =? 32) || negb (ValidID generation) then Err ErrForbidden
      else Ok (mkPolicy (hmac_sha256 master ("sre-queued-authority/v1/" +:+ generation))
                 (bindings p) (version p))
  end.

(** RFC 4231, test case 2. *)
Example hmac_rfc4231 :
  hex_encode (hmac_sha256 (bytes_of "Jefe") "what do ya want for nothing?")
  = "5bdcc146bf60754e6a042426089575c75a003f089d2739839dec58b964ec3843".
Proof. vm_compute. reflexivity. Qed.

(** ** Facts on grants *)
Lemma b64_checked :
  forallb (fun z => bool_decide (b64_value (b64_digit z) = Some z)
                    && negb (is_char 13 (b64_digit z) || is_char 10 (b64_digit z))) (seqZ 0 64) = true.
Proof. vm_compute. reflexivity. Qed.

Lemma b64_digit_spec z : 0 <= z < 64 ->
  b64_value (b64_digit z) = Some z /\ is_char 13 (b64_digit z) || is_char 10 (b64_digit z) = false.
Proof.
  intros Hz. pose proof b64_checked as Hc. rewrite forallb_forall in Hc.
  specialize (Hc z). rewrite <- list_elem_of_In, elem_of_seqZ in Hc.
  specialize (Hc ltac:(lia)). apply andb_true_iff in Hc as [H1 H2].
  split; [by apply bool_decide_eq_true in H1|by apply negb_true_iff in H2].
Qed.

Lemma list_ind3 {A} (P : list A -> Prop) :
  P [] -> (forall a, P [a]) -> (forall a b, P [a; b]) ->
  (forall a b c l, P l -> P (a :: b :: c :: l)) -> forall l, P l.
Proof.
  intros H0 H1 H2 H3. fix IH 1. intros [|a [|b [|c l]]]; [done|done|done|]. apply H3, IH.
Qed.

Lemma b64_roundtrip l : Forall (fun b => 0 <= b < 256) l -> b64_decode (base64url l) = Some l.
Proof.
  unfold b64_decode. induction l as [|a|a b|a b c l IH] using list_ind3; intros Hf;
    rewrite ?Forall_cons in Hf; [done| | |].
  - destruct Hf as [Ha _]. cbn [base64url strip_breaks].
    destruct (b64_digit_spec (a / 4)) as [V1 S1]; [Z.to_euclidean_division_equations; lia|].
    destruct (b64_digit_spec (a mod 4 * 16)) as [V2 S2]; [Z.to_euclidean_division_equations; lia|].
    rewrite S1, S2. cbn [b64_groups]. rewrite V1, V2. cbn [mbind option_bind].
    do 2 f_equal. Z.to_euclidean_division_equations; lia.
  - destruct Hf as (Ha & Hb & _). cbn [base64url strip_breaks].
    destruct (b64_digit_spec (a / 4)) as [V1 S1]; [Z.to_euclidean_division_equations; lia|].
    destruct (b64_digit_spec (a mod 4 * 16 + b / 16)) as [V2 S2]; [Z.to_euclidean_division_equations; lia|].
    destruct (b64_digit_spec (b mod 16 * 4)) as [V3 S3]; [Z.to_euclidean_division_equations; lia|].
    rewrite S1, S2, S3. cbn [b64_groups]. rewrite V1, V2, V3. cbn [mbind option_bind].
    f_equal. f_equal; [|f_equal]; Z.to_euclidean_division_equations; lia.
  - destruct Hf as (Ha & Hb & Hc & Hl). cbn [base64url strip_breaks].
    destruct (b64_digit_spec (a / 4)) as [V1 S1]; [Z.to_euclidean_division_equations; lia|].
    destruct (b64_digit_spec (a mod 4 * 16 + b / 16)) as [V2 S2]; [Z.to_euclidean_division_equations; lia|].
    destruct (b64_digit_spec (b mod 16 * 4 + c / 64)) as [V3 S3]; [Z.to_euclidean_division_equations; lia|].
    destruct (b64_digit_spec (c mod 64)) as [V4 S4]; [Z.to_euclidean_division_equations; lia|].
    rewrite S1, S2, S3, S4. cbn [b64_groups]. rewrite V1, V2, V3, V4. cbn [mbind option_bind].
    rewrite (IH Hl). cbn [mbind option_bind].
    f_equal. f_equal; [|f_equal; [|f_equal]]; Z.to_euclidean_division_equations; lia.
Qed.

Lemma perm_string_inj p q : perm_string p = perm_string q -> p = q.
Proof. by destruct p, q. Qed.

Lemma perm_no_slash p :
  str_forall (fun c => negb (bool_decide (c = "/"%char))) (perm_string p) = true.
Proof. by destruct p. Qed.

(** The associated data of a grant determines scope, permission and policy
    version. *)
Lemma grant_aad_inj p1 p2 s1 s2 q1 q2 :
  Scope_Validate s1 = true -> Scope_Validate s2 = true ->
  grant_aad p1 s1 q1 = grant_aad p2 s2 q2 -> s1 = s2 /\ q1 = q2 /\ version p1 = version p2.
Proof.
  rewrite !Scope_Validate_spec. intros (O1 & C1 & A1) (O2 & C2 & A2) E.
  destruct s1 as [o1 c1 a1], s2 as [o2 c2 a2]. unfold grant_aad, Scope_Key in E.
  cbn [OrganizationID ClusterID ApplicationID] in *.
  rewrite !app_assoc_s in E.
  apply split_at_sep in E as [-> E]; [|by apply ValidID_no_slash..].
  apply split_at_sep in E as [-> E]; [|by apply ValidID_no_slash..].
  apply split_at_sep in E as [-> E]; [|by apply ValidID_no_slash..].
  apply split_at_sep in E as [E ->]; [|by apply perm_no_slash..].
  by apply perm_string_inj in E as ->.
Qed.

(** The strings of a principal are UTF-8 (a token that a JSON decoder produced
    has no others). *)
Definition principal_utf8 (p : Principal) : Prop :=
  utf8 (P_ID p) /\ utf8 (Issuer p) /\ utf8 (Email p) /\ utf8 (PreferredUsername p) /\
  utf8 (P_Name p) /\ Forall utf8 (Groups p).

Lemma good_queued p j :
  queued_json p = Some j -> principal_utf8 p -> good 0 j.
Proof.
  unfold queued_json, principal_json. intros Hj (U1 & U2 & U3 & U4 & U5 & U6).
  destruct (jtime (IssuedAt p)) as [ia|] eqn:Ei; [|done].
  destruct (jtime (P_ExpiresAt p)) as [ea|] eqn:Ee; [|done]. injection Hj as <-.
  assert (good 2 ia) by (eapply good_jtime; [|done]; lia).
  assert (good 2 ea) by (eapply good_jtime; [|done]; lia).
  good_tac.
Qed.

Lemma dec_queued p j :
  queued_json p = Some j ->
  dec_struct false queued_fields j (zero_principal, []) = Some (set_groups [] p, Groups p).
Proof.
  unfold queued_json, principal_json. intros Hj.
  destruct (jtime (IssuedAt p)) as [ia|] eqn:Ei; [|done].
  destruct (jtime (P_ExpiresAt p)) as [ea|] eqn:Ee; [|done]. injection Hj as <-.
  pose proof (fun old => jtime_roundtrip _ _ old Ei) as Ri.
  pose proof (fun old => jtime_roundtrip _ _ old Ee) as Re.
  destruct p as [pid iss em un nm gs isd ex]. cbn [P_ID Issuer Email PreferredUsername P_Name Groups IssuedAt P_ExpiresAt] in *.
  unfold dec_struct at 1, queued_fields. dec_step.
  unfold principal_fields.
  destruct (str_eqb em "") eqn:E1, (str_eqb un "") eqn:E2, (str_eqb nm "") eqn:E3; breflect; subst;
    cbn [omit_if app dec_struct]; repeat dec_step; cbn [dec_string mbind option_bind];
    repeat first [rewrite Ri | rewrite Re | rewrite dec_strings
      | progress cbn [mbind option_bind dec_list dec_members fst snd]]; done.
Qed.

Lemma read_json_encode j : good 0 j -> read_json (encode j) = Some j.
Proof. intros Hg. unfold read_json. by rewrite (read_encode_all _ Hg). Qed.

Section GrantFacts.
Context `{AEAD}.

Lemma sealed_bytes k (nonce : list Z) pt aad :
  length nonce = 12%nat -> Forall (fun b => 0 <= b < 256) nonce ->
  b64_decode (base64url (nonce ++ seal k nonce pt aad)) = Some (nonce ++ seal k nonce pt aad) /\
  (Z.of_nat (length (nonce ++ seal k nonce pt aad)) <? 12 + 16) = false /\
  take 12 (nonce ++ seal k nonce pt aad) = nonce /\
  drop 12 (nonce ++ seal k nonce pt aad) = seal k nonce pt aad.
Proof.
  intros Hl Hb. rewrite <- Hl, take_app_length, drop_app_length.
  split; [apply b64_roundtrip, Forall_app; split; [done|apply seal_bytes]|].
  split; [|done]. rewrite length_app, Hl. pose proof (seal_overhead k nonce pt aad).
  apply Z.ltb_ge. lia.
Qed.

(** A grant opens to the principal it was sealed for, as long as that
    principal still holds the permission. *)
Lemma OpenPrincipal_Seal p now now' nonce principal scope permission token :
  length nonce = 12%nat -> Forall (fun b => 0 <= b < 256) nonce ->
  principal_utf8 principal -> is_Some (queued_json principal) ->
  SealPrincipal p now nonce principal scope permission = Ok token ->
  slen token <= 65536 -> Authorize (Some p) now' principal scope permission = true ->
  OpenPrincipal (Some p) now' token scope permission = Ok principal.
Proof.
  intros Hl Hb Hu [j Hj] Hs Ht Ha. unfold SealPrincipal in Hs. rewrite Hj in Hs.
  change (default "" (Marshal (Some j))) with (encode j) in Hs.
  destruct (Authorize (Some p) now principal scope permission) eqn:Ea; [|done]. injection Hs as <-.
  apply Authorize_spec in Ea as [Hv _]. unfold OpenPrincipal.
  rewrite Hv. cbn [negb orb]. bools_true.
  destruct (sealed_bytes (grantKey p) nonce (encode j) (grant_aad p scope permission)) as (-> & -> & -> & ->);
    [done..|].
  rewrite open_seal. unfold Unmarshal.
  rewrite (read_json_encode _ (good_queued _ _ Hj Hu)). cbn [mbind option_bind].
  rewrite (dec_queued _ _ Hj).
  replace (set_groups (Groups principal) (set_groups [] principal)) with principal by (by destruct principal).
  by rewrite Ha.
Qed.

(** A grant of a principal that no longer holds the permission does not open. *)
Lemma OpenPrincipal_denied p now now' nonce principal scope permission token :
  length nonce = 12%nat -> Forall (fun b => 0 <= b < 256) nonce ->
  principal_utf8 principal -> is_Some (queued_json principal) ->
  SealPrincipal p now nonce principal scope permission = Ok token ->
  Authorize (Some p) now' principal scope permission = false ->
  OpenPrincipal (Some p) now' token scope permission = Err ErrForbidden.
Proof.
  intros Hl Hb Hu [j Hj] Hs Ha. unfold SealPrincipal in Hs. rewrite Hj in Hs.
  change (default "" (Marshal (Some j))) with (encode j) in Hs.
  destruct (Authorize (Some p) now principal scope permission) eqn:Ea; [|done]. injection Hs as <-.
  apply Authorize_spec in Ea as [Hv _]. unfold OpenPrincipal.
  case_if as El; [done|].
  destruct (sealed_bytes (grantKey p) nonce (encode j) (grant_aad p scope permission)) as (-> & -> & -> & ->);
    [done..|].
  rewrite open_seal. unfold Unmarshal.
  rewrite (read_json_encode _ (good_queued _ _ Hj Hu)). cbn [mbind option_bind].
  rewrite (dec_queued _ _ Hj).
  replace (set_groups (Groups principal) (set_groups [] principal)) with principal by (by destruct principal).
  by rewrite Ha.
Qed.

(** A grant is worthless in another scope, for another permission or under
    another policy version, even with the same key. *)
Lemma OpenPrincipal_other p p' now now' nonce principal scope scope' permission permission' token :
  length nonce = 12%nat -> Forall (fun b => 0 <= b < 256) nonce -> grantKey p' = grantKey p ->
  SealPrincipal p now nonce principal scope permission = Ok token ->
  (scope', permission', version p') <> (scope, permission, version p) ->
  OpenPrincipal (Some p') now' token scope' permission' = Err ErrForbidden.
Proof.
  intros Hl Hb Hk Hs Hne. unfold SealPrincipal in Hs.
  destruct (Authorize (Some p) now principal scope permission) eqn:Ea; [|done]. injection Hs as <-.
  apply Authorize_spec in Ea as [Hv _]. unfold OpenPrincipal.
  destruct (Scope_Validate scope') eqn:Hv'; [|done]. cbn [negb orb]. case_if as El; [done|].
  destruct (sealed_bytes (grantKey p) nonce (default "" (Marshal (queued_json principal)))
    (grant_aad p scope permission)) as (-> & -> & -> & ->); [done..|].
  rewrite Hk, open_other; [done|]. intros E.
  apply grant_aad_inj in E as (-> & -> & E); [|done..]. congruence.
Qed.
End GrantFacts.
