(* ===== verification/Incident.v ===== *)
(** * pkg/incident: the records of the orchestrator

    The structs of pkg/incident/*.go with their Go field names (a prefix tells
    apart fields that several structs share), the hash that identifies an
    action plan ([ActionPlan.Hash]) and the envelope hash that makes an item
    immutable ([Item.Seal]). *)

From S2P Require Import Prelude.
From S2P Require Import Sha256.
From S2P Require Import Json.
From S2P Require Import JsonFacts.
From S2P Require Import GoTime.
From S2P Require Import Decode.
From S2P Require Import Identity.
From S2P Require Import Authorization.

(** ** types.go *)
Inductive ItemKind := Evidence | Claim | OtherKind (s : string).
#[export] Instance ItemKind_eq_dec : EqDecision ItemKind.
Proof. solve_decision. Defined.
Definition kind_string (k : ItemKind) : string :=
  match k with Evidence => "EVIDENCE" | Claim => "CLAIM" | OtherKind s => s end.

Record ItemRef := mkRef { R_ID : string; R_Version : Z }.
#[export] Instance ItemRef_eq_dec : EqDecision ItemRef.
Proof. solve_decision. Defined.

Record Item := mkItem {
  I_Scope : Scope;
  I_IncidentID : string;
  I_ID : string;
  I_Version : Z;
  I_Kind : ItemKind;
  I_Body : string;
  I_ObservedAt : Time;
  I_ValidUntil : Time;
  I_Parents : list ItemRef;
  I_Hash : string
}.
#[export] Instance Item_eq_dec : EqDecision Item.
Proof. solve_decision. Defined.

Record Incident := mkIncident {
  N_Scope : Scope; N_ID : string; N_Version : Z; N_State : string; N_OpenedAt : Time
}.

(** ** action.go *)
Record ActionPlan := mkPlan {
  Pl_Scope : Scope;
  Pl_ID : string;
  Pl_IncidentID : string;
  Pl_Kind : string;
  Pl_Evidence : ItemRef;
  Pl_EvidenceHash : string;
  Pl_ResourceHandle : string;
  Pl_TargetCommitment : string;
  Pl_SourceAgentID : string;
  Pl_SourceGeneration : Z;
  Pl_ExecutorID : string;
  Pl_ExecutorGeneration : Z;
  Pl_Epoch : string;
  Pl_PolicyVersion : string;
  Pl_ExpiresAt : Time
}.
#[export] Instance ActionPlan_eq_dec : EqDecision ActionPlan.
Proof. solve_decision. Defined.

Record Action := mkAction {
  A_Plan : ActionPlan;
  A_Hash : string;
  A_Version : Z;
  A_State : string;
  A_ProposedBy : string;
  A_ApprovedBy : string;
  A_ApprovalExpiresAt : Time;
  A_CreatedAt : Time;
  A_SubmittedAt : Time;
  A_CompletedAt : Time;
  A_OutcomeCode : string;
  A_ReconciledBy : string
}.
#[export] Instance Action_eq_dec : EqDecision Action.
Proof. solve_decision. Defined.

(** ** agent.go, check.go, context.go *)
Record Agent := mkAgent {
  G_Scope : Scope;
  G_ID : string;
  G_Role : string;
  G_Audience : string;
  G_Epoch : string;
  G_Generation : Z;
  G_ClusterUID : string;
  G_ExpiresAt : Time;
  G_Revoked : bool
}.
#[export] Instance Agent_eq_dec : EqDecision Agent.
Proof. solve_decision. Defined.

Record AgentBootstrap := mkBootstrap { BS_Agent : Agent; BS_TokenHash : string; BS_ExpiresAt : Time }.

Record CollectionCheck := mkCheck {
  CC_Scope : Scope; CC_ID : string; CC_IncidentID : string; CC_AgentID : string; CC_Generation : Z;
  CC_Handle : string; CC_Kind : string; CC_CreatedAt : Time; CC_ExpiresAt : Time
}.

Record EnvironmentContext := mkEnvCtx {
  EC_Scope : Scope; EC_Version : Z; EC_Environment : string; EC_Platform : string;
  EC_Topology : string; EC_Criticality : string; EC_Dependencies : list Scope; EC_Integrations : list string
}.
#[export] Instance EnvironmentContext_eq_dec : EqDecision EnvironmentContext.
Proof. solve_decision. Defined.

(** ** feedback.go, stewardship.go *)
Inductive Assessment := ATrue | AFalse | ACannotVerify | AOther (s : string).
#[export] Instance Assessment_eq_dec : EqDecision Assessment.
Proof. solve_decision. Defined.
Definition assessment_string (a : Assessment) : string :=
  match a with ATrue => "TRUE" | AFalse => "FALSE" | ACannotVerify => "CANNOT_VERIFY" | AOther s => s end.

Record FeedbackEvent := mkFeedback {
  F_Scope : Scope; F_IncidentID : string; F_ID : string; F_ActorID : string; F_Item : ItemRef;
  F_ItemHash : string; F_Assessment : Assessment; F_ReasonCode : string; F_Evidence : list ItemRef;
  F_Supersedes : string; F_IdempotencyKey : string; F_RequestHash : string; F_At : Time
}.
#[export] Instance FeedbackEvent_eq_dec : EqDecision FeedbackEvent.
Proof. solve_decision. Defined.

Record Adjudication := mkAdjudication {
  J_Scope : Scope; J_ID : string; J_IncidentID : string; J_Item : ItemRef; J_ItemHash : string;
  J_FeedbackID : string; J_ActorID : string; J_Reason : string; J_CorrectionEvidence : list ItemRef;
  J_RequestHash : string; J_IdempotencyKey : string; J_At : Time
}.
#[export] Instance Adjudication_eq_dec : EqDecision Adjudication.
Proof. solve_decision. Defined.

(** ** job.go, knowledge.go, notification.go, recovery.go *)
Record DiagnosticJob := mkJob {
  D_Scope : Scope; D_ID : string; D_IncidentID : string; D_ProfileID : string; D_ActorID : string;
  D_State : string; D_CreatedAt : Time; D_ExpiresAt : Time; D_Result : option ItemRef
}.

Record KnowledgeEvaluation := mkEvaluation {
  KE_Version : string; KE_BaselineCases : Z; KE_HeldoutCases : Z; KE_Passed : Z; KE_Approved : bool
}.
#[export] Instance KnowledgeEvaluation_eq_dec : EqDecision KnowledgeEvaluation.
Proof. solve_decision. Defined.

Record GoldenCase := mkGolden {
  GC_Scope : Scope; GC_ID : string; GC_Version : Z; GC_State : string; GC_IncidentID : string;
  GC_Claim : ItemRef; GC_ClaimHash : string; GC_RecoveryID : string; GC_CauseCode : string;
  GC_CreatedBy : string; GC_ReviewedBy : string; GC_CreatedAt : Time; GC_PublishedAt : Time;
  GC_Evaluation : KnowledgeEvaluation
}.
#[export] Instance GoldenCase_eq_dec : EqDecision GoldenCase.
Proof. solve_decision. Defined.

Record Notification := mkNotification {
  NT_Scope : Scope; NT_ID : string; NT_EventID : string; NT_RouteID : string; NT_Kind : string;
  NT_IncidentID : string; NT_State : string; NT_Attempts : Z; NT_CreatedAt : Time;
  NT_DeliveredAt : option Time; NT_AcknowledgedBy : string; NT_Lease : string
}.

Record RecoveryProfile := mkProfile {
  RP_Scope : Scope; RP_ID : string; RP_Version : Z; RP_Handles : list string; RP_WindowSeconds : Z;
  RP_MaximumGapSeconds : Z; RP_MinimumSamples : Z; RP_MinimumReadyReplicas : Z
}.
Record HealthSample := mkSample {
  HS_Scope : Scope; HS_IncidentID : string; HS_Evidence : ItemRef; HS_Handle : string; HS_UID : string;
  HS_AgentID : string; HS_Generation : Z; HS_Epoch : string; HS_Coverage : string; HS_Healthy : bool;
  HS_ReadyReplicas : Z; HS_At : Time
}.
Record RecoveryAssessment := mkRecovery {
  RA_ID : string; RA_Scope : Scope; RA_IncidentID : string; RA_ProfileID : string; RA_ProfileVersion : Z;
  RA_Status : string; RA_Reason : string; RA_Evidence : list ItemRef; RA_At : Time
}.

(** ** ActionPlan.Hash *)
Definition ref_json (r : ItemRef) : json := JObj [("id", JStr (R_ID r)); ("version", jint (R_Version r))].

Definition plan_json (p : ActionPlan) : option json :=
  e ← jtime (Pl_ExpiresAt p);
  Some (JObj [
    ("scope", scope_json (Pl_Scope p)); ("id", JStr (Pl_ID p)); ("incident_id", JStr (Pl_IncidentID p));
    ("kind", JStr (Pl_Kind p)); ("evidence", ref_json (Pl_Evidence p));
    ("evidence_hash", JStr (Pl_EvidenceHash p)); ("resource_handle", JStr (Pl_ResourceHandle p));
    ("target_commitment", JStr (Pl_TargetCommitment p)); ("source_agent_id", JStr (Pl_SourceAgentID p));
    ("source_generation", jint (Pl_SourceGeneration p)); ("executor_id", JStr (Pl_ExecutorID p));
    ("executor_generation", jint (Pl_ExecutorGeneration p)); ("epoch", JStr (Pl_Epoch p));
    ("policy_version", JStr (Pl_PolicyVersion p)); ("expires_at", e)]).

(** [raw, _ := json.Marshal(p)]: an encoding error leaves [raw] nil. *)
Definition Hash (p : ActionPlan) : string := sha256_hex (default "" (Marshal (plan_json p))).

(** ** Item.Seal *)
Definition ref_leb (a b : ItemRef) : bool :=
  if str_eqb (R_ID a) (R_ID b) then R_Version a <=? R_Version b else str_leb (R_ID a) (R_ID b).

Definition validRef (r : ItemRef) : bool := ValidID (R_ID r) && (0 <? R_Version r).

(** The loop over the sorted parents: each valid, none the item itself, none
    equal to its predecessor. *)
Fixpoint check_parents (self : ItemRef) (prev : option ItemRef) (l : list ItemRef) : bool :=
  match l with
  | [] => true
  | p :: l =>
      validRef p && negb (bool_decide (p = self)) && negb (bool_decide (prev = Some p))
      && check_parents self (Some p) l
  end.

Definition item_json (i : Item) : option json :=
  body ← read_json (I_Body i); oa ← jtime (I_ObservedAt i); vu ← jtime (I_ValidUntil i);
  Some (JObj ([
    ("scope", scope_json (I_Scope i)); ("incident_id", JStr (I_IncidentID i)); ("id", JStr (I_ID i));
    ("version", jint (I_Version i)); ("kind", JStr (kind_string (I_Kind i))); ("body", body);
    ("observed_at", oa); ("valid_until", vu); ("parents", JArr (map ref_json (I_Parents i)))]
    ++ omit_if (str_eqb (I_Hash i) "") [("hash", JStr (I_Hash i))])).

Definition set_hash (h : string) (i : Item) : Item :=
  mkItem (I_Scope i) (I_IncidentID i) (I_ID i) (I_Version i) (I_Kind i) (I_Body i) (I_ObservedAt i)
    (I_ValidUntil i) (I_Parents i) h.

Definition self_ref (i : Item) : ItemRef := mkRef (I_ID i) (I_Version i).

(** [Seal] on a non-nil item. *)
Definition Seal (i : Item) : res Item :=
  if negb (Scope_Validate (I_Scope i)) || negb (ValidID (I_IncidentID i)) || negb (ValidID (I_ID i))
     || (I_Version i <? 1) || negb (bool_decide (I_Kind i = Evidence) || bool_decide (I_Kind i = Claim))
     || IsZero (I_ObservedAt i) || negb (After (I_ValidUntil i) (I_ObservedAt i))
     || (64 <? Z.of_nat (length (I_Parents i)))
  then Err ErrInvalidItem else
  match CanonicalObject (I_Body i) with
  | Err _ => Err ErrInvalidItem
  | Ok body =>
      let parents := isort ref_leb (I_Parents i) in
      if negb (check_parents (self_ref i) None parents) then Err ErrInvalidItem else
      let sealed := mkItem (I_Scope i) (I_IncidentID i) (I_ID i) (I_Version i) (I_Kind i) body
                      (I_ObservedAt i) (I_ValidUntil i) parents "" in
      match Marshal (item_json sealed) with
      | None => Err ErrInvalidItem
      | Some encoded => Ok (set_hash (sha256_hex encoded) sealed)
      end
  end.

(** ** Facts: the plan hash commits to every field *)
Definition scope_utf8 (s : Scope) : Prop :=
  utf8 (OrganizationID s) /\ utf8 (ClusterID s) /\ utf8 (ApplicationID s).

(** Strings that are UTF-8 and counters that are [int64]: every plan the
    program builds, since identifiers and hashes are ASCII. *)
Definition plan_ok (p : ActionPlan) : Prop :=
  scope_utf8 (Pl_Scope p) /\
  Forall utf8 [Pl_ID p; Pl_IncidentID p; Pl_Kind p; R_ID (Pl_Evidence p); Pl_EvidenceHash p;
               Pl_ResourceHandle p; Pl_TargetCommitment p; Pl_SourceAgentID p; Pl_ExecutorID p;
               Pl_Epoch p; Pl_PolicyVersion p] /\
  Forall int64_ok [R_Version (Pl_Evidence p); Pl_SourceGeneration p; Pl_ExecutorGeneration p].

Lemma ValidID_utf8 id : ValidID id = true -> utf8 id.
Proof.
  intros Hv. apply ascii_utf8. apply ValidID_chars in Hv. eapply str_forall_impl; [|exact Hv].
  intros c Hc. unfold id_char, in_range, is_char in *. apply Z.ltb_lt. repeat case_match; breflect; lia.
Qed.

Lemma good_scope d s : d <= 31 -> scope_utf8 s -> good d (scope_json s).
Proof. intros Hd (H1 & H2 & H3). unfold scope_json. good_tac. Qed.

Lemma good_ref d r : d <= 31 -> utf8 (R_ID r) -> good d (ref_json r).
Proof. intros Hd H. unfold ref_json. good_tac. Qed.

Lemma good_plan p j : plan_json p = Some j -> plan_ok p -> good 0 j.
Proof.
  unfold plan_json. intros Hj (Hs & Hu & _). rewrite !Forall_cons in Hu. destruct_and! Hu.
  destruct (jtime (Pl_ExpiresAt p)) as [e|] eqn:Ee; [|done]. injection Hj as <-.
  assert (good 1 e) by (eapply good_jtime; [|done]; lia).
  assert (good 1 (scope_json (Pl_Scope p))) by (apply good_scope; [lia|done]).
  assert (good 1 (ref_json (Pl_Evidence p))) by (apply good_ref; [lia|done]).
  good_tac.
Qed.

Lemma show_inj a b : int64_ok a -> int64_ok b -> show a = show b -> a = b.
Proof. intros Ha Hb E. apply parse_int_show in Ha, Hb. rewrite E in Ha. congruence. Qed.

Lemma jtime_inj a b j : jtime a = Some j -> jtime b = Some j -> a = b.
Proof. intros Ha Hb. apply (jtime_roundtrip _ _ 0) in Ha, Hb. congruence. Qed.

Lemma plan_json_inj p1 p2 j :
  plan_ok p1 -> plan_ok p2 -> plan_json p1 = Some j -> plan_json p2 = Some j -> p1 = p2.
Proof.
  intros (_ & _ & N1) (_ & _ & N2). unfold plan_json.
  destruct (jtime (Pl_ExpiresAt p1)) as [e1|] eqn:E1; [|done].
  destruct (jtime (Pl_ExpiresAt p2)) as [e2|] eqn:E2; [|done].
  intros [= <-] E. rewrite !Forall_cons in N1, N2. destruct_and! N1. destruct_and! N2.
  destruct p1 as [[] ? ? ? [] ? ? ? ? ? ? ? ? ? t1], p2 as [[] ? ? ? [] ? ? ? ? ? ? ? ? ? t2]. simpl in *.
  injection E. clear E. intros. subst.
  repeat match goal with H : show _ = show _ |- _ => apply show_inj in H; [|done..] end. subst.
  by rewrite (jtime_inj _ _ _ E1 E2).
Qed.

(** Two different plans have different encodings, so equal hashes of different
    plans exhibit a SHA-256 collision. *)
Lemma Hash_commits p1 p2 :
  plan_ok p1 -> plan_ok p2 -> is_Some (plan_json p1) -> is_Some (plan_json p2) ->
  Hash p1 = Hash p2 -> p1 <> p2 ->
  exists m1 m2, m1 <> m2 /\ sha256 m1 = sha256 m2.
Proof.
  intros O1 O2 [j1 J1] [j2 J2] E Hne. unfold Hash in E. rewrite J1, J2 in E. simpl in E.
  exists (encode j1), (encode j2). split.
  - intros Ee. apply Hne. apply encode_inj in Ee as ->; [|by eapply good_plan..].
    by eapply plan_json_inj.
  - unfold sha256_hex in E. apply hex_encode_inj in E; [done|apply sha256_bound..].
Qed.

Lemma slen_Hash p : slen (Hash p) = 64.
Proof. apply slen_sha256_hex. Qed.

(** ** Facts: sealing *)
Lemma ref_leb_total a b : ref_leb a b = true \/ ref_leb b a = true.
Proof.
  unfold ref_leb. destruct (str_eqb (R_ID a) (R_ID b)) eqn:E; breflect.
  - rewrite E, str_eqb_refl, !Z.leb_le. lia.
  - rewrite (proj2 (str_eqb_neq (R_ID b) (R_ID a))) by congruence. apply str_leb_total.
Qed.

Lemma ref_leb_trans a b c : ref_leb a b = true -> ref_leb b c = true -> ref_leb a c = true.
Proof.
  destruct a as [a va], b as [b vb], c as [c vc]. unfold ref_leb. simpl.
  destruct (str_eqb a b) eqn:E1, (str_eqb b c) eqn:E2; breflect; subst; intros H1 H2.
  - rewrite str_eqb_refl. breflect. apply Z.leb_le. lia.
  - by rewrite (proj2 (str_eqb_neq b c)).
  - by rewrite (proj2 (str_eqb_neq a c)).
  - case_if as E3; breflect; subst; [|by eapply str_leb_trans].
    by pose proof (str_leb_antisym _ _ H1 H2).
Qed.

Lemma ref_leb_antisym a b : ref_leb a b = true -> ref_leb b a = true -> a = b.
Proof.
  destruct a as [a va], b as [b vb]. unfold ref_leb. simpl.
  destruct (str_eqb a b) eqn:E; breflect.
  - subst. rewrite str_eqb_refl, !Z.leb_le. intros. f_equal. lia.
  - rewrite (proj2 (str_eqb_neq b a)) by congruence. intros H1 H2.
    by pose proof (str_leb_antisym _ _ H1 H2).
Qed.

Lemma isort_refs_idem l : isort ref_leb (isort ref_leb l) = isort ref_leb l.
Proof.
  apply sorted_perm_eq with (R := fun a b => ref_leb a b = true).
  - intros x y _ _. apply ref_leb_antisym.
  - apply isort_sorted; [apply ref_leb_total|apply ref_leb_trans].
  - apply isort_sorted; [apply ref_leb_total|apply ref_leb_trans].
  - apply isort_perm.
Qed.

(** Sealing is idempotent: the repository repeats it on what it reads and gets
    the very same envelope. *)
Lemma Seal_fields i s : Seal i = Ok s ->
  I_Scope s = I_Scope i /\ I_IncidentID s = I_IncidentID i /\ I_ID s = I_ID i /\ I_Version s = I_Version i /\
  I_Kind s = I_Kind i /\ I_ObservedAt s = I_ObservedAt i /\ I_ValidUntil s = I_ValidUntil i.
Proof.
  unfold Seal. case_if as E; [done|]. destruct (CanonicalObject _); [|done]. cbv zeta.
  case_if as E'; [done|]. destruct (Marshal _); [|done]. by intros [= <-].
Qed.

Lemma Seal_idempotent i s : Seal i = Ok s -> Seal s = Ok s.
Proof.
  unfold Seal at 1. intros H. case_if_in H.
  destruct (CanonicalObject (I_Body i)) as [body|] eqn:Eb; [|done]. cbv zeta in H. case_if_in H.
  destruct (Marshal _) as [enc|] eqn:Em; [|done]. injection H as <-.
  unfold Seal, set_hash, self_ref in *.
  cbn [I_Scope I_IncidentID I_ID I_Version I_Kind I_Body I_ObservedAt I_ValidUntil I_Parents I_Hash].
  rewrite isort_length, E. rewrite (CanonicalObject_idempotent _ _ Eb). cbv zeta.
  rewrite isort_refs_idem, E0, Em. done.
Qed.

(** What a sealed item guarantees. *)
Record item_sealed (i : Item) : Prop := {
  sealed_scope : Scope_Validate (I_Scope i) = true;
  sealed_incident : ValidID (I_IncidentID i) = true;
  sealed_ref : validRef (self_ref i) = true;
  sealed_kind : I_Kind i = Evidence \/ I_Kind i = Claim;
  sealed_window : I_ObservedAt i < I_ValidUntil i;
  sealed_parents : NoDup (I_Parents i) /\ Forall (fun r => validRef r = true) (I_Parents i) /\
                   (self_ref i ∉ I_Parents i) /\ (length (I_Parents i) <= 64)%nat;
  sealed_body : CanonicalObject (I_Body i) = Ok (I_Body i);
  sealed_hash : exists raw, Marshal (item_json (set_hash "" i)) = Some raw /\ I_Hash i = sha256_hex raw
}.

Lemma check_parents_spec self prev l :
  StronglySorted (fun a b => ref_leb a b = true) l ->
  (forall p, prev = Some p -> Forall (fun b => ref_leb p b = true) l) ->
  check_parents self prev l = true ->
  NoDup l /\ Forall (fun r => validRef r = true) l /\ (self ∉ l) /\ (forall p, prev = Some p -> p ∉ l).
Proof.
  revert prev. induction l as [|r l IH]; intros prev Hs Hp Hc.
  - repeat split; [constructor|constructor|apply not_elem_of_nil|intros; apply not_elem_of_nil].
  - inversion Hs as [|? ? Hs' Hf]; subst. cbn [check_parents] in Hc.
    rewrite !andb_true_iff, !negb_true_iff, !bool_decide_eq_false in Hc.
    destruct Hc as [[[Hv Hself] Hprev] Hc].
    destruct (IH (Some r) Hs') as (Hn & Hfv & Hns & Hnp); [intros p [= <-]; done|done|].
    repeat split.
    + constructor; [by apply Hnp|done].
    + by constructor.
    + intros [->|Hin]%elem_of_cons; [done|done].
    + intros p ->. intros [->|Hin]%elem_of_cons; [done|].
      specialize (Hp p eq_refl). rewrite Forall_cons in Hp. destruct Hp as [Hpr _].
      rewrite Forall_forall in Hf. pose proof (ref_leb_antisym _ _ Hpr (Hf _ Hin)) as ->. done.
Qed.

Lemma Seal_sealed i s : Seal i = Ok s -> item_sealed s.
Proof.
  unfold Seal. intros H. case_if_in H.
  destruct (CanonicalObject (I_Body i)) as [body|] eqn:Eb; [|done]. cbv zeta in H. case_if_in H.
  destruct (Marshal _) as [enc|] eqn:Em; [|done]. injection H as <-.
  apply negb_false_iff, check_parents_spec in E0 as (Hn & Hf & Hs & _);
    [|apply isort_sorted; [apply ref_leb_total|apply ref_leb_trans]|done].
  rewrite !orb_false_iff, !negb_false_iff in E.
  destruct E as [[[[[[[E1 E2] E3] E4] E5] E6] E7] E8]. unfold After in *. breflect.
  constructor; cbn; try done.
  - unfold validRef. cbn. rewrite E3. by bools_true.
  - destruct E5; breflect; auto.
  - split; [done|]. split; [done|]. split; [done|]. rewrite isort_length. lia.
  - by eapply CanonicalObject_idempotent.
  - by exists enc.
Qed.
