(* ===== verification/Db.v ===== *)
(** * The PostgreSQL schema and the effects of the program

    The tables of pkg/storage/postgres/migrations/*.sql with their primary
    keys, unique indexes, CHECK constraints and foreign keys, SQL statements as
    functions on a database value, and the state monad in which the services
    run.

    Effects are numbered: every statement, clock reading and random draw takes
    the next tick, and the class [Env] says what it returns at that tick,
    including an injected failure of any statement or commit.  A theorem that
    holds for every [Env] holds for every clock, every random source and every
    pattern of database failures. *)

From S2P Require Import Prelude.
From S2P Require Import Sha256.
From S2P Require Import Json.
From S2P Require Import JsonFacts.
From S2P Require Import GoTime.
From S2P Require Import Decode.
From S2P Require Import Identity.
From S2P Require Import Incident.
From Stdlib Require Import Eqdep_dec.

(** ** Rows *)
Record ItemRow := mkItemRow {
  i_scope : Scope; i_incident : string; i_ref : ItemRef; i_kind : ItemKind; i_envelope : Item;
  i_hash : string; i_observed : Time; i_valid_until : Time }.
Record ParentRow := mkParentRow {
  p_scope : Scope; p_incident : string; p_child : ItemRef; p_parent : ItemRef }.
Record EligibilityRow := mkEligibilityRow {
  e_scope : Scope; e_item : ItemRef; e_quarantined : bool }.
Record OutboxRow := mkOutboxRow {
  o_scope : Scope; o_id : string; o_key : string; o_kind : string; o_payload : string;
  o_created : Time; o_delivered : option Time; o_attempts : Z; o_next : Time }.
Record FeedbackRow := mkFeedbackRow {
  f_scope : Scope; f_incident : string; f_id : string; f_actor : string; f_key : string;
  f_item : ItemRef; f_request : string; f_event : FeedbackEvent; f_created : Time }.
Record BootstrapRow := mkBootstrapRow {
  b_scope : Scope; b_token : string; b_agent : string; b_role : string; b_audience : string;
  b_epoch : string; b_uid : string; b_expires : Time; b_consumed : option Time }.
Record AgentRow := mkAgentRow {
  g_scope : Scope; g_id : string; g_role : string; g_audience : string; g_epoch : string;
  g_generation : Z; g_uid : string; g_token : string; g_expires : Time; g_revoked : bool }.
Record ActionRow := mkActionRow {
  a_scope : Scope; a_id : string; a_incident : string; a_version : Z; a_state : string;
  a_envelope : Action; a_receipt : string }.
Record ActionEventRow := mkActionEventRow {
  ae_scope : Scope; ae_action : string; ae_version : Z; ae_envelope : Action }.
Record ProfileRow := mkProfileRow {
  rp_scope : Scope; rp_id : string; rp_version : Z; rp_envelope : RecoveryProfile }.
Record SampleRow := mkSampleRow {
  hs_scope : Scope; hs_incident : string; hs_handle : string; hs_observed : Time; hs_item : ItemRef;
  hs_envelope : HealthSample }.
Record AssessmentRow := mkAssessmentRow {
  ra_scope : Scope; ra_id : string; ra_incident : string; ra_envelope : RecoveryAssessment; ra_created : Time }.
Record ContextRow := mkContextRow { ec_scope : Scope; ec_version : Z; ec_envelope : EnvironmentContext }.
Record AdjudicationRow := mkAdjudicationRow {
  j_scope : Scope; j_id : string; j_incident : string; j_item : ItemRef; j_actor : string; j_key : string;
  j_envelope : Adjudication; j_created : Time }.
Record RevocationRow := mkRevocationRow {
  v_scope : Scope; v_agent : string; v_epoch : string; v_through : Z }.
Record GoldenRow := mkGoldenRow {
  gc_scope : Scope; gc_id : string; gc_version : Z; gc_state : string; gc_envelope : GoldenCase }.
Record RunRow := mkRunRow {
  r_scope : Scope; r_id : string; r_incident : string; r_profile : string; r_profile_version : string;
  r_prompt_version : string; r_rubric_version : string; r_status : string; r_reason : string;
  r_started : Time; r_finished : option Time; r_claim : option ItemRef }.
Record NotificationRow := mkNotificationRow {
  n_scope : Scope; n_id : string; n_event : string; n_route : string; n_kind : string; n_incident : string;
  n_state : string; n_attempts : Z; n_created : Time; n_delivered : option Time; n_acknowledged : string;
  n_lease : string; n_lease_until : option Time; n_next : Time }.
Record JobRow := mkJobRow {
  d_scope : Scope; d_id : string; d_incident : string; d_profile : string; d_actor : string;
  d_state : string; d_created : Time; d_expires : Time; d_authority : string; d_result : option ItemRef;
  d_agent : option string; d_agent_generation : option Z; d_agent_epoch : option string;
  d_attempt : option string; d_lease_until : option Time; d_input : option string; d_refresh : Z }.
Record CheckRow := mkCheckRow {
  c_scope : Scope; c_id : string; c_incident : string; c_agent : string; c_generation : Z;
  c_handle : string; c_kind : string; c_created : Time; c_expires : Time; c_fulfilled : option Time }.
Record HistoryRow := mkHistoryRow { h_scope : Scope; h_child : ItemRef; h_parent : ItemRef }.
Record RouteRow := mkRouteRow { rt_scope : Scope; rt_id : string; rt_registered : Time }.
Record CoverageRow := mkCoverageRow {
  cv_scope : Scope; cv_agent : string; cv_generation : Z; cv_epoch : string; cv_observed : Time;
  cv_coverage : string }.
Record ChallengeRow := mkChallengeRow {
  lc_key : string; lc_verifier : string; lc_nonce : string; lc_expires : Time }.
Record SessionRow := mkSessionRow {
  bs_key : string; bs_principal : string; bs_issuer : string; bs_groups : list string;
  bs_issued : Time; bs_expires : Time; bs_csrf : string }.
Record InteractionRow := mkInteractionRow {
  x_scope : Scope; x_id : string; x_incident : string; x_job : string; x_kind : string; x_question : string;
  x_version : Z; x_status : string; x_expires : Time; x_created_by : string; x_created : Time;
  x_answer : string; x_actor : string; x_answered : option Time }.

Inductive tbl :=
| Tscopes | Tincidents | Titems | Tparents | Teligibility | Toutbox | Tfeedback | Tbootstraps | Tagents
| Tactions | Taction_events | Tprofiles | Tsamples | Tassessments | Tcontexts | Tadjudications
| Trevocations | Tgolden | Truns | Tnotifications | Tjobs | Tchecks | Thistory | Troutes | Tcoverage
| Tchallenges | Tsessions | Tinteractions.
#[export] Instance tbl_eq_dec : EqDecision tbl.
Proof. intros x y. unfold Decision. decide equality. Defined.

Definition row (t : tbl) : Type :=
  match t with
  | Tscopes => Scope | Tincidents => Incident | Titems => ItemRow | Tparents => ParentRow
  | Teligibility => EligibilityRow | Toutbox => OutboxRow | Tfeedback => FeedbackRow
  | Tbootstraps => BootstrapRow | Tagents => AgentRow | Tactions => ActionRow
  | Taction_events => ActionEventRow | Tprofiles => ProfileRow | Tsamples => SampleRow
  | Tassessments => AssessmentRow | Tcontexts => ContextRow | Tadjudications => AdjudicationRow
  | Trevocations => RevocationRow | Tgolden => GoldenRow | Truns => RunRow
  | Tnotifications => NotificationRow | Tjobs => JobRow | Tchecks => CheckRow | Thistory => HistoryRow
  | Troutes => RouteRow | Tcoverage => CoverageRow | Tchallenges => ChallengeRow
  | Tsessions => SessionRow | Tinteractions => InteractionRow
  end.

(** ** The database *)
Definition DB : Type := forall t : tbl, list (row t).
Definition empty_db : DB := fun _ => [].

Definition upd (d : DB) (t : tbl) (l : list (row t)) : DB := fun t' =>
  match decide (t = t') with
  | left e => eq_rect t (fun t => list (row t)) l t' e
  | right _ => d t'
  end.

Lemma upd_same d t l : upd d t l t = l.
Proof.
  unfold upd. destruct (decide (t = t)) as [e|]; [|done].
  rewrite (UIP_dec tbl_eq_dec e eq_refl). done.
Qed.
Lemma upd_other d t l t' : t <> t' -> upd d t l t' = d t'.
Proof. intros Hne. unfold upd. by destruct (decide (t = t')). Qed.

(** ** Constraints *)
Inductive kval := KS (s : string) | KZ (z : Z).
#[export] Instance kval_eq_dec : EqDecision kval.
Proof. solve_decision. Defined.
Definition key : Type := list kval.

Definition kscope (s : Scope) : key := [KS (OrganizationID s); KS (ClusterID s); KS (ApplicationID s)].
Definition kref (r : ItemRef) : key := [KS (R_ID r); KZ (R_Version r)].

Definition is_active (s : string) : bool := str_eqb s "QUEUED" || str_eqb s "RUNNING".

(** Primary keys and unique indexes; [None] is a row outside a partial index. *)
Definition uniques (t : tbl) : list (row t -> option key) :=
  match t with
  | Tscopes => [fun r => Some (kscope r)]
  | Tincidents => [fun r => Some (kscope (N_Scope r) ++ [KS (N_ID r)])]
  | Titems => [fun r => Some (kscope (i_scope r) ++ kref (i_ref r));
               fun r => Some (kscope (i_scope r) ++ KS (i_incident r) :: kref (i_ref r))]
  | Tparents => [fun r => Some (kscope (p_scope r) ++ kref (p_child r) ++ kref (p_parent r))]
  | Teligibility => [fun r => Some (kscope (e_scope r) ++ kref (e_item r))]
  | Toutbox => [fun r => Some (kscope (o_scope r) ++ [KS (o_id r)]);
                fun r => Some (kscope (o_scope r) ++ [KS (o_key r)])]
  | Tfeedback => [fun r => Some (kscope (f_scope r) ++ [KS (f_id r)]);
                  fun r => Some (kscope (f_scope r) ++ [KS (f_actor r); KS (f_key r)])]
  | Tbootstraps => [fun r => Some (kscope (b_scope r) ++ [KS (b_token r)])]
  | Tagents => [fun r => Some (kscope (g_scope r) ++ [KS (g_id r)]);
                fun r => Some (kscope (g_scope r) ++ [KS (g_token r)])]
  | Tactions => [fun r => Some (kscope (a_scope r) ++ [KS (a_id r)])]
  | Taction_events => [fun r => Some (kscope (ae_scope r) ++ [KS (ae_action r); KZ (ae_version r)])]
  | Tprofiles => [fun r => Some (kscope (rp_scope r) ++ [KS (rp_id r); KZ (rp_version r)])]
  | Tsamples => [fun r => Some (kscope (hs_scope r) ++ [KS (hs_incident r); KS (hs_handle r); KZ (hs_observed r)])]
  | Tassessments => [fun r => Some (kscope (ra_scope r) ++ [KS (ra_id r)])]
  | Tcontexts => [fun r => Some (kscope (ec_scope r) ++ [KZ (ec_version r)])]
  | Tadjudications => [fun r => Some (kscope (j_scope r) ++ [KS (j_id r)]);
                       fun r => Some (kscope (j_scope r) ++ [KS (j_actor r); KS (j_key r)])]
  | Trevocations => [fun r => Some (kscope (v_scope r) ++ [KS (v_agent r); KS (v_epoch r); KZ (v_through r)])]
  | Tgolden => [fun r => Some (kscope (gc_scope r) ++ [KS (gc_id r); KZ (gc_version r)])]
  | Truns => [fun r => Some (kscope (r_scope r) ++ [KS (r_id r)])]
  | Tnotifications => [fun r => Some (kscope (n_scope r) ++ [KS (n_id r)]);
                       fun r => Some (kscope (n_scope r) ++ [KS (n_event r); KS (n_route r)])]
  | Tjobs => [fun r => Some (kscope (d_scope r) ++ [KS (d_id r)]);
              fun r => if is_active (d_state r) then Some (kscope (d_scope r) ++ [KS (d_incident r)]) else None;
              fun r => if str_eqb (d_state r) "RUNNING" then Some (kscope (d_scope r)) else None]
  | Tchecks => [fun r => Some (kscope (c_scope r) ++ [KS (c_id r)])]
  | Thistory => [fun r => Some (kscope (h_scope r) ++ kref (h_child r) ++ kref (h_parent r))]
  | Troutes => [fun r => Some (kscope (rt_scope r) ++ [KS (rt_id r)])]
  | Tcoverage => [fun r => Some (kscope (cv_scope r) ++ [KS (cv_agent r)])]
  | Tchallenges => [fun r => Some [KS (lc_key r)]]
  | Tsessions => [fun r => Some [KS (bs_key r)]]
  | Tinteractions => [fun r => Some (kscope (x_scope r) ++ [KS (x_id r)])]
  end.

Definition agent_role (s : string) : bool := str_eqb s "COLLECTOR" || str_eqb s "EXECUTOR".

(** CHECK constraints. *)
Definition check (t : tbl) : row t -> bool :=
  match t with
  | Tincidents => fun r => 0 <? N_Version r
  | Titems => fun r => (0 <? R_Version (i_ref r)) && mem_str (kind_string (i_kind r)) ["EVIDENCE"; "CLAIM"]
                       && (i_observed r <? i_valid_until r)
  | Tbootstraps => fun r => agent_role (b_role r)
  | Tagents => fun r => agent_role (g_role r) && (0 <? g_generation r)
  | Tactions => fun r => (0 <? a_version r) &&
      mem_str (a_state r) ["PROPOSED"; "APPROVED"; "SUBMITTED"; "APPLIED"; "FAILED"; "AMBIGUOUS"; "CANCELLED"]
  | Tprofiles => fun r => 0 <? rp_version r
  | Tcontexts => fun r => 0 <? ec_version r
  | Tgolden => fun r => (0 <? gc_version r) && mem_str (gc_state r) ["CANDIDATE"; "ACTIVE"; "RETIRED"]
  | Tjobs => fun r => mem_str (d_state r) ["QUEUED"; "RUNNING"; "COMPLETED"; "CANCELLED"; "FAILED"]
  | Tchecks => fun r => mem_str (c_kind r) ["REFRESH_RESOURCE_STATE"; "REFRESH_DEPENDENCIES"]
  | Tcoverage => fun r => mem_str (cv_coverage r) ["COMPLETE"; "PARTIAL"; "UNAVAILABLE"]
  | Tinteractions => fun r =>
      str_eqb (x_kind r) "CLARIFICATION" && mem_str (x_question r) ["CHANGE_CONTEXT"; "IMPACT"; "CONTINUE_DIAGNOSIS"]
      && (0 <? x_version r) && mem_str (x_status r) ["PENDING"; "ANSWERED"]
      && ((str_eqb (x_status r) "PENDING" && str_eqb (x_answer r) "" && str_eqb (x_actor r) ""
           && negb (bool_decide (is_Some (x_answered r))))
          || (str_eqb (x_status r) "ANSWERED" && negb (str_eqb (x_answer r) "") && negb (str_eqb (x_actor r) "")
              && bool_decide (is_Some (x_answered r))))
  | _ => fun _ => true
  end.

(** Foreign keys: a key of each referencing row that some referenced row has. *)
Record FK := mkFK { fk_from : tbl; fk_to : tbl; fk_src : row fk_from -> key; fk_dst : row fk_to -> key }.

Definition fk_scope (t : tbl) (s : row t -> Scope) : FK :=
  mkFK t Tscopes (fun r => kscope (s r)) (fun r : row Tscopes => kscope r).
Definition fk_incident (t : tbl) (s : row t -> Scope) (i : row t -> string) : FK :=
  mkFK t Tincidents (fun r => kscope (s r) ++ [KS (i r)]) (fun r : row Tincidents => kscope (N_Scope r) ++ [KS (N_ID r)]).
Definition fk_incident_item (t : tbl) (s : row t -> Scope) (i : row t -> string) (x : row t -> ItemRef) : FK :=
  mkFK t Titems (fun r => kscope (s r) ++ KS (i r) :: kref (x r))
    (fun r : row Titems => kscope (i_scope r) ++ KS (i_incident r) :: kref (i_ref r)).
Definition fk_item (t : tbl) (s : row t -> Scope) (x : row t -> ItemRef) : FK :=
  mkFK t Titems (fun r => kscope (s r) ++ kref (x r))
    (fun r : row Titems => kscope (i_scope r) ++ kref (i_ref r)).

Definition fks : list FK := [
  fk_scope Tincidents N_Scope;
  fk_incident Titems i_scope i_incident;
  fk_incident_item Tparents p_scope p_incident p_child;
  fk_incident_item Tparents p_scope p_incident p_parent;
  fk_item Teligibility e_scope e_item;
  fk_scope Toutbox o_scope;
  fk_incident_item Tfeedback f_scope f_incident f_item;
  fk_scope Tbootstraps b_scope;
  fk_scope Tagents g_scope;
  fk_incident Tactions a_scope a_incident;
  mkFK Taction_events Tactions (fun r : row Taction_events => kscope (ae_scope r) ++ [KS (ae_action r)])
    (fun r : row Tactions => kscope (a_scope r) ++ [KS (a_id r)]);
  fk_scope Tprofiles rp_scope;
  fk_incident_item Tsamples hs_scope hs_incident hs_item;
  fk_incident Tassessments ra_scope ra_incident;
  fk_scope Tcontexts ec_scope;
  fk_incident_item Tadjudications j_scope j_incident j_item;
  fk_scope Tgolden gc_scope;
  fk_incident Truns r_scope r_incident;
  mkFK Tnotifications Toutbox (fun r : row Tnotifications => kscope (n_scope r) ++ [KS (n_event r)])
    (fun r : row Toutbox => kscope (o_scope r) ++ [KS (o_id r)]);
  fk_incident Tjobs d_scope d_incident;
  fk_incident Tchecks c_scope c_incident;
  fk_item Thistory h_scope h_child;
  fk_item Thistory h_scope h_parent;
  fk_scope Troutes rt_scope;
  mkFK Tcoverage Tagents (fun r : row Tcoverage => kscope (cv_scope r) ++ [KS (cv_agent r)])
    (fun r : row Tagents => kscope (g_scope r) ++ [KS (g_id r)]);
  fk_incident Tinteractions x_scope x_incident].

Definition fk_holds (d : DB) (f : FK) : bool :=
  forallb (fun r => existsb (fun r' => bool_decide (fk_dst f r' = fk_src f r)) (d (fk_to f))) (d (fk_from f)).

Definition unique_ok (t : tbl) (l : list (row t)) : bool :=
  forallb (fun f => bool_decide (NoDup (omap f l))) (uniques t).
Definition checks_ok (t : tbl) (l : list (row t)) : bool := forallb (check t) l.

(** The schema holds: the invariant that PostgreSQL maintains. *)
Definition db_ok (d : DB) : Prop :=
  (forall t, checks_ok t (d t) = true /\ unique_ok t (d t) = true) /\
  forallb (fk_holds d) fks = true.
