(* ===== verification/Sql.v ===== *)
(** * Statements, transactions and the monad of the services

    [M A] is a Go function with effects that returns [(A, error)].  [Transact]
    of pkg/storage/postgres/transaction.go runs a callback on a private view of
    the database and commits it or rolls it back.  The advisory lock that
    [Transact] takes on the scope serialises the transactions of a scope, so an
    interleaving of requests is a sequence of whole transactions. *)

From S2P Require Import Prelude.
From S2P Require Import Sha256.
From S2P Require Import Json.
From S2P Require Import GoTime.
From S2P Require Import Decode.
From S2P Require Import Identity.
From S2P Require Import Incident.
From S2P Require Import Db.

(** ** Driver errors *)
Inductive PgErr :=
| Pg23505 | Pg40001 | Pg40P01 | Pg23503 | Pg23514 | Pg22P02 | PgNoRows | PgOther.
#[export] Instance PgErr_eq_dec : EqDecision PgErr.
Proof. solve_decision. Defined.

Definition safeError (e : PgErr) : GoErr :=
  match e with
  | PgNoRows => ErrNotFound
  | Pg23505 | Pg40001 | Pg40P01 => ErrConflict
  | Pg23503 | Pg23514 | Pg22P02 => ErrInvalid
  | PgOther => ErrUnavailable
  end.

(** ** The environment *)
Class Env := {
  go_now : nat -> Time;                (* time.Now() *)
  pg_now : nat -> Time;                (* clock_timestamp(); now() is its value at BEGIN *)
  rand_bytes : nat -> nat -> list Z;   (* crypto/rand.Read of n bytes *)
  fault : nat -> option PgErr;         (* the failure of a statement, if any *)
  commit_applied : nat -> bool         (* whether a commit that failed took effect *)
}.

Record World := mkWorld { db : DB; tick : nat }.

Definition M (A : Type) : Type := World -> res A * World.

Definition ret {A} (a : A) : M A := fun w => (Ok a, w).
Definition throw {A} (e : GoErr) : M A := fun w => (Err e, w).
Definition bind {A B} (m : M A) (f : A -> M B) : M B := fun w =>
  match m w with
  | (Ok a, w') => f a w'
  | (Err e, w') => (Err e, w')
  end.

(** [m]'s error replaced by what [h] does with it. *)
Definition catch {A} (m : M A) (h : GoErr -> M A) : M A := fun w =>
  match m w with
  | (Ok a, w') => (Ok a, w')
  | (Err e, w') => h e w'
  end.

(** [x, err := m()] followed by a branch on [errors.Is(err, ErrNotFound)]. *)
Definition optional {A} (m : M A) : M (option A) := fun w =>
  match m w with
  | (Ok a, w') => (Ok (Some a), w')
  | (Err e, w') => if bool_decide (e = ErrNotFound) then (Ok None, w') else (Err e, w')
  end.

Declare Scope go_scope.
Delimit Scope go_scope with go.
Notation "'let*' p ':=' m 'in' k" := (bind m (fun p => k))
  (at level 10, p as pattern, m at level 200, k at level 200) : go_scope.
Notation "m ;; k" := (bind m (fun _ => k)) (at level 100, k at level 200, right associativity) : go_scope.
#[global] Open Scope go_scope.

(** [if cond { return err }]. *)
Definition guard (ok : bool) (e : GoErr) : M unit := if ok then ret tt else throw e.

Definition of_res {A} (r : res A) : M A := fun w => (r, w).

Fixpoint for_each {A} (f : A -> M unit) (l : list A) : M unit :=
  match l with
  | [] => ret tt
  | x :: l => f x ;; for_each f l
  end.
Fixpoint map_each {A B} (f : A -> M B) (l : list A) : M (list B) :=
  match l with
  | [] => ret []
  | x :: l => let* y := f x in let* ys := map_each f l in ret (y :: ys)
  end.

Section Effects.
Context `{Env}.

Definition next (w : World) : World := mkWorld (db w) (S (tick w)).

Definition time_now : M Time := fun w => (Ok (go_now (tick w)), next w).
Definition rand_read (n : nat) : M (list Z) := fun w => (Ok (rand_bytes (tick w) n), next w).
Definition NewID : M string := let* b := rand_read 16 in ret (NewID_of b).

(** One statement at the server's clock: it fails as a whole, or returns a
    result and the new state of the tables. *)
Definition exec {A} (f : Time -> DB -> PgErr + A * DB) : M A := fun w =>
  match fault (tick w) with
  | Some e => (Err (safeError e), next w)
  | None =>
      match f (pg_now (tick w)) (db w) with
      | inl e => (Err (safeError e), next w)
      | inr (a, d) => (Ok a, mkWorld d (S (tick w)))
      end
  end.

Definition query {A} (f : Time -> DB -> PgErr + A) : M A :=
  exec (fun now d => match f now d with inl e => inl e | inr a => inr (a, d) end).

(** [QueryRow(...).Scan]: the first row, or [pgx.ErrNoRows]. *)
Definition query_row {A} (f : Time -> DB -> list A) : M A :=
  query (fun now d => match f now d with [] => inl PgNoRows | a :: _ => inr a end).
Definition query_rows {A} (f : Time -> DB -> list A) : M (list A) :=
  query (fun now d => inr (f now d)).

(** The end of a statement that leaves [l] in table [t]: the constraints are
    checked in the order in which the server reports them. *)
Definition store {A} (a : A) (d : DB) (t : tbl) (l : list (row t)) : PgErr + A * DB :=
  let d' := upd d t l in
  if negb (checks_ok t l) then inl Pg23514
  else if negb (unique_ok t l) then inl Pg23505
  else if negb (forallb (fk_holds d') fks) then inl Pg23503
  else inr (a, d').

Definition insert (t : tbl) (r : Time -> row t) : M unit :=
  exec (fun now d => store tt d t (d t ++ [r now])).

(** [INSERT ... ON CONFLICT DO NOTHING]; [conflict] recognises the rows that
    the statement's conflict target arbitrates.  Returns the rows affected. *)
Definition insert_or_skip (t : tbl) (conflict : row t -> row t -> bool) (r : Time -> row t) : M Z :=
  exec (fun now d =>
    if negb (check t (r now)) then inl Pg23514
    else if existsb (conflict (r now)) (d t) then inr (0, d)
    else store 1 d t (d t ++ [r now])).

(** [INSERT ... ON CONFLICT (key) DO UPDATE SET ... WHERE]. *)
Definition upsert (t : tbl) (conflict : row t -> row t -> bool) (cond : row t -> row t -> bool)
  (set : row t -> row t -> row t) (r : row t) : M Z :=
  exec (fun _ d =>
    if negb (check t r) then inl Pg23514
    else if existsb (conflict r) (d t) then
      let hit := fun o => conflict r o && cond r o in
      store (Z.of_nat (length (List.filter hit (d t)))) d t
        (map (fun o => if hit o then set r o else o) (d t))
    else store 1 d t (d t ++ [r])).

(** [UPDATE t SET ... WHERE ...] returning the rows it changed, as they are
    after the update. *)
Definition update_returning (t : tbl) (cond : Time -> DB -> row t -> bool)
  (set : Time -> row t -> row t) : M (list (row t)) :=
  exec (fun now d =>
    store (map (set now) (List.filter (cond now d) (d t))) d t
      (map (fun r => if cond now d r then set now r else r) (d t))).

(** [tag.RowsAffected()]. *)
Definition update (t : tbl) (cond : Time -> DB -> row t -> bool) (set : Time -> row t -> row t) : M Z :=
  let* rs := update_returning t cond set in ret (Z.of_nat (length rs)).

Definition delete_returning (t : tbl) (cond : Time -> DB -> row t -> bool) : M (list (row t)) :=
  exec (fun now d =>
    store (List.filter (cond now d) (d t)) d t (List.filter (fun r => negb (cond now d r)) (d t))).
Definition delete (t : tbl) (cond : Time -> DB -> row t -> bool) : M Z :=
  let* rs := delete_returning t cond in ret (Z.of_nat (length rs)).

(** ** Transactions *)
Record Tx := mkTx { scope : Scope; authorityEpoch : string; tx_now : Time }.

(** A statement that changes nothing: BEGIN, SET LOCAL, the advisory lock. *)
Definition control : M unit := exec (fun _ d => inr (tt, d)).

(** The deferred rollback is a no-op after a successful commit; a commit that
    reports an error may still have taken effect. *)
Definition in_transaction {A} (body : M A) : M A := fun w0 =>
  match body w0 with
  | (Err e, w1) => (Err e, mkWorld (db w0) (tick w1))
  | (Ok a, w1) =>
      match fault (tick w1) with
      | None => (Ok a, next w1)
      | Some e =>
          (Err (safeError e),
           mkWorld (if commit_applied (tick w1) then db w1 else db w0) (S (tick w1)))
      end
  end.

(** The server's clock at the next statement: [now()] inside a transaction is
    its value at BEGIN. *)
Definition pg_clock : M Time := fun w => (Ok (pg_now (tick w)), w).

Definition Transact {A} (epoch : string) (sc : Scope) (fn : Tx -> M A) : M A :=
  guard (Scope_Validate sc) ErrInvalid ;;
  let* now := pg_clock in
  control ;;
  in_transaction (control ;; control ;; fn (mkTx sc epoch now)).
End Effects.

(** ** Reasoning *)
Lemma bind_ok {A B} (m : M A) (f : A -> M B) w b w' :
  bind m f w = (Ok b, w') -> exists a w1, m w = (Ok a, w1) /\ f a w1 = (Ok b, w').
Proof. unfold bind. destruct (m w) as [[a|e] w1]; [|done]. eauto. Qed.

Lemma guard_ok b e w x w' : guard b e w = (Ok x, w') -> b = true /\ w' = w.
Proof. unfold guard. destruct b; [|done]. by intros [= _ ->]. Qed.

Lemma catch_ok {A} (m : M A) h w a w' :
  catch m h w = (Ok a, w') -> m w = (Ok a, w') \/ exists e w1, m w = (Err e, w1) /\ h e w1 = (Ok a, w').
Proof. unfold catch. destruct (m w) as [[x|e] w1]; eauto. Qed.

Lemma optional_ok {A} (m : M A) w o w' :
  optional m w = (Ok o, w') ->
  (exists a, o = Some a /\ m w = (Ok a, w')) \/ (o = None /\ m w = (Err ErrNotFound, w')).
Proof.
  unfold optional. destruct (m w) as [[a|e] w1]; [intros [= <- <-]; eauto|].
  destruct (bool_decide _) eqn:E; [|done]. apply bool_decide_eq_true in E as ->. intros [= <- <-]. by right.
Qed.

(** Step through a successful run: one bind, guard or return at a time. *)
Ltac run_step :=
  match goal with
  | H : guard _ _ _ = (Ok _, _) |- _ =>
      let E := fresh "Hg" in apply guard_ok in H as [E ->]
  | H : ret _ _ = (Ok _, _) |- _ => unfold ret in H; injection H as <- <-
  | H : ret _ _ = (Ok _, _) |- _ => unfold ret in H; injection H; clear H; intros; subst
  | H : throw _ _ = (Ok _, _) |- _ => discriminate H
  | H : (Ok _, _) = (Ok _, _) |- _ => injection H as <- <-
  | H : (Err _, _) = (Ok _, _) |- _ => discriminate H
  | x : unit |- _ => destruct x
  | H : bind ?m ?f ?w = (Ok _, _) |- _ =>
      let a := fresh "r" in let w1 := fresh "w" in let H1 := fresh "Hm" in
      apply bind_ok in H as (a & w1 & H1 & H); cbv beta zeta in H
  end.
Ltac run := repeat run_step.

Section Facts.
Context `{Env}.

Lemma time_now_ok w t w' : time_now w = (Ok t, w') -> t = go_now (tick w) /\ w' = next w.
Proof. unfold time_now. by intros [= <- <-]. Qed.

Lemma NewID_ok w id w' : NewID w = (Ok id, w') -> id = hex_encode (rand_bytes (tick w) 16) /\ w' = next w.
Proof. unfold NewID, rand_read. cbn. by intros [= <- <-]. Qed.

Lemma exec_ok {A} (f : Time -> DB -> PgErr + A * DB) w a w' :
  exec f w = (Ok a, w') ->
  fault (tick w) = None /\ f (pg_now (tick w)) (db w) = inr (a, db w') /\ tick w' = S (tick w).
Proof.
  unfold exec. destruct (fault _); [done|]. destruct (f _ _) as [|[x d]]; [done|]. by intros [= <- <-].
Qed.

Lemma query_ok {A} (f : Time -> DB -> PgErr + A) w a w' :
  query f w = (Ok a, w') -> f (pg_now (tick w)) (db w) = inr a /\ w' = next w.
Proof.
  intros Hq. apply exec_ok in Hq as (_ & Hf & Ht). destruct (f _ _) as [|x]; [done|].
  injection Hf as -> Hd. split; [done|]. destruct w' as [d' t']. simpl in *. subst. done.
Qed.

Lemma query_row_ok {A} (f : Time -> DB -> list A) w a w' :
  query_row f w = (Ok a, w') -> (exists l, f (pg_now (tick w)) (db w) = a :: l) /\ w' = next w.
Proof.
  intros Hq. apply query_ok in Hq as [Hf ->]. destruct (f _ _) as [|x l]; [done|].
  injection Hf as ->. eauto.
Qed.

Lemma query_rows_ok {A} (f : Time -> DB -> list A) w a w' :
  query_rows f w = (Ok a, w') -> f (pg_now (tick w)) (db w) = a /\ w' = next w.
Proof. intros Hq. apply query_ok in Hq as [Hf ->]. by injection Hf. Qed.

Lemma store_ok {A} (a : A) d t l a' d' :
  store a d t l = inr (a', d') ->
  a' = a /\ d' = upd d t l /\ checks_ok t l = true /\ unique_ok t l = true /\
  forallb (fk_holds (upd d t l)) fks = true.
Proof.
  unfold store. destruct (checks_ok t l); [|done]. destruct (unique_ok t l); [|done].
  destruct (forallb _ fks); [|done]. by intros [= <- <-].
Qed.

Lemma insert_ok t r w x w' :
  insert t r w = (Ok x, w') ->
  db w' = upd (db w) t (db w t ++ [r (pg_now (tick w))]) /\ check t (r (pg_now (tick w))) = true /\
  unique_ok t (db w' t) = true.
Proof.
  intros Hi. apply exec_ok in Hi as (_ & Hs & _). apply store_ok in Hs as (_ & -> & Hc & Hu & _).
  split; [done|]. rewrite upd_same. split; [|done].
  unfold checks_ok in Hc. rewrite forallb_app in Hc. simpl in Hc. by breflect.
Qed.

Lemma insert_or_skip_ok t c r w n w' :
  insert_or_skip t c r w = (Ok n, w') ->
  let x := r (pg_now (tick w)) in
  (n = 0 /\ db w' = db w /\ existsb (c x) (db w t) = true) \/
  (n = 1 /\ existsb (c x) (db w t) = false /\ db w' = upd (db w) t (db w t ++ [x]) /\
   unique_ok t (db w' t) = true).
Proof.
  intros Hi x. apply exec_ok in Hi as (_ & Hs & _). fold x in Hs.
  destruct (check t x); [|done]. cbn [negb] in Hs. destruct (existsb (c x) (db w t)) eqn:E.
  - injection Hs as <- <-. by left.
  - apply store_ok in Hs as (-> & -> & _ & Hu & _). rewrite upd_same. by right.
Qed.

Lemma update_returning_ok t c s w rs w' :
  update_returning t c s w = (Ok rs, w') ->
  let now := pg_now (tick w) in
  let hit := c now (db w) in
  rs = map (s now) (List.filter hit (db w t)) /\
  db w' = upd (db w) t (map (fun r => if hit r then s now r else r) (db w t)) /\
  unique_ok t (db w' t) = true.
Proof.
  intros Hi now hit. apply exec_ok in Hi as (_ & Hs & _).
  apply store_ok in Hs as (-> & -> & _ & Hu & _). by rewrite upd_same.
Qed.

Lemma update_ok t c s w n w' :
  update t c s w = (Ok n, w') ->
  let now := pg_now (tick w) in
  let hit := c now (db w) in
  n = Z.of_nat (length (List.filter hit (db w t))) /\
  db w' = upd (db w) t (map (fun r => if hit r then s now r else r) (db w t)) /\
  unique_ok t (db w' t) = true.
Proof.
  intros Hi. unfold update in Hi. run. apply update_returning_ok in Hm as (-> & Hd & Hu).
  by rewrite length_map.
Qed.

Lemma delete_returning_ok t c w rs w' :
  delete_returning t c w = (Ok rs, w') ->
  let hit := c (pg_now (tick w)) (db w) in
  rs = List.filter hit (db w t) /\
  db w' = upd (db w) t (List.filter (fun r => negb (hit r)) (db w t)).
Proof.
  intros Hi hit. apply exec_ok in Hi as (_ & Hs & _). by apply store_ok in Hs as (-> & -> & _).
Qed.

Lemma control_ok w x w' : control w = (Ok x, w') -> w' = next w.
Proof.
  intros Hc. apply exec_ok in Hc as (_ & Hf & Ht). injection Hf as _ Hd.
  destruct w'; simpl in *. by subst.
Qed.

Lemma control_db w r w' : control w = (r, w') -> db w' = db w.
Proof. unfold control, exec. destruct (fault _); by intros [= _ <-]. Qed.

Lemma control_tick w r w' : control w = (r, w') -> tick w' = S (tick w).
Proof. unfold control, exec. destruct (fault _); by intros [= _ <-]. Qed.

Lemma Transact_ok {A} epoch sc (fn : Tx -> M A) w a w' :
  Transact epoch sc fn w = (Ok a, w') ->
  Scope_Validate sc = true /\
  exists w0 w1, db w0 = db w /\ fn (mkTx sc epoch (pg_now (tick w))) w0 = (Ok a, w1) /\ db w' = db w1.
Proof.
  unfold Transact. intros Ht. run. split; [done|]. injection Hm as <- <-.
  apply control_ok in Hm0 as ->. unfold in_transaction in Ht.
  destruct (bind _ _ (next w)) as [[x|e] w1] eqn:E; [|done].
  apply bind_ok in E as (u1 & wa & Ha & E). apply bind_ok in E as (u2 & wb & Hb & E).
  apply control_db in Ha, Hb. destruct (fault (tick w1)); [done|]. injection Ht as -> <-.
  exists wb, w1. split; [by rewrite Hb, Ha|]. done.
Qed.

(** Atomicity: after a transaction the database is what it was, or what a
    complete successful run of the callback left behind. *)
Lemma Transact_atomic {A} epoch sc (fn : Tx -> M A) w r w' :
  Transact epoch sc fn w = (r, w') ->
  db w' = db w \/
  (Scope_Validate sc = true /\ exists a w0 w1,
    db w0 = db w /\ fn (mkTx sc epoch (pg_now (tick w))) w0 = (Ok a, w1) /\ db w' = db w1 /\
    (tick w < tick w0)%nat /\ (tick w1 < tick w')%nat).
Proof.
  unfold Transact, guard. destruct (Scope_Validate sc) eqn:Hs; [|by intros [= _ <-]; left].
  unfold bind at 1. cbn [ret]. unfold bind at 1. cbn [pg_clock]. intros Ht. unfold bind at 1 in Ht.
  destruct (control w) as [[u|e] wc] eqn:Hc; pose proof (control_tick _ _ _ Hc); apply control_db in Hc;
    [|injection Ht as _ <-; by left].
  unfold in_transaction in Ht.
  destruct (bind _ _ wc) as [[x|e] w1] eqn:E; [|injection Ht as _ <-; by left].
  apply bind_ok in E as (u1 & wa & Ha & E). apply bind_ok in E as (u2 & wb & Hb & E).
  pose proof (control_tick _ _ _ Ha). pose proof (control_tick _ _ _ Hb). apply control_db in Ha, Hb.
  assert (db wb = db w) by (by rewrite Hb, Ha).
  destruct (fault (tick w1)) as [e|]; injection Ht as _ <-; cbn [db tick next].
  - destruct (commit_applied _); [|by left]. right. split; [done|]. exists x, wb, w1. repeat split; try done; lia.
  - right. split; [done|]. exists x, wb, w1. repeat split; try done; lia.
Qed.
End Facts.

(** ** The effects of a run are numbered upwards *)
Definition Later {A} (m : M A) : Prop := forall w r w', m w = (r, w') -> (tick w <= tick w')%nat.

Section Later.
Context `{Env}.

Lemma later_ret {A} (a : A) : Later (ret a).
Proof. by intros w r w' [= _ <-]. Qed.
Lemma later_throw {A} e : Later (@throw A e).
Proof. by intros w r w' [= _ <-]. Qed.
Lemma later_of_res {A} (x : res A) : Later (of_res x).
Proof. by intros w r w' [= _ <-]. Qed.
Lemma later_guard b e : Later (guard b e).
Proof. destruct b; [apply later_ret|apply later_throw]. Qed.
Lemma later_time : Later time_now.
Proof. intros w r w' [= _ <-]. cbn. lia. Qed.
Lemma later_rand n : Later (rand_read n).
Proof. intros w r w' [= _ <-]. cbn. lia. Qed.
Lemma later_bind {A B} (m : M A) (f : A -> M B) : Later m -> (forall a, Later (f a)) -> Later (bind m f).
Proof.
  intros Hm Hf w r w'. unfold bind. destruct (m w) as [[a|e] w1] eqn:E; intros Hr; apply Hm in E.
  - apply Hf in Hr. lia.
  - by injection Hr as _ <-.
Qed.
Lemma later_catch {A} (m : M A) h : Later m -> (forall e, Later (h e)) -> Later (catch m h).
Proof.
  intros Hm Hh w r w'. unfold catch. destruct (m w) as [[a|e] w1] eqn:E; intros Hr; apply Hm in E.
  - by injection Hr as _ <-.
  - apply Hh in Hr. lia.
Qed.
Lemma later_exec {A} (f : Time -> DB -> PgErr + A * DB) : Later (exec f).
Proof.
  intros w r w'. unfold exec. destruct (fault _); [|destruct (f _ _) as [|[a d]]]; intros [= _ <-]; cbn; lia.
Qed.
End Later.

Ltac later_one :=
  first
  [ apply later_ret | apply later_throw | apply later_of_res | apply later_guard | apply later_time
  | apply later_rand | apply later_exec
  | apply later_bind; [|intros ?] | apply later_catch; [|intros ?]
  | match goal with
    | |- Later (if ?b then _ else _) => destruct b
    | |- Later (match ?x with _ => _ end) => destruct x
    | |- Later (let x := _ in _) => cbv zeta
    end
  | match goal with |- Later ?m => let h := eval hnf in m in
      match h with exec _ => change m with h | bind _ _ => change m with h end end ].
Ltac later := repeat later_one.

(** ** Relating the databases before and after a run

    [Steps R m]: every run of [m], failed or not, takes a database to one that
    [R] relates to it.  Invariants and frame conditions are instances. *)
Definition Steps {A} (R : DB -> DB -> Prop) (m : M A) : Prop :=
  forall w r w', m w = (r, w') -> R (db w) (db w').

Section Steps.
Context `{Env} (R : DB -> DB -> Prop) `{!Reflexive R, !Transitive R}.

Lemma steps_ret {A} (a : A) : Steps R (ret a).
Proof. intros w r w' [= _ <-]. done. Qed.
Lemma steps_throw {A} e : Steps R (@throw A e).
Proof. intros w r w' [= _ <-]. done. Qed.
Lemma steps_of_res {A} (x : res A) : Steps R (of_res x).
Proof. intros w r w' [= _ <-]. done. Qed.
Lemma steps_guard b e : Steps R (guard b e).
Proof. destruct b; [apply steps_ret|apply steps_throw]. Qed.
Lemma steps_time : Steps R time_now.
Proof. intros w r w' [= _ <-]. done. Qed.
Lemma steps_rand n : Steps R (rand_read n).
Proof. intros w r w' [= _ <-]. done. Qed.
Lemma steps_bind {A B} (m : M A) (f : A -> M B) :
  Steps R m -> (forall a, Steps R (f a)) -> Steps R (bind m f).
Proof.
  intros Hm Hf w r w'. unfold bind. destruct (m w) as [[a|e] w1] eqn:E; intros Hr.
  - etrans; [by eapply Hm|by eapply Hf].
  - injection Hr as _ <-. by eapply Hm.
Qed.
Lemma steps_catch {A} (m : M A) h : Steps R m -> (forall e, Steps R (h e)) -> Steps R (catch m h).
Proof.
  intros Hm Hh w r w'. unfold catch. destruct (m w) as [[a|e] w1] eqn:E; intros Hr.
  - injection Hr as _ <-. by eapply Hm.
  - etrans; [by eapply Hm|by eapply Hh].
Qed.
Lemma steps_optional {A} (m : M A) : Steps R m -> Steps R (optional m).
Proof.
  intros Hm w r w'. unfold optional. destruct (m w) as [[a|e] w1] eqn:E; [|destruct (bool_decide _)];
    intros [= _ <-]; by eapply Hm.
Qed.
Lemma steps_for_each {A} (f : A -> M unit) l : (forall a, Steps R (f a)) -> Steps R (for_each f l).
Proof. intros Hf. induction l; cbn; [apply steps_ret|apply steps_bind; auto]. Qed.
Lemma steps_map_each {A B} (f : A -> M B) l : (forall a, Steps R (f a)) -> Steps R (map_each f l).
Proof.
  intros Hf. induction l; cbn; [apply steps_ret|]. apply steps_bind; [auto|]. intros b.
  apply steps_bind; [auto|]. intros. apply steps_ret.
Qed.
Lemma steps_query {A} (f : Time -> DB -> PgErr + A) : Steps R (query f).
Proof.
  intros w r w'. unfold query, exec. destruct (fault _); [by intros [= _ <-]|].
  destruct (f _ _); by intros [= _ <-].
Qed.
Lemma steps_query_row {A} (f : Time -> DB -> list A) : Steps R (query_row f).
Proof. apply steps_query. Qed.
Lemma steps_query_rows {A} (f : Time -> DB -> list A) : Steps R (query_rows f).
Proof. apply steps_query. Qed.
Lemma steps_exec {A} (f : Time -> DB -> PgErr + A * DB) :
  (forall now d a d', f now d = inr (a, d') -> R d d') -> Steps R (exec f).
Proof.
  intros Hf w r w'. unfold exec. destruct (fault _); [by intros [= _ <-]|].
  destruct (f _ _) as [|[a d']] eqn:E; intros [= _ <-]; [done|]. by eapply Hf.
Qed.
Lemma steps_control : Steps R control.
Proof. intros w r w' Hc. by rewrite (control_db _ _ _ Hc). Qed.
Lemma steps_in_transaction {A} (m : M A) : Steps R m -> Steps R (in_transaction m).
Proof.
  intros Hm w r w'. unfold in_transaction. destruct (m w) as [[a|e] w1] eqn:E; [|by intros [= _ <-]].
  apply Hm in E. destruct (fault _); [|by intros [= _ <-]]. destruct (commit_applied _); by intros [= _ <-].
Qed.
Lemma steps_Transact {A} epoch sc (fn : Tx -> M A) :
  (forall tx, scope tx = sc -> Steps R (fn tx)) -> Steps R (Transact epoch sc fn).
Proof.
  intros Hf w r w' Ht. apply Transact_atomic in Ht as [->|(_ & a & w0 & w1 & <- & Hr & -> & _)]; [done|].
  refine (Hf _ _ _ _ _ Hr). done.
Qed.
End Steps.

(** *** The schema is an invariant *)
Definition keeps_schema (d d' : DB) : Prop := db_ok d -> db_ok d'.

(** *** Frames: only the tables [ts] change *)
Definition touches (ts : list tbl) (d d' : DB) : Prop := forall t, t ∉ ts -> d' t = d t.

#[export] Instance keeps_schema_refl : Reflexive keeps_schema.
Proof. intros d Hd. exact Hd. Qed.
#[export] Instance keeps_schema_trans : Transitive keeps_schema.
Proof. intros a b c H1 H2 H3. auto. Qed.
#[export] Instance touches_refl ts : Reflexive (touches ts).
Proof. intros d t _. done. Qed.
#[export] Instance touches_trans ts : Transitive (touches ts).
Proof. intros a b c H1 H2 t Ht. by rewrite H2, H1. Qed.

Section StoreSteps.
Context `{Env}.

Lemma store_keeps {A} (a : A) d t l a' d' : store a d t l = inr (a', d') -> keeps_schema d d'.
Proof.
  intros (_ & -> & Hc & Hu & Hf)%store_ok [Hd _]. split; [|done].
  intros t'. destruct (decide (t = t')) as [<-|Hne]; [by rewrite upd_same|].
  rewrite upd_other by done. apply Hd.
Qed.

Lemma store_touches {A} ts (a : A) d t l a' d' :
  t ∈ ts -> store a d t l = inr (a', d') -> touches ts d d'.
Proof. intros Ht (_ & -> & _)%store_ok t' Ht'. apply upd_other. by intros ->. Qed.

(** The statements, for any relation that [store] establishes on table [t]. *)
Context (R : DB -> DB -> Prop) `{!Reflexive R, !Transitive R}.
Context (t : tbl) (Hstore : forall A (a : A) d l a' d', store a d t l = inr (a', d') -> R d d').

Lemma steps_insert r : Steps R (insert t r).
Proof. apply steps_exec; [done|]. intros now d a d'. apply Hstore. Qed.
Lemma steps_insert_or_skip c r : Steps R (insert_or_skip t c r).
Proof.
  apply steps_exec; [done|]. intros now d a d'. case_if as E1; [done|].
  case_if as E2; [by intros [= _ <-]|]. apply Hstore.
Qed.
Lemma steps_upsert c cond s r : Steps R (upsert t c cond s r).
Proof.
  apply steps_exec; [done|]. intros now d a d'. case_if as E1; [done|].
  case_if as E2; apply Hstore.
Qed.
Lemma steps_update_returning c s : Steps R (update_returning t c s).
Proof. apply steps_exec; [done|]. intros now d a d'. apply Hstore. Qed.
Lemma steps_update c s : Steps R (update t c s).
Proof. apply steps_bind; [done|apply steps_update_returning|]. intros a. by apply steps_ret. Qed.
Lemma steps_delete_returning c : Steps R (delete_returning t c).
Proof. apply steps_exec; [done|]. intros now d a d'. apply Hstore. Qed.
Lemma steps_delete c : Steps R (delete t c).
Proof. apply steps_bind; [done|apply steps_delete_returning|]. intros a. by apply steps_ret. Qed.
End StoreSteps.

(** [steps]: decompose a program down to its statements; [stmt] discharges the
    condition on each table. *)
Ltac store_side :=
  intros;
  match goal with
  | H : store _ _ _ _ = inr (_, _) |- keeps_schema _ _ => exact (store_keeps _ _ _ _ _ _ H)
  | H : store _ _ _ _ = inr (_, _) |- touches _ _ _ =>
      eapply store_touches; [|exact H]; apply (bool_decide_eq_true_1 _); vm_compute; reflexivity
  end.
Create HintDb steps.
Ltac steps_one :=
  first
  [ solve [auto with steps nocore]
  | lazymatch goal with |- Steps _ (Transact _ _ _) => apply steps_Transact; [exact _|intros ? ?] end
  | lazymatch goal with |- Steps _ (in_transaction _) => apply steps_in_transaction; [exact _|] end
  | lazymatch goal with |- Steps _ control => apply steps_control; exact _ end
  | apply steps_bind; [exact _| |intros ?]
  | apply steps_catch; [exact _| |intros ?]
  | apply steps_optional
  | apply steps_for_each; [exact _|exact _|intros ?]
  | apply steps_map_each; [exact _|exact _|intros ?]
  | apply steps_ret; exact _ | apply steps_throw; exact _ | apply steps_of_res; exact _
  | apply steps_guard; exact _ | apply steps_time; exact _ | apply steps_rand; exact _
  | apply steps_query; exact _ | apply steps_query_row; exact _ | apply steps_query_rows; exact _
  | apply steps_insert; [exact _|store_side]
  | apply steps_insert_or_skip; [exact _|store_side]
  | apply steps_upsert; [exact _|store_side]
  | apply steps_update_returning; [exact _|store_side]
  | apply steps_update; [exact _|exact _|store_side]
  | apply steps_delete_returning; [exact _|store_side]
  | apply steps_delete; [exact _|exact _|store_side]
  | match goal with
    | |- Steps _ (if ?b then _ else _) => destruct b
    | |- Steps _ (match ?x with _ => _ end) => destruct x
    | |- Steps _ (let x := _ in _) => cbv zeta
    end ].
Ltac steps := repeat steps_one.

(** ** Tables as finite maps

    Facts about lookups by a unique key in an updated table. *)
Lemma find_app {A} (p : A -> bool) l1 l2 :
  List.find p (l1 ++ l2) = match List.find p l1 with Some x => Some x | None => List.find p l2 end.
Proof. induction l1 as [|x l1 IH]; [done|]. simpl. by destruct (p x). Qed.

(** An update that does not change what [p] looks at commutes with a lookup. *)
Lemma find_update {A} (p hit : A -> bool) (f : A -> A) l :
  (forall x, p (f x) = p x) ->
  List.find p (map (fun x => if hit x then f x else x) l)
  = (fun x => if hit x then f x else x) <$> List.find p l.
Proof.
  intros Hp. induction l as [|x l IH]; [done|]. simpl.
  assert (p (if hit x then f x else x) = p x) as -> by (destruct (hit x); [apply Hp|done]).
  by destruct (p x).
Qed.

Lemma find_Some_in {A} (p : A -> bool) l x : List.find p l = Some x -> x ∈ l /\ p x = true.
Proof. intros E. apply find_some in E as [? ?]. by rewrite list_elem_of_In. Qed.

Lemma find_None_in {A} (p : A -> bool) l x : List.find p l = None -> x ∈ l -> p x = false.
Proof. intros E Hin. eapply find_none in E; [done|]. by apply list_elem_of_In. Qed.

Lemma find_is_Some {A} (p : A -> bool) l x : x ∈ l -> p x = true -> is_Some (List.find p l).
Proof.
  intros Hin Hp. destruct (List.find p l) eqn:E; [done|].
  by rewrite (find_None_in _ _ _ E Hin) in Hp.
Qed.

Lemma filter_find {A} (p : A -> bool) l : head (List.filter p l) = List.find p l.
Proof. induction l as [|x l IH]; [done|]. simpl. by destruct (p x). Qed.

Lemma filter_one {A} (p : A -> bool) l :
  Z.of_nat (length (List.filter p l)) = 1 -> exists x, List.find p l = Some x.
Proof.
  intros E. rewrite <- filter_find. destruct (List.filter p l) as [|x [|]]; simpl in *; [lia|by exists x|lia].
Qed.

Lemma NoDup_omap_inj {A} (f : A -> option key) l x y k :
  NoDup (omap f l) -> x ∈ l -> y ∈ l -> f x = Some k -> f y = Some k -> x = y.
Proof.
  induction l as [|z l IH]; intros Hn Hx Hy Fx Fy; [by apply elem_of_nil in Hx|].
  simpl in Hn. apply elem_of_cons in Hx, Hy.
  destruct Hx as [->|Hx], Hy as [->|Hy]; [done| | |].
  - rewrite Fx in Hn. apply NoDup_cons in Hn as [Hn _]. exfalso. apply Hn, list_elem_of_omap. eauto.
  - rewrite Fy in Hn. apply NoDup_cons in Hn as [Hn _]. exfalso. apply Hn, list_elem_of_omap. eauto.
  - apply IH; try done. destruct (f z); [by apply NoDup_cons in Hn as [_ ?]|done].
Qed.

Lemma unique_inj (t : tbl) (l : list (row t)) f x y k :
  unique_ok t l = true -> In f (uniques t) -> x ∈ l -> y ∈ l -> f x = Some k -> f y = Some k -> x = y.
Proof.
  unfold unique_ok. rewrite forallb_forall. intros Hu Hf.
  specialize (Hu f Hf). apply bool_decide_eq_true in Hu. by apply NoDup_omap_inj.
Qed.

Lemma kscope_app_inj s1 s2 k1 k2 : kscope s1 ++ k1 = kscope s2 ++ k2 -> s1 = s2 /\ k1 = k2.
Proof. destruct s1, s2. unfold kscope. simpl. intros [= -> -> -> ->]. done. Qed.

Lemma scope_eqb_eq a b : scope_eqb a b = true <-> a = b.
Proof. apply bool_decide_eq_true. Qed.
Lemma scope_eqb_refl a : scope_eqb a a = true.
Proof. by apply scope_eqb_eq. Qed.
#[export] Hint Rewrite scope_eqb_refl : goeq.
