(* ===== verification/Http.v ===== *)
(** * Requests and responses of net/http

    A request as a handler sees it, and what the handlers read from it; responses
    and the helpers of pkg/orchestrator/server.go that write them.  The framing
    of HTTP is below this model: a request is its method, its escaped path, its
    query text, its header lines and its body, which may fail to arrive. *)

From S2P Require Import Prelude.
From S2P Require Import Json.
From S2P Require Import Decode.
From S2P Require Import Text.
From S2P Require Import Identity.
From S2P Require Import Sql.
From S2P Require Import Url.

Record HttpRequest := mkHttp {
  H_Method : string;
  H_Path : string;                       (* r.URL.EscapedPath() *)
  H_RawQuery : string;                   (* r.URL.RawQuery *)
  H_Header : list (string * string);     (* canonical name and value, in order *)
  H_Body : option string                 (* None: reading it fails *)
}.

(** [r.URL.Path], which the escaped path decodes to. *)
Definition URLPath (r : HttpRequest) : string := default (H_Path r) (unescape false (H_Path r)).
Definition Query (r : HttpRequest) (key : string) : string := Get (fst (ParseQuery (H_RawQuery r))) key.
Definition Header_Values (r : HttpRequest) (name : string) : list string :=
  omap (fun h => if str_eqb (fst h) name then Some (snd h) else None) (H_Header r).
Definition Header_Get (r : HttpRequest) (name : string) : string :=
  match Header_Values r name with v :: _ => v | [] => "" end.

(** [io.ReadAll] of the body behind [http.MaxBytesReader(w, r.Body, 65536)]. *)
Definition Body (r : HttpRequest) : option string :=
  b ← H_Body r; if 65536 <? slen b then None else Some b.

(** ** [r.Cookie]: readCookies of net/http *)
Definition cookie_byte (c : ascii) : bool :=
  in_range 32 126 c && negb (is_char 34 c || is_char 59 c || is_char 92 c).
(** [parseCookieValue]: one pair of quotes is removed. *)
Definition unquoted (raw : string) : string :=
  match raw with
  | String q rest =>
      match reversed rest with
      | String q' inner => if is_char 34 q && is_char 34 q' then reversed inner else raw
      | EmptyString => raw
      end
  | EmptyString => raw
  end.
Definition cookie_in (name part : string) : option string :=
  let '(n, v) := cut (chr 61) (trim_string part) in
  if negb (str_eqb (trim_string n) name) then None else
  if str_forall cookie_byte (unquoted v) then Some (unquoted v) else None.

(** More than 3000 cookies are not read. *)
Definition Cookie (r : HttpRequest) (name : string) : option string :=
  let lines := Header_Values r "Cookie" in
  if 3000 <? fold_right Z.add 0 (map (fun l => count_byte (chr 59) l + 1) lines) then None else
  head (omap (cookie_in name) (flat_map (fun l => split (chr 59) (trim_string l)) lines)).

(** ** Responses *)
Record SetCookie := mkSetCookie { K_Name : string; K_Value : string; K_Path : string; K_MaxAge : Z; K_SameSite : string }.
Inductive Response :=
| Reply (status : Z) (cookies : list SetCookie) (body : string)
| Redirect (cookies : list SetCookie) (location : string)   (* 303 See Other *)
| Unclean                                                   (* the mux redirects to a cleaned path *)
| Asset (path : string).                                    (* the embedded file server answers *)

Definition newline : string := String (chr 10) "".
Definition writeError (status : Z) (message : string) : Response :=
  Reply status [] (print (JObj [("error", JStr message)]) +:+ newline).
(** The value is [None] when it cannot be encoded. *)
Definition writeJSON (status : Z) (value : option json) : Response :=
  match Marshal value with
  | Some encoded => if 2097152 <? slen encoded then writeError 503 "response unavailable" else Reply status [] encoded
  | None => writeError 503 "response unavailable"
  end.
Definition respondError (e : GoErr) : Response :=
  match e with
  | ErrForbidden => writeError 403 "application permission required"
  | ErrNotFound => writeError 404 "record not found"
  | ErrConflict => writeError 409 "state changed; refresh before retrying"
  | ErrInvalid => writeError 400 "invalid request"
  | ErrBusy => writeError 429 "investigation capacity reached; retry later"
  | _ => writeError 503 "service unavailable"
  end.
Definition agentError (e : GoErr) : Response :=
  match e with ErrAgentUnauthorized => writeError 401 "agent credential rejected" | e => respondError e end.

(** [if err != nil { fail(w, err); return }; writeJSON(w, status, show(a))]. *)
Definition respond {A} (fail : GoErr -> Response) (status : Z) (show : A -> option json) (m : M A) : M Response :=
  fun w => match m w with
           | (Ok a, w') => (Ok (writeJSON status (show a)), w')
           | (Err e, w') => (Ok (fail e), w')
           end.

(** [decode] of handlers.go: the canonical form of the body, without unknown
    fields. *)
Definition decode {S} (fields : list (field_decoder S)) (zero : S) (r : HttpRequest) : res S :=
  match Body r with
  | None => Err ErrInvalid
  | Some raw =>
      match CanonicalObject raw with
      | Err _ => Err ErrInvalid
      | Ok canonical =>
          match v ← read_json canonical; dec_struct true fields v zero with
          | Some s => Ok s
          | None => Err ErrInvalid
          end
      end
  end.

Example cookie_samples :
  let q := String (chr 34) "" in
  let r := mkHttp "GET" "/a%20b" "k=v" [("Cookie", "a=1; sid=" +:+ q +:+ "x y" +:+ q +:+ " ; b=2"); ("Cookie", "sid=z")] None in
  Cookie r "sid" = Some "x y" /\ Cookie r "b" = Some "2" /\ Cookie r "c" = None /\ URLPath r = "/a b" /\ Query r "k" = "v".
Proof. vm_compute. repeat split; reflexivity. Qed.
