(* ===== verification/Messaging.v ===== *)
(** * pkg/messaging: commands from chat platforms

    inbound.go.  A webhook of Slack, Discord or Telegram is authenticated by its
    platform's signature or secret, its sender is looked up among the users the
    endpoint is configured with, and its text is parsed into one of four commands,
    which [execute] runs as that user.  Ed25519 is a parameter. *)

From S2P Require Import Prelude.
From S2P Require Import Sha256.
From S2P Require Import Json.
From S2P Require Import GoTime.
From S2P Require Import Decode.
From S2P Require Import Text.
From S2P Require Import Assoc.
From S2P Require Import Url.
From S2P Require Import Identity.
From S2P Require Import Authorization.
From S2P Require Import Db.
From S2P Require Import Sql.
From S2P Require Import Http.

(** [ed25519.Verify(publicKey, message, sig)]. *)
Class Ed25519 := { ed25519_verify : list Z -> string -> list Z -> bool }.

Module Messaging.

(** ** [json.Unmarshal] of any text: keys may repeat, 10000 levels *)
Fixpoint any_value (fuel : nat) (depth : Z) (s : string) {struct fuel} : option (json * string) :=
  match fuel with
  | O => None
  | S fuel =>
      match skip_ws s with
      | EmptyString => None
      | String c s1 =>
          if is_char 123 c then
            if 10000 <=? depth then None else '(fs, rest) ← any_members fuel (depth + 1) true s1; Some (JObj fs, rest)
          else if is_char 91 c then
            if 10000 <=? depth then None else '(l, rest) ← any_elems fuel (depth + 1) true s1; Some (JArr l, rest)
          else if is_char 34 c then '(x, rest) ← read_string s1; Some (JStr x, rest)
          else if is_char 116 c then rest ← strip "rue" s1; Some (JBool true, rest)
          else if is_char 102 c then rest ← strip "alse" s1; Some (JBool false, rest)
          else if is_char 110 c then rest ← strip "ull" s1; Some (JNull, rest)
          else '(lit, rest) ← read_num NStart (String c s1); Some (JNum lit, rest)
      end
  end
with any_members (fuel : nat) (depth : Z) (first : bool) (s : string) {struct fuel}
  : option (list (string * json) * string) :=
  match fuel with
  | O => None
  | S fuel =>
      match skip_ws s with
      | EmptyString => None
      | String c s1 =>
          if is_char 125 c then Some ([], s1)
          else
            key_at ← (if first then Some (String c s1) else if is_char 44 c then Some s1 else None);
            match skip_ws key_at with
            | String q s2 =>
                if is_char 34 q then
                  '(k, s3) ← read_string s2;
                  match skip_ws s3 with
                  | String colon s4 =>
                      if is_char 58 colon then
                        '(v, s5) ← any_value fuel depth s4;
                        '(fs, rest) ← any_members fuel depth false s5; Some ((k, v) :: fs, rest)
                      else None
                  | EmptyString => None
                  end
                else None
            | EmptyString => None
            end
      end
  end
with any_elems (fuel : nat) (depth : Z) (first : bool) (s : string) {struct fuel} : option (list json * string) :=
  match fuel with
  | O => None
  | S fuel =>
      match skip_ws s with
      | EmptyString => None
      | String c s1 =>
          if is_char 93 c then Some ([], s1)
          else
            value_at ← (if first then Some (String c s1) else if is_char 44 c then Some s1 else None);
            '(v, s2) ← any_value fuel depth value_at;
            '(l, rest) ← any_elems fuel depth false s2; Some (v :: l, rest)
      end
  end.
Definition read_any (s : string) : option json :=
  match any_value (read_fuel s) 0 s with
  | Some (v, rest) => if str_eqb (skip_ws rest) "" then Some v else None
  | None => None
  end.

(** ** Configuration *)
Record User := mkUser { U_ExternalID : string; U_PrincipalID : string; U_Groups : list string }.
Record Config := mkConfig {
  MC_ID : string; MC_Provider : string; MC_SecretEnv : string; MC_PublicKey : string; MC_AccountID : string;
  MC_ConversationID : string; MC_Scope : Scope; MC_Users : list User }.
Record Command := mkCommand { CM_Verb : string; CM_ID : string; CM_Value : string; CM_Version : Z }.
Record endpoint := mkEndpoint {
  E_config : Config; E_secret : string; E_key : list Z; E_users : list (string * User) }.
Definition handler : Type := list (string * endpoint).

Definition safe (s : string) : bool := negb (str_eqb s "") && negb (256 <? slen s) && negb (contains_control s).
Definition telegram_char (c : ascii) : bool :=
  in_range 97 122 c || in_range 65 90 c || in_range 48 57 c || is_char 95 c || is_char 45 c.
Definition validTelegramSecret (secret : string) : bool :=
  negb ((slen secret =? 0) || (256 <? slen secret)) && str_forall telegram_char secret.

Fixpoint add_users (users : list (string * User)) (l : list User) : res (list (string * User)) :=
  match l with
  | [] => Ok users
  | u :: l =>
      if negb (safe (U_ExternalID u)) || negb (ValidID (U_PrincipalID u)) || (128 <? Z.of_nat (length (U_Groups u)))
         || bool_decide (is_Some (assoc (U_ExternalID u) users)) || negb (forallb safe (U_Groups u))
      then Err ErrInvalid
      else add_users (assoc_set (U_ExternalID u) u users) l
  end.

(** The secret or the key of an endpoint, and the Telegram secrets taken so far. *)
Definition credentials (getenv : string -> string) (taken : list string) (c : Config)
  : res (string * list Z * list string) :=
  if str_eqb (MC_Provider c) "slack" then
    let secret := getenv (MC_SecretEnv c) in
    if slen secret =? 0 then Err ErrInvalid else Ok (secret, [], taken)
  else if str_eqb (MC_Provider c) "telegram" then
    let secret := getenv (MC_SecretEnv c) in
    if (slen secret =? 0) || negb (validTelegramSecret secret) || mem_str secret taken then Err ErrInvalid
    else Ok (secret, [], secret :: taken)
  else if str_eqb (MC_Provider c) "discord" then
    match hex_decode (MC_PublicKey c) with
    | Some key => if Z.of_nat (length key) =? 32 then Ok ("", key, taken) else Err ErrInvalid
    | None => Err ErrInvalid
    end
  else Err ErrInvalid.

Fixpoint add_endpoints (getenv : string -> string) (taken : list string) (h : handler) (l : list Config) : res handler :=
  match l with
  | [] => Ok h
  | c :: l =>
      if negb (ValidID (MC_ID c)) || negb (Scope_Validate (MC_Scope c)) || negb (safe (MC_AccountID c))
         || negb (safe (MC_ConversationID c)) || (Z.of_nat (length (MC_Users c)) =? 0)
         || (1024 <? Z.of_nat (length (MC_Users c))) || bool_decide (is_Some (assoc (MC_ID c) h))
      then Err ErrInvalid
      else
        res_bind (credentials getenv taken c) (fun '(secret, key, taken) =>
        res_bind (add_users [] (MC_Users c)) (fun users =>
        add_endpoints getenv taken (assoc_set (MC_ID c) (mkEndpoint c secret key users) h) l))
  end.
(** [New] with a non-nil [execute]. *)
Definition New (getenv : string -> string) (configs : list Config) : res handler :=
  if 128 <? Z.of_nat (length configs) then Err ErrInvalid else add_endpoints getenv [] [] configs.

(** ** Commands *)
Definition parseCommand (text : string) : option Command :=
  match Fields text with
  | verb :: id :: rest =>
      if negb (ValidID id) then None else
      if str_eqb verb "ack" || str_eqb verb "reject" then
        match rest with [] => Some (mkCommand verb id "" 0) | _ => None end
      else if str_eqb verb "approve" then
        match rest with
        | [hash] =>
            (* a text that is not ASCII is not hexadecimal either *)
            if negb (slen hash =? 64) || negb (str_eqb (lower hash) hash) then None
            else match hex_decode hash with Some _ => Some (mkCommand verb id hash 0) | None => None end
        | _ => None
        end
      else if str_eqb verb "answer" then
        match rest with
        | [version; value] =>
            if negb (ValidID value) then None else
            match ParseInt version with
            | Some v => if (v <? 1) || negb (str_eqb (show v) version) then None else Some (mkCommand verb id value v)
            | None => None
            end
        | _ => None
        end
      else None
  | _ => None
  end.

(** ** Updates of the platforms *)
Record discord := mkDiscord {
  DC_Type : Z; DC_GuildID : string; DC_ChannelID : string; DC_UserID : string; DC_Bot : bool; DC_Name : string;
  DC_Options : list (string * Z * string) }.
Definition nested {S} (name : string) (fields : list (field_decoder S)) : field_decoder S := (name, dec_struct false fields).
Definition option_fields : list (field_decoder (string * Z * string)) :=
  [field "name" (fun o => fst (fst o)) (fun v o => (v, snd (fst o), snd o)) dec_string;
   field "type" (fun o => snd (fst o)) (fun v o => (fst (fst o), v, snd o)) dec_int64;
   field "value" snd (fun v o => (fst o, v)) dec_string].
Definition discord_fields : list (field_decoder discord) :=
  [field "type" DC_Type (fun v d => mkDiscord v (DC_GuildID d) (DC_ChannelID d) (DC_UserID d) (DC_Bot d) (DC_Name d) (DC_Options d)) dec_int64;
   field "guild_id" DC_GuildID (fun v d => mkDiscord (DC_Type d) v (DC_ChannelID d) (DC_UserID d) (DC_Bot d) (DC_Name d) (DC_Options d)) dec_string;
   field "channel_id" DC_ChannelID (fun v d => mkDiscord (DC_Type d) (DC_GuildID d) v (DC_UserID d) (DC_Bot d) (DC_Name d) (DC_Options d)) dec_string;
   nested "member" [nested "user"
     [field "id" DC_UserID (fun v d => mkDiscord (DC_Type d) (DC_GuildID d) (DC_ChannelID d) v (DC_Bot d) (DC_Name d) (DC_Options d)) dec_string;
      field "bot" DC_Bot (fun v d => mkDiscord (DC_Type d) (DC_GuildID d) (DC_ChannelID d) (DC_UserID d) v (DC_Name d) (DC_Options d)) dec_bool]];
   nested "data"
     [field "name" DC_Name (fun v d => mkDiscord (DC_Type d) (DC_GuildID d) (DC_ChannelID d) (DC_UserID d) (DC_Bot d) v (DC_Options d)) dec_string;
      field "options" DC_Options (fun v d => mkDiscord (DC_Type d) (DC_GuildID d) (DC_ChannelID d) (DC_UserID d) (DC_Bot d) (DC_Name d) v)
        (dec_list ("", 0, "") (dec_struct false option_fields))]].

(** A Telegram message; [TM_SenderChat] says that the member is present. *)
Record telegram := mkTelegram {
  TM_Date : Z; TM_Text : string; TM_Chat : Z; TM_From : option (Z * bool); TM_SenderChat : bool }.
Definition from_fields : list (field_decoder (Z * bool)) :=
  [field "id" fst (fun v f => (v, snd f)) dec_int64; field "is_bot" snd (fun v f => (fst f, v)) dec_bool].
Definition telegram_fields : list (field_decoder telegram) :=
  [field "date" TM_Date (fun v m => mkTelegram v (TM_Text m) (TM_Chat m) (TM_From m) (TM_SenderChat m)) dec_int64;
   field "text" TM_Text (fun v m => mkTelegram (TM_Date m) v (TM_Chat m) (TM_From m) (TM_SenderChat m)) dec_string;
   nested "chat" [field "id" TM_Chat (fun v m => mkTelegram (TM_Date m) (TM_Text m) v (TM_From m) (TM_SenderChat m)) dec_int64];
   field "from" TM_From (fun v m => mkTelegram (TM_Date m) (TM_Text m) (TM_Chat m) v (TM_SenderChat m))
     (dec_ptr (0, false) (dec_struct false from_fields));
   ("sender_chat", fun _ m => Some (mkTelegram (TM_Date m) (TM_Text m) (TM_Chat m) (TM_From m) true))].
Definition update_fields : list (field_decoder (option telegram)) :=
  [field "message" id (fun v _ => v) (dec_ptr (mkTelegram 0 "" 0 None false) (dec_struct false telegram_fields))].

Definition unmarshal {S} (fields : list (field_decoder S)) (zero : S) (raw : string) : option S :=
  v ← read_any raw; dec_struct false fields v zero.

(** What [decode] finds in an authentic update. *)
Inductive update := Ping | Message (user text : string) (ignored : bool).

Section Inbound.
Context `{Env} `{Ed25519}.

Definition fresh (raw : string) : M bool :=
  let* now := time_now in
  ret (match ParseInt raw with Some n => (now / Second - 300 <=? n) && (n <=? now / Second + 30) | None => false end).

Definition slack_signature (secret ts body : string) : string :=
  "v0=" +:+ hex_encode (hmac_sha256 (bytes_of secret) ("v0:" +:+ ts +:+ ":" +:+ body)).

Definition decode_slack (e : endpoint) (r : HttpRequest) (body : string) : M update :=
  let ts := Header_Get r "X-Slack-Request-Timestamp" in
  let* ok := fresh ts in
  guard ok ErrInvalid ;;
  guard (str_eqb (slack_signature (E_secret e) ts body) (Header_Get r "X-Slack-Signature")) ErrInvalid ;;
  let '(form, parsed) := ParseQuery body in
  guard (parsed && forallb (fun kv => Z.of_nat (length (snd kv)) =? 1) form) ErrInvalid ;;
  guard (str_eqb (Get form "team_id") (MC_AccountID (E_config e))
         && str_eqb (Get form "channel_id") (MC_ConversationID (E_config e)) && str_eqb (Get form "command") "/sre")
    ErrInvalid ;;
  ret (Message (Get form "user_id") (Get form "text")
         (negb (str_eqb (Get form "bot_id") "") || str_eqb (Get form "user_id") "USLACKBOT")).

Definition decode_discord (e : endpoint) (r : HttpRequest) (body : string) : M update :=
  let ts := Header_Get r "X-Signature-Timestamp" in
  match hex_decode (Header_Get r "X-Signature-Ed25519") with
  | None => throw ErrInvalid
  | Some sig =>
      let* ok := fresh ts in
      guard (ok && ed25519_verify (E_key e) (ts +:+ body) sig) ErrInvalid ;;
      match unmarshal discord_fields (mkDiscord 0 "" "" "" false "" []) body with
      | None => throw ErrInvalid
      | Some v =>
          if DC_Type v =? 1 then ret Ping else
          match DC_Options v with
          | [(name, type, value)] =>
              guard ((DC_Type v =? 2) && str_eqb (DC_GuildID v) (MC_AccountID (E_config e))
                     && str_eqb (DC_ChannelID v) (MC_ConversationID (E_config e)) && str_eqb (DC_Name v) "sre"
                     && str_eqb name "command" && (type =? 3)) ErrInvalid ;;
              ret (Message (DC_UserID v) value (DC_Bot v))
          | _ => throw ErrInvalid
          end
      end
  end.

Definition decode_telegram (e : endpoint) (r : HttpRequest) (body : string) : M update :=
  guard (str_eqb (E_secret e) (Header_Get r "X-Telegram-Bot-Api-Secret-Token")) ErrInvalid ;;
  match unmarshal update_fields None body with
  | Some (Some m) =>
      match TM_From m with
      | None => throw ErrInvalid
      | Some (sender, bot) =>
          let* ok := fresh (show (TM_Date m)) in
          guard (ok && str_eqb (show (TM_Chat m)) (MC_ConversationID (E_config e))) ErrInvalid ;;
          let '(first, text) := cut (chr 32) (TM_Text m) in
          guard (has_byte (chr 32) (TM_Text m)
                 && (str_eqb first "/sre" || str_eqb first ("/sre@" +:+ MC_AccountID (E_config e)))) ErrInvalid ;;
          ret (Message (show sender) text (bot || TM_SenderChat m))
      end
  | _ => throw ErrInvalid
  end.

Definition decode_update (e : endpoint) (r : HttpRequest) (body : string) : M update :=
  let provider := MC_Provider (E_config e) in
  if str_eqb provider "slack" then decode_slack e r body
  else if str_eqb provider "discord" then decode_discord e r body
  else if str_eqb provider "telegram" then decode_telegram e r body
  else throw ErrInvalid.

(** ** ServeHTTP *)
Definition principal_of (e : endpoint) (u : User) (now : Time) : Principal :=
  mkPrincipal (U_PrincipalID u)
    ("https://sre.internal/messaging/" +:+ MC_Provider (E_config e) +:+ "/" +:+ PathEscape (MC_AccountID (E_config e)))
    "" "" "" (U_Groups u) now (Add now (5 * Minute)).

Definition plain (status : Z) (message : string) : Response := Reply status [] (message +:+ newline).
Definition answer (v : json) : Response := Reply 200 [] (print v +:+ newline).

(** [execute], whose transient errors ([ErrRetryable]) are not acknowledged. *)
Inductive outcome := Accepted | Rejected | Retryable.

Definition acknowledgement (provider message : string) : Response :=
  if str_eqb provider "slack" then answer (JObj [("response_type", JStr "ephemeral"); ("text", JStr message)])
  else if str_eqb provider "discord" then
    answer (JObj [("type", jint 4); ("data", JObj [("content", JStr message); ("flags", jint 64);
      ("allowed_mentions", JObj [("parse", JArr [])])])])
  else answer (JObj [("ok", JBool true)]).

Definition ServeHTTP (execute : Principal -> Scope -> Command -> M outcome) (h : handler) (r : HttpRequest) : M Response :=
  if negb (str_eqb (H_Method r) "POST") then ret (Reply 405 [] "") else
  match split slash (URLPath r) with
  | [_; channels; id; events] =>
      if negb (str_eqb channels "channels" && str_eqb events "events") then ret (plain 404 "404 page not found") else
      match assoc id h with
      | None => ret (plain 404 "404 page not found")
      | Some e =>
          match Body r with
          | None => ret (plain 413 "invalid request")
          | Some body =>
              fun w =>
              match decode_update e r body w with
              | (Err _, w) => (Ok (plain 401 "request rejected"), w)
              | (Ok Ping, w) => (Ok (answer (JObj [("type", jint 1)])), w)
              | (Ok (Message user text ignored), w) =>
                  if ignored then (Ok (Reply 200 [] ""), w) else
                  match assoc user (E_users e) with
                  | None => (Ok (plain 403 "request rejected"), w)
                  | Some u =>
                      match parseCommand text with
                      | None => (Ok (plain 400 "unsupported command"), w)
                      | Some command =>
                          (let* now := time_now in
                           let* o := execute (principal_of e u now) (MC_Scope (E_config e)) command in
                           ret (match o with
                                | Retryable => plain 503 "command temporarily unavailable"
                                | Accepted => acknowledgement (MC_Provider (E_config e)) "Command accepted."
                                | Rejected => acknowledgement (MC_Provider (E_config e))
                                                "Command rejected by policy or current state."
                                end)) w
                      end
                  end
              end
          end
      end
  | _ => ret (plain 404 "404 page not found")
  end.
End Inbound.
End Messaging.
