(* ===== verification/Storage.v ===== *)
(** * pkg/storage/postgres: incidents, items, lineage, outbox, agents, actions

    The methods of [Tx] in transaction.go, items.go, lineage.go, outbox.go,
    agents.go, actions.go and runs.go, one definition per method, with the SQL
    of each statement as a filter, a sort or an update on the table's rows.
    Text columns are compared bytewise (the C collation).  An envelope column
    holds the Go value that was encoded into it; only an item's body, whose
    bytes are hashed, goes through the number normalisation of [jsonb]. *)

From S2P Require Import Prelude.
From S2P Require Import Sha256.
From S2P Require Import Json.
From S2P Require Import JsonFacts.
From S2P Require Import GoTime.
From S2P Require Import Decode.
From S2P Require Import Identity.
From S2P Require Import Authorization.
From S2P Require Import Incident.
From S2P Require Import Db.
From S2P Require Import Sql.

Definition in_scope (t : Tx) (s : Scope) : bool := scope_eqb s (scope t).

(** ** jsonb *)

(** A number literal as [numeric] prints it: no exponent, no negative zero;
    [None] outside the range of the type. *)
Definition jsonb_num (lit : string) : option string :=
  let '(neg, m, ex) := split_number lit in
  if (131072 <? ex) || (ex <? - 16383) then None else
  let body := if 0 <=? ex then show_pos (m * 10 ^ ex)
              else show_pos (m / 10 ^ (- ex)) +:+ "." +:+ digits (Z.to_nat (- ex)) (m mod 10 ^ (- ex)) in
  Some (if neg && negb (m =? 0) then "-" +:+ body else body).

Definition no_nul (s : string) : bool := str_forall (fun c => negb (is_char 0 c)) s.

Fixpoint jsonb (v : json) : option json :=
  match v with
  | JNum lit => JNum <$> jsonb_num lit
  | JStr s => if no_nul s then Some (JStr s) else None
  | JArr l => JArr <$> (fix go l := match l with
                         | [] => Some []
                         | x :: l => y ← jsonb x; ys ← go l; Some (y :: ys) end) l
  | JObj fs => JObj <$> (fix go fs := match fs with
                         | [] => Some []
                         | (k, x) :: fs => if no_nul k then y ← jsonb x; ys ← go fs; Some ((k, y) :: ys)
                                           else None end) fs
  | v => Some v
  end.

(** The canonical text of an object after a round trip through [jsonb]. *)
Definition jsonb_text (raw : string) : option string :=
  v ← read_json raw; w ← jsonb v; Some (print w).

Definition jsonb_item (i : Item) : option Item :=
  body ← jsonb_text (I_Body i);
  Some (mkItem (I_Scope i) (I_IncidentID i) (I_ID i) (I_Version i) (I_Kind i) body
          (I_ObservedAt i) (I_ValidUntil i) (I_Parents i) (I_Hash i)).

(** ** Sorting and paging *)
Definition latest_leb {A} (id : A -> string) (v : A -> Z) (a b : A) : bool :=
  if str_eqb (id a) (id b) then v b <=? v a else str_leb (id a) (id b).

(** [DISTINCT ON (id) ... ORDER BY id, version DESC]. *)
Fixpoint distinct_on {A} (id : A -> string) (prev : option string) (l : list A) : list A :=
  match l with
  | [] => []
  | x :: l => if bool_decide (prev = Some (id x)) then distinct_on id prev l
              else x :: distinct_on id (Some (id x)) l
  end.
Definition latest_per_id {A} (id : A -> string) (v : A -> Z) (l : list A) : list A :=
  distinct_on id None (isort (latest_leb id v) l).

(** [id > after ORDER BY id LIMIT n]. *)
Definition page {A} (id : A -> string) (after : string) (limit : Z) (l : list A) : list A :=
  take (Z.to_nat limit) (isort (fun a b => str_leb (id a) (id b))
    (List.filter (fun x => str_ltb after (id x)) l)).

Definition valid_page (after : string) (limit : Z) : bool :=
  negb ((negb (str_eqb after "") && negb (ValidID after)) || (limit <? 1) || (100 <? limit)).

Definition validState (state : string) : bool :=
  mem_str state ["OPEN"; "INVESTIGATING"; "NEEDS_EVIDENCE"; "INCONCLUSIVE"; "CORROBORATED";
                 "MITIGATED"; "RECOVERED"; "RESOLVED"; "CLOSED"].

Section Storage.
Context `{Env}.

(** [INSERT INTO scopes ... ON CONFLICT DO NOTHING]. *)
Definition ensure_scope (t : Tx) : M Z :=
  insert_or_skip Tscopes (fun r o : row Tscopes => scope_eqb r o) (fun _ => scope t : row Tscopes).

(** ** transaction.go *)
Definition CreateIncident (t : Tx) (i : Incident) : M unit :=
  guard (scope_eqb (N_Scope i) (scope t) && ValidID (N_ID i) && (N_Version i =? 1)
         && validState (N_State i) && negb (IsZero (N_OpenedAt i))) ErrInvalid ;;
  ensure_scope t ;;
  insert Tincidents (fun _ => mkIncident (scope t) (N_ID i) (N_Version i) (N_State i) (pgTime (N_OpenedAt i))).

Definition incident_at (t : Tx) (id : string) (i : row Tincidents) : bool :=
  in_scope t (N_Scope i) && str_eqb (N_ID i) id.

Definition Incident_ (t : Tx) (id : string) : M Incident :=
  guard (ValidID id) ErrInvalid ;;
  query_row (fun _ d => List.filter (incident_at t id) (d Tincidents)).

Definition UpdateIncident (t : Tx) (id : string) (expectedVersion : Z) (state : string) : M unit :=
  guard (ValidID id && negb (expectedVersion <? 1) && validState state) ErrInvalid ;;
  let* n := update Tincidents
      (fun _ _ r => incident_at t id r && (N_Version r =? expectedVersion))
      (fun _ r => mkIncident (N_Scope r) (N_ID r) (N_Version r + 1) state (N_OpenedAt r)) in
  guard (n =? 1) ErrConflict.

Definition Incidents (t : Tx) (afterID : string) (limit : Z) : M (list Incident) :=
  guard (valid_page afterID limit) ErrInvalid ;;
  query_rows (fun _ d => page N_ID afterID limit
    (List.filter (fun r : row Tincidents => in_scope t (N_Scope r)) (d Tincidents))).

(** [ORDER BY opened_at DESC, id DESC LIMIT 1]. *)
Definition opened_leb (a b : Incident) : bool :=
  if N_OpenedAt a =? N_OpenedAt b then str_leb (N_ID b) (N_ID a) else N_OpenedAt b <? N_OpenedAt a.
Definition ActiveIncident (t : Tx) : M Incident :=
  query_row (fun _ d => isort opened_leb
    (List.filter (fun r : row Tincidents => in_scope t (N_Scope r)
       && negb (mem_str (N_State r) ["CLOSED"; "RESOLVED"])) (d Tincidents))).

(** ** items.go *)

(** [decodeItem]: the envelope is sealed again and must hash to what it says. *)
Definition decodeItem (stored : Item) : res Item :=
  match Seal stored with
  | Ok i => if str_eqb (I_Hash i) (I_Hash stored) then Ok i else Err ErrUnavailable
  | Err _ => Err ErrUnavailable
  end.

Definition item_at (t : Tx) (ref : ItemRef) (r : row Titems) : bool :=
  in_scope t (i_scope r) && bool_decide (i_ref r = ref).

Definition check_item_scope (t : Tx) (i : Item) : M Item :=
  guard (scope_eqb (I_Scope i) (scope t)) ErrUnavailable ;; ret i.

Definition GetItem (t : Tx) (ref : ItemRef) : M Item :=
  guard (validRef ref) ErrInvalid ;;
  let* raw := query_row (fun _ d => map i_envelope (List.filter (item_at t ref) (d Titems))) in
  let* item := of_res (decodeItem raw) in
  check_item_scope t item.

Definition Items (t : Tx) (incidentID afterID : string) (limit : Z) : M (list Item) :=
  guard (ValidID incidentID && valid_page afterID limit) ErrInvalid ;;
  let* raws := query_rows (fun _ d => take (Z.to_nat limit)
    (latest_per_id (fun r : row Titems => R_ID (i_ref r)) (fun r => R_Version (i_ref r))
      (List.filter (fun r : row Titems => in_scope t (i_scope r) && str_eqb (i_incident r) incidentID
                              && str_ltb afterID (R_ID (i_ref r))) (d Titems)))) in
  map_each (fun r : row Titems => let* i := of_res (decodeItem (i_envelope r)) in check_item_scope t i) raws.

Definition Quarantine (t : Tx) (ref : ItemRef) : M unit :=
  guard (validRef ref) ErrInvalid ;;
  let* n := update Teligibility
    (fun _ _ r => in_scope t (e_scope r) && bool_decide (e_item r = ref))
    (fun _ r => mkEligibilityRow (e_scope r) (e_item r) true) in
  guard (n =? 1) ErrNotFound.

(** [CurrentItem] of feedback.go. *)
Definition CurrentItem (t : Tx) (id : string) : M Item :=
  guard (ValidID id) ErrInvalid ;;
  let* raw := query_row (fun _ d => map i_envelope
    (isort (fun a b : row Titems => R_Version (i_ref b) <=? R_Version (i_ref a))
      (List.filter (fun r : row Titems => in_scope t (i_scope r) && str_eqb (R_ID (i_ref r)) id) (d Titems)))) in
  of_res (decodeItem raw).
End Storage.

(** ** lineage.go: the recursive query *)
Definition edge : Type := ItemRef * ItemRef * bool.
Definition node : Type := ItemRef * bool.

Definition edges (t : Tx) (d : DB) : list edge :=
  map (fun r => (p_child r, p_parent r, false))
      (List.filter (fun r : row Tparents => in_scope t (p_scope r)) (d Tparents))
  ++ map (fun r => (h_child r, h_parent r, true))
      (List.filter (fun r : row Thistory => in_scope t (h_scope r)) (d Thistory)).

(** The rows that one round of the recursive term derives from [work]. *)
Definition expand (es : list edge) (work : list node) : list node :=
  flat_map (fun n : node => map (fun e : edge => (snd (fst e), snd n || snd e))
     (List.filter (fun e : edge => bool_decide (fst (fst e) = fst n)) es)) work.

(** UNION: only rows that are new join the result and the next round; the query
    ends with the first round that derives none. *)
Fixpoint lineage_loop (fuel : nat) (es : list edge) (acc work : list node) : list node :=
  match fuel with
  | O => acc
  | S fuel =>
      match remove_dups (List.filter (fun n => negb (bool_decide (n ∈ acc))) (expand es work)) with
      | [] => acc
      | new => lineage_loop fuel es (acc ++ new) new
      end
  end.

(** Every round adds a pair of an edge's parent and a flag, so twice the number
    of edges rounds are enough. *)
Definition lineage (t : Tx) (d : DB) (ref : ItemRef) : list node :=
  let es := edges t d in
  if existsb (item_at t ref) (d Titems)
  then lineage_loop (S (2 * length es)) es [(ref, false)] [(ref, false)]
  else [].

Definition item_row (t : Tx) (d : DB) (ref : ItemRef) : option (row Titems) :=
  List.find (item_at t ref) (d Titems).
Definition quarantined (t : Tx) (d : DB) (ref : ItemRef) : option bool :=
  e_quarantined <$> List.find (fun r : row Teligibility => in_scope t (e_scope r) && bool_decide (e_item r = ref))
    (d Teligibility).

(** [COALESCE(NOT e.quarantined, false)]. *)
Definition not_quarantined (t : Tx) (d : DB) (ref : ItemRef) : bool :=
  match quarantined t d ref with Some q => negb q | None => false end.

(** [(envelope #>> '{body,source,generation}')::bigint >= ...]: a revocation of
    this agent and epoch that reaches the generation of the evidence; [None] is
    the cast error 22P02. *)
Definition revoked_through (t : Tx) (d : DB) (agent epoch : string) (generation : option string) : option bool :=
  let rs := List.filter (fun r : row Trevocations => in_scope t (v_scope r) && str_eqb (v_agent r) agent
                                   && str_eqb (v_epoch r) epoch) (d Trevocations) in
  match rs, generation with
  | [], _ => Some false
  | _, None => Some false
  | _, Some g => z ← parse_int g; Some (existsb (fun r : row Trevocations => z <=? v_through r) rs)
  end.

(** The agent subquery of [Eligible] ([strict]: generation and expiry are
    compared too) and of [HistoricalEligible]. *)
Definition source_current (t : Tx) (d : DB) (body : string) (strict : bool) (at_ : Time) : option bool :=
  let agent_id := json_path body ["source"; "agent_id"] in
  let generation := json_path body ["source"; "generation"] in
  let epoch := json_path body ["source"; "epoch"] in
  match agent_id, epoch with
  | Some a, Some e =>
      match List.find (fun g : row Tagents => in_scope t (g_scope g) && str_eqb (g_id g) a) (d Tagents) with
      | Some g =>
          if (negb strict || bool_decide (generation = Some (show (g_generation g))))
             && str_eqb (g_epoch g) e && (str_eqb (authorityEpoch t) "" || str_eqb (g_epoch g) (authorityEpoch t))
             && str_eqb (g_role g) "COLLECTOR" && negb (g_revoked g)
             && (negb strict || After (g_expires g) at_)
          then negb <$> revoked_through t d (g_id g) (g_epoch g) generation
          else Some false
      | None => Some false
      end
  | _, _ => Some false
  end.

Definition node_eligible (t : Tx) (d : DB) (at_ : Time) (n : node) : option bool :=
  let '(ref, historic) := n in
  if negb (not_quarantined t d ref) then Some false else
  match item_row t d ref with
  | None => Some false
  | Some i =>
      if negb (historic || ((i_observed i <=? at_) && (at_ <? i_valid_until i))) then Some false
      else if negb (bool_decide (i_kind i = Evidence)) then Some true
      else if str_eqb (authorityEpoch t) ""
              && bool_decide (json_path (I_Body (i_envelope i)) ["source"; "epoch"] = None)
      then Some true
      else source_current t d (I_Body (i_envelope i)) (negb historic) at_
  end.

(** [bool_and] over the lineage, false when it is empty. *)
Fixpoint bool_and (l : list (option bool)) : option bool :=
  match l with
  | [] => Some true
  | x :: l => a ← x; b ← bool_and l; Some (a && b)
  end.
Definition all_of (l : list node) (f : node -> option bool) : PgErr + bool :=
  match l with
  | [] => inr false
  | _ => match bool_and (map f l) with Some b => inr b | None => inl Pg22P02 end
  end.

Section Lineage.
Context `{Env}.

Definition Eligible (t : Tx) (ref : ItemRef) (at_ : Time) : M bool :=
  guard (validRef ref && negb (IsZero at_)) ErrInvalid ;;
  query (fun _ d => all_of (lineage t d ref) (node_eligible t d (pgTime at_))).

Definition Uncontested (t : Tx) (ref : ItemRef) : M bool :=
  guard (validRef ref) ErrInvalid ;;
  query (fun _ d => all_of (lineage t d ref) (fun n => Some (not_quarantined t d (fst n)))).

(** [HistoricalEligible] of knowledge.go: its join drops missing items. *)
Definition HistoricalEligible (t : Tx) (ref : ItemRef) : M bool :=
  guard (validRef ref) ErrInvalid ;;
  let* ok := Uncontested t ref in
  if negb ok then ret false else
  query (fun _ d =>
    all_of (List.filter (fun n => bool_decide (is_Some (item_row t d (fst n)))) (lineage t d ref))
      (fun n => match item_row t d (fst n) with
                | Some i => if negb (bool_decide (i_kind i = Evidence)) then Some true
                            else source_current t d (I_Body (i_envelope i)) false 0
                | None => Some true
                end)).

Definition CurrentEvidence (t : Tx) (incidentID : string) (at_ : Time) (limit : Z) : M (list Item) :=
  guard (ValidID incidentID && negb (IsZero at_) && negb ((limit <? 1) || (100 <? limit))) ErrInvalid ;;
  let* raws := query_rows (fun _ d =>
    take (Z.to_nat limit)
      (List.filter (fun r : row Titems => bool_decide (i_kind r = Evidence)
                      && (i_observed r <=? pgTime at_) && (pgTime at_ <? i_valid_until r))
        (latest_per_id (fun r : row Titems => R_ID (i_ref r)) (fun r => R_Version (i_ref r))
          (List.filter (fun r : row Titems => in_scope t (i_scope r) && str_eqb (i_incident r) incidentID)
             (d Titems))))) in
  map_each (fun r : row Titems => let* i := of_res (decodeItem (i_envelope r)) in check_item_scope t i) raws.
End Lineage.
