(* ===== verification/Lineage.v ===== *)
(** * The recursive lineage query computes reachability

    Facts on [lineage] of Storage.v: the loop ends within its fuel and returns
    exactly the nodes that the edges of the two dependency tables reach. *)

From stdpp Require Import relations.
From S2P Require Import Prelude.
From S2P Require Import Sha256.
From S2P Require Import Json.
From S2P Require Import JsonFacts.
From S2P Require Import GoTime.
From S2P Require Import Decode.
From S2P Require Import Identity.
From S2P Require Import Authorization.
From S2P Require Import Incident.
From S2P Require Import Db.
From S2P Require Import Sql.
From S2P Require Import Storage.

(** A node's parents: the parent of an edge from its item, historic as soon as
    one edge on the way is. *)
Definition parent (es : list edge) (n n' : node) : Prop :=
  exists e, e ∈ es /\ fst (fst e) = fst n /\ n' = (snd (fst e), snd n || snd e).

Lemma elem_of_expand es work n :
  n ∈ expand es work <-> exists m, m ∈ work /\ parent es m n.
Proof.
  unfold expand. rewrite list_elem_of_In, in_flat_map. split.
  - intros (m & Hm & Hn). apply in_map_iff in Hn as (e & <- & He). apply filter_In in He as [He Hb].
    apply bool_decide_eq_true in Hb. apply list_elem_of_In in Hm, He. exists m. split; [done|]. by exists e.
  - intros (m & Hm & e & He & E & ->). apply list_elem_of_In in Hm, He. exists m. split; [done|].
    apply in_map_iff. exists e. split; [done|]. apply filter_In. split; [done|]. by apply bool_decide_eq_true.
Qed.

(** Every node the edges can produce, and the root. *)
Definition universe (es : list edge) (root : node) : list node :=
  root :: flat_map (fun e : edge => [(snd (fst e), true); (snd (fst e), false)]) es.

Lemma length_universe es root : length (universe es root) = S (2 * length es).
Proof.
  unfold universe. cbn [length]. f_equal. induction es as [|e es IH]; [done|]. cbn [flat_map app length]. lia.
Qed.

Lemma parent_universe es root n n' : parent es n n' -> n' ∈ universe es root.
Proof.
  intros (e & He & _ & ->). apply elem_of_cons. right. apply list_elem_of_In, in_flat_map. exists e.
  split; [by apply list_elem_of_In|]. destruct (snd n || snd e); cbn; tauto.
Qed.

Lemma filter_new es (acc work : list node) n :
  n ∈ remove_dups (List.filter (fun n => negb (bool_decide (n ∈ acc))) (expand es work)) <->
  (n ∉ acc) /\ exists m, m ∈ work /\ parent es m n.
Proof.
  rewrite elem_of_remove_dups, <- elem_of_expand, list_elem_of_In, filter_In, negb_true_iff, bool_decide_eq_false.
  rewrite <- list_elem_of_In. tauto.
Qed.

Section Loop.
Context (es : list edge) (root : node).

Record loop_inv (acc work : list node) : Prop := {
  li_nodup : NoDup acc;
  li_universe : forall n, n ∈ acc -> n ∈ universe es root;
  li_work : forall n, n ∈ work -> n ∈ acc;
  li_closed : forall n n', n ∈ acc -> (n ∉ work) -> parent es n n' -> n' ∈ acc;
  li_reach : forall n, n ∈ acc -> rtc (parent es) root n
}.

Lemma loop_inv_next acc work new :
  loop_inv acc work -> new = remove_dups (List.filter (fun n => negb (bool_decide (n ∈ acc))) (expand es work)) ->
  loop_inv (acc ++ new) new.
Proof.
  intros [H1 H2 H3 H4 H5] ->. constructor.
  - apply NoDup_app. split; [done|]. split; [|apply NoDup_remove_dups].
    intros n Hn Hnew. apply filter_new in Hnew as [Hnew _]. done.
  - intros n [Hn|Hn]%elem_of_app; [by apply H2|]. apply filter_new in Hn as (_ & m & _ & Hp).
    by eapply parent_universe.
  - intros n Hn. apply elem_of_app. by right.
  - intros n n' [Hn|Hn]%elem_of_app Hw Hp; [|done]. apply elem_of_app.
    destruct (decide (n ∈ work)) as [Hin|Hin]; [|left; by eapply H4].
    destruct (decide (n' ∈ acc)); [by left|]. right. apply filter_new. split; [done|]. by exists n.
  - intros n [Hn|Hn]%elem_of_app; [by apply H5|]. apply filter_new in Hn as (_ & m & Hm & Hp).
    eapply rtc_r; [apply H5, H3, Hm|done].
Qed.

Lemma loop_result fuel : forall acc work,
  loop_inv acc work -> (length (universe es root) < length acc + fuel)%nat ->
  let r := lineage_loop fuel es acc work in
  (forall n, n ∈ acc -> n ∈ r) /\ (forall n n', n ∈ r -> parent es n n' -> n' ∈ r) /\
  (forall n, n ∈ r -> rtc (parent es) root n) /\ NoDup r.
Proof.
  induction fuel as [|fuel IH]; intros acc work Hinv Hlen.
  { exfalso. pose proof (submseteq_length _ _ (NoDup_submseteq _ _ (li_nodup _ _ Hinv) (li_universe _ _ Hinv))). lia. }
  cbn [lineage_loop]. pose proof (loop_inv_next acc work _ Hinv eq_refl) as Hnext.
  destruct (remove_dups _) as [|n new] eqn:E.
  - cbn. destruct Hinv as [H1 H2 H3 H4 H5]. split; [done|]. split; [|done].
    intros m m' Hm Hp. destruct (decide (m ∈ work)) as [Hw|Hw]; [|by eapply H4].
    destruct (decide (m' ∈ acc)) as [|Hne]; [done|]. exfalso.
    assert (Hin : m' ∈ @nil node); [|by apply elem_of_nil in Hin].
    rewrite <- E. apply filter_new. split; [done|]. by exists m.
  - destruct (IH _ _ Hnext) as (R1 & R2 & R3 & R4); [rewrite length_app; cbn [length]; lia|].
    split; [|done]. intros m Hm. apply R1, elem_of_app. by left.
Qed.
End Loop.

(** The fuel of [lineage] suffices, and the query returns reachability. *)
Lemma lineage_loop_spec es root n :
  n ∈ lineage_loop (S (2 * length es)) es [root] [root] <-> rtc (parent es) root n.
Proof.
  assert (Hinv : loop_inv es root [root] [root]).
  { constructor.
    - apply NoDup_singleton.
    - intros m ->%list_elem_of_singleton. by left.
    - done.
    - intros m m' Hm Hw. by destruct (Hw Hm).
    - intros m ->%list_elem_of_singleton. apply rtc_refl. }
  destruct (loop_result es root (S (2 * length es)) _ _ Hinv) as (R1 & R2 & R3 & _).
  { rewrite length_universe. cbn [length]. lia. }
  split; [apply R3|]. intros Hs. assert (Hroot : root ∈ lineage_loop (S (2 * length es)) es [root] [root]).
  { apply R1. by left. }
  set (r := lineage_loop _ _ _ _) in *. clearbody r. clear - Hs R2 Hroot.
  induction Hs as [|a b c Hp Hs IH]; [done|]. apply IH. by eapply R2.
Qed.

(** ** Quarantine *)

(** The item that [ref] names, or one of its ancestors. *)
Definition ancestor (t : Tx) (d : DB) (ref r : ItemRef) : Prop :=
  exists b, rtc (parent (edges t d)) (ref, false) (r, b).

Lemma lineage_spec t d ref n :
  n ∈ lineage t d ref <-> existsb (item_at t ref) (d Titems) = true /\ rtc (parent (edges t d)) (ref, false) n.
Proof.
  unfold lineage. destruct (existsb _ _).
  - rewrite lineage_loop_spec. tauto.
  - split; [by intros ?%elem_of_nil|by intros [? _]].
Qed.

Lemma bool_and_false l : Some false ∈ l -> bool_and l <> Some true.
Proof.
  induction l as [|x l IH]; [by intros ?%elem_of_nil|]. intros [<-|Hin]%elem_of_cons; cbn.
  - by destruct (bool_and l).
  - destruct x as [[]|]; cbn; [|by destruct (bool_and l)|done].
    destruct (bool_and l) as [[]|] eqn:E; cbn; [|done..]. by destruct (IH Hin).
Qed.

Lemma all_of_false l f n : n ∈ l -> f n = Some false -> all_of l f <> inr true.
Proof.
  intros Hin Hf. unfold all_of. destruct l as [|x l]; [done|].
  destruct (bool_and (map f (x :: l))) as [b|] eqn:E; [|done]. intros [= ->].
  apply (bool_and_false (map f (x :: l))); [|done]. rewrite <- Hf. by apply list_elem_of_fmap_2.
Qed.

Lemma all_of_true l f : all_of l f = inr true -> l <> [] /\ forall n, n ∈ l -> f n = Some true.
Proof.
  unfold all_of. destruct l as [|x l]; [done|]. destruct (bool_and _) as [b|] eqn:E; [|done]. intros [= ->].
  split; [done|]. revert E. generalize (x :: l) as ns. induction ns as [|y ns IH]; intros E n Hn; [by apply elem_of_nil in Hn|].
  cbn in E. destruct (f y) as [a|] eqn:Ey; [|done]. cbn in E. destruct (bool_and (map f ns)) as [b|] eqn:Eb; [|done].
  injection E as [-> ->]%andb_true_iff. apply elem_of_cons in Hn as [->|Hn]; [done|]. by apply IH.
Qed.
