(* ===== verification/EvidenceFacts.v ===== *)
(** * The current evidence of an incident

    What [CurrentEvidence] of Storage.v reads: the newest version of every item,
    kept if it is evidence that is fresh, in the order of the identifiers, a
    hundred at most. *)

From stdpp Require Import relations.
From S2P Require Import Prelude.
From S2P Require Import Json.
From S2P Require Import JsonFacts.
From S2P Require Import GoTime.
From S2P Require Import Identity.
From S2P Require Import Incident.
From S2P Require Import Db.
From S2P Require Import Sql.
From S2P Require Import Storage.

(** ** [DISTINCT ON (id) ... ORDER BY id, version DESC] *)
Section Latest.
Context {A : Type} (id : A -> string) (v : A -> Z).
Implicit Types l : list A.

Definition id_lt (a b : A) : Prop := str_leb (id a) (id b) = true /\ id a <> id b.

Lemma latest_leb_total a b : latest_leb id v a b = true \/ latest_leb id v b a = true.
Proof.
  unfold latest_leb. destruct (str_eqb (id a) (id b)) eqn:E.
  - apply str_eqb_eq in E. rewrite E, str_eqb_refl. lia.
  - destruct (str_eqb (id b) (id a)) eqn:E'; [|apply str_leb_total].
    apply str_eqb_eq in E'. apply str_eqb_neq in E. congruence.
Qed.
Lemma latest_leb_spec a b :
  latest_leb id v a b = true <-> str_leb (id a) (id b) = true /\ (id a = id b -> v b <= v a).
Proof.
  unfold latest_leb. case_if as E.
  - apply str_eqb_eq in E. rewrite E, Z.leb_le. split; [intros H; split; [by destruct (str_leb_total (id b) (id b))|done]|].
    intros [_ H]. auto.
  - apply str_eqb_neq in E. split; [done|]. by intros [H _].
Qed.
Lemma latest_leb_trans a b c : latest_leb id v a b = true -> latest_leb id v b c = true -> latest_leb id v a c = true.
Proof.
  rewrite !latest_leb_spec. intros [H1 V1] [H2 V2]. split; [by eapply str_leb_trans|]. intros E.
  assert (Eab : id a = id b) by (apply str_leb_antisym; [done|by rewrite E]). rewrite Eab in *. specialize (V1 eq_refl).
  specialize (V2 E). lia.
Qed.

(** In a list in that order, [distinct_on] keeps the first row of each group. *)
Lemma distinct_on_spec l : forall prev, StronglySorted (fun a b => latest_leb id v a b = true) l ->
  (forall p, prev = Some p -> Forall (fun x => str_leb p (id x) = true) l) ->
  let d := distinct_on id prev l in
  (forall x, x ∈ d -> x ∈ l /\ prev <> Some (id x) /\ forall y, y ∈ l -> id y = id x -> v y <= v x) /\
  (forall x, x ∈ l -> prev = Some (id x) \/ exists y, y ∈ d /\ id y = id x) /\
  StronglySorted id_lt d.
Proof.
  induction l as [|x l IH]; intros prev Hs Hp; cbn [distinct_on].
  { split; [by intros x Hx%elem_of_nil|]. split; [by intros x Hx%elem_of_nil|]. constructor. }
  apply StronglySorted_inv in Hs as [Hs Hx]. rewrite Forall_forall in Hx.
  case_if as E.
  - apply bool_decide_eq_true in E as ->. destruct (IH (Some (id x)) Hs) as (H1 & H2 & H3).
    { intros p [= <-]. apply Forall_forall. intros y Hy. by apply Hx, latest_leb_spec in Hy as [Hy _]. }
    split; [|split; [|done]].
    + intros y Hy. destruct (H1 y Hy) as (Hin & Hne & Hmax). split; [by right|]. split; [done|].
      intros z [->|Hz]%elem_of_cons Ez; [congruence|by apply Hmax].
    + intros y [->|Hy]%elem_of_cons; [by left|by apply H2].
  - apply bool_decide_eq_false in E. destruct (IH (Some (id x)) Hs) as (H1 & H2 & H3).
    { intros p [= <-]. apply Forall_forall. intros y Hy. by apply Hx, latest_leb_spec in Hy as [Hy _]. }
    split; [|split].
    + intros y [->|Hy]%elem_of_cons.
      * split; [by left|]. split; [done|]. intros z [->|Hz]%elem_of_cons Ez; [lia|].
        apply Hx, latest_leb_spec in Hz as [_ Hz]. by apply Hz.
      * destruct (H1 y Hy) as (Hin & Hne & Hmax). split; [by right|]. split.
        { intros ->. specialize (Hp _ eq_refl). apply Forall_cons in Hp as [Hp _].
          apply Hx, latest_leb_spec in Hin as [Hin _]. apply E. f_equal. by apply str_leb_antisym. }
        intros z [->|Hz]%elem_of_cons Ez; [congruence|by apply Hmax].
    + intros y [->|Hy]%elem_of_cons; right; [exists x; split; [left|done]|].
      destruct (H2 y Hy) as [[= Ey]|(z & Hz & Ez)]; [exists x; split; [left|done]|exists z; split; [by right|done]].
    + constructor; [done|]. apply Forall_forall. intros y Hy. destruct (H1 y Hy) as (Hin & Hne & _).
      apply Hx, latest_leb_spec in Hin as [Hin _]. split; [done|congruence].
Qed.

Lemma latest_per_id_spec l :
  (forall x, x ∈ latest_per_id id v l -> x ∈ l /\ forall y, y ∈ l -> id y = id x -> v y <= v x) /\
  (forall x, x ∈ l -> (forall y, y ∈ l -> id y = id x -> y = x \/ v y < v x) -> x ∈ latest_per_id id v l) /\
  StronglySorted id_lt (latest_per_id id v l).
Proof.
  unfold latest_per_id. destruct (distinct_on_spec (isort (latest_leb id v) l) None) as (H1 & H2 & H3).
  - apply isort_sorted; [apply latest_leb_total|apply latest_leb_trans].
  - done.
  - split; [|split; [|done]].
    + intros x Hx. destruct (H1 x Hx) as (Hin & _ & Hmax). rewrite isort_elem in Hin. split; [done|].
      intros y Hy. apply Hmax. by rewrite isort_elem.
    + intros x Hx Hnew. destruct (H2 x) as [|(y & Hy & Ey)]; [by rewrite isort_elem|done|].
      destruct (H1 y Hy) as (Hin & _ & Hmax). rewrite isort_elem in Hin.
      destruct (Hnew y Hin Ey) as [->|Hlt]; [done|]. specialize (Hmax x). rewrite isort_elem in Hmax.
      specialize (Hmax Hx (eq_sym Ey)). lia.
Qed.
End Latest.

(** ** The rows that an incident's evidence is read from *)
Definition incident_row (t : Tx) (incident : string) (r : row Titems) : Prop :=
  i_scope r = scope t /\ i_incident r = incident.
(** Evidence that is fresh at [at_], in the newest version of its item. *)
Record current_evidence (t : Tx) (d : DB) (incident : string) (at_ : Time) (r : row Titems) : Prop := {
  ce_stored : r ∈ d Titems /\ incident_row t incident r;
  ce_newest : forall r' : row Titems, r' ∈ d Titems -> incident_row t incident r' -> R_ID (i_ref r') = R_ID (i_ref r) ->
    r' = r \/ R_Version (i_ref r') < R_Version (i_ref r);
  ce_kind : i_kind r = Evidence;
  ce_fresh : i_observed r <= pgTime at_ < i_valid_until r }.
(** A hundred pieces of current evidence precede [r]. *)
Definition crowded_out (t : Tx) (d : DB) (incident : string) (at_ : Time) (r : row Titems) : Prop :=
  exists rs : list (row Titems), length rs = 100%nat /\ NoDup (map (fun r => R_ID (i_ref r)) rs) /\
    forall r', r' ∈ rs -> r' ∈ d Titems /\ incident_row t incident r' /\ i_kind r' = Evidence /\
      i_observed r' <= pgTime at_ < i_valid_until r' /\ id_lt (fun r : row Titems => R_ID (i_ref r)) r' r.

Lemma filter_sorted {A} (R : A -> A -> Prop) (p : A -> bool) l : StronglySorted R l -> StronglySorted R (List.filter p l).
Proof.
  induction 1 as [|x l Hs IH Hf]; cbn; [constructor|]. destruct (p x); [|done]. constructor; [done|].
  rewrite Forall_forall in *. intros y Hy. apply list_elem_of_In, filter_In in Hy as [Hy _]. by apply Hf, list_elem_of_In.
Qed.

Lemma filter_elem {A} (p : A -> bool) l x : x ∈ List.filter p l <-> x ∈ l /\ p x = true.
Proof. by rewrite !list_elem_of_In, filter_In. Qed.
Lemma sorted_NoDup {A} (id : A -> string) l : StronglySorted (id_lt id) l -> NoDup (map id l).
Proof.
  induction 1 as [|x l Hs IH Hf]; cbn; constructor; [|done]. intros (y & E & Hy)%list_elem_of_fmap.
  rewrite Forall_forall in Hf. by destruct (Hf y Hy).
Qed.

Lemma map_each_decoded `{Env} t (rs : list (row Titems)) : forall w l w',
  map_each (fun r : row Titems => let* i := of_res (decodeItem (i_envelope r)) in check_item_scope t i) rs w = (Ok l, w') ->
  w' = w /\ Forall2 (fun r i => decodeItem (i_envelope r) = Ok i) rs l.
Proof.
  induction rs as [|r rs IH]; intros w l w' Hm; cbn [map_each] in Hm; run; [by repeat constructor|].
  unfold of_res, check_item_scope in *. destruct (decodeItem (i_envelope r)) as [i|] eqn:E; [|done]. run.
  apply IH in Hm1 as [-> Hf]. split; [done|]. by constructor.
Qed.

(** Every row of current evidence is read, unless a hundred precede it. *)
Lemma CurrentEvidence_ok `{Env} t incident at_ w items w' :
  CurrentEvidence t incident at_ 100 w = (Ok items, w') ->
  w' = next w /\
  forall r x, current_evidence t (db w) incident at_ r -> decodeItem (i_envelope r) = Ok x ->
    x ∈ items \/ crowded_out t (db w) incident at_ r.
Proof.
  unfold CurrentEvidence. intros Hc. run. apply query_rows_ok in Hm as [<- ->].
  apply map_each_decoded in Hc as [-> Hf]. split; [done|]. intros r x [[Hin [Hs Hi]] Hnew Hk Hv] Hx.
  match type of Hf with Forall2 _ (take _ (List.filter ?fresh (latest_per_id ?id ?v ?all))) _ =>
    destruct (latest_per_id_spec id v all) as (H1 & H2 & H3); pose proof (filter_sorted _ fresh _ H3) as H4;
    assert (Hall : forall r, r ∈ all <-> r ∈ db w Titems /\ incident_row t incident r)
      by (intros y; rewrite filter_elem; unfold in_scope, incident_row;
          by rewrite andb_true_iff, scope_eqb_eq, str_eqb_eq);
    assert (Hread : r ∈ List.filter fresh (latest_per_id id v all)) end.
  { apply filter_elem. split.
    - apply H2; [by apply Hall|]. intros y [Hy1 Hy2]%Hall Ey. exact (Hnew y Hy1 Hy2 Ey).
    - rewrite Hk, bool_decide_true by done. lia. }
  revert Hf. change (Z.to_nat 100) with 100%nat. intros Hf.
  match type of Hread with r ∈ ?l => set (L := l) in *; rewrite <- (take_drop 100 L) in Hread, H4 end.
  apply StronglySorted_app in H4 as (Hcross & Hsort & _).
  apply elem_of_app in Hread as [Hread|Hread].
  - left. apply list_elem_of_lookup in Hread as [k Hr]. eapply Forall2_lookup_l in Hf as (i & Hl & E); [|exact Hr].
    rewrite E in Hx. injection Hx as <-. by eapply list_elem_of_lookup_2.
  - right. exists (take 100 L). split; [|split].
    + rewrite length_take. destruct (decide (length L <= 100)%nat) as [Hl|Hl]; [|lia].
      rewrite drop_ge in Hread by done. by apply elem_of_nil in Hread.
    + by apply sorted_NoDup.
    + intros r' Hr'. pose proof (Hcross _ _ Hr' Hread) as Hlt.
      assert (HL : r' ∈ L) by (rewrite <- (take_drop 100 L); apply elem_of_app; by left).
      apply filter_elem in HL as [HL Hp]. apply H1 in HL as [HL _]. apply Hall in HL as [HL1 HL2]. breflect.
      do 3 (split; [done|]). split; [lia|done].
Qed.
