(* ===== verification/Records.v ===== *)
(** * pkg/storage/postgres: outbox, agents, actions, runs and reviewed records

    outbox.go, agents.go, actions.go, runs.go, recovery.go, knowledge.go,
    feedback.go, stewardship.go, environment.go, checks.go,
    collection_coverage.go, and [PutItem] with [linkGuidance]. *)

From S2P Require Import Prelude.
From S2P Require Import Sha256.
From S2P Require Import Json.
From S2P Require Import JsonFacts.
From S2P Require Import GoTime.
From S2P Require Import Decode.
From S2P Require Import Identity.
From S2P Require Import Authorization.
From S2P Require Import Incident.
From S2P Require Import Db.
From S2P Require Import Sql.
From S2P Require Import Storage.

Section Records.
Context `{Env}.

(** ** outbox.go *)
Definition EnqueueOnce (t : Tx) (key kind payload : string) : M bool :=
  guard (ValidID key && ValidID kind) ErrInvalid ;;
  match CanonicalObject payload with
  | Err _ => throw ErrInvalid
  | Ok canonical =>
      let* id := NewID in
      match jsonb_text canonical with
      | None => throw ErrUnavailable
      | Some stored =>
          let* n := insert_or_skip Toutbox
            (fun r o : row Toutbox => scope_eqb (o_scope r) (o_scope o) && str_eqb (o_key r) (o_key o))
            (fun _ => mkOutboxRow (scope t) id key kind stored (tx_now t) None 0 (tx_now t)) in
          if n =? 1 then ret true else
          let* previous := query_row (fun _ d =>
            List.filter (fun r : row Toutbox => in_scope t (o_scope r) && str_eqb (o_key r) key) (d Toutbox)) in
          match CanonicalObject (o_payload previous) with
          | Err _ => throw ErrUnavailable
          | Ok text =>
              guard (str_eqb kind (o_kind previous) && str_eqb canonical text) ErrConflict ;;
              ret false
          end
      end
  end.

Definition Enqueue (t : Tx) (key kind payload : string) : M unit :=
  EnqueueOnce t key kind payload ;; ret tt.

(** ** agents.go *)
Definition valid_role (r : string) : bool := str_eqb r "COLLECTOR" || str_eqb r "EXECUTOR".

Definition CreateBootstrap (t : Tx) (b : AgentBootstrap) : M unit :=
  let a := BS_Agent b in
  guard (scope_eqb (G_Scope a) (scope t) && ValidID (G_ID a) && ValidID (G_ClusterUID a)
         && (slen (BS_TokenHash b) =? 64) && ValidID (G_Epoch a) && valid_role (G_Role a)) ErrInvalid ;;
  ensure_scope t ;;
  insert Tbootstraps (fun _ => mkBootstrapRow (scope t) (BS_TokenHash b) (G_ID a) (G_Role a) (G_Audience a)
    (G_Epoch a) (G_ClusterUID a) (pgTime (BS_ExpiresAt b)) None).

Definition agent_of (r : AgentRow) : Agent :=
  mkAgent (g_scope r) (g_id r) (g_role r) (g_audience r) (g_epoch r) (g_generation r) (g_uid r)
    (g_expires r) (g_revoked r).

Definition AgentByToken (t : Tx) (hash : string) : M Agent :=
  guard (slen hash =? 64) ErrInvalid ;;
  query_row (fun _ d => map agent_of
    (List.filter (fun r : row Tagents => in_scope t (g_scope r) && str_eqb (g_token r) hash) (d Tagents))).

Definition AgentByID (t : Tx) (id : string) : M Agent :=
  query_row (fun _ d => map agent_of
    (List.filter (fun r : row Tagents => in_scope t (g_scope r) && str_eqb (g_id r) id) (d Tagents))).

Definition bootstrap_matches (t : Tx) (hash uid role audience epoch : string) (r : row Tbootstraps) : bool :=
  in_scope t (b_scope r) && str_eqb (b_token r) hash && str_eqb (b_uid r) uid && str_eqb (b_role r) role
  && str_eqb (b_audience r) audience && str_eqb (b_epoch r) epoch
  && bool_decide (b_consumed r = None) && (tx_now t <? b_expires r).

Definition ConsumeBootstrap (t : Tx) (hash uid role audience epoch credentialHash : string) (expires : Time)
  : M Agent :=
  let* consumed := update_returning Tbootstraps
    (fun _ _ => bootstrap_matches t hash uid role audience epoch)
    (fun _ r => mkBootstrapRow (b_scope r) (b_token r) (b_agent r) (b_role r) (b_audience r) (b_epoch r)
                  (b_uid r) (b_expires r) (Some (tx_now t))) in
  match consumed with
  | [] => throw ErrNotFound
  | b :: _ =>
      upsert Tagents
        (fun r o : row Tagents => scope_eqb (g_scope r) (g_scope o) && str_eqb (g_id r) (g_id o))
        (fun _ _ => true)
        (fun r o => mkAgentRow (g_scope o) (g_id o) (g_role r) (g_audience r) (g_epoch r)
                      (g_generation o + 1) (g_uid r) (g_token r) (g_expires r) false)
        (mkAgentRow (scope t) (b_agent b) role audience epoch 1 uid credentialHash (pgTime expires) false) ;;
      AgentByToken t credentialHash
  end.

Definition RevokeAgent (t : Tx) (id : string) : M unit :=
  guard (ValidID id) ErrInvalid ;;
  exec (fun _ d =>
    let mine := List.filter (fun r : row Tagents => in_scope t (g_scope r) && str_eqb (g_id r) id) (d Tagents) in
    let revs := map (fun r => mkRevocationRow (g_scope r) (g_id r) (g_epoch r) (g_generation r)) mine in
    let fresh := List.filter (fun v => negb (existsb (fun o : row Trevocations =>
        scope_eqb (v_scope v) (v_scope o) && str_eqb (v_agent v) (v_agent o)
        && str_eqb (v_epoch v) (v_epoch o) && (v_through v =? v_through o)) (d Trevocations))) revs in
    store tt d Trevocations (d Trevocations ++ fresh)) ;;
  let* n := update Tagents
    (fun _ _ r => in_scope t (g_scope r) && str_eqb (g_id r) id)
    (fun _ r => mkAgentRow (g_scope r) (g_id r) (g_role r) (g_audience r) (g_epoch r)
                  (g_generation r + 1) (g_uid r) (g_token r) (g_expires r) true) in
  guard (n =? 1) ErrNotFound.

Definition RotateAgent (t : Tx) (id : string) (generation : Z) (hash : string) (expires : Time) : M Agent :=
  guard (ValidID id && negb (generation <? 1) && (slen hash =? 64)) ErrInvalid ;;
  let* n := update Tagents
    (fun _ _ r => in_scope t (g_scope r) && str_eqb (g_id r) id && (g_generation r =? generation)
                  && negb (g_revoked r))
    (fun _ r => mkAgentRow (g_scope r) (g_id r) (g_role r) (g_audience r) (g_epoch r)
                  (g_generation r + 1) (g_uid r) hash (pgTime expires) (g_revoked r)) in
  guard (n =? 1) ErrConflict ;;
  AgentByToken t hash.

Definition Agents (t : Tx) : M (list Agent) :=
  query_rows (fun _ d => take 100 (isort (fun a b => str_leb (G_ID a) (G_ID b)) (map agent_of
    (List.filter (fun r : row Tagents => in_scope t (g_scope r)) (d Tagents))))).

(** ** actions.go *)

(** The checks that follow the decoding of an action envelope. *)
Definition decode_action (t : Tx) (a : Action) : res Action :=
  if scope_eqb (Pl_Scope (A_Plan a)) (scope t) && str_eqb (A_Hash a) (Hash (A_Plan a))
  then Ok a else Err ErrUnavailable.

Definition action_at (t : Tx) (id : string) (r : row Tactions) : bool :=
  in_scope t (a_scope r) && str_eqb (a_id r) id.

Definition GetAction (t : Tx) (id : string) : M (Action * string) :=
  guard (ValidID id) ErrInvalid ;;
  let* r := query_row (fun _ d => List.filter (action_at t id) (d Tactions)) in
  let* a := of_res (decode_action t (a_envelope r)) in
  ret (a, a_receipt r).

Definition action_times_ok (a : Action) : bool :=
  forallb (fun t => (0 <=? year t) && (year t <=? 9999))
    [Pl_ExpiresAt (A_Plan a); A_ApprovalExpiresAt a; A_CreatedAt a; A_SubmittedAt a; A_CompletedAt a].

Definition SaveAction (t : Tx) (a : Action) (expectedVersion : Z) (receiptHash : string) : M unit :=
  guard (scope_eqb (Pl_Scope (A_Plan a)) (scope t) && ValidID (Pl_ID (A_Plan a))
         && str_eqb (A_Hash a) (Hash (A_Plan a)) && (A_Version a =? wrap64 (expectedVersion + 1))) ErrInvalid ;;
  guard (action_times_ok a) ErrInvalid ;;
  (if expectedVersion =? 0 then
     insert Tactions (fun _ => mkActionRow (scope t) (Pl_ID (A_Plan a)) (Pl_IncidentID (A_Plan a))
                        (A_Version a) (A_State a) a receiptHash)
   else
     let* n := update Tactions
       (fun _ _ r => action_at t (Pl_ID (A_Plan a)) r && (a_version r =? expectedVersion))
       (fun _ r => mkActionRow (a_scope r) (a_id r) (a_incident r) (A_Version a) (A_State a) a receiptHash) in
     guard (n =? 1) ErrConflict) ;;
  insert Taction_events (fun _ => mkActionEventRow (scope t) (Pl_ID (A_Plan a)) (A_Version a) a).

Definition Actions (t : Tx) (after : string) (limit : Z) : M (list Action) :=
  guard (valid_page after limit) ErrInvalid ;;
  let* rs := query_rows (fun _ d => page a_id after limit
    (List.filter (fun r : row Tactions => in_scope t (a_scope r)) (d Tactions))) in
  map_each (fun r => of_res (decode_action t (a_envelope r))) rs.

Definition ExecutorActions (t : Tx) (agent : Agent) (after : string) (limit : Z) : M (list Action) :=
  guard (scope_eqb (G_Scope agent) (scope t) && ValidID (G_ID agent) && negb (G_Generation agent <? 1)
         && valid_page after limit) ErrInvalid ;;
  let* rs := query_rows (fun _ d => page a_id after limit
    (List.filter (fun r : row Tactions =>
       let a := a_envelope r in
       in_scope t (a_scope r) && str_eqb (a_state r) "APPROVED"
       && str_eqb (Pl_ExecutorID (A_Plan a)) (G_ID agent)
       && (Pl_ExecutorGeneration (A_Plan a) =? G_Generation agent)
       && (tx_now t <? pgTime (Pl_ExpiresAt (A_Plan a))) && (tx_now t <? pgTime (A_ApprovalExpiresAt a))
       && str_eqb (Pl_Epoch (A_Plan a)) (G_Epoch agent)) (d Tactions))) in
  map_each (fun r => of_res (decode_action t (a_envelope r))) rs.

(** ** runs.go *)
Definition run_at (t : Tx) (id : string) (r : row Truns) : bool :=
  in_scope t (r_scope r) && str_eqb (r_id r) id.

Definition with_run (r : RunRow) (status reason : string) (finished : option Time) (claim : option ItemRef) : RunRow :=
  mkRunRow (r_scope r) (r_id r) (r_incident r) (r_profile r) (r_profile_version r) (r_prompt_version r)
    (r_rubric_version r) status reason (r_started r) finished claim.

Definition StartRun (t : Tx) (id incidentID profile profileVersion prompt rubric : string) (at_ : Time) : M unit :=
  guard (ValidID id && ValidID incidentID && negb (IsZero at_)) ErrInvalid ;;
  let* n := upsert Truns
    (fun r o : row Truns => scope_eqb (r_scope r) (r_scope o) && str_eqb (r_id r) (r_id o))
    (fun r o => str_eqb (r_status o) "QUEUED" && str_eqb (r_incident o) (r_incident r)
                && str_eqb (r_profile o) (r_profile r))
    (fun _ o => with_run o "RUNNING" (r_reason o) (r_finished o) (r_claim o))
    (mkRunRow (scope t) id incidentID profile profileVersion prompt rubric "RUNNING" "" (pgTime at_) None None) in
  guard (n =? 1) ErrConflict.

Definition FinishRun (t : Tx) (id status reason : string) (ref : option ItemRef) : M unit :=
  guard (ValidID id) ErrInvalid ;;
  update Truns (fun _ _ r => run_at t id r && is_active (r_status r))
    (fun _ r => with_run r status reason (Some (tx_now t)) ref) ;; ret tt.

Definition InterruptRuns (t : Tx) : M unit :=
  update Truns (fun _ _ r => in_scope t (r_scope r) && is_active (r_status r))
    (fun _ r => with_run r "INTERRUPTED" "CONTROL_PLANE_RESTART" (Some (tx_now t)) (r_claim r)) ;; ret tt.

Definition QueueRun (t : Tx) (id : string) : M unit :=
  update Truns (fun _ _ r => run_at t id r && str_eqb (r_status r) "RUNNING")
    (fun _ r => with_run r "QUEUED" (r_reason r) (r_finished r) (r_claim r)) ;; ret tt.

(** ** recovery.go *)
Definition PutRecoveryProfile (t : Tx) (p : RecoveryProfile) : M unit :=
  guard (scope_eqb (RP_Scope p) (scope t) && ValidID (RP_ID p) && negb (RP_Version p <? 1)) ErrInvalid ;;
  ensure_scope t ;;
  insert Tprofiles (fun _ => mkProfileRow (scope t) (RP_ID p) (RP_Version p) p).

Definition GetRecoveryProfile (t : Tx) (id : string) : M RecoveryProfile :=
  guard (ValidID id) ErrInvalid ;;
  let* p := query_row (fun _ d => map rp_envelope
    (isort (fun a b : row Tprofiles => rp_version b <=? rp_version a)
      (List.filter (fun r : row Tprofiles => in_scope t (rp_scope r) && str_eqb (rp_id r) id) (d Tprofiles)))) in
  guard (scope_eqb (RP_Scope p) (scope t)) ErrUnavailable ;; ret p.

Definition PutHealthSample (t : Tx) (s : HealthSample) : M unit :=
  guard (scope_eqb (HS_Scope s) (scope t) && validRef (HS_Evidence s) && negb (IsZero (HS_At s))) ErrInvalid ;;
  insert_or_skip Tsamples
    (fun r o : row Tsamples => scope_eqb (hs_scope r) (hs_scope o) && str_eqb (hs_incident r) (hs_incident o)
                && str_eqb (hs_handle r) (hs_handle o) && (hs_observed r =? hs_observed o))
    (fun _ => mkSampleRow (scope t) (HS_IncidentID s) (HS_Handle s) (pgTime (HS_At s)) (HS_Evidence s) s) ;;
  ret tt.

(** [ORDER BY observed_at DESC LIMIT 512]. *)
Definition HealthSamples (t : Tx) (incidentID handle : string) (since : Time) : M (list HealthSample) :=
  guard (ValidID incidentID && ValidID handle && negb (IsZero since)) ErrInvalid ;;
  let* rs := query_rows (fun _ d => take 512
    (isort (fun a b : row Tsamples => hs_observed b <=? hs_observed a)
      (List.filter (fun r : row Tsamples => in_scope t (hs_scope r) && str_eqb (hs_incident r) incidentID
          && str_eqb (hs_handle r) handle && (pgTime since <=? hs_observed r)) (d Tsamples)))) in
  map_each (fun r => guard (scope_eqb (HS_Scope (hs_envelope r)) (scope t)) ErrUnavailable ;;
                     ret (hs_envelope r)) rs.

Definition PutRecoveryAssessment (t : Tx) (a : RecoveryAssessment) : M unit :=
  guard (scope_eqb (RA_Scope a) (scope t) && ValidID (RA_ID a)) ErrInvalid ;;
  insert Tassessments (fun _ => mkAssessmentRow (scope t) (RA_ID a) (RA_IncidentID a) a (tx_now t)).

Definition GetRecoveryAssessment (t : Tx) (id : string) : M RecoveryAssessment :=
  guard (ValidID id) ErrInvalid ;;
  let* a := query_row (fun _ d => map ra_envelope
    (List.filter (fun r : row Tassessments => in_scope t (ra_scope r) && str_eqb (ra_id r) id) (d Tassessments))) in
  guard (scope_eqb (RA_Scope a) (scope t)) ErrUnavailable ;; ret a.

(** ** knowledge.go *)
Definition PutGoldenCase (t : Tx) (g : GoldenCase) : M unit :=
  guard (scope_eqb (GC_Scope g) (scope t) && ValidID (GC_ID g) && negb (GC_Version g <? 1)) ErrInvalid ;;
  insert Tgolden (fun _ => mkGoldenRow (scope t) (GC_ID g) (GC_Version g) (GC_State g) g).

Definition GetGoldenCase (t : Tx) (id : string) : M GoldenCase :=
  guard (ValidID id) ErrInvalid ;;
  let* g := query_row (fun _ d => map gc_envelope
    (isort (fun a b : row Tgolden => gc_version b <=? gc_version a)
      (List.filter (fun r : row Tgolden => in_scope t (gc_scope r) && str_eqb (gc_id r) id) (d Tgolden)))) in
  guard (scope_eqb (GC_Scope g) (scope t)) ErrUnavailable ;; ret g.

Definition GoldenCases (t : Tx) (after : string) (limit : Z) : M (list GoldenCase) :=
  guard (valid_page after limit) ErrInvalid ;;
  let* rs := query_rows (fun _ d => take (Z.to_nat limit)
    (latest_per_id gc_id gc_version
      (List.filter (fun r : row Tgolden => in_scope t (gc_scope r) && str_ltb after (gc_id r)) (d Tgolden)))) in
  map_each (fun r => guard (scope_eqb (GC_Scope (gc_envelope r)) (scope t)) ErrUnavailable ;;
                     ret (gc_envelope r)) rs.

(** ** feedback.go *)
Definition FeedbackForKey (t : Tx) (actor key : string) : M FeedbackEvent :=
  guard (ValidID actor && ValidID key) ErrInvalid ;;
  query_row (fun _ d => map f_event (List.filter (fun r : row Tfeedback =>
    in_scope t (f_scope r) && str_eqb (f_actor r) actor && str_eqb (f_key r) key) (d Tfeedback))).

Definition FeedbackByID (t : Tx) (id : string) : M FeedbackEvent :=
  guard (ValidID id) ErrInvalid ;;
  query_row (fun _ d => map f_event (List.filter (fun r : row Tfeedback =>
    in_scope t (f_scope r) && str_eqb (f_id r) id) (d Tfeedback))).

Definition AddFeedback (t : Tx) (e : FeedbackEvent) : M unit :=
  guard (scope_eqb (F_Scope e) (scope t) && ValidID (F_ID e) && ValidID (F_ActorID e)
         && ValidID (F_IdempotencyKey e) && negb (IsZero (F_At e)) && validRef (F_Item e)) ErrInvalid ;;
  insert Tfeedback (fun _ => mkFeedbackRow (scope t) (F_IncidentID e) (F_ID e) (F_ActorID e)
    (F_IdempotencyKey e) (F_Item e) (F_RequestHash e) e (pgTime (F_At e))).

(** [ORDER BY created_at DESC, id DESC]. *)
Definition recent_leb {A} (created : A -> Time) (id : A -> string) (a b : A) : bool :=
  if created a =? created b then str_leb (id b) (id a) else created b <? created a.

Definition FeedbackHistory (t : Tx) (ref : ItemRef) (limit : Z) : M (list FeedbackEvent) :=
  guard (validRef ref && negb ((limit <? 1) || (100 <? limit))) ErrInvalid ;;
  query_rows (fun _ d => map f_event (take (Z.to_nat limit) (isort (recent_leb f_created f_id)
    (List.filter (fun r : row Tfeedback => in_scope t (f_scope r) && bool_decide (f_item r = ref))
      (d Tfeedback))))).

(** ** stewardship.go *)
Definition PutAdjudication (t : Tx) (a : Adjudication) : M unit :=
  guard (scope_eqb (J_Scope a) (scope t) && ValidID (J_ID a) && validRef (J_Item a)) ErrInvalid ;;
  insert Tadjudications (fun _ => mkAdjudicationRow (scope t) (J_ID a) (J_IncidentID a) (J_Item a)
    (J_ActorID a) (J_IdempotencyKey a) a (pgTime (J_At a))).

Definition AdjudicationForKey (t : Tx) (actor key : string) : M Adjudication :=
  let* a := query_row (fun _ d => map j_envelope (List.filter (fun r : row Tadjudications =>
    in_scope t (j_scope r) && str_eqb (j_actor r) actor && str_eqb (j_key r) key) (d Tadjudications))) in
  guard (scope_eqb (J_Scope a) (scope t)) ErrUnavailable ;; ret a.

Definition Adjudications (t : Tx) (ref : ItemRef) (limit : Z) : M (list Adjudication) :=
  guard (validRef ref && negb ((limit <? 1) || (100 <? limit))) ErrInvalid ;;
  let* rs := query_rows (fun _ d => take (Z.to_nat limit) (isort (recent_leb j_created j_id)
    (List.filter (fun r : row Tadjudications => in_scope t (j_scope r) && bool_decide (j_item r = ref))
      (d Tadjudications)))) in
  map_each (fun r => guard (scope_eqb (J_Scope (j_envelope r)) (scope t)) ErrUnavailable ;;
                     ret (j_envelope r)) rs.

(** ** environment.go *)
Definition GetEnvironmentContext (t : Tx) : M EnvironmentContext :=
  let* c := query_row (fun _ d => map ec_envelope
    (isort (fun a b : row Tcontexts => ec_version b <=? ec_version a)
      (List.filter (fun r : row Tcontexts => in_scope t (ec_scope r)) (d Tcontexts)))) in
  guard (scope_eqb (EC_Scope c) (scope t)) ErrUnavailable ;; ret c.

Definition PutEnvironmentContext (t : Tx) (c : EnvironmentContext) : M unit :=
  guard (scope_eqb (EC_Scope c) (scope t) && negb (EC_Version c <? 1)) ErrInvalid ;;
  ensure_scope t ;;
  insert Tcontexts (fun _ => mkContextRow (scope t) (EC_Version c) c).

(** ** checks.go *)
Definition PutCollectionCheck (t : Tx) (c : CollectionCheck) : M unit :=
  guard (scope_eqb (CC_Scope c) (scope t) && ValidID (CC_ID c) && ValidID (CC_AgentID c)
         && negb (CC_Generation c <? 1)) ErrInvalid ;;
  insert Tchecks (fun _ => mkCheckRow (scope t) (CC_ID c) (CC_IncidentID c) (CC_AgentID c) (CC_Generation c)
    (CC_Handle c) (CC_Kind c) (pgTime (CC_CreatedAt c)) (pgTime (CC_ExpiresAt c)) None).

Definition check_of (t : Tx) (agent : Agent) (r : row Tchecks) : bool :=
  in_scope t (c_scope r) && str_eqb (c_agent r) (G_ID agent) && (c_generation r =? G_Generation agent)
  && bool_decide (c_fulfilled r = None).

Definition CollectionRequested (t : Tx) (agent : Agent) : M bool :=
  guard (scope_eqb (G_Scope agent) (scope t)) ErrInvalid ;;
  query (fun _ d => inr (existsb (fun r => check_of t agent r && (tx_now t <? c_expires r)) (d Tchecks))).

Definition FulfillCollectionChecks (t : Tx) (agent : Agent) (handle : string) (at_ : Time) : M unit :=
  guard (scope_eqb (G_Scope agent) (scope t)) ErrInvalid ;;
  update Tchecks
    (fun _ _ r => check_of t agent r && str_eqb (c_handle r) handle && (c_created r <=? pgTime at_)
                  && (pgTime at_ <=? c_expires r))
    (fun _ r => mkCheckRow (c_scope r) (c_id r) (c_incident r) (c_agent r) (c_generation r) (c_handle r)
                  (c_kind r) (c_created r) (c_expires r) (Some (pgTime at_))) ;;
  ret tt.

Definition CollectionCheckReady (t : Tx) (id : string) : M bool :=
  guard (ValidID id) ErrInvalid ;;
  query_row (fun _ d => map (fun r : row Tchecks => bool_decide (is_Some (c_fulfilled r)))
    (List.filter (fun r : row Tchecks => in_scope t (c_scope r) && str_eqb (c_id r) id) (d Tchecks))).

(** ** collection_coverage.go *)
Definition PutCoverage (t : Tx) (a : Agent) (coverage : string) (at_ : Time) : M unit :=
  guard (scope_eqb (G_Scope a) (scope t) && negb (IsZero at_)
         && mem_str coverage ["COMPLETE"; "PARTIAL"; "UNAVAILABLE"]) ErrInvalid ;;
  upsert Tcoverage
    (fun r o : row Tcoverage => scope_eqb (cv_scope r) (cv_scope o) && str_eqb (cv_agent r) (cv_agent o))
    (fun r o => cv_observed o <? cv_observed r)
    (fun r o => mkCoverageRow (cv_scope o) (cv_agent o) (cv_generation r) (cv_epoch r) (cv_observed r) (cv_coverage r))
    (mkCoverageRow (scope t) (G_ID a) (G_Generation a) (G_Epoch a) (pgTime at_) coverage) ;;
  ret tt.

(** The CASE of [CoverageCounts] for one collector. *)
Definition coverage_class (t : Tx) (d : DB) (a : row Tagents) : string :=
  match List.find (fun c : row Tcoverage => scope_eqb (cv_scope c) (g_scope a) && str_eqb (cv_agent c) (g_id a))
          (d Tcoverage) with
  | None => "UNKNOWN"
  | Some c =>
      if g_revoked a || negb (str_eqb (g_epoch a) (authorityEpoch t)) || negb (str_eqb (cv_epoch c) (g_epoch a))
         || negb (cv_generation c =? g_generation a) || (g_expires a <=? tx_now t)
         || (cv_observed c <? tx_now t - 90 * Second)
      then "STALE" else cv_coverage c
  end.

(** [GROUP BY 1] with the number of rows of each group. *)
Definition group_counts (l : list string) : list (string * Z) :=
  map (fun k => (k, Z.of_nat (length (List.filter (str_eqb k) l)))) (remove_dups l).

Definition CoverageCounts (t : Tx) : M (list (string * Z)) :=
  query (fun _ d => inr (group_counts (map (coverage_class t d)
    (List.filter (fun a : row Tagents => in_scope t (g_scope a) && str_eqb (g_role a) "COLLECTOR") (d Tagents))))).

(** ** items.go, lineage.go: writing *)
Definition ref_fields : list (field_decoder ItemRef) :=
  [field "id" R_ID (fun v r => mkRef v (R_Version r)) dec_string;
   field "version" R_Version (fun v r => mkRef (R_ID r) v) dec_int64].
Definition knowledge_fields : list (field_decoder (list ItemRef)) :=
  [field "knowledge_versions" id (fun l _ => l) (dec_list (mkRef "" 0) (dec_struct false ref_fields))].

Definition linkGuidance (t : Tx) (item : Item) : M unit :=
  if negb (bool_decide (I_Kind item = Claim)) then ret tt else
  match Unmarshal knowledge_fields [] (I_Body item) with
  | None => throw ErrInvalid
  | Some knowledge =>
      guard (negb (16 <? Z.of_nat (length knowledge))) ErrInvalid ;;
      for_each (fun ref =>
        let* g := GetGoldenCase t (R_ID ref) in
        guard ((GC_Version g =? R_Version ref) && str_eqb (GC_State g) "ACTIVE") ErrConflict ;;
        let* recovery := GetRecoveryAssessment t (GC_RecoveryID g) in
        for_each (fun parent =>
          guard (negb (str_eqb (R_ID parent) (I_ID item))) ErrInvalid ;;
          GetItem t parent ;;
          insert_or_skip Thistory
            (fun r o : row Thistory => scope_eqb (h_scope r) (h_scope o) && bool_decide (h_child r = h_child o)
                        && bool_decide (h_parent r = h_parent o))
            (fun _ => mkHistoryRow (scope t) (self_ref item) parent) ;;
          ret tt) (GC_Claim g :: RA_Evidence recovery)) knowledge
  end.

Definition PutItem (t : Tx) (item0 : Item) : M unit :=
  guard (scope_eqb (I_Scope item0) (scope t)) ErrInvalid ;;
  match Seal item0 with
  | Err _ => throw ErrInvalid
  | Ok item =>
      for_each (fun ref =>
        let* parent := catch (GetItem t ref)
          (fun e => throw (if bool_decide (e = ErrNotFound) then ErrInvalid else e)) in
        guard (str_eqb (I_IncidentID parent) (I_IncidentID item)) ErrInvalid) (I_Parents item) ;;
      match jsonb_item item with
      | None => throw ErrUnavailable
      | Some envelope =>
          insert Titems (fun _ => mkItemRow (scope t) (I_IncidentID item) (self_ref item) (I_Kind item)
            envelope (I_Hash item) (pgTime (I_ObservedAt item)) (pgTime (I_ValidUntil item))) ;;
          insert Teligibility (fun _ => mkEligibilityRow (scope t) (self_ref item) false) ;;
          for_each (fun ref =>
            insert Tparents (fun _ => mkParentRow (scope t) (I_IncidentID item) (self_ref item) ref))
            (I_Parents item) ;;
          linkGuidance t item
      end
  end.
End Records.
