(* ===== verification/Queues.v ===== *)
(** * pkg/storage/postgres: jobs, leases, notifications, interactions, sessions

    jobs.go, agent_diagnostics.go, notifications.go, interaction.go (with
    pkg/interaction/request.go), auth.go, auth_capacity.go and operations.go. *)

From S2P Require Import Prelude.
From S2P Require Import Sha256.
From S2P Require Import Md5.
From S2P Require Import Json.
From S2P Require Import JsonFacts.
From S2P Require Import GoTime.
From S2P Require Import Decode.
From S2P Require Import Identity.
From S2P Require Import Authorization.
From S2P Require Import Incident.
From S2P Require Import Db.
From S2P Require Import Sql.
From S2P Require Import Storage.
From S2P Require Import Records.

(** ** pkg/interaction/request.go *)
Record Request := mkRequest {
  Q_Scope : Scope; Q_ID : string; Q_IncidentID : string; Q_JobID : string; Q_Kind : string;
  Q_Question : string; Q_Version : Z; Q_Status : string; Q_ExpiresAt : Time; Q_Answer : string;
  Q_ActorID : string; Q_CreatedBy : string; Q_AnsweredAt : option Time }.

Definition Clarification := "CLARIFICATION".
Definition Options (question : string) : list string :=
  if str_eqb question "CHANGE_CONTEXT" then ["RECENT_CHANGE"; "NO_KNOWN_CHANGE"; "UNKNOWN"]
  else if str_eqb question "IMPACT" then ["USER_VISIBLE"; "INTERNAL_ONLY"; "UNKNOWN"]
  else if str_eqb question "CONTINUE_DIAGNOSIS" then ["CONTINUE"; "STOP"; "UNKNOWN"]
  else [].
Definition Accepts (question answer : string) : bool := existsb (str_eqb answer) (Options question).

Definition Request_Validate (r : Request) (now : Time) : bool :=
  Scope_Validate (Q_Scope r) && ValidID (Q_ID r) && ValidID (Q_IncidentID r)
  && (str_eqb (Q_JobID r) "" || ValidID (Q_JobID r)) && str_eqb (Q_Kind r) Clarification
  && negb (Z.of_nat (length (Options (Q_Question r))) =? 0) && (Q_Version r =? 1)
  && str_eqb (Q_Status r) "PENDING" && After (Q_ExpiresAt r) now
  && negb (After (Q_ExpiresAt r) (Add now (24 * Hour))) && str_eqb (Q_Answer r) ""
  && str_eqb (Q_ActorID r) "" && bool_decide (Q_AnsweredAt r = None).

Record DiagnosticLease := mkLease {
  L_Job : DiagnosticJob; L_AttemptID : string; L_LeaseUntil : Time; L_Authority : string;
  L_Input : option string; L_RefreshCount : Z }.

Definition DiagnosticLeaseDuration : Duration := 30 * Second.

Record LoginChallenge := mkLogin { LC_Verifier : string; LC_Nonce : string; LC_ExpiresAt : Time }.
Record BrowserSession := mkSession { S_Principal : Principal; S_CSRF : string }.

Definition authKey (value : string) : string := sha256_hex value.

Section Queues.
Context `{Env}.

(** ** jobs.go *)
Definition job_of (r : JobRow) : DiagnosticJob :=
  mkJob (d_scope r) (d_id r) (d_incident r) (d_profile r) (d_actor r) (d_state r) (d_created r)
    (d_expires r) (d_result r).
Definition job_brief (r : JobRow) : DiagnosticJob :=
  mkJob (d_scope r) (d_id r) (d_incident r) (d_profile r) (d_actor r) (d_state r) (d_created r)
    (d_expires r) None.
Definition job_at (t : Tx) (id : string) (r : row Tjobs) : bool :=
  in_scope t (d_scope r) && str_eqb (d_id r) id.

(** Columns an update may set. *)
Definition set_job (r : JobRow) (state authority : string) (result : option ItemRef)
  (lease : option Time) (input : option string) : JobRow :=
  mkJobRow (d_scope r) (d_id r) (d_incident r) (d_profile r) (d_actor r) state (d_created r) (d_expires r)
    authority result (d_agent r) (d_agent_generation r) (d_agent_epoch r) (d_attempt r) lease input (d_refresh r).

Definition PutDiagnosticJob (t : Tx) (j : DiagnosticJob) (authority : string) : M unit :=
  guard (scope_eqb (D_Scope j) (scope t) && ValidID (D_ID j) && negb (65536 <? slen authority)
         && str_eqb (D_State j) "QUEUED") ErrInvalid ;;
  let* count := query (fun _ d => inr (Z.of_nat (length
    (List.filter (fun r : row Tjobs => in_scope t (d_scope r) && is_active (d_state r)) (d Tjobs))))) in
  guard (count <? 8) ErrConflict ;;
  insert Tjobs (fun _ => mkJobRow (scope t) (D_ID j) (D_IncidentID j) (D_ProfileID j) (D_ActorID j) (D_State j)
    (pgTime (D_CreatedAt j)) (pgTime (D_ExpiresAt j)) authority None None None None None None None 0).

Definition ActiveDiagnosticJob (t : Tx) (incidentID : string) : M DiagnosticJob :=
  query_row (fun _ d => map job_brief (List.filter (fun r : row Tjobs =>
    in_scope t (d_scope r) && str_eqb (d_incident r) incidentID && is_active (d_state r)) (d Tjobs))).

(** The oldest row that a claim may take: [ORDER BY created_at, id LIMIT 1],
    none while the application has a running job. *)
Definition oldest_leb (a b : JobRow) : bool :=
  if d_created a =? d_created b then str_leb (d_id a) (d_id b) else d_created a <? d_created b.
Definition running (t : Tx) (d : DB) : bool :=
  existsb (fun r : row Tjobs => in_scope t (d_scope r) && str_eqb (d_state r) "RUNNING") (d Tjobs).
Definition claimable (t : Tx) (d : DB) (ok : JobRow -> bool) : option string :=
  if running t d then None else
  d_id <$> head (isort oldest_leb (List.filter (fun r : row Tjobs =>
    in_scope t (d_scope r) && str_eqb (d_state r) "QUEUED" && ok r) (d Tjobs))).

Definition ClaimDiagnosticJob (t : Tx) : M (DiagnosticJob * string) :=
  let* rs := update_returning Tjobs
    (fun _ d r => in_scope t (d_scope r) && bool_decide (claimable t d (fun _ => true) = Some (d_id r)))
    (fun _ r => set_job r "RUNNING" (d_authority r) (d_result r) (d_lease_until r) (d_input r)) in
  match rs with
  | [] => throw ErrNotFound
  | r :: _ => ret (job_brief r, d_authority r)
  end.

Definition GetDiagnosticJob (t : Tx) (id : string) : M DiagnosticJob :=
  guard (ValidID id) ErrInvalid ;;
  query_row (fun _ d => map job_of (List.filter (job_at t id) (d Tjobs))).

Definition FinishDiagnosticJob (t : Tx) (id state : string) (result : option ItemRef) : M unit :=
  guard (ValidID id && mem_str state ["COMPLETED"; "CANCELLED"; "FAILED"]) ErrInvalid ;;
  update Tjobs (fun _ _ r => job_at t id r && is_active (d_state r))
    (fun _ r => set_job r state "" result None None) ;; ret tt.

Definition DiagnosticJobs (t : Tx) (incidentID : string) : M (list DiagnosticJob) :=
  guard (ValidID incidentID) ErrInvalid ;;
  query_rows (fun _ d => map job_of (take 50 (isort (recent_leb d_created d_id)
    (List.filter (fun r : row Tjobs => in_scope t (d_scope r) && str_eqb (d_incident r) incidentID) (d Tjobs))))).

Definition InterruptDiagnosticJobs (t : Tx) : M unit :=
  update Tjobs (fun _ _ r => in_scope t (d_scope r) && is_active (d_state r))
    (fun _ r => set_job r "CANCELLED" "" (d_result r) (d_lease_until r) (d_input r)) ;; ret tt.

(** ** agent_diagnostics.go *)
Definition ClaimAgentDiagnostic (t : Tx) (a : Agent) (profiles : list string) : M DiagnosticLease :=
  guard (scope_eqb (G_Scope a) (scope t) && str_eqb (G_Role a) "COLLECTOR"
         && negb (Z.of_nat (length profiles) =? 0) && negb (32 <? Z.of_nat (length profiles))) ErrInvalid ;;
  guard (forallb ValidID profiles) ErrInvalid ;;
  update Truns
    (fun now d r => in_scope t (r_scope r) && is_active (r_status r)
       && existsb (fun j : row Tjobs => in_scope t (d_scope j) && str_eqb (d_id j) (r_id r)
                     && is_active (d_state j) && (d_expires j <=? now)) (d Tjobs))
    (fun now r => with_run r "CANCELLED" "AUTHORITY_EXPIRED" (Some now) (r_claim r)) ;;
  update Tjobs
    (fun now _ r => in_scope t (d_scope r) && is_active (d_state r) && (d_expires r <=? now))
    (fun _ r => set_job r "CANCELLED" "" (d_result r) (d_lease_until r) None) ;;
  update Tjobs
    (fun now _ r => in_scope t (d_scope r) && str_eqb (d_state r) "RUNNING"
       && match d_lease_until r with None => true | Some u => u <=? now end)
    (fun _ r => set_job r "QUEUED" (d_authority r) (d_result r) (d_lease_until r) None) ;;
  let* attempt := NewID in
  let* rs := update_returning Tjobs
    (fun now d r => in_scope t (d_scope r)
       && bool_decide (claimable t d (fun j => mem_str (d_profile j) profiles && (now <? d_expires j)) = Some (d_id r)))
    (fun now r => mkJobRow (d_scope r) (d_id r) (d_incident r) (d_profile r) (d_actor r) "RUNNING" (d_created r)
       (d_expires r) (d_authority r) (d_result r) (Some (G_ID a)) (Some (G_Generation a)) (Some (G_Epoch a))
       (Some attempt) (Some (Z.min (d_expires r) (now + 30 * Second))) None 0) in
  match rs with
  | [] => throw ErrNotFound
  | r :: _ => ret (mkLease (job_brief r) attempt (default 0 (d_lease_until r)) (d_authority r) None 0)
  end.

(** The fence of an attempt: same attempt, agent, generation and epoch, and an
    unexpired lease. *)
Definition fenced (t : Tx) (id attempt : string) (a : Agent) (now : Time) (r : row Tjobs) : bool :=
  job_at t id r && bool_decide (d_attempt r = Some attempt) && bool_decide (d_agent r = Some (G_ID a))
  && bool_decide (d_agent_generation r = Some (G_Generation a))
  && bool_decide (d_agent_epoch r = Some (G_Epoch a)) && str_eqb (d_state r) "RUNNING"
  && (now <? d_expires r) && match d_lease_until r with Some u => now <? u | None => false end.

Definition AgentDiagnostic (t : Tx) (id attempt : string) (a : Agent) (renew : bool) : M DiagnosticLease :=
  guard (ValidID id && ValidID attempt && scope_eqb (G_Scope a) (scope t) && str_eqb (G_Role a) "COLLECTOR")
    ErrInvalid ;;
  (if renew then
     let* n := update Tjobs (fun now _ => fenced t id attempt a now)
       (fun now r => set_job r (d_state r) (d_authority r) (d_result r)
                       (Some (Z.min (d_expires r) (now + 30 * Second))) (d_input r)) in
     guard (n =? 1) ErrNotFound
   else ret tt) ;;
  let* r := query_row (fun now d => List.filter (fenced t id attempt a now) (d Tjobs)) in
  ret (mkLease (job_brief r) attempt (default 0 (d_lease_until r)) (d_authority r) (d_input r) (d_refresh r)).

(** The column is [jsonb]: reading it gives the normalised text, and a text that
    jsonb cannot hold is a driver error. *)
Definition SetDiagnosticInput (t : Tx) (id attempt input : string) (refresh : bool) : M unit :=
  guard (negb (65536 <? slen input) && json_valid input) ErrInvalid ;;
  let delta := if refresh then 1 else 0 in
  match jsonb_text input with
  | None => throw ErrUnavailable
  | Some stored =>
      let* n := update Tjobs
        (fun now _ r => job_at t id r && bool_decide (d_attempt r = Some attempt) && str_eqb (d_state r) "RUNNING"
           && match d_lease_until r with Some u => now <? u | None => false end && (now <? d_expires r)
           && (d_refresh r + delta <=? 2))
        (fun _ r => mkJobRow (d_scope r) (d_id r) (d_incident r) (d_profile r) (d_actor r) (d_state r) (d_created r)
           (d_expires r) (d_authority r) (d_result r) (d_agent r) (d_agent_generation r) (d_agent_epoch r)
           (d_attempt r) (d_lease_until r) (Some stored) (d_refresh r + delta)) in
      guard (n =? 1) ErrConflict
  end.

Definition StartAgentDiagnostic (t : Tx) (id profileVersion promptVersion rubricVersion : string) : M unit :=
  let* n := update Truns
    (fun _ _ r => run_at t id r && str_eqb (r_profile_version r) profileVersion
       && str_eqb (r_prompt_version r) promptVersion && str_eqb (r_rubric_version r) rubricVersion
       && is_active (r_status r))
    (fun _ r => with_run r "RUNNING" (r_reason r) (r_finished r) (r_claim r)) in
  guard (n =? 1) ErrConflict.

(** ** notifications.go *)
Definition notifiable : list string :=
  ["INCIDENT_CREATED"; "INVESTIGATION_RECORDED"; "ACTION_UPDATED"; "CLAIM_CORROBORATED";
   "ADJUDICATION_RECORDED"; "KNOWLEDGE_PUBLISHED"; "RECOVERY_CHANGED"; "CLARIFICATION_REQUESTED"].

(** [created_at >= COALESCE(registered_at, '-infinity')]. *)
Definition since_registered (t : Tx) (d : DB) (route : string) (created : Time) : bool :=
  match List.find (fun r : row Troutes => in_scope t (rt_scope r) && str_eqb (rt_id r) route) (d Troutes) with
  | Some r => rt_registered r <=? created
  | None => true
  end.
Definition has_notification (t : Tx) (d : DB) (event route : string) : bool :=
  existsb (fun n : row Tnotifications => in_scope t (n_scope n) && str_eqb (n_event n) event
                                          && str_eqb (n_route n) route) (d Tnotifications).

Definition fresh_notification (t : Tx) (event route kind incident : string) : NotificationRow :=
  mkNotificationRow (scope t) (md5 (event +:+ "/" +:+ route)) event route kind incident "PENDING" 0
    (tx_now t) None "" "" None (tx_now t).

(** [INSERT ... SELECT ... ON CONFLICT DO NOTHING], row by row. *)
Definition same_notification (r o : row Tnotifications) : bool :=
  scope_eqb (n_scope r) (n_scope o)
  && (str_eqb (n_id r) (n_id o) || (str_eqb (n_event r) (n_event o) && str_eqb (n_route r) (n_route o))).
Definition add_new (l : list (row Tnotifications)) (rs : list NotificationRow) : list (row Tnotifications) :=
  fold_left (fun l r => if existsb (same_notification r) l then l else l ++ [r]) rs l.

Definition created_leb (a b : OutboxRow) : bool :=
  if o_created a =? o_created b then str_leb (o_id a) (o_id b) else o_created a <? o_created b.

Definition MaterializeNotifications (t : Tx) (route : string) : M unit :=
  guard (ValidID route) ErrInvalid ;;
  exec (fun _ d =>
    let events := take 50 (isort created_leb (List.filter (fun o : row Toutbox =>
      in_scope t (o_scope o) && mem_str (o_kind o) notifiable && since_registered t d route (o_created o)
      && negb (has_notification t d (o_id o) route)) (d Toutbox))) in
    store tt d Tnotifications (add_new (d Tnotifications)
      (map (fun o => fresh_notification t (o_id o) route (o_kind o)
                       (default "" (json_path (o_payload o) ["incident_id"]))) events))).

Definition set_notification (n : NotificationRow) (state : string) (attempts : Z) (delivered : option Time)
  (lease : string) (until : option Time) (next : Time) : NotificationRow :=
  mkNotificationRow (n_scope n) (n_id n) (n_event n) (n_route n) (n_kind n) (n_incident n) state attempts
    (n_created n) delivered (n_acknowledged n) lease until next.

Definition lease_expired (t : Tx) (n : row Tnotifications) : bool :=
  str_eqb (n_state n) "SENDING" && match n_lease_until n with Some u => u <? tx_now t | None => false end.

Definition due_leb (a b : NotificationRow) : bool :=
  if n_next a =? n_next b then str_leb (n_id a) (n_id b) else n_next a <? n_next b.
Definition due (t : Tx) (d : DB) (route : string) : option string :=
  n_id <$> head (isort due_leb (List.filter (fun n : row Tnotifications =>
    in_scope t (n_scope n) && str_eqb (n_route n) route && str_eqb (n_acknowledged n) ""
    && ((str_eqb (n_state n) "PENDING" && (n_next n <=? tx_now t)) || lease_expired t n)
    && (n_attempts n <? 8)) (d Tnotifications))).

Definition notification_of (lease : string) (n : NotificationRow) : Notification :=
  mkNotification (n_scope n) (n_id n) (n_event n) (n_route n) (n_kind n) (n_incident n) (n_state n)
    (n_attempts n) (n_created n) (n_delivered n) (n_acknowledged n) lease.

Definition LeaseNotification (t : Tx) (route : string) : M Notification :=
  guard (ValidID route) ErrInvalid ;;
  update Tnotifications
    (fun _ _ n => in_scope t (n_scope n) && str_eqb (n_route n) route && lease_expired t n && (8 <=? n_attempts n))
    (fun _ n => set_notification n "FAILED" (n_attempts n) (n_delivered n) "" None (n_next n)) ;;
  let* lease := NewID in
  let* rs := update_returning Tnotifications
    (fun _ d n => in_scope t (n_scope n) && bool_decide (due t d route = Some (n_id n)))
    (fun _ n => set_notification n "SENDING" (n_attempts n + 1) (n_delivered n) lease
                  (Some (tx_now t + 30 * Second)) (n_next n)) in
  match rs with
  | [] => throw ErrNotFound
  | n :: _ => ret (notification_of lease n)
  end.

Definition retry_delay (attempts : Z) : Duration := Z.shiftl 1 (Z.min attempts 8) * Second.

Definition FinishNotification (t : Tx) (n : Notification) (delivered : bool) : M unit :=
  guard (scope_eqb (NT_Scope n) (scope t) && ValidID (NT_ID n) && ValidID (NT_Lease n)) ErrInvalid ;;
  let* deliveredAt := (if delivered then let* at_ := time_now in ret (Some at_) else ret None) in
  let state := if delivered then "DELIVERED" else if 8 <=? NT_Attempts n then "FAILED" else "PENDING" in
  let* now := time_now in
  let* k := update Tnotifications
    (fun _ _ r => in_scope t (n_scope r) && str_eqb (n_id r) (NT_ID n) && str_eqb (n_lease r) (NT_Lease n)
                  && str_eqb (n_state r) "SENDING")
    (fun _ r => set_notification r state (n_attempts r) (pgTime <$> deliveredAt) "" None
                  (pgTime (Add now (retry_delay (NT_Attempts n))))) in
  guard (k =? 1) ErrConflict.

Definition Notifications (t : Tx) (after : string) (limit : Z) : M (list Notification) :=
  guard (valid_page after limit) ErrInvalid ;;
  query_rows (fun _ d => map (notification_of "") (page n_id after limit
    (List.filter (fun n : row Tnotifications => in_scope t (n_scope n)) (d Tnotifications)))).

Definition AcknowledgeNotification (t : Tx) (id actor : string) : M unit :=
  guard (ValidID id && ValidID actor) ErrInvalid ;;
  let* k := update Tnotifications
    (fun _ _ n => in_scope t (n_scope n) && str_eqb (n_id n) id && str_eqb (n_acknowledged n) "")
    (fun _ n => mkNotificationRow (n_scope n) (n_id n) (n_event n) (n_route n) (n_kind n) (n_incident n)
                  (n_state n) (n_attempts n) (n_created n) (n_delivered n) actor (n_lease n) (n_lease_until n) (n_next n)) in
  if k =? 0 then
    query_row (fun _ d => List.filter (fun n : row Tnotifications => in_scope t (n_scope n) && str_eqb (n_id n) id)
                            (d Tnotifications)) ;; ret tt
  else
    Enqueue t ("ack_" +:+ id) "NOTIFICATION_ACKNOWLEDGED"
      (print (JObj [("notification_id", JStr id); ("actor_id", JStr actor)])).

Definition EscalateNotifications (t : Tx) (route to : string) (after : Duration) : M unit :=
  guard (ValidID route && ValidID to && negb (str_eqb route to) && negb (after <? Minute)) ErrInvalid ;;
  let* now := time_now in
  let before := pgTime (Add now (- after)) in
  exec (fun _ d =>
    let sources := take 50 (isort (fun a b : row Tnotifications => n_created a <=? n_created b)
      (List.filter (fun n : row Tnotifications =>
        in_scope t (n_scope n) && str_eqb (n_route n) route && str_eqb (n_acknowledged n) ""
        && (n_created n <=? before) && mem_str (n_state n) ["DELIVERED"; "FAILED"]
        && existsb (fun o : row Toutbox => in_scope t (o_scope o) && str_eqb (o_id o) (n_event n)
                                            && since_registered t d to (o_created o)) (d Toutbox)
        && negb (has_notification t d (n_event n) to)) (d Tnotifications))) in
    store tt d Tnotifications (add_new (d Tnotifications)
      (map (fun n => fresh_notification t (n_event n) to (n_kind n) (n_incident n)) sources))).

Definition RegisterNotificationRoute (t : Tx) (id : string) : M unit :=
  guard (ValidID id) ErrInvalid ;;
  ensure_scope t ;;
  insert_or_skip Troutes
    (fun r o : row Troutes => scope_eqb (rt_scope r) (rt_scope o) && str_eqb (rt_id r) (rt_id o))
    (fun _ => mkRouteRow (scope t) id (tx_now t)) ;; ret tt.

(** ** interaction.go *)
Definition CreateInteraction (t : Tx) (r : Request) (actor : string) : M unit :=
  let* now := time_now in
  guard (scope_eqb (Q_Scope r) (scope t) && Request_Validate r now && ValidID actor) ErrInvalid ;;
  Incident_ t (Q_IncidentID r) ;;
  (if str_eqb (Q_JobID r) "" then ret tt else
     let* found := query (fun _ d => inr (existsb (fun j : row Tjobs => in_scope t (d_scope j)
       && str_eqb (d_id j) (Q_JobID r) && str_eqb (d_incident j) (Q_IncidentID r)) (d Tjobs))) in
     guard found ErrInvalid) ;;
  insert Tinteractions (fun _ => mkInteractionRow (scope t) (Q_ID r) (Q_IncidentID r) (Q_JobID r) (Q_Kind r)
    (Q_Question r) 1 "PENDING" (pgTime (Q_ExpiresAt r)) actor (tx_now t) "" "" None) ;;
  Enqueue t ("interaction_" +:+ Q_ID r) "CLARIFICATION_REQUESTED"
    (print (JObj [("incident_id", JStr (Q_IncidentID r)); ("request_id", JStr (Q_ID r)); ("actor_id", JStr actor)])).

Definition interaction_of (now : Time) (x : InteractionRow) : Request :=
  mkRequest (x_scope x) (x_id x) (x_incident x) (x_job x) (x_kind x) (x_question x) (x_version x)
    (if str_eqb (x_status x) "PENDING" && (x_expires x <=? now) then "EXPIRED" else x_status x)
    (x_expires x) (x_answer x) (x_actor x) (x_created_by x) (x_answered x).

Definition Interactions (t : Tx) (after : string) (limit : Z) : M (list Request) :=
  guard (valid_page after limit) ErrInvalid ;;
  query_rows (fun now d => map (interaction_of now) (page x_id after limit
    (List.filter (fun x : row Tinteractions => in_scope t (x_scope x)) (d Tinteractions)))).

Definition interaction_at (t : Tx) (id : string) (x : row Tinteractions) : bool :=
  in_scope t (x_scope x) && str_eqb (x_id x) id.

Definition AnswerInteraction (t : Tx) (id : string) (version : Z) (answer actor : string) : M unit :=
  guard (ValidID id && ValidID actor && negb (version <? 1)) ErrInvalid ;;
  let* x := query_row (fun _ d => List.filter (interaction_at t id) (d Tinteractions)) in
  guard (Accepts (x_question x) answer) ErrInvalid ;;
  let* n := update Tinteractions
    (fun now _ r => interaction_at t id r && (x_version r =? version) && str_eqb (x_status r) "PENDING"
                    && (now <? x_expires r))
    (fun now r => mkInteractionRow (x_scope r) (x_id r) (x_incident r) (x_job r) (x_kind r) (x_question r)
                    (x_version r + 1) "ANSWERED" (x_expires r) (x_created_by r) (x_created r) answer actor (Some now)) in
  guard (n =? 1) ErrConflict ;;
  Enqueue t ("answer_" +:+ id) "CLARIFICATION_ANSWERED"
    (print (JObj [("request_id", JStr id); ("version", jint version); ("answer", JStr answer); ("actor_id", JStr actor)])).

(** [DISTINCT ON (question) ... ORDER BY question, answered_at DESC, id DESC]. *)
Definition answered_leb (a b : InteractionRow) : bool :=
  if str_eqb (x_question a) (x_question b)
  then recent_leb (fun x => default 0 (x_answered x)) x_id a b
  else str_leb (x_question a) (x_question b).

Definition InteractionContext (t : Tx) (incidentID : string) : M (list (string * string)) :=
  guard (ValidID incidentID) ErrInvalid ;;
  let* rs := query_rows (fun now d => take 8 (distinct_on x_question None (isort answered_leb
    (List.filter (fun x : row Tinteractions => in_scope t (x_scope x) && str_eqb (x_incident x) incidentID
       && str_eqb (x_status x) "ANSWERED" && (now <? x_expires x)) (d Tinteractions))))) in
  map_each (fun x => guard (Accepts (x_question x) (x_answer x)) ErrInvalid ;;
                     ret (x_question x, x_answer x)) rs.

(** ** auth.go, auth_capacity.go: tables outside the scopes *)
Definition createAuthRecord (t : tbl) (expires : row t -> Time) (ins : M unit) : M unit :=
  control ;;
  in_transaction (
    control ;;
    delete t (fun now _ r => expires r <=? now) ;;
    let* count := query (fun _ d => inr (Z.of_nat (length (d t)))) in
    guard (count <? 1000) ErrAuthCapacity ;;
    ins).

Definition CreateLoginChallenge (key : string) (c : LoginChallenge) : M unit :=
  let* now := time_now in
  guard (negb (str_eqb key "") && negb (str_eqb (LC_Verifier c) "") && negb (str_eqb (LC_Nonce c) "")
         && After (LC_ExpiresAt c) now) ErrInvalid ;;
  createAuthRecord Tchallenges lc_expires
    (insert Tchallenges (fun _ => mkChallengeRow (authKey key) (LC_Verifier c) (LC_Nonce c) (pgTime (LC_ExpiresAt c)))).

Definition ConsumeLoginChallenge (key : string) : M LoginChallenge :=
  let* rs := delete_returning Tchallenges (fun _ _ r => str_eqb (lc_key r) (authKey key)) in
  match rs with
  | [] => throw ErrNotFound
  | r :: _ =>
      let* now := time_now in
      guard (After (lc_expires r) now) ErrNotFound ;;
      ret (mkLogin (lc_verifier r) (lc_nonce r) (lc_expires r))
  end.

Definition CreateBrowserSession (key : string) (b : BrowserSession) : M unit :=
  let* now := time_now in
  guard (negb (str_eqb key "") && negb (str_eqb (S_CSRF b) "") && Principal_Valid (S_Principal b) now) ErrInvalid ;;
  let p := S_Principal b in
  let max := Add (IssuedAt p) MaxIdentityAge in
  let expires := if Before max (P_ExpiresAt p) then max else P_ExpiresAt p in
  createAuthRecord Tsessions bs_expires
    (insert Tsessions (fun _ => mkSessionRow (authKey key) (P_ID p) (Issuer p) (Groups p)
       (pgTime (IssuedAt p)) (pgTime expires) (S_CSRF b))).

Definition GetBrowserSession (key : string) : M BrowserSession :=
  let* r := query_row (fun now d => List.filter (fun r : row Tsessions =>
    str_eqb (bs_key r) (authKey key) && (now <? bs_expires r)) (d Tsessions)) in
  let p := mkPrincipal (bs_principal r) (bs_issuer r) "" "" "" (bs_groups r) (bs_issued r) (bs_expires r) in
  let* now := time_now in
  guard (Principal_Valid p now) ErrNotFound ;;
  ret (mkSession p (bs_csrf r)).

Definition DeleteBrowserSession (key : string) : M unit :=
  delete Tsessions (fun _ _ r => str_eqb (bs_key r) (authKey key)) ;; ret tt.

(** ** operations.go *)
Record OperationalSnapshot := mkSnapshot {
  OS_Coverage : list (string * Z); OS_Agents : list (string * Z); OS_Jobs : list (string * Z);
  OS_Actions : list (string * Z); OS_Notifications : list (string * Z);
  OS_FreshEvidence : Z; OS_QuarantinedItems : Z; OS_OldestPending : option Duration; OS_At : Time }.

Definition agent_class (t : Tx) (g : row Tagents) : string :=
  if g_revoked g then "REVOKED"
  else if (g_expires g <=? tx_now t) || negb (str_eqb (g_epoch g) (authorityEpoch t)) then "EXPIRED"
  else "CURRENT".

Definition count_if {A} (p : A -> bool) (l : list A) : Z := Z.of_nat (length (List.filter p l)).

(** The age of the oldest pending notification is kept as a duration. *)
Definition GetOperationalSnapshot (t : Tx) (at_ : Time) : M OperationalSnapshot :=
  let* agents := query (fun _ d => inr (group_counts (map (agent_class t)
    (List.filter (fun g : row Tagents => in_scope t (g_scope g)) (d Tagents))))) in
  let* jobs := query (fun _ d => inr (group_counts (map d_state
    (List.filter (fun r : row Tjobs => in_scope t (d_scope r)) (d Tjobs))))) in
  let* actions := query (fun _ d => inr (group_counts (map a_state
    (List.filter (fun r : row Tactions => in_scope t (a_scope r)) (d Tactions))))) in
  let* notes := query (fun _ d => inr (group_counts (map n_state
    (List.filter (fun r : row Tnotifications => in_scope t (n_scope r)) (d Tnotifications))))) in
  let* fresh := query (fun _ d => inr (count_if (fun r : row Titems => in_scope t (i_scope r)
    && bool_decide (i_kind r = Evidence) && (i_observed r <=? tx_now t) && (tx_now t <? i_valid_until r)) (d Titems))) in
  let* quarantined := query (fun _ d => inr (count_if (fun r : row Teligibility => in_scope t (e_scope r)
    && e_quarantined r) (d Teligibility))) in
  let* oldest := query (fun _ d => inr (
    let pending := List.filter (fun r : row Tnotifications => in_scope t (n_scope r) && str_eqb (n_acknowledged r) ""
      && mem_str (n_state r) ["PENDING"; "SENDING"]) (d Tnotifications) in
    match map n_created pending with
    | [] => None
    | c :: cs => Some (tx_now t - fold_left Z.min cs c)
    end)) in
  let* coverage := CoverageCounts t in
  ret (mkSnapshot coverage agents jobs actions notes fresh quarantined oldest at_).

(** [... IN (SELECT ... LIMIT 500)]. *)
Definition first_500 {A} (p : A -> bool) (key : A -> string) (l : list A) (r : A) : bool :=
  mem_str (key r) (map key (take 500 (List.filter p l))).

Definition terminal_job (s : string) : bool := mem_str s ["COMPLETED"; "CANCELLED"; "FAILED"].

Definition Retain (t : Tx) (days : Z) : M unit :=
  guard (negb ((days <? 7) || (3650 <? days))) ErrInvalid ;;
  let* now := time_now in
  let cutoff := pgTime (Add now (- days * 24 * Hour)) in
  delete Toutbox (fun _ d o => in_scope t (o_scope o) &&
    first_500 (fun o => in_scope t (o_scope o) && str_eqb (o_kind o) "COLLECTOR_REPORT" && (o_created o <? cutoff))
      o_id (d Toutbox) o) ;;
  delete Tbootstraps (fun _ d b => in_scope t (b_scope b) &&
    first_500 (fun b => in_scope t (b_scope b) && (b_expires b <? cutoff)) b_token (d Tbootstraps) b) ;;
  update Tjobs (fun _ _ r => in_scope t (d_scope r) && terminal_job (d_state r)
                             && negb (str_eqb (d_authority r) "") && (d_expires r <? cutoff))
    (fun _ r => set_job r (d_state r) "" (d_result r) (d_lease_until r) (d_input r)) ;;
  ret tt.
End Queues.
