(* ===== verification/Privacy.v ===== *)
(** * pkg/privacy: the projection every observation must satisfy

    projection.go and guidance.go.  An observation carries codes, handles and
    bounded metrics only; [Validate] is the check every consumer repeats on the
    body of an evidence item.  [ProjectIssue] maps a scanner issue by its
    category. *)

From S2P Require Import Prelude.
From S2P Require Import Sha256.
From S2P Require Import Json.
From S2P Require Import JsonFacts.
From S2P Require Import GoTime.
From S2P Require Import Decode.
From S2P Require Import Identity.

Record Provenance := mkProv { S_AgentID : string; S_Generation : Z; S_Epoch : string; S_ReportID : string }.
Record Target := mkTarget { T_Kind : string; T_UID : string; T_ResourceVersion : string; T_Commitment : string }.
Record Observation := mkObs {
  O_Source : option Provenance;
  O_Target : option Target;
  O_Code : string;
  O_ResourceHandle : string;
  O_DependencyHandles : list string;
  O_Metrics : list (string * float64);
  O_ObservedAt : Time;
  O_ValidUntil : Time
}.

Definition CrashLoop := "CRASH_LOOP".
Definition PodFailed := "POD_FAILED".
Definition DependencyUnavailable := "DEPENDENCY_UNAVAILABLE".
Definition NetworkBlocked := "NETWORK_BLOCKED".
Definition ConfigurationDrift := "CONFIGURATION_DRIFT".
Definition ResourcePressure := "RESOURCE_PRESSURE".
Definition ReadUnavailable := "READ_UNAVAILABLE".
Definition Healthy := "HEALTHY".
Definition Unclassified := "UNCLASSIFIED".
Definition codes : list string :=
  [CrashLoop; PodFailed; DependencyUnavailable; NetworkBlocked; ConfigurationDrift; ResourcePressure;
   ReadUnavailable; Healthy; Unclassified].

(** The regular expression of [uuidPattern]: hex groups of 8-4-4-4-12. *)
Fixpoint hex_run (n : nat) (s : string) : option string :=
  match n, s with
  | O, _ => Some s
  | S n, String c s => if is_lower_hex c then hex_run n s else None
  | S _, EmptyString => None
  end.
Definition ValidUID (uid : string) : bool :=
  match (s ← hex_run 8 uid; s ← strip "-" s; s ← hex_run 4 s; s ← strip "-" s; s ← hex_run 4 s;
         s ← strip "-" s; s ← hex_run 4 s; s ← strip "-" s; hex_run 12 s) with
  | Some s => str_eqb s ""
  | None => false
  end.

Definition ValidHandle (handle : string) : bool := (slen handle =? 32) && hex_decodable handle.

Definition source_ok (s : Provenance) : bool :=
  ValidID (S_AgentID s) && negb (S_Generation s <? 1) && ValidID (S_Epoch s) && ValidHandle (S_ReportID s).

Definition target_ok (t : Target) : bool :=
  mem_str (T_Kind t) ["Pod"; "Deployment"; "Service"; "StatefulSet"; "Node"; "Unknown"]
  && (str_eqb (T_UID t) "" || ValidUID (T_UID t)) && negb (64 <? slen (T_ResourceVersion t))
  && str_forall is_digit (T_ResourceVersion t) && (slen (T_Commitment t) =? 64) && hex_decodable (T_Commitment t).

Definition metric_names : list string :=
  ["restart_count"; "ready_replicas"; "desired_replicas"; "memory_usage_ratio"; "cpu_usage_ratio";
   "error_ratio"; "latency_ms"].
Definition metric_ok (m : string * float64) : bool :=
  mem_str (fst m) metric_names
  && negb (is_nan (snd m) || is_inf (snd m) || f_ltb (snd m) f_zero || f_ltb (f_of_Z (10 ^ 15)) (snd m)).

Definition opt_ok {A} (p : A -> bool) (o : option A) : bool := match o with None => true | Some a => p a end.

Definition Validate (o : Observation) : bool :=
  opt_ok source_ok (O_Source o) && opt_ok target_ok (O_Target o) && mem_str (O_Code o) codes
  && ValidHandle (O_ResourceHandle o) && negb (IsZero (O_ObservedAt o)) && After (O_ValidUntil o) (O_ObservedAt o)
  && negb (Hour <? Sub (O_ValidUntil o) (O_ObservedAt o))
  && negb (32 <? Z.of_nat (length (O_DependencyHandles o))) && negb (8 <? Z.of_nat (length (O_Metrics o)))
  && forallb ValidHandle (O_DependencyHandles o) && forallb metric_ok (O_Metrics o).

(** [ProjectIssue] on the category of the issue. *)
Definition ProjectIssue (category handle : string) (at_ : Time) (ttl : Duration) : Observation * bool :=
  let code := if str_eqb category "CrashLoopBackOff" then CrashLoop
              else if str_eqb category "PodFailed" then PodFailed else Unclassified in
  let projected := mkObs None None code handle [] [] at_ (Add at_ ttl) in
  (projected, Validate projected).

(** ** guidance.go *)
Definition current_at (o : Observation) (at_ : Time) : bool :=
  negb (After (O_ObservedAt o) at_) && After (O_ValidUntil o) at_.

Definition contradicts (observations : list Observation) (handle : string) (at_ : Time) : bool :=
  existsb (fun other => str_eqb (O_ResourceHandle other) handle && str_eqb (O_Code other) Healthy
                        && Validate other && current_at other at_) observations.

Definition SuggestCause (cause : string) (observations : list Observation) (at_ : Time) : bool :=
  mem_str cause [NetworkBlocked; ConfigurationDrift; ResourcePressure] &&
  existsb (fun o => Validate o && current_at o at_ && str_eqb (O_Code o) cause
                    && negb (contradicts observations (O_ResourceHandle o) at_)) observations.

(** ** Decoding an observation from the body of an item *)
Definition prov_fields : list (field_decoder Provenance) :=
  [field "agent_id" S_AgentID (fun v p => mkProv v (S_Generation p) (S_Epoch p) (S_ReportID p)) dec_string;
   field "generation" S_Generation (fun v p => mkProv (S_AgentID p) v (S_Epoch p) (S_ReportID p)) dec_int64;
   field "epoch" S_Epoch (fun v p => mkProv (S_AgentID p) (S_Generation p) v (S_ReportID p)) dec_string;
   field "report_id" S_ReportID (fun v p => mkProv (S_AgentID p) (S_Generation p) (S_Epoch p) v) dec_string].
Definition target_fields : list (field_decoder Target) :=
  [field "kind" T_Kind (fun v t => mkTarget v (T_UID t) (T_ResourceVersion t) (T_Commitment t)) dec_string;
   field "uid" T_UID (fun v t => mkTarget (T_Kind t) v (T_ResourceVersion t) (T_Commitment t)) dec_string;
   field "resource_version" T_ResourceVersion (fun v t => mkTarget (T_Kind t) (T_UID t) v (T_Commitment t)) dec_string;
   field "commitment" T_Commitment (fun v t => mkTarget (T_Kind t) (T_UID t) (T_ResourceVersion t) v) dec_string].

Definition set_source v o := mkObs v (O_Target o) (O_Code o) (O_ResourceHandle o) (O_DependencyHandles o) (O_Metrics o) (O_ObservedAt o) (O_ValidUntil o).
Definition set_target v o := mkObs (O_Source o) v (O_Code o) (O_ResourceHandle o) (O_DependencyHandles o) (O_Metrics o) (O_ObservedAt o) (O_ValidUntil o).
Definition set_code v o := mkObs (O_Source o) (O_Target o) v (O_ResourceHandle o) (O_DependencyHandles o) (O_Metrics o) (O_ObservedAt o) (O_ValidUntil o).
Definition set_handle v o := mkObs (O_Source o) (O_Target o) (O_Code o) v (O_DependencyHandles o) (O_Metrics o) (O_ObservedAt o) (O_ValidUntil o).
Definition set_deps v o := mkObs (O_Source o) (O_Target o) (O_Code o) (O_ResourceHandle o) v (O_Metrics o) (O_ObservedAt o) (O_ValidUntil o).
Definition set_metrics v o := mkObs (O_Source o) (O_Target o) (O_Code o) (O_ResourceHandle o) (O_DependencyHandles o) v (O_ObservedAt o) (O_ValidUntil o).
Definition set_observed v o := mkObs (O_Source o) (O_Target o) (O_Code o) (O_ResourceHandle o) (O_DependencyHandles o) (O_Metrics o) v (O_ValidUntil o).
Definition set_until v o := mkObs (O_Source o) (O_Target o) (O_Code o) (O_ResourceHandle o) (O_DependencyHandles o) (O_Metrics o) (O_ObservedAt o) v.

Definition zero_obs : Observation := mkObs None None "" "" [] [] zeroTime zeroTime.

Definition obs_fields (strict : bool) : list (field_decoder Observation) :=
  [field "source" O_Source set_source (dec_ptr (mkProv "" 0 "" "") (dec_struct strict prov_fields));
   field "target" O_Target set_target (dec_ptr (mkTarget "" "" "" "") (dec_struct strict target_fields));
   field "code" O_Code set_code dec_string;
   field "resource_handle" O_ResourceHandle set_handle dec_string;
   field "dependency_handles" O_DependencyHandles set_deps (dec_list "" dec_string);
   field "metrics" O_Metrics set_metrics (dec_map f_zero dec_float);
   field "observed_at" O_ObservedAt set_observed dec_time;
   field "valid_until" O_ValidUntil set_until dec_time].

(** [json.Unmarshal(item.Body, &o)]. *)
Definition decode_observation (body : string) : option Observation := Unmarshal (obs_fields false) zero_obs body.

(** ** Facts *)

(** A suggested cause is supported by a currently valid observation of exactly
    that code on a resource that no current observation calls healthy. *)
Lemma SuggestCause_spec cause obs at_ :
  SuggestCause cause obs at_ = true <->
  In cause [NetworkBlocked; ConfigurationDrift; ResourcePressure] /\
  exists o, In o obs /\ Validate o = true /\ O_Code o = cause /\
    O_ObservedAt o <= at_ < O_ValidUntil o /\
    forall other, In other obs -> O_ResourceHandle other = O_ResourceHandle o -> O_Code other = Healthy ->
      Validate other = true -> ~ (O_ObservedAt other <= at_ < O_ValidUntil other).
Proof.
  unfold SuggestCause, mem_str. rewrite andb_true_iff, bool_decide_eq_true, list_elem_of_In, existsb_exists.
  unfold contradicts, current_at, After. split.
  - intros [Hc (o & Hin & Ho)]. split; [done|]. exists o.
    rewrite !andb_true_iff, !negb_true_iff in Ho. destruct Ho as [[[Hv [Ha Hb]] Hcode] Hno]. breflect.
    repeat split; try done; try lia.
    intros other Hin' Hh Hc' Hv' [H1 H2].
    assert (existsb (fun other => str_eqb (O_ResourceHandle other) (O_ResourceHandle o) && str_eqb (O_Code other) Healthy
      && Validate other && (negb (at_ <? O_ObservedAt other) && (at_ <? O_ValidUntil other))) obs = true); [|congruence].
    apply existsb_exists. exists other. split; [done|]. rewrite Hh, Hc', Hv', !str_eqb_refl. by bools_true.
  - intros [Hc (o & Hin & Hv & <- & Ht & Hno)]. split; [done|]. exists o. split; [done|].
    rewrite Hv, str_eqb_refl. bools_true. apply negb_true_iff.
    destruct (existsb _ obs) eqn:E; [|done]. apply existsb_exists in E as (other & Hin' & Ho).
    rewrite !andb_true_iff, !negb_true_iff in Ho. destruct Ho as [[[Hh Hc'] Hv'] [H1 H2]]. breflect.
    exfalso. eapply Hno; eauto; lia.
Qed.

(** A projected observation never lasts longer than an hour and names only a
    hex handle. *)
Lemma Validate_bounds o :
  Validate o = true ->
  O_ObservedAt o < O_ValidUntil o <= O_ObservedAt o + Hour /\ slen (O_ResourceHandle o) = 32 /\
  (length (O_DependencyHandles o) <= 32)%nat /\ (length (O_Metrics o) <= 8)%nat.
Proof.
  unfold Validate, After, Sub. rewrite !andb_true_iff, !negb_true_iff. intros H.
  destruct H as [[[[[[[[[[H1 H2] H3] H4] H5] H6] H7] H8] H9] H10] H11].
  unfold ValidHandle in H4. breflect. change (2 ^ 63) with 9223372036854775808 in *.
  unfold Hour, Minute, Second in *. repeat split; lia.
Qed.
