(* ===== verification/Fleet.v ===== *)
(** * pkg/fleet: agent enrollment, renewal and revocation

    service.go.  An administrator issues a one-time bootstrap token; an agent
    exchanges it for a credential, renews the credential and loses it when it
    is revoked.  Only hashes of tokens are stored. *)

From S2P Require Import Prelude.
From S2P Require Import Sha256.
From S2P Require Import Json.
From S2P Require Import JsonFacts.
From S2P Require Import GoTime.
From S2P Require Import Decode.
From S2P Require Import Identity.
From S2P Require Import Authorization.
From S2P Require Import Incident.
From S2P Require Import Db.
From S2P Require Import Sql.
From S2P Require Import Storage.
From S2P Require Import Records.

Definition Collector := "COLLECTOR".
Definition Executor := "EXECUTOR".

(** [Service] with the authority epoch its [Store] holds. *)
Record Service := mkService { Policy_ : Policy; Epoch : string; StoreEpoch : string }.

Record Credential := mkCredential { C_Token : string; C_Agent : Agent }.

(** [NewService] on non-nil arguments; [SetAuthorityEpoch] accepts a digest. *)
Definition NewService (policy : Policy) (externalGeneration : string) : res Service :=
  if negb (ValidID externalGeneration) then Err ErrInvalid else
  let epoch := sha256_hex externalGeneration in
  if negb (ValidID epoch) then Err ErrInvalid else Ok (mkService policy epoch epoch).

Definition audience (role : string) : string :=
  if str_eqb role Collector then "sre-evidence"
  else if str_eqb role Executor then "sre-execution" else "".

Definition TokenHash (token : string) : string := sha256_hex token.

Definition tx_of {A} `{Env} (s : Service) (sc : Scope) (fn : Tx -> M A) : M A := Transact (StoreEpoch s) sc fn.

Section Fleet.
Context `{Env}.

Definition newToken : M string := let* b := rand_read 32 in ret (base64url b).

(** [if err := policy.Authorize(...); err != nil { return err }]. *)
Definition authorize (p : Policy) (principal : Principal) (sc : Scope) (perm : Permission) : M unit :=
  let* now := time_now in guard (Authorize (Some p) now principal sc perm) ErrForbidden.

Definition Bootstrap (s : Service) (principal : Principal) (sc : Scope) (id uid role : string) : M Credential :=
  authorize (Policy_ s) principal sc Setup ;;
  guard (ValidID id && ValidID uid && negb (str_eqb (audience role) "")) ErrInvalid ;;
  let* token := newToken in
  let* now := time_now in
  let agent := mkAgent sc id role (audience role) (Epoch s) 0 uid (Add now (10 * Minute)) false in
  tx_of s sc (fun t => CreateBootstrap t (mkBootstrap agent (TokenHash token) (G_ExpiresAt agent))) ;;
  ret (mkCredential token agent).

Definition Enroll (s : Service) (sc : Scope) (bootstrap uid role : string) : M Credential :=
  guard ((slen bootstrap =? 43) && ValidID uid && negb (str_eqb (audience role) "")) ErrAgentUnauthorized ;;
  let* token := newToken in
  let* agent := catch (tx_of s sc (fun t =>
      let* now := time_now in
      ConsumeBootstrap t (TokenHash bootstrap) uid role (audience role) (Epoch s) (TokenHash token)
        (Add now (30 * Minute))))
    (fun _ => throw ErrAgentUnauthorized) in
  ret (mkCredential token agent).

Definition AuthenticateTx (s : Service) (t : Tx) (token role : string) : M Agent :=
  guard ((slen token =? 43) && negb (str_eqb (audience role) "")) ErrAgentUnauthorized ;;
  let* agent := catch (AgentByToken t (TokenHash token)) (fun _ => throw ErrAgentUnauthorized) in
  let* now := time_now in
  guard (negb (G_Revoked agent) && After (G_ExpiresAt agent) now && str_eqb (G_Epoch agent) (Epoch s)
         && str_eqb (G_Role agent) role && str_eqb (G_Audience agent) (audience role)) ErrAgentUnauthorized ;;
  ret agent.

Definition Authenticate (s : Service) (sc : Scope) (token role : string) : M Agent :=
  tx_of s sc (fun t => AuthenticateTx s t token role).

Definition Renew (s : Service) (sc : Scope) (token role : string) : M Credential :=
  let* fresh := newToken in
  let* agent := tx_of s sc (fun t =>
      let* agent := AuthenticateTx s t token role in
      let* now := time_now in
      RotateAgent t (G_ID agent) (G_Generation agent) (TokenHash fresh) (Add now (30 * Minute))) in
  ret (mkCredential fresh agent).

Definition Revoke (s : Service) (principal : Principal) (sc : Scope) (id : string) : M unit :=
  authorize (Policy_ s) principal sc Setup ;;
  tx_of s sc (fun t => RevokeAgent t id).
End Fleet.

(** ** Lookups in filtered tables *)
Lemma filter_cons_in {A} (p : A -> bool) l x xs : List.filter p l = x :: xs -> x ∈ l /\ p x = true.
Proof.
  intros E. assert (Hin : In x (List.filter p l)) by (rewrite E; by left).
  apply filter_In in Hin as [? ?]. by rewrite list_elem_of_In.
Qed.

Lemma map_filter_cons {A B} (f : A -> B) (p : A -> bool) l y ys :
  map f (List.filter p l) = y :: ys -> exists x, x ∈ l /\ p x = true /\ f x = y.
Proof.
  intros E. destruct (List.filter p l) as [|x xs] eqn:F; [done|]. injection E as <- <-.
  exists x. destruct (filter_cons_in _ _ _ _ F). done.
Qed.

Section FleetFacts.
Context `{Env}.

Lemma authorize_ok p principal sc perm w x w' :
  authorize p principal sc perm w = (Ok x, w') ->
  Authorize (Some p) (go_now (tick w)) principal sc perm = true /\ w' = next w.
Proof. unfold authorize. intros Ha. run. apply time_now_ok in Hm as [-> ->]. done. Qed.

Lemma AgentByToken_ok t hash w a w' :
  AgentByToken t hash w = (Ok a, w') ->
  w' = next w /\ exists r : row Tagents, r ∈ db w Tagents /\ g_scope r = scope t /\ g_token r = hash /\ a = agent_of r.
Proof.
  unfold AgentByToken. intros Ha. run. apply query_row_ok in Ha as [[l E] ->]. split; [done|].
  apply map_filter_cons in E as (r & Hr & Hp & <-). exists r. unfold in_scope, scope_eqb in Hp. by breflect.
Qed.

Lemma AgentByID_ok t id w a w' :
  AgentByID t id w = (Ok a, w') ->
  w' = next w /\ exists r : row Tagents, r ∈ db w Tagents /\ g_scope r = scope t /\ g_id r = id /\ a = agent_of r.
Proof.
  unfold AgentByID. intros Ha. apply query_row_ok in Ha as [[l E] ->]. split; [done|].
  apply map_filter_cons in E as (r & Hr & Hp & <-). exists r. unfold in_scope, scope_eqb in Hp. by breflect.
Qed.

(** An authenticated agent is a stored, unrevoked, unexpired credential of
    the asked role in the current authority epoch. *)
Lemma AuthenticateTx_ok s t token role w a w' :
  AuthenticateTx s t token role w = (Ok a, w') ->
  db w' = db w /\ exists r : row Tagents, r ∈ db w Tagents /\ a = agent_of r /\ g_scope r = scope t /\
    g_token r = TokenHash token /\ g_revoked r = false /\ g_epoch r = Epoch s /\ g_role r = role /\
    g_audience r = audience role /\ audience role <> "" /\
    exists k, (tick w <= k < tick w')%nat /\ go_now k < g_expires r.
Proof.
  unfold AuthenticateTx. intros Ha. run.
  apply catch_ok in Hm as [Hm|(e & w2 & _ & Hm)]; [|discriminate].
  apply AgentByToken_ok in Hm as (-> & row & Hr & Hs & Ht & ->).
  apply time_now_ok in Hm0 as [-> ->]. split; [done|]. exists row.
  rewrite !andb_true_iff, negb_true_iff in Hg. rewrite !andb_true_iff, negb_true_iff in Hg0.
  destruct Hg0 as [[[[Hg1 Hg2] Hg3] Hg4] Hg5], Hg as [_ Haud]. unfold After in Hg2. breflect. cbn in *.
  repeat split; try done. exists (tick (next w)). split; [cbn; lia|done].
Qed.
End FleetFacts.
