(* ===== verification/Delivery.v ===== *)
(** * pkg/delivery/service.go: outgoing notifications

    A route sends the notifications of its scope to a group of people.  [Dispatch]
    makes notifications of the scope's events, escalates those nobody acknowledged,
    leases the next one that is due, sends it and records the outcome; [Run] takes
    the routes in turn.  The send itself is a parameter; of [NewService] the checks
    of the routes and of their escalation are modelled, those of their endpoints
    (transport.go, channels.go) are not. *)

From S2P Require Import Prelude.
From S2P Require Import GoTime.
From S2P Require Import Identity.
From S2P Require Import Authorization.
From S2P Require Import Incident.
From S2P Require Import Db.
From S2P Require Import Sql.
From S2P Require Import Storage.
From S2P Require Import Records.
From S2P Require Import Queues.
From S2P Require Import Fleet.

Module Delivery.
Record Channel := mkChannel {
  CH_Provider : string; CH_EndpointEnv : string; CH_TokenEnv : string; CH_Destination : string; CH_Template : string;
  CH_Language : string }.
Record Route := mkRoute {
  R_ID : string; R_Scope : Scope; R_RecipientGroup : string; R_EndpointEnv : string; R_Channel : option Channel;
  R_EscalationRouteID : string; R_EscalateAfterSeconds : Z }.
Record Service := mkService {
  DS_Epoch : string; DS_Policy : Policy; DS_routes : list Route; DS_escalationTargets : list string }.

(** ** NewService, but for endpoints *)
Fixpoint distinct_ids (seen : list string) (l : list Route) : bool :=
  match l with
  | [] => true
  | r :: l =>
      ValidID (R_ID r) && Scope_Validate (R_Scope r) && negb (str_eqb (R_RecipientGroup r) "")
      && negb (mem_str (R_ID r) seen) && distinct_ids (R_ID r :: seen) l
  end.
Definition escalation_ok (routes : list Route) (r : Route) : bool :=
  str_eqb (R_EscalationRouteID r) ""
  || match List.find (fun n => str_eqb (R_ID n) (R_EscalationRouteID r)) routes with
     | Some n => scope_eqb (R_Scope n) (R_Scope r) && negb (str_eqb (R_ID n) (R_ID r))
                 && str_eqb (R_EscalationRouteID n) "" && (60 <=? R_EscalateAfterSeconds r)
                 && (R_EscalateAfterSeconds r <=? 86400)
     | None => false
     end.
Definition routes_ok (routes : list Route) : bool :=
  negb (1000 <? Z.of_nat (length routes)) && distinct_ids [] routes && forallb (escalation_ok routes) routes.
Definition escalationTargets (routes : list Route) : list string :=
  List.filter (fun id => negb (str_eqb id "")) (map R_EscalationRouteID routes).

Section Dispatch.
Context `{Env} (s : Service).

Definition recipient (r : Route) : M Principal :=
  let* issued := time_now in
  let* now := time_now in
  ret (mkPrincipal (R_ID r) "https://sre.internal/notification-recipient" "" "" "" [R_RecipientGroup r] issued
         (Add now Minute)).
Definition may_read (r : Route) : M unit :=
  let* p := recipient r in authorize (DS_Policy s) p (R_Scope r) Read.

(** The notifications that the scope's events and their age call for. *)
Definition prepare (r : Route) (tx : Tx) : M unit :=
  (if mem_str (R_ID r) (DS_escalationTargets s) then ret tt else MaterializeNotifications tx (R_ID r)) ;;
  if str_eqb (R_EscalationRouteID r) "" then ret tt
  else EscalateNotifications tx (R_ID r) (R_EscalationRouteID r) (wrap64 (R_EscalateAfterSeconds r * Second)).
(** Without one that is due the rest of the transaction is kept. *)
Definition dispatchTx (r : Route) (tx : Tx) : M (option Notification) :=
  prepare r tx ;;
  catch (let* n := LeaseNotification tx (R_ID r) in ret (Some n))
        (fun e => if bool_decide (e = ErrNotFound) then ret None else throw e).

(** [Dispatch] up to the send: what is about to be sent, if anything. *)
Definition lease_for (r : Route) : M (option Notification) :=
  may_read r ;;
  let* n := Transact (DS_Epoch s) (R_Scope r) (dispatchTx r) in
  match n with
  | Some n => if str_eqb (NT_ID n) "" then ret None else may_read r ;; ret (Some n)
  | None => ret None
  end.

(** Whether a send, started at some instant, was acknowledged by the other side. *)
Context (send : nat -> Route -> Notification -> bool).

Definition finish (r : Route) (n : Notification) (delivered : bool) : M unit :=
  Transact (DS_Epoch s) (R_Scope r) (fun tx => FinishNotification tx n delivered).
Definition Dispatch (r : Route) : M unit :=
  let* n := lease_for r in
  match n with
  | None => ret tt
  | Some n =>
      let* delivered := (fun w => (Ok (send (tick w) r n), next w)) in
      finish r n delivered
  end.

(** One tick of [Run]: at most four routes, in turn, from [index]; errors are
    left to the next turn. *)
Fixpoint turn (k : nat) (index : Z) : M Z :=
  match k with
  | O => ret index
  | S k =>
      match nth_error (DS_routes s) (Z.to_nat (index mod Z.of_nat (length (DS_routes s)))) with
      | Some r => catch (Dispatch r) (fun _ => ret tt) ;; turn k (wrap64 (index + 1))
      | None => ret index
      end
  end.
Definition Run_tick (index : Z) : M Z := turn (Nat.min 4 (length (DS_routes s))) index.

Definition RegisterRoutes : M unit :=
  for_each (fun r => Transact (DS_Epoch s) (R_Scope r) (fun tx => RegisterNotificationRoute tx (R_ID r))) (DS_routes s).
Definition Acknowledge (p : Principal) (sc : Scope) (id : string) : M unit :=
  authorize (DS_Policy s) p sc Approve ;;
  Transact (DS_Epoch s) sc (fun tx => AcknowledgeNotification tx id (P_ID p)).
End Dispatch.
End Delivery.
