(* ===== verification/Recovery.v ===== *)
(** * pkg/recovery: recovery is observed, never reported

    service.go.  A reviewed profile says which handles must have been healthy,
    for how long and at which sampling rate; an assessment reads the stored
    samples of each handle, newest first. *)

From S2P Require Import Prelude.
From S2P Require Import Sha256.
From S2P Require Import Json.
From S2P Require Import JsonFacts.
From S2P Require Import GoTime.
From S2P Require Import Decode.
From S2P Require Import Identity.
From S2P Require Import Authorization.
From S2P Require Import Incident.
From S2P Require Import Db.
From S2P Require Import Sql.
From S2P Require Import Storage.
From S2P Require Import Records.
From S2P Require Import Privacy.
From S2P Require Import Fleet.

Module Recovery.

Definition RECOVERED := "RECOVERED".

(** [seen[h]] over the handles of a profile. *)
Fixpoint handles_ok (seen : list string) (l : list string) : bool :=
  match l with
  | [] => true
  | h :: l => ValidHandle h && negb (mem_str h seen) && handles_ok (h :: seen) l
  end.

Definition within (lo hi z : Z) : bool := negb (z <? lo) && negb (hi <? z).

Definition ValidateProfile (p : RecoveryProfile) : bool :=
  Scope_Validate (RP_Scope p) && ValidID (RP_ID p) && negb (RP_Version p <? 1)
  && within 1 16 (Z.of_nat (length (RP_Handles p))) && within 60 3600 (RP_WindowSeconds p)
  && within 15 120 (RP_MaximumGapSeconds p) && within 3 100 (RP_MinimumSamples p)
  && within 1 100000 (RP_MinimumReadyReplicas p) && handles_ok [] (RP_Handles p).

(** [time.Duration(n) * time.Second]. *)
Definition seconds (n : Z) : Duration := wrap64 (n * Second).

Definition same_source (s head : HealthSample) : bool :=
  str_eqb (HS_UID s) (HS_UID head) && str_eqb (HS_AgentID s) (HS_AgentID head)
  && (HS_Generation s =? HS_Generation head) && str_eqb (HS_Epoch s) (HS_Epoch head).

(** Enough samples over a long enough window at the [n]-th sample, from zero. *)
Definition window_met (p : RecoveryProfile) (head s : HealthSample) (n : Z) : bool :=
  (RP_MinimumSamples p <=? n + 1) && (seconds (RP_WindowSeconds p) <=? Sub (HS_At head) (HS_At s)).

Fixpoint window_loop (p : RecoveryProfile) (head : HealthSample) (n : Z) (previous : Time)
  (samples : list HealthSample) : string * string :=
  match samples with
  | [] => ("UNKNOWN", "WINDOW_INCOMPLETE")
  | s :: samples =>
      if After (HS_At s) previous || (seconds (RP_MaximumGapSeconds p) <? Sub previous (HS_At s))
      then ("UNKNOWN", "OBSERVATION_GAP")
      else if negb (str_eqb (HS_Coverage s) "COMPLETE") then ("UNKNOWN", "INCOMPLETE_COVERAGE")
      else if negb (same_source s head) then ("UNKNOWN", "SOURCE_CHANGED")
      else if negb (HS_Healthy s) || (HS_ReadyReplicas s <? RP_MinimumReadyReplicas p)
      then ("NOT_RECOVERED", "HEALTH_REQUIREMENT_FAILED")
      else if window_met p head s n then (RECOVERED, "SUSTAINED_OBSERVED_HEALTH")
      else window_loop p head (n + 1) (HS_At s) samples
  end.

Definition AssessWindow (p : RecoveryProfile) (samples : list HealthSample) (at_ : Time) : string * string :=
  match samples with
  | [] => ("UNKNOWN", "MISSING_OBSERVATIONS")
  | head :: _ =>
      if After (HS_At head) at_ || (seconds (RP_MaximumGapSeconds p) <? Sub at_ (HS_At head))
      then ("UNKNOWN", "STALE_OBSERVATIONS")
      else window_loop p head 0 at_ samples
  end.

(** [Service]: its store's authority epoch and its policy. *)
Record Service := mkService { DBEpoch : string; Policy_ : Policy }.

Section Recovery.
Context `{Env}.

(** The version a record must carry, after the one that is stored. *)
Definition next_version (old : option Z) (version : Z) : M unit :=
  guard (version =? match old with Some v => wrap64 (v + 1) | None => 1 end) ErrConflict.

Definition SetProfile (s : Service) (p : Principal) (profile0 : RecoveryProfile) : M RecoveryProfile :=
  authorize (Policy_ s) p (RP_Scope profile0) Setup ;;
  guard (ValidateProfile profile0) ErrInvalid ;;
  let profile := mkProfile (RP_Scope profile0) (RP_ID profile0) (RP_Version profile0)
    (isort str_leb (RP_Handles profile0)) (RP_WindowSeconds profile0) (RP_MaximumGapSeconds profile0)
    (RP_MinimumSamples profile0) (RP_MinimumReadyReplicas profile0) in
  Transact (DBEpoch s) (RP_Scope profile) (fun tx =>
    let* old := optional (GetRecoveryProfile tx (RP_ID profile)) in
    next_version (RP_Version <$> old) (RP_Version profile) ;;
    PutRecoveryProfile tx profile) ;;
  ret profile.

(** The samples an assessment cites for one handle, with whether all of them
    are uncontested. *)
Fixpoint cite (tx : Tx) (p : RecoveryProfile) (head : HealthSample) (n : Z) (cited : list ItemRef)
  (samples : list HealthSample) : M (bool * list ItemRef) :=
  match samples with
  | [] => ret (true, cited)
  | s :: samples =>
      let* ok := Uncontested tx (HS_Evidence s) in
      if negb ok then ret (false, cited) else
      let cited' := cited ++ [HS_Evidence s] in
      if window_met p head s n then ret (true, cited') else cite tx p head (n + 1) cited' samples
  end.

Fixpoint assess_handles (tx : Tx) (p : RecoveryProfile) (incidentID : string) (at_ : Time)
  (cited : list ItemRef) (handles : list string) : M (string * string * list ItemRef) :=
  match handles with
  | [] => ret (RECOVERED, "SUSTAINED_OBSERVED_HEALTH", cited)
  | h :: handles =>
      let* samples := HealthSamples tx incidentID h
        (Add at_ (wrap64 (- (RP_WindowSeconds p + RP_MaximumGapSeconds p * 2) * Second))) in
      let '(status, reason) := AssessWindow p samples at_ in
      match samples with
      | head :: _ =>
          if negb (str_eqb status RECOVERED) then ret (status, reason, cited) else
          let* eligible := Eligible tx (HS_Evidence head) at_ in
          if negb eligible then ret ("UNKNOWN", "SOURCE_NOT_ELIGIBLE", cited) else
          let* (ok, cited') := cite tx p head 0 cited samples in
          if negb ok then ret ("UNKNOWN", "DISPUTED_HEALTH_EVIDENCE", cited')
          else assess_handles tx p incidentID at_ cited' handles
      | [] => ret (status, reason, cited)
      end
  end.

Definition AssessTx (tx : Tx) (sc : Scope) (incidentID profileID : string) (at_ : Time) : M RecoveryAssessment :=
  let* p := GetRecoveryProfile tx profileID in
  guard (ValidateProfile p) ErrInvalid ;;
  let* id := NewID in
  let* (status, reason, cited) := assess_handles tx p incidentID at_ [] (RP_Handles p) in
  let a := mkRecovery id sc incidentID (RP_ID p) (RP_Version p) status reason cited at_ in
  PutRecoveryAssessment tx a ;;
  Enqueue tx id "RECOVERY_ASSESSED"
    (print (JObj [("incident_id", JStr incidentID); ("assessment_id", JStr id); ("status", JStr status)])) ;;
  ret a.

Definition Assess (s : Service) (p : Principal) (sc : Scope) (incidentID profileID : string) : M RecoveryAssessment :=
  authorize (Policy_ s) p sc Read ;;
  Transact (DBEpoch s) sc (fun tx =>
    let* at_ := time_now in AssessTx tx sc incidentID profileID at_).
End Recovery.

(** ** The observation window *)

(** One observation that continues a healthy run of [head]'s source. *)
Definition sample_ok (p : RecoveryProfile) (head : HealthSample) (previous : Time) (s : HealthSample) : bool :=
  negb (After (HS_At s) previous) && (Sub previous (HS_At s) <=? seconds (RP_MaximumGapSeconds p))
  && str_eqb (HS_Coverage s) "COMPLETE" && same_source s head && HS_Healthy s
  && (RP_MinimumReadyReplicas p <=? HS_ReadyReplicas s).
Fixpoint healthy_run (p : RecoveryProfile) (head : HealthSample) (previous : Time) (l : list HealthSample) : bool :=
  match l with
  | [] => true
  | s :: l => sample_ok p head previous s && healthy_run p head (HS_At s) l
  end.

Lemma window_step p head n previous s l :
  fst (window_loop p head n previous (s :: l)) = RECOVERED <->
  sample_ok p head previous s = true /\
  (window_met p head s n = true \/ fst (window_loop p head (n + 1) (HS_At s) l) = RECOVERED).
Proof.
  cbn [window_loop]. unfold sample_ok.
  rewrite !andb_true_iff, negb_true_iff, !Z.leb_le.
  destruct (After (HS_At s) previous); cbn [orb]; [split; [done|by intros [[[[[[? ?] ?] ?] ?] ?] ?]]|].
  destruct (Z.ltb_spec (seconds (RP_MaximumGapSeconds p)) (Sub previous (HS_At s))).
  { split; [done|]. intros [[[[[[? ?] ?] ?] ?] ?] ?]. lia. }
  destruct (str_eqb (HS_Coverage s) "COMPLETE"); cbn [negb]; [|split; [done|by intros [[[[[[? ?] ?] ?] ?] ?] ?]]].
  destruct (same_source s head); cbn [negb]; [|split; [done|by intros [[[[[[? ?] ?] ?] ?] ?] ?]]].
  destruct (HS_Healthy s); cbn [negb orb]; [|split; [done|by intros [[[[[[? ?] ?] ?] ?] ?] ?]]].
  destruct (Z.ltb_spec (HS_ReadyReplicas s) (RP_MinimumReadyReplicas p)).
  { split; [done|]. intros [[[[[[? ?] ?] ?] ?] ?] ?]. lia. }
  destruct (window_met p head s n).
  - split; [|done]. intros _. split; [|by left]. repeat split; lia.
  - split; [intros Hr; split; [repeat split; lia|by right]|]. by intros [_ [?|?]].
Qed.

Lemma window_loop_spec p head l : forall n previous,
  fst (window_loop p head n previous l) = RECOVERED <->
  exists pre s rest, l = pre ++ s :: rest /\ healthy_run p head previous (pre ++ [s]) = true /\
    window_met p head s (n + Z.of_nat (length pre)) = true.
Proof.
  induction l as [|x l IH]; intros n previous.
  { split; [done|]. intros (pre & s & rest & E & _). by destruct pre. }
  rewrite window_step, IH.
  assert (Hlen : forall pre : list HealthSample, n + Z.of_nat (length (x :: pre)) = n + 1 + Z.of_nat (length pre))
    by (intros; cbn [length]; lia).
  split.
  - intros [Hx [Hw|(pre & s & rest & -> & Hrun & Hw)]].
    + exists [], x, l. cbn [app healthy_run length Z.of_nat]. rewrite Hx, Z.add_0_r. done.
    + exists (x :: pre), s, rest. rewrite Hlen. cbn [app healthy_run]. by rewrite Hx.
  - intros (pre & s & rest & E & Hrun & Hw). destruct pre as [|y pre]; injection E as <- ->; cbn [app healthy_run] in Hrun;
      apply andb_true_iff in Hrun as [Hx Hrun]; (split; [done|]).
    + left. cbn [length Z.of_nat] in Hw. by rewrite Z.add_0_r in Hw.
    + right. exists pre, s, rest. by rewrite <- Hlen.
Qed.

Lemma AssessWindow_spec p head l at_ :
  fst (AssessWindow p (head :: l) at_) = RECOVERED <->
  exists pre s rest, head :: l = pre ++ s :: rest /\ healthy_run p head at_ (pre ++ [s]) = true /\
    RP_MinimumSamples p <= Z.of_nat (length (pre ++ [s])) /\
    seconds (RP_WindowSeconds p) <= Sub (HS_At head) (HS_At s).
Proof.
  cbn [AssessWindow]. case_if as E.
  - split; [done|]. intros (pre & s & rest & El & Hrun & _). exfalso.
    assert (Hx : sample_ok p head at_ head = true).
    { destruct pre; injection El as <- _; cbn in Hrun; by apply andb_true_iff in Hrun as [? _]. }
    unfold sample_ok in Hx. breflect. destruct E as [E|E]; [congruence|]. breflect. lia.
  - rewrite window_loop_spec. split; intros (pre & s & rest & El & Hrun & Hw); exists pre, s, rest;
      (split; [done|]); (split; [done|]); unfold window_met in *; rewrite length_app in *; cbn [length] in *.
    + breflect. lia.
    + rewrite andb_true_iff, !Z.leb_le. destruct Hw as [Hw1 Hw2]. split; [lia|done].
Qed.

Section Facts.
Context `{Env}.

Lemma Uncontested_ok tx r w b w' :
  Uncontested tx r w = (Ok b, w') ->
  w' = next w /\ all_of (lineage tx (db w) r) (fun n => Some (not_quarantined tx (db w) (fst n))) = inr b.
Proof. unfold Uncontested. intros Hu. run. by apply query_ok in Hu as [Hq ->]. Qed.

Definition uncontested (tx : Tx) (d : DB) (r : ItemRef) : Prop :=
  all_of (lineage tx d r) (fun n => Some (not_quarantined tx d (fst n))) = inr true.

(** A completed citation is a prefix of the samples, as long as the window
    needs, of uncontested evidence. *)
Lemma cite_ok tx p head l : forall n cited w out w',
  cite tx p head n cited l w = (Ok (true, out), w') ->
  db w' = db w /\ exists pre rest, l = pre ++ rest /\ out = cited ++ map HS_Evidence pre /\
    Forall (fun s => uncontested tx (db w) (HS_Evidence s)) pre /\
    ((exists pre' s, pre = pre' ++ [s] /\ window_met p head s (n + Z.of_nat (length pre')) = true) \/
     (forall pre' s rest', l = pre' ++ s :: rest' -> window_met p head s (n + Z.of_nat (length pre')) = false)).
Proof.
  induction l as [|s l IH]; intros n cited w out w'; cbn [cite]; intros Hc.
  { run. split; [done|]. exists [], []. split; [done|]. split; [by rewrite app_nil_r|]. split; [constructor|]. right.
    by intros [|? ?]. }
  run. destruct r; cbn [negb] in Hc; [|discriminate]. apply Uncontested_ok in Hm as [-> Hu].
  case_if_in Hc.
  - run. split; [done|]. exists [s], l. split; [done|]. split; [done|]. split; [constructor; [exact Hu|constructor]|].
    left. exists [], s. split; [done|]. cbn. by rewrite Z.add_0_r.
  - apply IH in Hc as (Ed & pre & rest & -> & -> & Hf & Hw). split; [done|].
    exists (s :: pre), rest. cbn [map]. rewrite <- app_assoc. split; [done|]. split; [done|].
    split; [constructor; [exact Hu|exact Hf]|].
    assert (Hlen : forall x : list HealthSample, n + Z.of_nat (length (s :: x)) = n + 1 + Z.of_nat (length x))
      by (intros; cbn [length]; lia).
    destruct Hw as [(pre' & s' & -> & Hw)|Hw].
    + left. exists (s :: pre'), s'. split; [done|]. by rewrite Hlen.
    + right. intros [|y pre'] s' rest' [= <- El]; [cbn; by rewrite Z.add_0_r|]. rewrite Hlen. by eapply Hw.
Qed.

(** The samples of one handle since an instant: rows of the table, newest first,
    and all of them, or the newest 512. *)
Definition sample_of (tx : Tx) (incidentID h : string) (since : Time) (r : row Tsamples) : Prop :=
  hs_scope r = scope tx /\ hs_incident r = incidentID /\ hs_handle r = h /\ pgTime since <= hs_observed r.
Definition stored_samples (tx : Tx) (d : DB) (incidentID h : string) (since : Time) (l : list HealthSample) : Prop :=
  exists rs : list (row Tsamples), l = map hs_envelope rs /\
    (forall r, r ∈ rs -> r ∈ d Tsamples /\ sample_of tx incidentID h since r) /\
    StronglySorted (fun a b => hs_observed b <= hs_observed a) rs /\
    (forall r, r ∈ d Tsamples -> sample_of tx incidentID h since r ->
       r ∈ rs \/ (length rs = 512%nat /\ forall r', r' ∈ rs -> hs_observed r <= hs_observed r')).

(** The first [n] of a list in descending order. *)
Lemma newest_first {A} (v : A -> Z) n l :
  let rs := take n (isort (fun a b => v b <=? v a) l) in
  StronglySorted (fun a b => v b <= v a) rs /\ (forall x, x ∈ rs -> x ∈ l) /\
  forall x, x ∈ l -> x ∈ rs \/ (length rs = n /\ forall y, y ∈ rs -> v x <= v y).
Proof.
  set (leb := fun a b => v b <=? v a).
  assert (Hs : StronglySorted (fun a b => v b <= v a) (isort leb l)).
  { assert (H0 : StronglySorted (fun a b => leb a b = true) (isort leb l))
      by (apply isort_sorted; unfold leb; intros; rewrite ?Z.leb_le in *; lia).
    induction H0 as [|x s H0 IH Hf]; constructor; [done|]. eapply Forall_impl; [exact Hf|]. unfold leb. intros; lia. }
  assert (Hin : forall x, x ∈ isort leb l <-> x ∈ l) by (intros; apply isort_elem).
  revert Hs Hin. generalize (isort leb l). intros s Hs Hin. cbn zeta.
  rewrite <- (take_drop n s) in Hs. apply StronglySorted_app in Hs as (Hcross & Hs & _).
  split; [done|]. split; [intros x Hx; apply Hin; rewrite <- (take_drop n s); apply elem_of_app; by left|].
  intros x Hx%Hin. rewrite <- (take_drop n s) in Hx. apply elem_of_app in Hx as [Hx|Hx]; [by left|right].
  split; [|intros y Hy; by apply Hcross]. rewrite length_take.
  destruct (decide (length s <= n)%nat) as [Hl|Hl]; [|lia]. rewrite drop_ge in Hx by done. by apply elem_of_nil in Hx.
Qed.

Lemma HealthSamples_ok tx i h since w l w' :
  HealthSamples tx i h since w = (Ok l, w') -> db w' = db w /\ stored_samples tx (db w) i h since l.
Proof.
  unfold HealthSamples. intros Hh. run. apply query_rows_ok in Hm as [<- ->].
  assert (Hall : forall (rs : list (row Tsamples)) w0 l0 w1,
    map_each (fun r : row Tsamples => guard (scope_eqb (HS_Scope (hs_envelope r)) (scope tx)) ErrUnavailable ;;
                ret (hs_envelope r)) rs w0 = (Ok l0, w1) -> w1 = w0 /\ l0 = map hs_envelope rs).
  { induction rs as [|r rs IH]; cbn [map_each map]; intros w0 l0 w1 Hr; run; [done|].
    apply IH in Hm0 as [-> ->]. done. }
  apply Hall in Hh as [-> ->]. split; [done|]. eexists. split; [reflexivity|].
  match goal with |- context [take 512 (isort _ ?l)] =>
    destruct (newest_first (hs_observed : row Tsamples -> Z) 512 l) as (Hs & Hin & Hall') end.
  assert (Hrow : forall r, r ∈ List.filter (fun r : row Tsamples => in_scope tx (hs_scope r) && str_eqb (hs_incident r) i
      && str_eqb (hs_handle r) h && (pgTime since <=? hs_observed r)) (db w Tsamples) <->
      r ∈ db w Tsamples /\ sample_of tx i h since r).
  { intros r. rewrite list_elem_of_In, filter_In, <- list_elem_of_In. unfold sample_of, in_scope.
    rewrite !andb_true_iff, scope_eqb_eq, !str_eqb_eq, Z.leb_le. tauto. }
  split; [intros r Hr; by apply Hrow, Hin|]. split; [exact Hs|]. intros r Hr Hof. by apply Hall', Hrow.
Qed.

(** A run of samples, newest first, that shows sustained health at [at_]. *)
Definition sustained (p : RecoveryProfile) (head : HealthSample) (at_ : Time) (l : list HealthSample) : Prop :=
  healthy_run p head at_ l = true /\ RP_MinimumSamples p <= Z.of_nat (length l) /\
  exists pre s, l = pre ++ [s] /\ seconds (RP_WindowSeconds p) <= Sub (HS_At head) (HS_At s).

Lemma healthy_run_app p head l1 : forall previous l2,
  healthy_run p head previous (l1 ++ l2) = true -> healthy_run p head previous l1 = true.
Proof.
  induction l1 as [|x l1 IH]; intros previous l2; [done|]. cbn. intros [-> Hr]%andb_true_iff. by apply IH in Hr.
Qed.

(** The cited prefix of a recovered window is itself such a run. *)
Lemma cited_sustained p head l at_ pre rest :
  head :: l = pre ++ rest -> fst (AssessWindow p (head :: l) at_) = RECOVERED ->
  ((exists pre' s, pre = pre' ++ [s] /\ window_met p head s (0 + Z.of_nat (length pre')) = true) \/
   (forall pre' s rest', head :: l = pre' ++ s :: rest' -> window_met p head s (0 + Z.of_nat (length pre')) = false)) ->
  exists run rest', head :: l = run ++ rest' /\ sustained p head at_ run /\ (length run <= length pre)%nat.
Proof.
  intros El Hr Hw. cbn [AssessWindow] in Hr. case_if_in Hr.
  apply window_loop_spec in Hr as (pre2 & s2 & rest2 & El2 & Hrun & Hmet).
  destruct Hw as [(pre' & s & -> & Hmet')|Hw]; [|by rewrite (Hw _ _ _ El2) in Hmet].
  assert (Hs : forall q x r, head :: l = q ++ x :: r -> healthy_run p head at_ (q ++ [x]) = true ->
    window_met p head x (0 + Z.of_nat (length q)) = true -> sustained p head at_ (q ++ [x])).
  { intros q x r _ Hq Hm. unfold window_met in Hm. apply andb_true_iff in Hm as [H1%Z.leb_le H2%Z.leb_le].
    split; [done|]. rewrite length_app. cbn [length]. split; [lia|]. by exists q, x. }
  destruct (le_lt_dec (length (pre2 ++ [s2])) (length (pre' ++ [s]))) as [Hle|Hlt].
  - exists (pre2 ++ [s2]), rest2. rewrite <- app_assoc. split; [done|]. split; [by eapply Hs|done].
  - exists (pre' ++ [s]), rest. split; [done|]. split; [|done].
    eapply Hs; [by rewrite El, <- app_assoc| |done].
    assert (exists tail, pre2 ++ [s2] = (pre' ++ [s]) ++ tail) as [tail Et].
    { assert (E0 : (pre2 ++ [s2]) ++ rest2 = (pre' ++ [s]) ++ rest) by (rewrite <- El, El2, <- app_assoc; done).
      apply app_eq_inv in E0 as [(k & E1 & _)|(k & E1 & _)]; [by exists k|].
      rewrite E1, length_app in Hlt. lia. }
    rewrite Et in Hrun. by eapply healthy_run_app.
Qed.

(** How far back an assessment looks. *)
Definition horizon (p : RecoveryProfile) (at_ : Time) : Time :=
  Add at_ (wrap64 (- (RP_WindowSeconds p + RP_MaximumGapSeconds p * 2) * Second)).

(** What an assessment that says RECOVERED has seen of one handle: the stored
    samples since its horizon, newest first; the newest is eligible, and they
    begin with a sustained run, all of it cited and uncontested. *)
Definition handle_recovered (tx : Tx) (d : DB) (p : RecoveryProfile) (incidentID : string) (at_ : Time)
  (cited : list ItemRef) (h : string) : Prop :=
  exists head samples run rest, head :: samples = run ++ rest /\
    stored_samples tx d incidentID h (horizon p at_) (head :: samples) /\ sustained p head at_ run /\
    all_of (lineage tx d (HS_Evidence head)) (node_eligible tx d (pgTime at_)) = inr true /\
    forall s, s ∈ run -> uncontested tx d (HS_Evidence s) /\ HS_Evidence s ∈ cited.

Lemma assess_handles_ok tx p i at_ hs : forall cited w reason out w',
  assess_handles tx p i at_ cited hs w = (Ok (RECOVERED, reason, out), w') ->
  (forall r, r ∈ cited -> r ∈ out) /\ db w' = db w /\ Forall (handle_recovered tx (db w) p i at_ out) hs.
Proof.
  induction hs as [|h hs IH]; intros cited w reason out w'; cbn [assess_handles]; intros Ha.
  { run. subst w'. split; [done|]. split; [done|constructor]. }
  run. apply HealthSamples_ok in Hm as [E1 Hst].
  destruct (AssessWindow p r at_) as [st rs] eqn:Ew. destruct r as [|head samples].
  { cbn in Ew. injection Ew as <- <-. discriminate Ha. }
  destruct (str_eqb st RECOVERED) eqn:Est; cbn [negb] in Ha; breflect; [subst st|unfold ret in Ha; congruence].
  run. destruct r; cbn [negb] in Ha; [|discriminate Ha].
  run. destruct r as [ok cited']. destruct ok; cbn [negb] in Ha; [|discriminate Ha].
  unfold Eligible in Hm. run. apply query_ok in Hm as [Hel ->].
  apply cite_ok in Hm0 as (E2 & pre & rest & El & -> & Hu & Hw). cbn in E2.
  apply IH in Ha as (Hin & E3 & Hf). rewrite E2, E1 in *. cbn in Hu. rewrite E1 in Hu.
  split; [intros x Hx; apply Hin, elem_of_app; by left|]. split; [by rewrite E3|]. constructor; [|done].
  destruct (cited_sustained p head samples at_ pre rest El) as (run & rest' & Er & Hs & Hl); [by rewrite Ew|done|].
  exists head, samples, run, rest'. split; [done|]. split; [done|]. split; [done|]. split; [done|].
  intros s Hrs. assert (Hpre : s ∈ pre).
  { assert (Et : take (length run) pre = run).
    { assert (E : take (length run) (pre ++ rest) = run) by (rewrite <- El, Er; apply take_app_length).
      by rewrite take_app_le in E. }
    rewrite <- Et in Hrs. by apply elem_of_take in Hrs as (k & Hk%list_elem_of_lookup_2 & _). }
  rewrite Forall_forall in Hu. split; [by apply Hu|]. apply Hin, elem_of_app. right. by apply list_elem_of_fmap_2.
Qed.
End Facts.
End Recovery.
