(* ===== verification/Governance.v ===== *)
(** * Reviewed context: environment, ownership, feedback, adjudication, retention

    pkg/environment/context.go, pkg/ownership/registry.go,
    pkg/feedback/service.go, the adjudication half of
    pkg/stewardship/service.go and one round of pkg/operations/service.go. *)

From S2P Require Import Prelude.
From S2P Require Import Sha256.
From S2P Require Import Json.
From S2P Require Import JsonFacts.
From S2P Require Import GoTime.
From S2P Require Import Decode.
From S2P Require Import Identity.
From S2P Require Import Authorization.
From S2P Require Import Incident.
From S2P Require Import Db.
From S2P Require Import Sql.
From S2P Require Import Storage.
From S2P Require Import Records.
From S2P Require Import Queues.
From S2P Require Import Privacy.
From S2P Require Import Fleet.
From S2P Require Import Recovery.

(** The fields [DB] and [Policy] that every one of these services has: the
    authority epoch of the store, and the policy. *)
Record Backend := mkBackend { BE_Epoch : string; BE_Policy : Policy }.

Module Environment.
Definition choices (key : string) : list string :=
  if str_eqb key "environment" then ["PRODUCTION"; "STAGING"; "DEVELOPMENT"]
  else if str_eqb key "platform" then ["EKS"; "GKE"; "AKS"; "OPENSHIFT"; "SELF_MANAGED"; "OTHER"]
  else if str_eqb key "topology" then ["SINGLE_ZONE"; "MULTI_ZONE"; "MULTI_REGION"; "UNKNOWN"]
  else if str_eqb key "criticality" then ["LOW"; "MEDIUM"; "HIGH"; "CRITICAL"]
  else [].

Fixpoint dependencies_ok (self : Scope) (seen : list string) (l : list Scope) : bool :=
  match l with
  | [] => true
  | d :: l => Scope_Validate d && negb (scope_eqb d self) && str_eqb (OrganizationID d) (OrganizationID self)
              && negb (mem_str (Scope_Key d) seen) && dependencies_ok self (Scope_Key d :: seen) l
  end.

Fixpoint integrations_ok (seen : list string) (l : list string) : bool :=
  match l with
  | [] => true
  | i :: l => negb (mem_str i seen)
              && mem_str i ["PROMETHEUS"; "OPENTELEMETRY"; "SERVICE_MESH"; "GITOPS"; "EXTERNAL_DATABASE"; "EXTERNAL_QUEUE"]
              && integrations_ok (i :: seen) l
  end.

(** The map iterations of the code are conjunctions, in any order. *)
Definition Validate (c : EnvironmentContext) : bool :=
  Scope_Validate (EC_Scope c) && negb (EC_Version c <? 1)
  && negb (32 <? Z.of_nat (length (EC_Dependencies c))) && negb (8 <? Z.of_nat (length (EC_Integrations c)))
  && forallb (fun kv => mem_str (snd kv) (choices (fst kv)))
       [("environment", EC_Environment c); ("platform", EC_Platform c); ("topology", EC_Topology c);
        ("criticality", EC_Criticality c)]
  && dependencies_ok (EC_Scope c) [] (EC_Dependencies c) && integrations_ok [] (EC_Integrations c).

Definition SetTx `{Env} (c : EnvironmentContext) (tx : Tx) : M unit :=
  let* old := optional (GetEnvironmentContext tx) in
  Recovery.next_version (EC_Version <$> old) (EC_Version c) ;;
  PutEnvironmentContext tx c.

Definition Set_ `{Env} (s : Backend) (p : Principal) (c : EnvironmentContext) : M unit :=
  authorize (BE_Policy s) p (EC_Scope c) Setup ;;
  guard (Validate c) ErrInvalid ;;
  for_each (fun d => authorize (BE_Policy s) p d Setup) (EC_Dependencies c) ;;
  Transact (BE_Epoch s) (EC_Scope c) (SetTx c).
End Environment.

Module Ownership.
Record Application := mkApplication { AP_Scope : Scope; AP_OwnerGroup : string; AP_ApproverGroups : list string }.
Definition Registry : Type := gmap string Application.

Definition bindings_of (app : Application) : list Binding :=
  mkBinding (AP_Scope app) (AP_OwnerGroup app) Owner
  :: map (fun g => mkBinding (AP_Scope app) g Approver) (AP_ApproverGroups app).

(** [NewRegistry]; the grant key that [NewPolicy] draws for each application is
    discarded with the policy. *)
Fixpoint register (r : Registry) (applications : list Application) : res Registry :=
  match applications with
  | [] => Ok r
  | app :: rest =>
      if negb (Scope_Validate (AP_Scope app)) || str_eqb (AP_OwnerGroup app) ""
      then Err (ErrOwnership "explicit application ownership required")
      else match r !! Scope_Key (AP_Scope app) with
           | Some _ => Err (ErrOwnership "conflicting application ownership")
           | None =>
               match NewPolicy (bindings_of app) [] with
               | Err e => Err e
               | Ok _ => register (<[Scope_Key (AP_Scope app) := app]> r) rest
               end
           end
  end.
Definition NewRegistry (applications : list Application) : res Registry := register ∅ applications.

Definition Lookup (r : option Registry) (s : Scope) : option Application :=
  match r with
  | Some r => if Scope_Validate s then r !! Scope_Key s else None
  | None => None
  end.
End Ownership.

Module Feedback.
Record Request := mkRequest {
  FR_IncidentID : string; FR_Item : ItemRef; FR_ItemHash : string; FR_Assessment : Assessment;
  FR_ReasonCode : string; FR_Evidence : list ItemRef; FR_Supersedes : string; FR_IdempotencyKey : string }.

Definition validReason (code : string) : bool :=
  mem_str code [""; "FACTUAL_ERROR"; "NOT_APPLICABLE"; "STALE"; "MISSING_EVIDENCE"; "CONTRADICTED"; "CONFIRMED"; "UNRESOLVED"].

Definition request_json (r : Request) : json :=
  JObj ([("incident_id", JStr (FR_IncidentID r)); ("item", ref_json (FR_Item r)); ("item_hash", JStr (FR_ItemHash r));
         ("assessment", JStr (assessment_string (FR_Assessment r)))]
        ++ omit_if (str_eqb (FR_ReasonCode r) "") [("reason_code", JStr (FR_ReasonCode r))]
        ++ omit_if (bool_decide (FR_Evidence r = [])) [("evidence", JArr (map ref_json (FR_Evidence r)))]
        ++ omit_if (str_eqb (FR_Supersedes r) "") [("supersedes", JStr (FR_Supersedes r))]
        ++ [("idempotency_key", JStr (FR_IdempotencyKey r))]).

(** Sorted references, each valid and none repeated. *)
Fixpoint evidence_ok (prev : option ItemRef) (l : list ItemRef) : bool :=
  match l with
  | [] => true
  | r :: l => ValidID (R_ID r) && negb (R_Version r <? 1) && negb (bool_decide (prev = Some r)) && evidence_ok (Some r) l
  end.

Definition valid_request (r : Request) : bool :=
  ValidID (FR_IncidentID r) && ValidID (R_ID (FR_Item r)) && negb (R_Version (FR_Item r) <? 1)
  && ValidID (FR_IdempotencyKey r) && (slen (FR_ItemHash r) =? 64) && validReason (FR_ReasonCode r)
  && negb (32 <? Z.of_nat (length (FR_Evidence r))).

(** The request as it is hashed and stored: digested key, sorted evidence. *)
Definition prepare (r : Request) : Request :=
  mkRequest (FR_IncidentID r) (FR_Item r) (FR_ItemHash r) (FR_Assessment r) (FR_ReasonCode r)
    (isort ref_leb (FR_Evidence r)) (FR_Supersedes r) (sha256_hex (FR_IdempotencyKey r)).
Definition request_hash (r : Request) : string := sha256_hex (default "" (Marshal (Some (request_json r)))).

Section Feedback.
Context `{Env}.

(** A first submission under its idempotency key; [r] is prepared. *)
Definition record (p : Principal) (sc : Scope) (r : Request) (tx : Tx) : M FeedbackEvent :=
  let* item := CurrentItem tx (R_ID (FR_Item r)) in
  guard (str_eqb (I_IncidentID item) (FR_IncidentID r) && (I_Version item =? R_Version (FR_Item r))
         && str_eqb (I_Hash item) (FR_ItemHash r)) ErrConflict ;;
  for_each (fun ref => let* evidence := GetItem tx ref in
                       guard (str_eqb (I_IncidentID evidence) (I_IncidentID item)) ErrInvalid) (FR_Evidence r) ;;
  (if str_eqb (FR_Supersedes r) "" then ret tt else
     let* previous := FeedbackByID tx (FR_Supersedes r) in
     guard (str_eqb (F_ActorID previous) (P_ID p) && bool_decide (F_Item previous = FR_Item r)) ErrConflict) ;;
  let* id := NewID in
  let* at_ := time_now in
  let result := mkFeedback sc (I_IncidentID item) id (P_ID p) (FR_Item r) (I_Hash item) (FR_Assessment r)
    (FR_ReasonCode r) (FR_Evidence r) (FR_Supersedes r) (FR_IdempotencyKey r) (request_hash r) at_ in
  AddFeedback tx result ;;
  (if bool_decide (F_Assessment result = AFalse) then Quarantine tx (F_Item result) else ret tt) ;;
  Enqueue tx id "FEEDBACK_RECORDED"
    (print (JObj [("event_id", JStr id); ("incident_id", JStr (I_IncidentID item))])) ;;
  ret result.

Definition SubmitTx (p : Principal) (sc : Scope) (r : Request) (tx : Tx) : M FeedbackEvent :=
  let* previous := optional (FeedbackForKey tx (P_ID p) (FR_IdempotencyKey r)) in
  match previous with
  | Some e => guard (str_eqb (F_RequestHash e) (request_hash r)) ErrConflict ;; ret e
  | None => record p sc r tx
  end.

Definition Submit (s : Backend) (p : Principal) (sc : Scope) (request : Request) : M FeedbackEvent :=
  authorize (BE_Policy s) p sc Authorization.Feedback ;;
  guard (valid_request request) ErrInvalid ;;
  guard (bool_decide (FR_Assessment request ∈ [ATrue; AFalse; ACannotVerify])) ErrInvalid ;;
  let r := prepare request in
  guard (evidence_ok None (FR_Evidence r)) ErrInvalid ;;
  Transact (BE_Epoch s) sc (SubmitTx p sc r).
End Feedback.
End Feedback.

Module Stewardship.
Record AdjudicateRequest := mkAdjudicate {
  AR_Item : ItemRef; AR_ItemHash : string; AR_FeedbackID : string; AR_Reason : string;
  AR_CorrectionEvidence : list ItemRef; AR_IdempotencyKey : string }.

(** A nil slice of correction evidence is encoded as [null]; [None] is nil. *)
Definition request_json (r : AdjudicateRequest) (is_nil : bool) : json :=
  JObj ([("item", ref_json (AR_Item r)); ("item_hash", JStr (AR_ItemHash r))]
        ++ omit_if (str_eqb (AR_FeedbackID r) "") [("feedback_id", JStr (AR_FeedbackID r))]
        ++ [("reason", JStr (AR_Reason r));
            ("correction_evidence", if is_nil then JNull else JArr (map ref_json (AR_CorrectionEvidence r)));
            ("idempotency_key", JStr (AR_IdempotencyKey r))]).
Definition request_hash (r : AdjudicateRequest) (is_nil : bool) : string :=
  TokenHash (default "" (Marshal (Some (request_json r is_nil)))).

Definition prepare (r : AdjudicateRequest) : AdjudicateRequest :=
  mkAdjudicate (AR_Item r) (AR_ItemHash r) (AR_FeedbackID r) (AR_Reason r) (AR_CorrectionEvidence r)
    (TokenHash (AR_IdempotencyKey r)).

Section Stewardship.
Context `{Env}.

(** The loop over the correction evidence, with its set [seen]. *)
Fixpoint check_correction (tx : Tx) (incidentID : string) (seen l : list ItemRef) : M unit :=
  match l with
  | [] => ret tt
  | ref :: l =>
      guard (negb (bool_decide (ref ∈ seen))) ErrInvalid ;;
      let* e := GetItem tx ref in
      guard (str_eqb (I_IncidentID e) incidentID && bool_decide (I_Kind e = Evidence)) ErrInvalid ;;
      let* at_ := time_now in
      let* ok := Eligible tx ref at_ in
      guard ok ErrConflict ;;
      check_correction tx incidentID (ref :: seen) l
  end.

Definition record (p : Principal) (sc : Scope) (r : AdjudicateRequest) (digest : string) (tx : Tx) : M Adjudication :=
  let* item := GetItem tx (AR_Item r) in
  guard (str_eqb (I_Hash item) (AR_ItemHash r)) ErrConflict ;;
  (if str_eqb (AR_FeedbackID r) "" then ret tt else
     let* event := FeedbackByID tx (AR_FeedbackID r) in
     guard (bool_decide (F_Item event = AR_Item r) && str_eqb (F_ItemHash event) (AR_ItemHash r)) ErrConflict) ;;
  check_correction tx (I_IncidentID item) [] (AR_CorrectionEvidence r) ;;
  let* id := NewID in
  let* at_ := time_now in
  let a := mkAdjudication sc id (I_IncidentID item) (AR_Item r) (I_Hash item) (AR_FeedbackID r) (P_ID p)
    (AR_Reason r) (AR_CorrectionEvidence r) digest (AR_IdempotencyKey r) at_ in
  PutAdjudication tx a ;;
  (if str_eqb (AR_Reason r) "FACTUAL_ERROR" then Quarantine tx (AR_Item r) else ret tt) ;;
  Enqueue tx id "ADJUDICATION_RECORDED"
    (print (JObj [("adjudication_id", JStr id); ("incident_id", JStr (J_IncidentID a))])) ;;
  ret a.

Definition AdjudicateTx (p : Principal) (sc : Scope) (r : AdjudicateRequest) (digest : string) (tx : Tx) : M Adjudication :=
  let* old := optional (AdjudicationForKey tx (P_ID p) (AR_IdempotencyKey r)) in
  match old with
  | Some a => guard (str_eqb (J_RequestHash a) digest) ErrConflict ;; ret a
  | None => record p sc r digest tx
  end.

Definition Adjudicate (s : Backend) (p : Principal) (sc : Scope) (request : AdjudicateRequest) (is_nil : bool)
  : M Adjudication :=
  authorize (BE_Policy s) p sc Authorization.Adjudicate ;;
  guard (mem_str (AR_Reason request) ["CONFIRMED"; "FACTUAL_ERROR"; "NOT_APPLICABLE"; "STALE"; "UNRESOLVED"]) ErrInvalid ;;
  guard (ValidID (AR_IdempotencyKey request) && negb (32 <? Z.of_nat (length (AR_CorrectionEvidence request)))) ErrInvalid ;;
  let r := prepare request in
  Transact (BE_Epoch s) sc (AdjudicateTx p sc r (request_hash r is_nil)).
End Stewardship.
End Stewardship.

Module Operations.
(** The counters of [Service] and one round of the hourly loop of [Run] over
    its scopes; [LastSuccess] is in nanoseconds here. *)
Record Counters := mkCounters { Failures : Z; LastSuccess : Time }.

Definition retain_scope `{Env} (epoch : string) (days : Z) (sc : Scope) (c : Counters) (w : World) : Counters * World :=
  match Transact epoch sc (fun tx => Retain tx days) w with
  | (Ok _, w') => (mkCounters (Failures c) (go_now (tick w')), next w')
  | (Err _, w') => (mkCounters ((Failures c + 1) mod 2 ^ 64) (LastSuccess c), w')
  end.

Fixpoint round `{Env} (epoch : string) (days : Z) (scopes : list Scope) (c : Counters) (w : World) : Counters * World :=
  match scopes with
  | [] => (c, w)
  | sc :: scopes => let '(c', w') := retain_scope epoch days sc c w in round epoch days scopes c' w'
  end.
End Operations.
