(* ===== verification/Quality.v ===== *)
(** * pkg/quality: how diagnoses fared

    metrics.go and service.go with the queries of pkg/storage/postgres/quality.go.
    The rates are float64: each operation is the exact one rounded to the nearest
    double, without the fused operations that Go uses on some machines other than
    amd64. *)

From S2P Require Import Prelude.
From S2P Require Import Json.
From S2P Require Import GoTime.
From S2P Require Import Decode.
From S2P Require Import Identity.
From S2P Require Import Authorization.
From S2P Require Import Incident.
From S2P Require Import Db.
From S2P Require Import Sql.
From S2P Require Import Url.
From S2P Require Import Storage.
From S2P Require Import Records.
From S2P Require Import Fleet.
From S2P Require Import Recovery.
From S2P Require Import Governance.

(** ** Arithmetic on float64

    On finite doubles; the rates stay far from the largest one. *)
Module Float.
Definition fraction (a : float64) : Z * Z :=
  match a with FFin m e => (m * 2 ^ Z.max 0 e, 2 ^ Z.max 0 (- e)) | _ => (0, 1) end.
Definition rounded (n d : Z) : float64 :=
  if n =? 0 then f_zero else
  match round64 (Z.abs n) d with Some (m, e) => FFin (Z.sgn n * m) e | None => FInf (n <? 0) end.
Definition binary (f : Z -> Z -> Z -> Z -> float64) (a b : float64) : float64 :=
  match a, b with
  | FFin _ _, FFin _ _ => let '(n1, d1) := fraction a in let '(n2, d2) := fraction b in f n1 d1 n2 d2
  | _, _ => FNaN
  end.
Definition add : float64 -> float64 -> float64 := binary (fun n1 d1 n2 d2 => rounded (n1 * d2 + n2 * d1) (d1 * d2)).
Definition sub : float64 -> float64 -> float64 := binary (fun n1 d1 n2 d2 => rounded (n1 * d2 - n2 * d1) (d1 * d2)).
Definition mul : float64 -> float64 -> float64 := binary (fun n1 d1 n2 d2 => rounded (n1 * n2) (d1 * d2)).
Definition div : float64 -> float64 -> float64 :=
  binary (fun n1 d1 n2 d2 => if n2 =? 0 then FNaN else rounded (Z.sgn n2 * (n1 * d2)) (d1 * Z.abs n2)).
(** The root is computed to sixty bits and more; a last bit says that it is not exact. *)
Definition sqrt (a : float64) : float64 :=
  match a with
  | FFin m e =>
      if m <? 0 then FNaN else
      let shift := if Z.even e then 120 else 121 in
      let r := Z.sqrt (m * 2 ^ shift) in
      let odd := if r * r =? m * 2 ^ shift then 0 else 1 in
      let e := (e - shift) / 2 - 1 in
      rounded ((2 * r + odd) * 2 ^ Z.max 0 e) (2 ^ Z.max 0 (- e))
  | _ => FNaN
  end.
Definition of_int (z : Z) : float64 := rounded z 1.
Definition max (a b : float64) : float64 := if f_ltb a b then b else a.
Definition min (a b : float64) : float64 := if f_ltb b a then b else a.
End Float.

Module Quality.
Import Float.

(** ** pkg/storage/postgres/quality.go *)
Record Run := mkRun {
  QR_IncidentID : string; QR_Corroborated : bool; QR_Invalidated : bool; QR_Day : string; QR_ProfileID : string;
  QR_ProfileVersion : string; QR_PromptVersion : string; QR_RubricVersion : string; QR_Status : string;
  QR_Reason : string; QR_Reviews : list Adjudication }.

Definition day_text (t : Time) : string :=
  let '(y, m, d) := civil_from_days (t / Second / 86400) in digits 4 y +:+ "-" +:+ digits 2 m +:+ "-" +:+ digits 2 d.

(** The claims of a run. *)
Definition claim_of (t : Tx) (run : string) (i : row Titems) : bool :=
  in_scope t (i_scope i) && bool_decide (i_kind i = Claim)
  && bool_decide (json_path (I_Body (i_envelope i)) ["run_id"] = Some run).
(** All that the claims of a run rest on; the query has no mark of history. *)
Definition run_lineage (t : Tx) (d : DB) (run : string) : list node :=
  let es := map (fun e : edge => (fst e, false)) (edges t d) in
  let roots := map (fun i : row Titems => (i_ref i, false)) (List.filter (claim_of t run) (d Titems)) in
  lineage_loop (S (2 * length es)) es roots roots.
(** What the joins with items and eligibility keep of a node; [None] is the cast
    error of the generation. *)
Definition node_stands (t : Tx) (d : DB) (n : node) : option bool :=
  match item_row t d (fst n), quarantined t d (fst n) with
  | Some i, Some q =>
      if q then Some false
      else if negb (bool_decide (i_kind i = Evidence)) then Some true
      else if str_eqb (authorityEpoch t) ""
              && bool_decide (json_path (I_Body (i_envelope i)) ["source"; "epoch"] = None) then Some true
      else source_current t d (I_Body (i_envelope i)) false 0
  | _, _ => Some true
  end.
Definition reviews_of (t : Tx) (d : DB) (run : string) : list Adjudication :=
  map j_envelope (isort (recent_leb j_created j_id)
    (List.filter (fun j : row Tadjudications => in_scope t (j_scope j)
       && existsb (fun i : row Titems => claim_of t run i && bool_decide (i_ref i = j_item j)) (d Titems)) (d Tadjudications))).

Definition quality_run (t : Tx) (d : DB) (r : row Truns) : option Run :=
  stands ← bool_and (map (node_stands t d) (run_lineage t d (r_id r)));
  Some (mkRun (r_incident r)
    (existsb (fun i : row Titems => claim_of t (r_id r) i
       && bool_decide (json_path (I_Body (i_envelope i)) ["assessment"; "status"] = Some "CORROBORATED")) (d Titems))
    (negb stands) (day_text (r_started r)) (r_profile r) (r_profile_version r) (r_prompt_version r) (r_rubric_version r)
    (r_status r) (r_reason r) (reviews_of t d (r_id r))).

Section Queries.
Context `{Env}.

Definition QualityRuns (t : Tx) (since : Time) : M (list Run) :=
  guard (negb (IsZero since)) ErrInvalid ;;
  let* runs := query (fun _ d =>
    match mapM (quality_run t d) (take (Z.to_nat 100001) (isort (fun a b : row Truns => r_started a <=? r_started b)
            (List.filter (fun r : row Truns => in_scope t (r_scope r) && (pgTime since <=? r_started r)) (d Truns)))) with
    | Some l => inr l
    | None => inl Pg22P02
    end) in
  guard (negb (100000 <? Z.of_nat (length runs))) ErrUnavailable ;;
  ret runs.

(** The incidents of each status, each counted once. *)
Definition RecoveryCounts (t : Tx) (since : Time) : M (list (string * Z)) :=
  query (fun _ d =>
    let rows := List.filter (fun a : row Tassessments => in_scope t (ra_scope a) && (pgTime since <=? ra_created a))
                  (d Tassessments) in
    inr (map (fun status => (status, Z.of_nat (length (remove_dups (map ra_incident
           (List.filter (fun a : row Tassessments => str_eqb (RA_Status (ra_envelope a)) status) rows))))))
         (remove_dups (map (fun a : row Tassessments => RA_Status (ra_envelope a)) rows)))).
End Queries.

(** ** metrics.go *)
Record Interval := mkInterval { IV_Rate : float64; IV_Lower : float64; IV_Upper : float64 }.

Definition z95 : float64 := default f_zero (parse_float "1.959963984540054").
Definition wilson (successes total : Z) : Interval :=
  let n := of_int total in
  let p := div (of_int successes) n in
  let z := z95 in
  let den := add (of_int 1) (div (mul z z) n) in
  let center := div (add p (div (mul z z) (mul (of_int 2) n))) den in
  let radius := div (mul z (sqrt (add (div (mul p (sub (of_int 1) p)) n)
                                      (div (mul z z) (mul (mul (of_int 4) n) n))))) den in
  mkInterval p (max f_zero (sub center radius)) (min (of_int 1) (add center radius)).

Record Metrics := mkMetrics {
  MT_EligibleIncidents : Z; MT_ReviewedIncidents : Z; MT_CorroboratedIncidents : Z; MT_DiagnosticCoverage : float64;
  MT_VerifiedYield : option Interval; MT_Invalidated : Z; MT_Attempts : Z; MT_Reviewed : Z; MT_Correct : Z;
  MT_FactualErrors : Z; MT_Disputed : Z; MT_Abstentions : Z; MT_ProviderFailures : Z; MT_ContextualReviews : Z;
  MT_ReviewedCoverage : float64; MT_Correctness : option Interval }.

(** What one run adds to the counts. *)
Definition verdict (reviews : list Adjudication) : bool * bool * bool :=
  let latest := fold_left (fun m a => if mem_str (J_Reason a) ["CONFIRMED"; "FACTUAL_ERROR"; "UNRESOLVED"]
      then match assoc (J_ActorID a) m with Some _ => m | None => (J_ActorID a, J_Reason a) :: m end else m) reviews [] in
  (existsb (fun kv => str_eqb (snd kv) "CONFIRMED") latest, existsb (fun kv => str_eqb (snd kv) "FACTUAL_ERROR") latest,
   existsb (fun a => mem_str (J_Reason a) ["STALE"; "NOT_APPLICABLE"]) reviews).
Definition one (b : bool) : Z := if b then 1 else 0.
Definition insert_set (b : bool) (x : string) (l : list string) : list string :=
  if b && negb (str_eqb x "") && negb (mem_str x l) then x :: l else l.

Record Tally := mkTally {
  TL_Incidents : list string; TL_ReviewedIncidents : list string; TL_CorroboratedIncidents : list string;
  TL_Invalidated : Z; TL_Reviewed : Z; TL_Correct : Z; TL_FactualErrors : Z; TL_Disputed : Z; TL_Abstentions : Z;
  TL_ProviderFailures : Z; TL_ContextualReviews : Z }.
Definition tally (m : Tally) (r : Run) : Tally :=
  let incidents := insert_set true (QR_IncidentID r) (TL_Incidents m) in
  let abstentions := TL_Abstentions m + one (mem_str (QR_Status r) ["INCONCLUSIVE"; "NEEDS_EVIDENCE"]) in
  let failures := TL_ProviderFailures m + one (str_eqb (QR_Reason r) "PROVIDER_UNAVAILABLE") in
  if QR_Invalidated r then
    mkTally incidents (TL_ReviewedIncidents m) (TL_CorroboratedIncidents m) (TL_Invalidated m + 1) (TL_Reviewed m) (TL_Correct m)
      (TL_FactualErrors m) (TL_Disputed m + 1) abstentions failures (TL_ContextualReviews m)
  else
  let '(positive, negative, contextual) := verdict (QR_Reviews r) in
  let contextuals := TL_ContextualReviews m + one contextual in
  if positive && negative then
    mkTally incidents (TL_ReviewedIncidents m) (TL_CorroboratedIncidents m) (TL_Invalidated m) (TL_Reviewed m) (TL_Correct m)
      (TL_FactualErrors m) (TL_Disputed m + 1) abstentions failures contextuals
  else
    mkTally incidents (insert_set (positive || negative) (QR_IncidentID r) (TL_ReviewedIncidents m))
      (insert_set (positive && QR_Corroborated r) (QR_IncidentID r) (TL_CorroboratedIncidents m)) (TL_Invalidated m)
      (TL_Reviewed m + one positive + one negative) (TL_Correct m + one positive) (TL_FactualErrors m + one negative)
      (TL_Disputed m) abstentions failures contextuals.

Definition ratio (a b : Z) : float64 := if 0 <? b then div (of_int a) (of_int b) else f_zero.
Definition Aggregate (runs : list Run) : Metrics :=
  let m := fold_left tally runs (mkTally [] [] [] 0 0 0 0 0 0 0 0) in
  let attempts := Z.of_nat (length runs) in
  let incidents := Z.of_nat (length (TL_Incidents m)) in
  let reviewed := Z.of_nat (length (TL_ReviewedIncidents m)) in
  let corroborated := Z.of_nat (length (TL_CorroboratedIncidents m)) in
  mkMetrics incidents reviewed corroborated (ratio reviewed incidents)
    (if 0 <? incidents then Some (wilson corroborated incidents) else None) (TL_Invalidated m) attempts (TL_Reviewed m)
    (TL_Correct m) (TL_FactualErrors m) (TL_Disputed m) (TL_Abstentions m) (TL_ProviderFailures m) (TL_ContextualReviews m)
    (ratio (TL_Reviewed m) attempts)
    (if 0 <? TL_Reviewed m then Some (wilson (TL_Correct m) (TL_Reviewed m)) else None).

(** ** service.go *)
Record Cohort := mkCohort {
  CO_Day : string; CO_ProfileID : string; CO_ProfileVersion : string; CO_PromptVersion : string; CO_RubricVersion : string;
  CO_Metrics : Metrics }.
Record Report := mkReport {
  QP_Since : Time; QP_Overall : Metrics; QP_Cohorts : list Cohort; QP_RecoveryObserved : list (string * Z) }.

Definition cohort_key (r : Run) : string :=
  join "/" [QR_Day r; QR_ProfileID r; QR_ProfileVersion r; QR_PromptVersion r; QR_RubricVersion r].
Definition cohort (runs : list Run) (key : string) : list Cohort :=
  match List.filter (fun r => str_eqb (cohort_key r) key) runs with
  | [] => []
  | r :: _ as rs => [mkCohort (QR_Day r) (QR_ProfileID r) (QR_ProfileVersion r) (QR_PromptVersion r) (QR_RubricVersion r) (Aggregate rs)]
  end.
Definition cohorts (runs : list Run) : list Cohort :=
  flat_map (cohort runs) (isort str_leb (remove_dups (map cohort_key runs))).

Section Service.
Context `{Env}.

Definition reportTx (since : Time) (tx : Tx) : M Report :=
  let* runs := QualityRuns tx since in
  let* counts := RecoveryCounts tx since in
  ret (mkReport since (Aggregate runs) (cohorts runs) counts).
Definition report (s : Backend) (p : Principal) (sc : Scope) (days : Z) : M Report :=
  authorize (BE_Policy s) p sc Read ;;
  guard (negb ((days <? 1) || (365 <? days))) ErrInvalid ;;
  let* now := time_now in
  Transact (BE_Epoch s) sc (reportTx (Add now (- (days * 24 * Hour)))).
End Service.

(** ** The report as JSON *)
Definition interval_json (i : option Interval) : option json :=
  match i with
  | None => Some JNull
  | Some i => r ← jfloat (IV_Rate i); l ← jfloat (IV_Lower i); u ← jfloat (IV_Upper i);
              Some (JObj [("rate", r); ("lower", l); ("upper", u)])
  end.
Definition metrics_json (m : Metrics) : option json :=
  coverage ← jfloat (MT_DiagnosticCoverage m); yield ← interval_json (MT_VerifiedYield m);
  reviewed ← jfloat (MT_ReviewedCoverage m); correctness ← interval_json (MT_Correctness m);
  Some (JObj [("eligible_incidents", jint (MT_EligibleIncidents m)); ("reviewed_incidents", jint (MT_ReviewedIncidents m));
    ("corroborated_incidents", jint (MT_CorroboratedIncidents m)); ("diagnostic_coverage", coverage);
    ("verified_yield", yield); ("invalidated", jint (MT_Invalidated m)); ("attempts", jint (MT_Attempts m));
    ("reviewed", jint (MT_Reviewed m)); ("correct", jint (MT_Correct m)); ("factual_errors", jint (MT_FactualErrors m));
    ("disputed", jint (MT_Disputed m)); ("abstentions", jint (MT_Abstentions m));
    ("provider_failures", jint (MT_ProviderFailures m)); ("contextual_reviews", jint (MT_ContextualReviews m));
    ("reviewed_coverage", reviewed); ("correctness", correctness)]).
Definition cohort_json (c : Cohort) : option json :=
  m ← metrics_json (CO_Metrics c);
  Some (JObj [("day", JStr (CO_Day c)); ("profile_id", JStr (CO_ProfileID c)); ("profile_version", JStr (CO_ProfileVersion c));
    ("prompt_version", JStr (CO_PromptVersion c)); ("rubric_version", JStr (CO_RubricVersion c)); ("metrics", m)]).
Definition report_json (r : Report) : option json :=
  since ← jtime (QP_Since r); overall ← metrics_json (QP_Overall r); cohorts ← mapM cohort_json (QP_Cohorts r);
  Some (JObj [("since", since); ("overall", overall); ("cohorts", JArr cohorts);
    ("incidents_with_recovery_status", norm (JObj (map (fun kv => (fst kv, jint (snd kv))) (QP_RecoveryObserved r))))]).

(** ** Examples: the intervals that Go computes, and metrics_test.go *)
Definition interval_text (i : Interval) : list (option string) := map show_float [IV_Rate i; IV_Lower i; IV_Upper i].
Example wilson_samples : map (fun '(a, b) => interval_text (wilson a b)) [(1, 2); (0, 3); (3, 3); (7, 9); (100, 317)]
  = map (map Some) [["0.5"; "0.09453120573423074"; "0.9054687942657693"]; ["0"; "5.551115123125783e-17"; "0.5614970317550454"];
      ["1"; "0.4385029682449546"; "1"]; ["0.7777777777777778"; "0.45258896910698887"; "0.9367748928821533"];
      ["0.31545741324921134"; "0.26677102077058656"; "0.3685628901583412"]].
Proof. vm_compute. reflexivity. Qed.
Definition review_of (actor reason : string) : Adjudication :=
  mkAdjudication (mkScope "" "" "") "" "" (mkRef "" 0) "" "" actor reason [] "" "" 0.
Definition run_of (incident status reason : string) (corroborated invalidated : bool) (reviews : list Adjudication) : Run :=
  mkRun incident corroborated invalidated "" "" "" "" "" status reason reviews.
Example quality_samples :
  let counts m := (MT_Attempts m, MT_Reviewed m, MT_Correct m, MT_Disputed m, MT_Abstentions m) in
  map (fun l => counts (Aggregate l))
    [[run_of "" "HYPOTHESIS" "" false false []; run_of "" "INCONCLUSIVE" "PROVIDER_UNAVAILABLE" false false [];
      run_of "" "NEEDS_EVIDENCE" "" false false []];
     [run_of "" "" "" false false [review_of "b" "STALE"; review_of "a" "CONFIRMED"]];
     [run_of "" "" "" false false [review_of "a" "CONFIRMED"; review_of "b" "FACTUAL_ERROR"]];
     [run_of "" "" "" false false [review_of "a" "UNRESOLVED"; review_of "a" "CONFIRMED"]];
     [run_of "" "" "" false true [review_of "a" "CONFIRMED"]]]
  = [(3, 0, 0, 0, 2); (1, 1, 1, 0, 0); (1, 0, 0, 1, 0); (1, 0, 0, 0, 0); (1, 0, 0, 1, 0)].
Proof. vm_compute. reflexivity. Qed.
End Quality.
