(* ===== verification/Investigation.v ===== *)
(** * pkg/investigation: the evidence rubric and its data

    types.go, rubric.go, [applicableGuidance] of rounds.go and the queue of
    queue.go.  A provider's answer is only a candidate: [AssessCandidate] decides
    what it may become from the evidence alone. *)

From S2P Require Import Prelude.
From S2P Require Import Sha256.
From S2P Require Import Json.
From S2P Require Import JsonFacts.
From S2P Require Import GoTime.
From S2P Require Import Decode.
From S2P Require Import Identity.
From S2P Require Import Authorization.
From S2P Require Import Incident.
From S2P Require Import Db.
From S2P Require Import Sql.
From S2P Require Import Storage.
From S2P Require Import Records.
From S2P Require Import Queues.
From S2P Require Import Privacy.
From S2P Require Import Fleet.

Module Rubric.

Definition RubricVersion := "diagnostic-rubric/v1".
Definition PromptVersion := "investigation/v2".
Definition Hypothesis_ := "HYPOTHESIS".
Definition Inconclusive := "INCONCLUSIVE".
Definition NeedsEvidence := "NEEDS_EVIDENCE".
Definition Corroborated := "CORROBORATED".

Record EvidenceSnapshot := mkEvidence { ES_Ref : ItemRef; ES_Observation : Observation }.
Record Alternative := mkAlternative { AL_CauseCode : string; AL_DiscriminatingEvidence : slice ItemRef }.
Record DiagnosticCheck := mkCheck { CK_Kind : string; CK_ResourceHandle : string }.
Record Usage := mkUsage { U_InputTokens : Z; U_OutputTokens : Z; U_TotalTokens : Z }.
Record Round := mkRound {
  RD_ProviderLatencyMS : Z; RD_Usage : option Usage; RD_Number : Z; RD_Status : string; RD_Reason : string;
  RD_EvidenceCount : Z; RD_ChecksRequested : Z }.
Record Conclusion := mkConclusion {
  CN_RequestedChecks : slice DiagnosticCheck; CN_CauseCode : string; CN_ResourceHandle : string;
  CN_SupportingEvidence : slice ItemRef; CN_ContradictingEvidence : slice ItemRef;
  CN_Alternatives : slice Alternative }.
#[export] Instance DiagnosticCheck_eq_dec : EqDecision DiagnosticCheck.
Proof. solve_decision. Defined.
#[export] Instance Alternative_eq_dec : EqDecision Alternative.
Proof. unfold slice in *. solve_decision. Defined.
#[export] Instance Conclusion_eq_dec : EqDecision Conclusion.
Proof. solve_decision. Defined.
Record Assessment := mkAssessment { AS_Status : string; AS_ReasonCode : string; AS_Conclusion : Conclusion }.
Record RunResult := mkRun {
  RR_Rounds : list Round; RR_KnowledgeVersions : list ItemRef; RR_EnvironmentVersion : Z; RR_RunID : string;
  RR_ProfileID : string; RR_ProfileVersion : string; RR_PrivacyVersion : string; RR_PromptVersion : string;
  RR_RubricVersion : string; RR_Assessment : Assessment }.

(** ** rubric.go *)
Definition probe (code handle : string) (at_ : Time) : Observation :=
  mkObs None None code handle [] [] at_ (Add at_ Minute).

(** The checks that may be requested: two kinds, on an observed resource. *)
Definition check_ok (evidence : list EvidenceSnapshot) (c : DiagnosticCheck) : bool :=
  ValidHandle (CK_ResourceHandle c) && mem_str (CK_Kind c) ["REFRESH_RESOURCE_STATE"; "REFRESH_DEPENDENCIES"]
  && existsb (fun e => str_eqb (O_ResourceHandle (ES_Observation e)) (CK_ResourceHandle c)) evidence.

(** The map [byRef] of the currently valid observations: the last one wins. *)
Definition by_ref : Type := list (ItemRef * Observation).
Definition put (m : by_ref) (r : ItemRef) (o : Observation) : by_ref :=
  List.filter (fun e => negb (bool_decide (fst e = r))) m ++ [(r, o)].
Definition find_ref (m : by_ref) (r : ItemRef) : option Observation :=
  snd <$> List.find (fun e => bool_decide (fst e = r)) m.
Definition usable (at_ : Time) (e : EvidenceSnapshot) : bool :=
  Validate (ES_Observation e) && current_at (ES_Observation e) at_.
Definition index (evidence : list EvidenceSnapshot) (at_ : Time) : by_ref :=
  fold_left (fun m e => put m (ES_Ref e) (ES_Observation e)) (List.filter (usable at_) evidence) [].

Definition cites (m : by_ref) (r : ItemRef) : bool := bool_decide (is_Some (find_ref m r)).

Definition alternative_ok (m : by_ref) (handle : string) (at_ : Time) (a : Alternative) : bool :=
  Validate (probe (AL_CauseCode a) handle at_) && negb (32 <? Z.of_nat (length (elems (AL_DiscriminatingEvidence a))))
  && forallb (cites m) (elems (AL_DiscriminatingEvidence a)).

(** Everything that makes the answer [ErrInvalidConclusion] when it fails. *)
Definition well_cited (c : Conclusion) (evidence : list EvidenceSnapshot) (at_ : Time) : bool :=
  let m := index evidence at_ in
  Validate (probe (CN_CauseCode c) (CN_ResourceHandle c) at_) && ValidHandle (CN_ResourceHandle c)
  && negb (32 <? Z.of_nat (length (elems (CN_SupportingEvidence c))))
  && negb (32 <? Z.of_nat (length (elems (CN_ContradictingEvidence c))))
  && negb (8 <? Z.of_nat (length (elems (CN_Alternatives c))))
  && negb (2 <? Z.of_nat (length (elems (CN_RequestedChecks c)))) && forallb (check_ok evidence) (elems (CN_RequestedChecks c))
  && forallb (cites m) (elems (CN_SupportingEvidence c)) && forallb (cites m) (elems (CN_ContradictingEvidence c))
  && forallb (alternative_ok m (CN_ResourceHandle c) at_) (elems (CN_Alternatives c)).

(** A cited observation of the claimed cause on the claimed resource. *)
Definition direct (c : Conclusion) (m : by_ref) : bool :=
  existsb (fun r => match find_ref m r with
                    | Some o => str_eqb (O_Code o) (CN_CauseCode c) && str_eqb (O_ResourceHandle o) (CN_ResourceHandle c)
                    | None => false
                    end) (elems (CN_SupportingEvidence c)).
Definition health_contradiction (c : Conclusion) (m : by_ref) : bool :=
  existsb (fun e => str_eqb (O_ResourceHandle (snd e)) (CN_ResourceHandle c) && str_eqb (O_Code (snd e)) Healthy
                    && negb (str_eqb (CN_CauseCode c) Healthy)) m.

Definition AssessCandidate (candidate : Conclusion) (evidence : list EvidenceSnapshot) (at_ : Time) : res Assessment :=
  if negb (well_cited candidate evidence at_) then Err ErrInvalidConclusion else
  let m := index evidence at_ in
  let result status reason := Ok (mkAssessment status reason candidate) in
  if health_contradiction candidate m then result Inconclusive "OBSERVED_HEALTH_CONTRADICTION"
  else if 0 <? Z.of_nat (length (elems (CN_ContradictingEvidence candidate))) then result Inconclusive "MATERIAL_CONTRADICTION"
  else if negb (direct candidate m) then result NeedsEvidence "MISSING_DIRECT_EVIDENCE"
  else if mem_str (CN_CauseCode candidate) [CrashLoop; PodFailed; DependencyUnavailable]
  then result NeedsEvidence "SYMPTOM_REQUIRES_UPSTREAM_EVIDENCE"
  else if mem_str (CN_CauseCode candidate) [ReadUnavailable; Healthy; Unclassified]
  then result NeedsEvidence "MISSING_DIRECT_EVIDENCE"
  else result Hypothesis_ "INDEPENDENT_CAUSAL_REVIEW_REQUIRED".

(** [applicableGuidance] of rounds.go. *)
Definition applicableGuidance (cases : list GoldenCase) (evidence : list EvidenceSnapshot) (at_ : Time) : list GoldenCase :=
  List.filter (fun g => SuggestCause (GC_CauseCode g) (map ES_Observation evidence) at_) cases.

(** ** Decoding the result of a run from the body of a claim *)
Definition check_fields : list (field_decoder DiagnosticCheck) :=
  [field "kind" CK_Kind (fun v c => mkCheck v (CK_ResourceHandle c)) dec_string;
   field "resource_handle" CK_ResourceHandle (fun v c => mkCheck (CK_Kind c) v) dec_string].
Definition refs_decoder (strict : bool) : decoder (list ItemRef) := dec_list (mkRef "" 0) (dec_struct strict ref_fields).
Definition slice_decoder (strict : bool) : decoder (slice ItemRef) := dec_slice (mkRef "" 0) (dec_struct strict ref_fields).
Definition alternative_fields (strict : bool) : list (field_decoder Alternative) :=
  [field "cause_code" AL_CauseCode (fun v a => mkAlternative v (AL_DiscriminatingEvidence a)) dec_string;
   field "discriminating_evidence" AL_DiscriminatingEvidence (fun v a => mkAlternative (AL_CauseCode a) v) (slice_decoder strict)].
Definition usage_fields : list (field_decoder Usage) :=
  [field "input_tokens" U_InputTokens (fun v u => mkUsage v (U_OutputTokens u) (U_TotalTokens u)) dec_int64;
   field "output_tokens" U_OutputTokens (fun v u => mkUsage (U_InputTokens u) v (U_TotalTokens u)) dec_int64;
   field "total_tokens" U_TotalTokens (fun v u => mkUsage (U_InputTokens u) (U_OutputTokens u) v) dec_int64].
Definition round_fields (strict : bool) : list (field_decoder Round) :=
  [field "provider_latency_ms" RD_ProviderLatencyMS (fun v r => mkRound v (RD_Usage r) (RD_Number r) (RD_Status r) (RD_Reason r) (RD_EvidenceCount r) (RD_ChecksRequested r)) dec_int64;
   field "usage" RD_Usage (fun v r => mkRound (RD_ProviderLatencyMS r) v (RD_Number r) (RD_Status r) (RD_Reason r) (RD_EvidenceCount r) (RD_ChecksRequested r)) (dec_ptr (mkUsage 0 0 0) (dec_struct strict usage_fields));
   field "number" RD_Number (fun v r => mkRound (RD_ProviderLatencyMS r) (RD_Usage r) v (RD_Status r) (RD_Reason r) (RD_EvidenceCount r) (RD_ChecksRequested r)) dec_int64;
   field "status" RD_Status (fun v r => mkRound (RD_ProviderLatencyMS r) (RD_Usage r) (RD_Number r) v (RD_Reason r) (RD_EvidenceCount r) (RD_ChecksRequested r)) dec_string;
   field "reason" RD_Reason (fun v r => mkRound (RD_ProviderLatencyMS r) (RD_Usage r) (RD_Number r) (RD_Status r) v (RD_EvidenceCount r) (RD_ChecksRequested r)) dec_string;
   field "evidence_count" RD_EvidenceCount (fun v r => mkRound (RD_ProviderLatencyMS r) (RD_Usage r) (RD_Number r) (RD_Status r) (RD_Reason r) v (RD_ChecksRequested r)) dec_int64;
   field "checks_requested" RD_ChecksRequested (fun v r => mkRound (RD_ProviderLatencyMS r) (RD_Usage r) (RD_Number r) (RD_Status r) (RD_Reason r) (RD_EvidenceCount r) v) dec_int64].
Definition zero_round := mkRound 0 None 0 "" "" 0 0.
Definition conclusion_fields (strict : bool) : list (field_decoder Conclusion) :=
  [field "requested_checks" CN_RequestedChecks (fun v c => mkConclusion v (CN_CauseCode c) (CN_ResourceHandle c) (CN_SupportingEvidence c) (CN_ContradictingEvidence c) (CN_Alternatives c)) (dec_slice (mkCheck "" "") (dec_struct strict check_fields));
   field "cause_code" CN_CauseCode (fun v c => mkConclusion (CN_RequestedChecks c) v (CN_ResourceHandle c) (CN_SupportingEvidence c) (CN_ContradictingEvidence c) (CN_Alternatives c)) dec_string;
   field "resource_handle" CN_ResourceHandle (fun v c => mkConclusion (CN_RequestedChecks c) (CN_CauseCode c) v (CN_SupportingEvidence c) (CN_ContradictingEvidence c) (CN_Alternatives c)) dec_string;
   field "supporting_evidence" CN_SupportingEvidence (fun v c => mkConclusion (CN_RequestedChecks c) (CN_CauseCode c) (CN_ResourceHandle c) v (CN_ContradictingEvidence c) (CN_Alternatives c)) (slice_decoder strict);
   field "contradicting_evidence" CN_ContradictingEvidence (fun v c => mkConclusion (CN_RequestedChecks c) (CN_CauseCode c) (CN_ResourceHandle c) (CN_SupportingEvidence c) v (CN_Alternatives c)) (slice_decoder strict);
   field "alternatives" CN_Alternatives (fun v c => mkConclusion (CN_RequestedChecks c) (CN_CauseCode c) (CN_ResourceHandle c) (CN_SupportingEvidence c) (CN_ContradictingEvidence c) v) (dec_slice (mkAlternative "" None) (dec_struct strict (alternative_fields strict)))].
Definition zero_conclusion := mkConclusion None "" "" None None None.
Definition assessment_fields (strict : bool) : list (field_decoder Assessment) :=
  [field "status" AS_Status (fun v a => mkAssessment v (AS_ReasonCode a) (AS_Conclusion a)) dec_string;
   field "reason_code" AS_ReasonCode (fun v a => mkAssessment (AS_Status a) v (AS_Conclusion a)) dec_string;
   field "conclusion" AS_Conclusion (fun v a => mkAssessment (AS_Status a) (AS_ReasonCode a) v) (dec_struct strict (conclusion_fields strict))].
Definition zero_assessment := mkAssessment "" "" zero_conclusion.

(** The fields of [RunResult], through a lens on the struct that embeds it. *)
Definition run_fields {S} (strict : bool) (get : S -> RunResult) (set : RunResult -> S -> S) : list (field_decoder S) :=
  let on {A} name (g : RunResult -> A) (st : A -> RunResult -> RunResult) d :=
    field name (fun s => g (get s)) (fun v s => set (st v (get s)) s) d in
  [on "rounds" RR_Rounds (fun v r => mkRun v (RR_KnowledgeVersions r) (RR_EnvironmentVersion r) (RR_RunID r) (RR_ProfileID r) (RR_ProfileVersion r) (RR_PrivacyVersion r) (RR_PromptVersion r) (RR_RubricVersion r) (RR_Assessment r)) (dec_list zero_round (dec_struct strict (round_fields strict)));
   on "knowledge_versions" RR_KnowledgeVersions (fun v r => mkRun (RR_Rounds r) v (RR_EnvironmentVersion r) (RR_RunID r) (RR_ProfileID r) (RR_ProfileVersion r) (RR_PrivacyVersion r) (RR_PromptVersion r) (RR_RubricVersion r) (RR_Assessment r)) (refs_decoder strict);
   on "environment_version" RR_EnvironmentVersion (fun v r => mkRun (RR_Rounds r) (RR_KnowledgeVersions r) v (RR_RunID r) (RR_ProfileID r) (RR_ProfileVersion r) (RR_PrivacyVersion r) (RR_PromptVersion r) (RR_RubricVersion r) (RR_Assessment r)) dec_int64;
   on "run_id" RR_RunID (fun v r => mkRun (RR_Rounds r) (RR_KnowledgeVersions r) (RR_EnvironmentVersion r) v (RR_ProfileID r) (RR_ProfileVersion r) (RR_PrivacyVersion r) (RR_PromptVersion r) (RR_RubricVersion r) (RR_Assessment r)) dec_string;
   on "profile_id" RR_ProfileID (fun v r => mkRun (RR_Rounds r) (RR_KnowledgeVersions r) (RR_EnvironmentVersion r) (RR_RunID r) v (RR_ProfileVersion r) (RR_PrivacyVersion r) (RR_PromptVersion r) (RR_RubricVersion r) (RR_Assessment r)) dec_string;
   on "profile_version" RR_ProfileVersion (fun v r => mkRun (RR_Rounds r) (RR_KnowledgeVersions r) (RR_EnvironmentVersion r) (RR_RunID r) (RR_ProfileID r) v (RR_PrivacyVersion r) (RR_PromptVersion r) (RR_RubricVersion r) (RR_Assessment r)) dec_string;
   on "privacy_version" RR_PrivacyVersion (fun v r => mkRun (RR_Rounds r) (RR_KnowledgeVersions r) (RR_EnvironmentVersion r) (RR_RunID r) (RR_ProfileID r) (RR_ProfileVersion r) v (RR_PromptVersion r) (RR_RubricVersion r) (RR_Assessment r)) dec_string;
   on "prompt_version" RR_PromptVersion (fun v r => mkRun (RR_Rounds r) (RR_KnowledgeVersions r) (RR_EnvironmentVersion r) (RR_RunID r) (RR_ProfileID r) (RR_ProfileVersion r) (RR_PrivacyVersion r) v (RR_RubricVersion r) (RR_Assessment r)) dec_string;
   on "rubric_version" RR_RubricVersion (fun v r => mkRun (RR_Rounds r) (RR_KnowledgeVersions r) (RR_EnvironmentVersion r) (RR_RunID r) (RR_ProfileID r) (RR_ProfileVersion r) (RR_PrivacyVersion r) (RR_PromptVersion r) v (RR_Assessment r)) dec_string;
   on "assessment" RR_Assessment (fun v r => mkRun (RR_Rounds r) (RR_KnowledgeVersions r) (RR_EnvironmentVersion r) (RR_RunID r) (RR_ProfileID r) (RR_ProfileVersion r) (RR_PrivacyVersion r) (RR_PromptVersion r) (RR_RubricVersion r) v) (dec_struct strict (assessment_fields strict))].
Definition zero_run : RunResult := mkRun [] [] 0 "" "" "" "" "" "" zero_assessment.
Definition decode_run (body : string) : option RunResult :=
  Unmarshal (run_fields false id (fun v _ => v)) zero_run body.
End Rubric.

(** ** queue.go *)
Module Queue.
(** [ProviderMetadata] of provider.go. *)
Record ProviderMetadata := mkProvider {
  PM_Provider : string; PM_Model : string; PM_Endpoint : string; PM_Mode : string; PM_WireAPI : string;
  PM_AWSRegion : string; PM_APIKeyEnv : string }.

(** [Profile]; its runner belongs to the agent that executes a round. *)
Record Profile := mkProfileOf {
  PF_ID : string; PF_Version : string; PF_Metadata : ProviderMetadata; PF_Scopes : list Scope }.

(** [Service]: the epoch of its store, its policy, its profiles and the
    authority epoch that [AuthorityEpoch] is set to. *)
Record Service := mkService {
  Q_Epoch : string; Q_Policy : Policy; Q_Profiles : list Profile; Q_AuthorityEpoch : string }.

(** The profiles of [NewService]: valid, scoped and with distinct identifiers. *)
Fixpoint check_profiles (seen : list string) (l : list Profile) : res unit :=
  match l with
  | [] => Ok tt
  | p :: l =>
      if negb (ValidID (PF_ID p)) || negb (ValidID (PF_Version p)) || bool_decide (PF_Scopes p = [])
      then Err ErrInvalid
      else if mem_str (PF_ID p) seen then Err ErrConflict
      else if negb (forallb Scope_Validate (PF_Scopes p)) then Err ErrInvalid
      else check_profiles (PF_ID p :: seen) l
  end.
Definition NewService (epoch : string) (policy : Policy) (profiles : list Profile) : res Service :=
  res_bind (check_profiles [] profiles) (fun _ => Ok (mkService epoch policy profiles "")).

Definition profileAllows (p : Profile) (sc : Scope) : bool := existsb (fun a => scope_eqb a sc) (PF_Scopes p).
Definition profile (s : Service) (id : string) : option Profile :=
  List.find (fun p => str_eqb (PF_ID p) id) (Q_Profiles s).
Definition Profiles (s : Service) (sc : Scope) : list string :=
  isort str_leb (map PF_ID (List.filter (fun p => profileAllows p sc) (Q_Profiles s))).

Section Queue.
Context `{Env} `{AEAD}.

Definition EnqueueTx (job : DiagnosticJob) (version authority : string) (tx : Tx) : M DiagnosticJob :=
  let* old := optional (ActiveDiagnosticJob tx (D_IncidentID job)) in
  match old with
  | Some old => guard (str_eqb (D_ProfileID old) (D_ProfileID job)) ErrConflict ;; ret old
  | None =>
      PutDiagnosticJob tx job authority ;;
      StartRun tx (D_ID job) (D_IncidentID job) (D_ProfileID job) version Rubric.PromptVersion Rubric.RubricVersion
        (D_CreatedAt job) ;;
      QueueRun tx (D_ID job) ;;
      ret job
  end.

Definition Enqueue (s : Service) (p : Principal) (sc : Scope) (incidentID profileID : string) : M DiagnosticJob :=
  authorize (Q_Policy s) p sc Investigate ;;
  match profile s profileID with
  | None => throw ErrInvalid
  | Some pf =>
      guard (profileAllows pf sc) ErrInvalid ;;
      let* now := time_now in
      let* nonce := rand_read 12 in
      let* authority := of_res (SealPrincipal (Q_Policy s) now nonce p sc Investigate) in
      let* id := NewID in
      let* created := time_now in
      let deadline := Add created (10 * Minute) in
      let expires := if After (P_ExpiresAt p) deadline then deadline else P_ExpiresAt p in
      Transact (Q_Epoch s) sc
        (EnqueueTx (mkJob sc id incidentID profileID (P_ID p) "QUEUED" created expires None) (PF_Version pf) authority)
  end.

Definition CancelTx (id : string) (tx : Tx) : M unit :=
  let* j := GetDiagnosticJob tx id in
  guard (str_eqb (D_State j) "QUEUED" || str_eqb (D_State j) "RUNNING") ErrConflict ;;
  FinishDiagnosticJob tx id "CANCELLED" None ;;
  FinishRun tx id "CANCELLED" "ENGINEER_CANCELLED" None.

Definition Cancel (s : Service) (p : Principal) (sc : Scope) (id : string) : M unit :=
  authorize (Q_Policy s) p sc Investigate ;;
  Transact (Q_Epoch s) sc (CancelTx id).

(** [HeartbeatAgent] of agent.go, with the collector credential as its
    authenticator. *)
Definition HeartbeatAgent (s : Service) (f : Fleet.Service) (sc : Scope) (token id attempt : string) : M Time :=
  Transact (Q_Epoch s) sc (fun tx =>
    let* a := AuthenticateTx f tx token Collector in
    let* l := AgentDiagnostic tx id attempt a true in
    let* now := time_now in
    of_res (OpenPrincipal (Some (Q_Policy s)) now (L_Authority l) sc Investigate) ;;
    ret (L_LeaseUntil l)).
End Queue.
End Queue.
