(* ===== verification/Knowledge.v ===== *)
(** * pkg/knowledge: reviewed guidance

    service.go and evaluation.go.  A corroborated claim with an observed recovery
    becomes a candidate; another steward publishes it after a fixed evaluation;
    retrieval checks its lineage again every time. *)

From S2P Require Import Prelude.
From S2P Require Import Sha256.
From S2P Require Import Json.
From S2P Require Import JsonFacts.
From S2P Require Import GoTime.
From S2P Require Import Decode.
From S2P Require Import Identity.
From S2P Require Import Authorization.
From S2P Require Import Incident.
From S2P Require Import Db.
From S2P Require Import Sql.
From S2P Require Import Storage.
From S2P Require Import Records.
From S2P Require Import Queues.
From S2P Require Import Privacy.
From S2P Require Import Fleet.
From S2P Require Import Recovery.
From S2P Require Import Governance.
From S2P Require Import Investigation.

Module Knowledge.
Import Rubric.

Record CandidateRequest := mkCandidate { KR_Claim : ItemRef; KR_ClaimHash : string; KR_RecoveryID : string }.

Definition EvaluationVersion := "golden-guidance-eval/v1".

Definition Suggest (g : GoldenCase) (observations : list Observation) (at_ : Time) : bool :=
  SuggestCause (GC_CauseCode g) observations at_.

(** ** evaluation.go *)
(** [time.Date(2026, 1, 1, 0, 0, 0, 0, time.UTC)]. *)
Definition evaluation_at : Time := 1767225600 * Second.
Definition evaluation_handle : string := "aaaaaaaaaaaaaaaaaaaaaaaaaaaaaaaa".

Definition evaluation_cases (cause : string) : list (list Observation * bool) :=
  let at_ := evaluation_at in
  let o := mkObs None None cause evaluation_handle [] [] at_ (Add at_ Minute) in
  let healthy := set_code Healthy o in
  let stale := set_observed (Add at_ (- Minute)) (set_until at_ o) in
  let future := set_until (Add at_ Minute) (set_observed (Add at_ Second) o) in
  let unrelated := set_code DependencyUnavailable o in
  let invalid := set_handle "customer-secret" o in
  [([o], true); ([], false); ([unrelated], false); ([o; healthy], false); ([stale], false); ([future], false);
   ([invalid], false); ([unrelated; o], true)].

Definition Evaluate (g : GoldenCase) : KnowledgeEvaluation :=
  let cases := evaluation_cases (GC_CauseCode g) in
  let passed := Z.of_nat (length (List.filter (fun c : list Observation * bool =>
                  Bool.eqb (Suggest g (fst c) evaluation_at) (snd c)) cases)) in
  mkEvaluation EvaluationVersion 4 4 passed (passed =? Z.of_nat (length cases)).

(** ** service.go *)

(** The body of a corroborated claim: a run and the steward's identifier. *)
Definition decode_corroborated (body : string) : option (RunResult * string) :=
  Unmarshal (run_fields false fst (fun r s => (r, snd s)) ++
             [field "steward_id" (fun s : RunResult * string => snd s) (fun v s => (fst s, v)) dec_string])
    (zero_run, "") body.

Definition set_case (g : GoldenCase) (version : Z) (state reviewer : string) (published : Time)
  (e : KnowledgeEvaluation) : GoldenCase :=
  mkGolden (GC_Scope g) (GC_ID g) version state (GC_IncidentID g) (GC_Claim g) (GC_ClaimHash g) (GC_RecoveryID g)
    (GC_CauseCode g) (GC_CreatedBy g) reviewer (GC_CreatedAt g) published e.

Definition recovered (a : RecoveryAssessment) (incidentID : string) : bool :=
  str_eqb (RA_IncidentID a) incidentID && str_eqb (RA_Status a) "RECOVERED"
  && negb (Z.of_nat (length (RA_Evidence a)) <? 3).

Section Knowledge.
Context `{Env}.

(** [for ... { ok, err := f(x); if err != nil || !ok { return false, err } }]. *)
Fixpoint all_hold {A} (f : A -> M bool) (l : list A) : M bool :=
  match l with
  | [] => ret true
  | x :: l => let* ok := f x in if negb ok then ret false else all_hold f l
  end.

Definition EligibleTx (tx : Tx) (g : GoldenCase) : M bool :=
  let* ok := HistoricalEligible tx (GC_Claim g) in
  if negb ok then ret false else
  let* claim := GetItem tx (GC_Claim g) in
  if negb (str_eqb (I_Hash claim) (GC_ClaimHash g)) then ret false else
  let* a := GetRecoveryAssessment tx (GC_RecoveryID g) in
  if negb (recovered a (GC_IncidentID g)) then ret false else
  all_hold (HistoricalEligible tx) (RA_Evidence a).

Definition CandidateTx (p : Principal) (sc : Scope) (r : CandidateRequest) (tx : Tx) : M GoldenCase :=
  let* claim := GetItem tx (KR_Claim r) in
  guard (bool_decide (I_Kind claim = Claim) && str_eqb (I_Hash claim) (KR_ClaimHash r)) ErrConflict ;;
  match decode_corroborated (I_Body claim) with
  | None => throw ErrInvalid
  | Some (run, steward) =>
      guard (negb (str_eqb steward "") && str_eqb (AS_Status (RR_Assessment run)) Corroborated) ErrInvalid ;;
      let* a := GetRecoveryAssessment tx (KR_RecoveryID r) in
      guard (recovered a (I_IncidentID claim)) ErrConflict ;;
      let* id := NewID in
      let* created := time_now in
      let g := mkGolden sc id 1 "CANDIDATE" (I_IncidentID claim) (KR_Claim r) (I_Hash claim) (KR_RecoveryID r)
                 (CN_CauseCode (AS_Conclusion (RR_Assessment run))) (P_ID p) "" created zeroTime
                 (mkEvaluation "" 0 0 0 false) in
      let* ok := EligibleTx tx g in
      guard ok ErrConflict ;;
      PutGoldenCase tx g ;;
      ret g
  end.
Definition Candidate (s : Backend) (p : Principal) (sc : Scope) (r : CandidateRequest) : M GoldenCase :=
  authorize (BE_Policy s) p sc ReviewKnowledge ;;
  Transact (BE_Epoch s) sc (CandidateTx p sc r).

Definition PublishTx (p : Principal) (id : string) (version : Z) (tx : Tx) : M GoldenCase :=
  let* g := GetGoldenCase tx id in
  guard ((GC_Version g =? version) && str_eqb (GC_State g) "CANDIDATE" && negb (str_eqb (GC_CreatedBy g) (P_ID p)))
    ErrConflict ;;
  let* ok := EligibleTx tx g in
  guard ok ErrConflict ;;
  let e := Evaluate g in
  guard (KE_Approved e) ErrConflict ;;
  let* published := time_now in
  let g' := set_case g (wrap64 (GC_Version g + 1)) "ACTIVE" (P_ID p) published e in
  PutGoldenCase tx g' ;;
  let* key := NewID in
  Enqueue tx key "KNOWLEDGE_PUBLISHED"
    (print (JObj [("case_id", JStr (GC_ID g)); ("incident_id", JStr (GC_IncidentID g))])) ;;
  ret g'.
Definition Publish (s : Backend) (p : Principal) (sc : Scope) (id : string) (version : Z) : M GoldenCase :=
  authorize (BE_Policy s) p sc ReviewKnowledge ;;
  Transact (BE_Epoch s) sc (PublishTx p id version).

Definition RetireTx (p : Principal) (id : string) (version : Z) (tx : Tx) : M GoldenCase :=
  let* g := GetGoldenCase tx id in
  guard ((GC_Version g =? version) && negb (str_eqb (GC_State g) "RETIRED")) ErrConflict ;;
  let g' := set_case g (wrap64 (GC_Version g + 1)) "RETIRED" (P_ID p) (GC_PublishedAt g) (GC_Evaluation g) in
  PutGoldenCase tx g' ;;
  ret g'.
Definition Retire (s : Backend) (p : Principal) (sc : Scope) (id : string) (version : Z) : M GoldenCase :=
  authorize (BE_Policy s) p sc ReviewKnowledge ;;
  Transact (BE_Epoch s) sc (RetireTx p id version).

(** The inner loop of [Retrieve]: [inl] when sixteen cases are found. *)
Fixpoint take_active (tx : Tx) (result cases : list GoldenCase) : M (list GoldenCase + list GoldenCase) :=
  match cases with
  | [] => ret (inr result)
  | g :: cases =>
      if negb (str_eqb (GC_State g) "ACTIVE") then take_active tx result cases else
      let* ok := EligibleTx tx g in
      if negb ok then take_active tx result cases else
      let result' := result ++ [g] in
      if Z.of_nat (length result') =? 16 then ret (inl result') else take_active tx result' cases
  end.

(** The pages of [Retrieve]; [n] is how many are left of its 100. *)
Fixpoint pages (tx : Tx) (n : nat) (after : string) (result : list GoldenCase) : M (list GoldenCase) :=
  match n with
  | O => throw ErrUnavailable
  | S n =>
      let* cases := GoldenCases tx after 100 in
      let* r := take_active tx result cases in
      match r with
      | inl result => ret result
      | inr result =>
          if Z.of_nat (length cases) <? 100 then ret result
          else pages tx n (List.last (map GC_ID cases) after) result
      end
  end.
Definition Retrieve (s : Backend) (p : Principal) (sc : Scope) : M (list GoldenCase) :=
  authorize (BE_Policy s) p sc Read ;;
  Transact (BE_Epoch s) sc (fun tx => pages tx 100 "" []).

Definition PublishedEligibleTx (tx : Tx) (g : GoldenCase) : M bool :=
  let* current := GetGoldenCase tx (GC_ID g) in
  if negb ((GC_Version current =? GC_Version g) && str_eqb (GC_State current) "ACTIVE") then ret false
  else EligibleTx tx current.
End Knowledge.
End Knowledge.
