(* ===== verification/Snapshot.v ===== *)
(** * pkg/investigation: the snapshot an attempt works on

    snapshot.go, the wire types of agent.go and their JSON texts.  A snapshot
    holds the projected evidence that is current, eligible and reported by a
    live collector; [AgentInput] wraps it for one attempt, is stored in the job as
    jsonb and is decoded again, strictly, when the attempt reports. *)

From S2P Require Import Prelude.
From S2P Require Import Json.
From S2P Require Import JsonFacts.
From S2P Require Import GoTime.
From S2P Require Import Decode.
From S2P Require Import Identity.
From S2P Require Import Authorization.
From S2P Require Import Incident.
From S2P Require Import Db.
From S2P Require Import Sql.
From S2P Require Import Storage.
From S2P Require Import Records.
From S2P Require Import Queues.
From S2P Require Import Privacy.
From S2P Require Import Investigation.

Module Snapshot.
Import Rubric Queue.

(** [Snapshot]; a [Context] is a question with its answer. *)
Record Snapshot := mkSnapshot {
  SN_Evidence : list EvidenceSnapshot; SN_Parents : list ItemRef; SN_ValidUntil : Time;
  SN_Environment : option EnvironmentContext; SN_Clarifications : list (string * string) }.

Record AgentInput := mkInput {
  IN_Scope : Scope; IN_JobID : string; IN_IncidentID : string; IN_ProfileID : string; IN_ProfileVersion : string;
  IN_Provider : ProviderMetadata; IN_Snapshot : Snapshot; IN_Guidance : list GoldenCase }.
Record AgentClaim := mkAgentClaim { AC_Input : AgentInput; AC_AttemptID : string; AC_LeaseUntil : Time }.

(** ** Printing

    [None] where [json.Marshal] fails: a year outside 0 to 9999, or a metric that
    is not finite. *)
Definition opt_member (name : string) (o : option json) : list (string * json) :=
  match o with Some v => [(name, v)] | None => [] end.
Definition nonempty (name s : string) : list (string * json) := omit_if (str_eqb s "") [(name, JStr s)].

Definition prov_json (p : Provenance) : json :=
  JObj [("agent_id", JStr (S_AgentID p)); ("generation", jint (S_Generation p)); ("epoch", JStr (S_Epoch p));
        ("report_id", JStr (S_ReportID p))].
Definition target_json (t : Target) : json :=
  JObj [("kind", JStr (T_Kind t)); ("uid", JStr (T_UID t)); ("resource_version", JStr (T_ResourceVersion t));
        ("commitment", JStr (T_Commitment t))].
Definition metric_json (m : string * float64) : option (string * json) := v ← jfloat (snd m); Some (fst m, v).
Definition obs_json (o : Observation) : option json :=
  metrics ← mapM metric_json (O_Metrics o); oa ← jtime (O_ObservedAt o); vu ← jtime (O_ValidUntil o);
  Some (JObj (opt_member "source" (prov_json <$> O_Source o) ++ opt_member "target" (target_json <$> O_Target o)
    ++ [("code", JStr (O_Code o)); ("resource_handle", JStr (O_ResourceHandle o))]
    ++ omit_if (bool_decide (O_DependencyHandles o = []))
         [("dependency_handles", JArr (map JStr (O_DependencyHandles o)))]
    ++ omit_if (bool_decide (O_Metrics o = [])) [("metrics", JObj (isort field_leb metrics))]
    ++ [("observed_at", oa); ("valid_until", vu)])).
Definition evidence_json (e : EvidenceSnapshot) : option json :=
  o ← obs_json (ES_Observation e); Some (JObj [("ref", ref_json (ES_Ref e)); ("observation", o)]).

Definition environment_json (c : EnvironmentContext) : json :=
  JObj [("scope", scope_json (EC_Scope c)); ("version", jint (EC_Version c)); ("environment", JStr (EC_Environment c));
        ("platform", JStr (EC_Platform c)); ("topology", JStr (EC_Topology c)); ("criticality", JStr (EC_Criticality c));
        ("dependencies", JArr (map scope_json (EC_Dependencies c)));
        ("integrations", JArr (map JStr (EC_Integrations c)))].
Definition evaluation_json (e : KnowledgeEvaluation) : json :=
  JObj [("version", JStr (KE_Version e)); ("baseline_cases", jint (KE_BaselineCases e));
        ("heldout_cases", jint (KE_HeldoutCases e)); ("passed", jint (KE_Passed e)); ("approved", JBool (KE_Approved e))].
Definition golden_json (g : GoldenCase) : option json :=
  ca ← jtime (GC_CreatedAt g); pa ← jtime (GC_PublishedAt g);
  Some (JObj ([("scope", scope_json (GC_Scope g)); ("id", JStr (GC_ID g)); ("version", jint (GC_Version g));
    ("state", JStr (GC_State g)); ("incident_id", JStr (GC_IncidentID g)); ("claim", ref_json (GC_Claim g));
    ("claim_hash", JStr (GC_ClaimHash g)); ("recovery_id", JStr (GC_RecoveryID g)); ("cause_code", JStr (GC_CauseCode g));
    ("created_by", JStr (GC_CreatedBy g))] ++ nonempty "reviewed_by" (GC_ReviewedBy g)
    ++ [("created_at", ca); ("published_at", pa); ("evaluation", evaluation_json (GC_Evaluation g))])).
Definition answer_json (a : string * string) : json := JObj [("question", JStr (fst a)); ("answer", JStr (snd a))].
Definition provider_json (m : ProviderMetadata) : json :=
  JObj ([("provider", JStr (PM_Provider m))] ++ nonempty "model" (PM_Model m) ++ nonempty "endpoint" (PM_Endpoint m)
    ++ nonempty "mode" (PM_Mode m) ++ nonempty "wire_api" (PM_WireAPI m) ++ nonempty "aws_region" (PM_AWSRegion m)
    ++ nonempty "api_key_env" (PM_APIKeyEnv m)).
Definition snapshot_json (s : Snapshot) : option json :=
  evidence ← mapM evidence_json (SN_Evidence s); vu ← jtime (SN_ValidUntil s);
  Some (JObj ([("Evidence", JArr evidence); ("Parents", JArr (map ref_json (SN_Parents s))); ("ValidUntil", vu);
    ("Environment", match SN_Environment s with Some c => environment_json c | None => JNull end)]
    ++ omit_if (bool_decide (SN_Clarifications s = [])) [("clarifications", JArr (map answer_json (SN_Clarifications s)))])).
Definition input_json (i : AgentInput) : option json :=
  snapshot ← snapshot_json (IN_Snapshot i); guidance ← mapM golden_json (IN_Guidance i);
  Some (JObj [("scope", scope_json (IN_Scope i)); ("job_id", JStr (IN_JobID i)); ("incident_id", JStr (IN_IncidentID i));
    ("profile_id", JStr (IN_ProfileID i)); ("profile_version", JStr (IN_ProfileVersion i));
    ("provider", provider_json (IN_Provider i)); ("snapshot", snapshot); ("guidance", JArr guidance)]).

(** ** Reading *)
Definition zero_scope : Scope := mkScope "" "" "".
Definition zero_environment : EnvironmentContext := mkEnvCtx zero_scope 0 "" "" "" "" [] [].
Definition zero_golden : GoldenCase :=
  mkGolden zero_scope "" 0 "" "" (mkRef "" 0) "" "" "" "" "" zeroTime zeroTime (mkEvaluation "" 0 0 0 false).
Definition zero_evidence : EvidenceSnapshot := mkEvidence (mkRef "" 0) zero_obs.
Definition zero_snapshot : Snapshot := mkSnapshot [] [] zeroTime None [].
Definition zero_input : AgentInput :=
  mkInput zero_scope "" "" "" "" (mkProvider "" "" "" "" "" "" "") zero_snapshot [].

Definition scope_fields (strict : bool) : list (field_decoder Scope) :=
  [field "organization_id" OrganizationID (fun v r => mkScope v (ClusterID r) (ApplicationID r)) dec_string;
   field "cluster_id" ClusterID (fun v r => mkScope (OrganizationID r) v (ApplicationID r)) dec_string;
   field "application_id" ApplicationID (fun v r => mkScope (OrganizationID r) (ClusterID r) v) dec_string].

Definition environment_fields (strict : bool) : list (field_decoder EnvironmentContext) :=
  [field "scope" EC_Scope (fun v r => mkEnvCtx v (EC_Version r) (EC_Environment r) (EC_Platform r) (EC_Topology r) (EC_Criticality r) (EC_Dependencies r) (EC_Integrations r)) (dec_struct strict (scope_fields strict));
   field "version" EC_Version (fun v r => mkEnvCtx (EC_Scope r) v (EC_Environment r) (EC_Platform r) (EC_Topology r) (EC_Criticality r) (EC_Dependencies r) (EC_Integrations r)) dec_int64;
   field "environment" EC_Environment (fun v r => mkEnvCtx (EC_Scope r) (EC_Version r) v (EC_Platform r) (EC_Topology r) (EC_Criticality r) (EC_Dependencies r) (EC_Integrations r)) dec_string;
   field "platform" EC_Platform (fun v r => mkEnvCtx (EC_Scope r) (EC_Version r) (EC_Environment r) v (EC_Topology r) (EC_Criticality r) (EC_Dependencies r) (EC_Integrations r)) dec_string;
   field "topology" EC_Topology (fun v r => mkEnvCtx (EC_Scope r) (EC_Version r) (EC_Environment r) (EC_Platform r) v (EC_Criticality r) (EC_Dependencies r) (EC_Integrations r)) dec_string;
   field "criticality" EC_Criticality (fun v r => mkEnvCtx (EC_Scope r) (EC_Version r) (EC_Environment r) (EC_Platform r) (EC_Topology r) v (EC_Dependencies r) (EC_Integrations r)) dec_string;
   field "dependencies" EC_Dependencies (fun v r => mkEnvCtx (EC_Scope r) (EC_Version r) (EC_Environment r) (EC_Platform r) (EC_Topology r) (EC_Criticality r) v (EC_Integrations r)) (dec_list zero_scope (dec_struct strict (scope_fields strict)));
   field "integrations" EC_Integrations (fun v r => mkEnvCtx (EC_Scope r) (EC_Version r) (EC_Environment r) (EC_Platform r) (EC_Topology r) (EC_Criticality r) (EC_Dependencies r) v) (dec_list "" dec_string)].

Definition evaluation_fields (strict : bool) : list (field_decoder KnowledgeEvaluation) :=
  [field "version" KE_Version (fun v r => mkEvaluation v (KE_BaselineCases r) (KE_HeldoutCases r) (KE_Passed r) (KE_Approved r)) dec_string;
   field "baseline_cases" KE_BaselineCases (fun v r => mkEvaluation (KE_Version r) v (KE_HeldoutCases r) (KE_Passed r) (KE_Approved r)) dec_int64;
   field "heldout_cases" KE_HeldoutCases (fun v r => mkEvaluation (KE_Version r) (KE_BaselineCases r) v (KE_Passed r) (KE_Approved r)) dec_int64;
   field "passed" KE_Passed (fun v r => mkEvaluation (KE_Version r) (KE_BaselineCases r) (KE_HeldoutCases r) v (KE_Approved r)) dec_int64;
   field "approved" KE_Approved (fun v r => mkEvaluation (KE_Version r) (KE_BaselineCases r) (KE_HeldoutCases r) (KE_Passed r) v) dec_bool].

Definition golden_fields (strict : bool) : list (field_decoder GoldenCase) :=
  [field "scope" GC_Scope (fun v r => mkGolden v (GC_ID r) (GC_Version r) (GC_State r) (GC_IncidentID r) (GC_Claim r) (GC_ClaimHash r) (GC_RecoveryID r) (GC_CauseCode r) (GC_CreatedBy r) (GC_ReviewedBy r) (GC_CreatedAt r) (GC_PublishedAt r) (GC_Evaluation r)) (dec_struct strict (scope_fields strict));
   field "id" GC_ID (fun v r => mkGolden (GC_Scope r) v (GC_Version r) (GC_State r) (GC_IncidentID r) (GC_Claim r) (GC_ClaimHash r) (GC_RecoveryID r) (GC_CauseCode r) (GC_CreatedBy r) (GC_ReviewedBy r) (GC_CreatedAt r) (GC_PublishedAt r) (GC_Evaluation r)) dec_string;
   field "version" GC_Version (fun v r => mkGolden (GC_Scope r) (GC_ID r) v (GC_State r) (GC_IncidentID r) (GC_Claim r) (GC_ClaimHash r) (GC_RecoveryID r) (GC_CauseCode r) (GC_CreatedBy r) (GC_ReviewedBy r) (GC_CreatedAt r) (GC_PublishedAt r) (GC_Evaluation r)) dec_int64;
   field "state" GC_State (fun v r => mkGolden (GC_Scope r) (GC_ID r) (GC_Version r) v (GC_IncidentID r) (GC_Claim r) (GC_ClaimHash r) (GC_RecoveryID r) (GC_CauseCode r) (GC_CreatedBy r) (GC_ReviewedBy r) (GC_CreatedAt r) (GC_PublishedAt r) (GC_Evaluation r)) dec_string;
   field "incident_id" GC_IncidentID (fun v r => mkGolden (GC_Scope r) (GC_ID r) (GC_Version r) (GC_State r) v (GC_Claim r) (GC_ClaimHash r) (GC_RecoveryID r) (GC_CauseCode r) (GC_CreatedBy r) (GC_ReviewedBy r) (GC_CreatedAt r) (GC_PublishedAt r) (GC_Evaluation r)) dec_string;
   field "claim" GC_Claim (fun v r => mkGolden (GC_Scope r) (GC_ID r) (GC_Version r) (GC_State r) (GC_IncidentID r) v (GC_ClaimHash r) (GC_RecoveryID r) (GC_CauseCode r) (GC_CreatedBy r) (GC_ReviewedBy r) (GC_CreatedAt r) (GC_PublishedAt r) (GC_Evaluation r)) (dec_struct strict ref_fields);
   field "claim_hash" GC_ClaimHash (fun v r => mkGolden (GC_Scope r) (GC_ID r) (GC_Version r) (GC_State r) (GC_IncidentID r) (GC_Claim r) v (GC_RecoveryID r) (GC_CauseCode r) (GC_CreatedBy r) (GC_ReviewedBy r) (GC_CreatedAt r) (GC_PublishedAt r) (GC_Evaluation r)) dec_string;
   field "recovery_id" GC_RecoveryID (fun v r => mkGolden (GC_Scope r) (GC_ID r) (GC_Version r) (GC_State r) (GC_IncidentID r) (GC_Claim r) (GC_ClaimHash r) v (GC_CauseCode r) (GC_CreatedBy r) (GC_ReviewedBy r) (GC_CreatedAt r) (GC_PublishedAt r) (GC_Evaluation r)) dec_string;
   field "cause_code" GC_CauseCode (fun v r => mkGolden (GC_Scope r) (GC_ID r) (GC_Version r) (GC_State r) (GC_IncidentID r) (GC_Claim r) (GC_ClaimHash r) (GC_RecoveryID r) v (GC_CreatedBy r) (GC_ReviewedBy r) (GC_CreatedAt r) (GC_PublishedAt r) (GC_Evaluation r)) dec_string;
   field "created_by" GC_CreatedBy (fun v r => mkGolden (GC_Scope r) (GC_ID r) (GC_Version r) (GC_State r) (GC_IncidentID r) (GC_Claim r) (GC_ClaimHash r) (GC_RecoveryID r) (GC_CauseCode r) v (GC_ReviewedBy r) (GC_CreatedAt r) (GC_PublishedAt r) (GC_Evaluation r)) dec_string;
   field "reviewed_by" GC_ReviewedBy (fun v r => mkGolden (GC_Scope r) (GC_ID r) (GC_Version r) (GC_State r) (GC_IncidentID r) (GC_Claim r) (GC_ClaimHash r) (GC_RecoveryID r) (GC_CauseCode r) (GC_CreatedBy r) v (GC_CreatedAt r) (GC_PublishedAt r) (GC_Evaluation r)) dec_string;
   field "created_at" GC_CreatedAt (fun v r => mkGolden (GC_Scope r) (GC_ID r) (GC_Version r) (GC_State r) (GC_IncidentID r) (GC_Claim r) (GC_ClaimHash r) (GC_RecoveryID r) (GC_CauseCode r) (GC_CreatedBy r) (GC_ReviewedBy r) v (GC_PublishedAt r) (GC_Evaluation r)) dec_time;
   field "published_at" GC_PublishedAt (fun v r => mkGolden (GC_Scope r) (GC_ID r) (GC_Version r) (GC_State r) (GC_IncidentID r) (GC_Claim r) (GC_ClaimHash r) (GC_RecoveryID r) (GC_CauseCode r) (GC_CreatedBy r) (GC_ReviewedBy r) (GC_CreatedAt r) v (GC_Evaluation r)) dec_time;
   field "evaluation" GC_Evaluation (fun v r => mkGolden (GC_Scope r) (GC_ID r) (GC_Version r) (GC_State r) (GC_IncidentID r) (GC_Claim r) (GC_ClaimHash r) (GC_RecoveryID r) (GC_CauseCode r) (GC_CreatedBy r) (GC_ReviewedBy r) (GC_CreatedAt r) (GC_PublishedAt r) v) (dec_struct strict (evaluation_fields strict))].

Definition evidence_fields (strict : bool) : list (field_decoder EvidenceSnapshot) :=
  [field "ref" ES_Ref (fun v r => mkEvidence v (ES_Observation r)) (dec_struct strict ref_fields);
   field "observation" ES_Observation (fun v r => mkEvidence (ES_Ref r) v) (dec_struct strict (obs_fields strict))].

Definition answer_fields (strict : bool) : list (field_decoder (string * string)) :=
  [field "question" fst (fun v r => pair v (snd r)) dec_string;
   field "answer" snd (fun v r => pair (fst r) v) dec_string].

Definition provider_fields (strict : bool) : list (field_decoder ProviderMetadata) :=
  [field "provider" PM_Provider (fun v r => mkProvider v (PM_Model r) (PM_Endpoint r) (PM_Mode r) (PM_WireAPI r) (PM_AWSRegion r) (PM_APIKeyEnv r)) dec_string;
   field "model" PM_Model (fun v r => mkProvider (PM_Provider r) v (PM_Endpoint r) (PM_Mode r) (PM_WireAPI r) (PM_AWSRegion r) (PM_APIKeyEnv r)) dec_string;
   field "endpoint" PM_Endpoint (fun v r => mkProvider (PM_Provider r) (PM_Model r) v (PM_Mode r) (PM_WireAPI r) (PM_AWSRegion r) (PM_APIKeyEnv r)) dec_string;
   field "mode" PM_Mode (fun v r => mkProvider (PM_Provider r) (PM_Model r) (PM_Endpoint r) v (PM_WireAPI r) (PM_AWSRegion r) (PM_APIKeyEnv r)) dec_string;
   field "wire_api" PM_WireAPI (fun v r => mkProvider (PM_Provider r) (PM_Model r) (PM_Endpoint r) (PM_Mode r) v (PM_AWSRegion r) (PM_APIKeyEnv r)) dec_string;
   field "aws_region" PM_AWSRegion (fun v r => mkProvider (PM_Provider r) (PM_Model r) (PM_Endpoint r) (PM_Mode r) (PM_WireAPI r) v (PM_APIKeyEnv r)) dec_string;
   field "api_key_env" PM_APIKeyEnv (fun v r => mkProvider (PM_Provider r) (PM_Model r) (PM_Endpoint r) (PM_Mode r) (PM_WireAPI r) (PM_AWSRegion r) v) dec_string].

Definition snapshot_fields (strict : bool) : list (field_decoder Snapshot) :=
  [field "Evidence" SN_Evidence (fun v r => mkSnapshot v (SN_Parents r) (SN_ValidUntil r) (SN_Environment r) (SN_Clarifications r)) (dec_list zero_evidence (dec_struct strict (evidence_fields strict)));
   field "Parents" SN_Parents (fun v r => mkSnapshot (SN_Evidence r) v (SN_ValidUntil r) (SN_Environment r) (SN_Clarifications r)) (refs_decoder strict);
   field "ValidUntil" SN_ValidUntil (fun v r => mkSnapshot (SN_Evidence r) (SN_Parents r) v (SN_Environment r) (SN_Clarifications r)) dec_time;
   field "Environment" SN_Environment (fun v r => mkSnapshot (SN_Evidence r) (SN_Parents r) (SN_ValidUntil r) v (SN_Clarifications r)) (dec_ptr zero_environment (dec_struct strict (environment_fields strict)));
   field "clarifications" SN_Clarifications (fun v r => mkSnapshot (SN_Evidence r) (SN_Parents r) (SN_ValidUntil r) (SN_Environment r) v) (dec_list ("", "") (dec_struct strict (answer_fields strict)))].

Definition input_fields (strict : bool) : list (field_decoder AgentInput) :=
  [field "scope" IN_Scope (fun v r => mkInput v (IN_JobID r) (IN_IncidentID r) (IN_ProfileID r) (IN_ProfileVersion r) (IN_Provider r) (IN_Snapshot r) (IN_Guidance r)) (dec_struct strict (scope_fields strict));
   field "job_id" IN_JobID (fun v r => mkInput (IN_Scope r) v (IN_IncidentID r) (IN_ProfileID r) (IN_ProfileVersion r) (IN_Provider r) (IN_Snapshot r) (IN_Guidance r)) dec_string;
   field "incident_id" IN_IncidentID (fun v r => mkInput (IN_Scope r) (IN_JobID r) v (IN_ProfileID r) (IN_ProfileVersion r) (IN_Provider r) (IN_Snapshot r) (IN_Guidance r)) dec_string;
   field "profile_id" IN_ProfileID (fun v r => mkInput (IN_Scope r) (IN_JobID r) (IN_IncidentID r) v (IN_ProfileVersion r) (IN_Provider r) (IN_Snapshot r) (IN_Guidance r)) dec_string;
   field "profile_version" IN_ProfileVersion (fun v r => mkInput (IN_Scope r) (IN_JobID r) (IN_IncidentID r) (IN_ProfileID r) v (IN_Provider r) (IN_Snapshot r) (IN_Guidance r)) dec_string;
   field "provider" IN_Provider (fun v r => mkInput (IN_Scope r) (IN_JobID r) (IN_IncidentID r) (IN_ProfileID r) (IN_ProfileVersion r) v (IN_Snapshot r) (IN_Guidance r)) (dec_struct strict (provider_fields strict));
   field "snapshot" IN_Snapshot (fun v r => mkInput (IN_Scope r) (IN_JobID r) (IN_IncidentID r) (IN_ProfileID r) (IN_ProfileVersion r) (IN_Provider r) v (IN_Guidance r)) (dec_struct strict (snapshot_fields strict));
   field "guidance" IN_Guidance (fun v r => mkInput (IN_Scope r) (IN_JobID r) (IN_IncidentID r) (IN_ProfileID r) (IN_ProfileVersion r) (IN_Provider r) (IN_Snapshot r) v) (dec_list zero_golden (dec_struct strict (golden_fields strict)))].

Definition decode_input (raw : string) : option AgentInput := strictDecode input_fields zero_input raw.
(** [strictDecode] of an observation, followed by [Validate]. *)
Definition strict_observation (body : string) : option Observation :=
  o ← strictDecode obs_fields zero_obs body; if Validate o then Some o else None.

(** ** readSnapshot *)
Section Snapshot.
Context `{Env}.

(** The collector that reported the observation is still the one enrolled. *)
Definition reporter_live (s : Service) (src : Provenance) (a : Agent) (now : Time) : bool :=
  negb (G_Revoked a) && str_eqb (G_Epoch a) (Q_AuthorityEpoch s) && (G_Generation a =? S_Generation src)
  && After (G_ExpiresAt a) now.

(** With an authority epoch configured, an observation counts only while its
    reporter does. *)
Definition reporter_ok (s : Service) (tx : Tx) (o : Observation) (now : Time) : M bool :=
  if str_eqb (Q_AuthorityEpoch s) "" then ret true else
  match O_Source o with
  | None => ret false
  | Some src =>
      if negb (str_eqb (S_Epoch src) (Q_AuthorityEpoch s)) then ret false else
      let* a := AgentByID tx (S_AgentID src) in
      ret (reporter_live s src a now)
  end.

Definition earlier (a b : Time) : Time := if Before a b then a else b.

(** The loop over the items, with the evidence collected so far and the instant
    until which all of it is valid. *)
Fixpoint collect (s : Service) (tx : Tx) (now : Time) (acc : list EvidenceSnapshot) (until : Time) (items : list Item)
  : M (list EvidenceSnapshot * Time) :=
  match items with
  | [] => ret (acc, until)
  | item :: items =>
      if negb (bool_decide (I_Kind item = Evidence)) then collect s tx now acc until items else
      let ref := self_ref item in
      let* eligible := Eligible tx ref now in
      if negb eligible then collect s tx now acc until items else
      match strict_observation (I_Body item) with
      | None => throw ErrInvalid
      | Some o =>
          let* live := reporter_ok s tx o now in
          if negb live || negb (current_at o now) then collect s tx now acc until items else
          guard (Z.of_nat (length acc) <? 64) ErrBusy ;;
          collect s tx now (acc ++ [mkEvidence ref o]) (earlier (O_ValidUntil o) (earlier (I_ValidUntil item) until)) items
      end
  end.

Definition readSnapshotTx (s : Service) (incidentID : string) (now : Time) (tx : Tx) : M Snapshot :=
  Incident_ tx incidentID ;;
  let* environment := optional (GetEnvironmentContext tx) in
  let* answers := InteractionContext tx incidentID in
  let* items := CurrentEvidence tx incidentID now 100 in
  guard (negb (Z.of_nat (length items) =? 100)) ErrBusy ;;
  let* (evidence, until) := collect s tx now [] (Add now (5 * Minute)) items in
  ret (mkSnapshot evidence (map ES_Ref evidence) until environment answers).

Definition readSnapshot (s : Service) (sc : Scope) (incidentID : string) (now : Time) : M Snapshot :=
  Transact (Q_Epoch s) sc (readSnapshotTx s incidentID now).
End Snapshot.
End Snapshot.
