(* ===== verification/Report.v ===== *)
(** * pkg/agent/collection: the intake of reports

    report.go.  A collector sends what it observed; the orchestrator checks it,
    takes it in at most once, opens an incident when there is a finding, stores a
    new version of each observed item, and moves the incident to RECOVERED and
    back with the recovery assessment. *)

From S2P Require Import Prelude.
From S2P Require Import Sha256.
From S2P Require Import Json.
From S2P Require Import GoTime.
From S2P Require Import Decode.
From S2P Require Import Identity.
From S2P Require Import Authorization.
From S2P Require Import Incident.
From S2P Require Import Db.
From S2P Require Import Sql.
From S2P Require Import Storage.
From S2P Require Import Records.
From S2P Require Import Privacy.
From S2P Require Import Fleet.
From S2P Require Import Recovery.
From S2P Require Import Snapshot.

Module Collection.
Record Report := mkReport {
  RT_ID : string; RT_ClusterUID : string; RT_ObservedAt : Time; RT_Coverage : string;
  RT_Observations : slice Observation }.

Definition report_fields : list (field_decoder Report) :=
  [field "id" RT_ID (fun v r => mkReport v (RT_ClusterUID r) (RT_ObservedAt r) (RT_Coverage r) (RT_Observations r)) dec_string;
   field "cluster_uid" RT_ClusterUID (fun v r => mkReport (RT_ID r) v (RT_ObservedAt r) (RT_Coverage r) (RT_Observations r)) dec_string;
   field "observed_at" RT_ObservedAt (fun v r => mkReport (RT_ID r) (RT_ClusterUID r) v (RT_Coverage r) (RT_Observations r)) dec_time;
   field "coverage" RT_Coverage (fun v r => mkReport (RT_ID r) (RT_ClusterUID r) (RT_ObservedAt r) v (RT_Observations r)) dec_string;
   field "observations" RT_Observations (fun v r => mkReport (RT_ID r) (RT_ClusterUID r) (RT_ObservedAt r) (RT_Coverage r) v)
     (dec_slice zero_obs (dec_struct true (obs_fields true)))].
Definition zero_report : Report := mkReport "" "" zeroTime "" None.

Definition report_json (r : Report) : option json :=
  at_ ← jtime (RT_ObservedAt r); l ← mapM Snapshot.obs_json (elems (RT_Observations r));
  Some (JObj [("id", JStr (RT_ID r)); ("cluster_uid", JStr (RT_ClusterUID r)); ("observed_at", at_);
    ("coverage", JStr (RT_Coverage r)); ("observations", match RT_Observations r with None => JNull | Some _ => JArr l end)]).
Definition report_hash (r : Report) : string := sha256_hex (default "" (Marshal (report_json r))).

(** [int(v)] of a finite double: towards zero. *)
Definition f_trunc (v : float64) : Z :=
  match v with FFin m e => if 0 <=? e then m * 2 ^ e else Z.quot m (2 ^ (- e)) | _ => 0 end.

Definition set_reporter (a : Agent) (report : string) (o : Observation) : Observation :=
  mkObs (Some (mkProv (G_ID a) (G_Generation a) (G_Epoch a) report)) (O_Target o) (O_Code o) (O_ResourceHandle o)
    (O_DependencyHandles o) (O_Metrics o) (O_ObservedAt o) (O_ValidUntil o).

Definition finding (o : Observation) : bool := negb (str_eqb (O_Code o) Healthy) && negb (str_eqb (O_Code o) ReadUnavailable).

(** The stable identifier of what is observed, within an incident. *)
Definition item_id (sc : Scope) (incidentID : string) (o : Observation) : string :=
  sha256_hex (Scope_Key sc +:+ "/" +:+ incidentID +:+ "/" +:+ O_ResourceHandle o +:+ "/" +:+ O_Code o).

Definition sample_of (sc : Scope) (incidentID id : string) (version : Z) (a : Agent) (coverage : string) (o : Observation)
  : option HealthSample :=
  match O_Target o with
  | Some t =>
      if str_eqb (T_Kind t) "Deployment" then
        Some (mkSample sc incidentID (mkRef id version) (O_ResourceHandle o) (T_UID t) (G_ID a) (G_Generation a) (G_Epoch a)
          coverage (str_eqb (O_Code o) Healthy) (f_trunc (default f_zero (assoc "ready_replicas" (O_Metrics o)))) (O_ObservedAt o))
      else None
  | None => None
  end.

Section Intake.
Context `{Env}.

(** ** Validate, with a clock reading at each [time.Now()] *)
Fixpoint check_observations (at_ : Time) (seen : list string) (l : list Observation) : M unit :=
  match l with
  | [] => ret tt
  | o :: l =>
      let key := O_ResourceHandle o +:+ "/" +:+ O_Code o in
      guard (negb (mem_str key seen) && negb (Before (O_ObservedAt o) (Add at_ (- (5 * Minute))))
             && negb (After (O_ObservedAt o) (Add at_ (30 * Second)))) ErrInvalid ;;
      guard (Validate o && bool_decide (O_Source o = None)) ErrInvalid ;;
      let* now := time_now in
      guard (negb (After (O_ObservedAt o) (Add now (30 * Second)))) ErrInvalid ;;
      let* now := time_now in
      guard (After (O_ValidUntil o) now) ErrInvalid ;;
      check_observations at_ (key :: seen) l
  end.

Definition validate_report (r : Report) : M unit :=
  guard (ValidHandle (RT_ID r) && ValidID (RT_ClusterUID r) && negb (IsZero (RT_ObservedAt r))) ErrInvalid ;;
  let* now := time_now in
  guard (negb (After (RT_ObservedAt r) (Add now (30 * Second)))) ErrInvalid ;;
  let* now := time_now in
  guard (Sub now (RT_ObservedAt r) <=? 5 * Minute) ErrInvalid ;;
  guard (negb (50 <? Z.of_nat (length (elems (RT_Observations r))))) ErrInvalid ;;
  guard (mem_str (RT_Coverage r) ["COMPLETE"; "PARTIAL"; "UNAVAILABLE"]) ErrInvalid ;;
  check_observations (RT_ObservedAt r) [] (elems (RT_Observations r)).

(** [DecodeReport]; a report decodes from the text itself, not its canonical form. *)
Definition DecodeReport (raw : string) : M Report :=
  match CanonicalObject raw with
  | Err e => throw e
  | Ok _ =>
      match v ← read_json raw; dec_struct true report_fields v zero_report with
      | None => throw ErrInvalid
      | Some r => validate_report r ;; ret r
      end
  end.

(** ** Ingest *)
Definition open_incident (sc : Scope) (incidentID : string) (at_ : Time) (tx : Tx) : M unit :=
  let* found := optional (Incident_ tx incidentID) in
  match found with
  | Some _ => ret tt
  | None =>
      CreateIncident tx (mkIncident sc incidentID 1 "OPEN" at_) ;;
      Enqueue tx incidentID "INCIDENT_CREATED" (print (JObj [("incident_id", JStr incidentID)]))
  end.

Definition store_observation (sc : Scope) (incidentID : string) (a : Agent) (r : Report) (o : Observation) (tx : Tx)
  : M unit :=
  let id := item_id sc incidentID o in
  open_incident sc incidentID (RT_ObservedAt r) tx ;;
  let* current := optional (CurrentItem tx id) in
  let stale := match current with Some c => negb (After (O_ObservedAt o) (I_ObservedAt c)) | None => false end in
  if stale then ret tt else
  let version := match current with Some c => wrap64 (I_Version c + 1) | None => 1 end in
  FulfillCollectionChecks tx a (O_ResourceHandle o) (O_ObservedAt o) ;;
  let body := default "" (Marshal (Snapshot.obs_json (set_reporter a (RT_ID r) o))) in
  PutItem tx (mkItem sc incidentID id version Evidence body (O_ObservedAt o) (O_ValidUntil o) [] "") ;;
  match sample_of sc incidentID id version a (RT_Coverage r) o with
  | Some s => PutHealthSample tx s
  | None => ret tt
  end.

Definition health := "application-health".
Definition recovery_changed (incidentID status : string) (tx : Tx) : M unit :=
  let* key := NewID in
  Enqueue tx key "RECOVERY_CHANGED" (print (JObj [("incident_id", JStr incidentID); ("status", JStr status)])).

(** The incident follows the assessment of its recovery, when there is a profile. *)
Definition follow_recovery (sc : Scope) (incidentID : string) (tx : Tx) : M unit :=
  let* profile := optional (GetRecoveryProfile tx health) in
  match profile with
  | None => ret tt
  | Some _ =>
      let* at_ := time_now in
      let* a := Recovery.AssessTx tx sc incidentID health at_ in
      let* current := Incident_ tx incidentID in
      if str_eqb (RA_Status a) "RECOVERED" && negb (str_eqb (N_State current) "RECOVERED") then
        UpdateIncident tx incidentID (N_Version current) "RECOVERED" ;; recovery_changed incidentID "RECOVERED" tx
      else if negb (str_eqb (RA_Status a) "RECOVERED") && str_eqb (N_State current) "RECOVERED" then
        UpdateIncident tx incidentID (N_Version current) "OPEN" ;; recovery_changed incidentID (RA_Status a) tx
      else ret tt
  end.

Definition ingestTx (f : Service) (sc : Scope) (token : string) (r : Report) (tx : Tx) : M unit :=
  let* agent := AuthenticateTx f tx token Collector in
  guard (str_eqb (G_ClusterUID agent) (RT_ClusterUID r)) ErrAgentUnauthorized ;;
  let* created := EnqueueOnce tx (RT_ID r) "COLLECTOR_REPORT" (print (JObj [("report_hash", JStr (report_hash r))])) in
  if negb created then ret tt else
  PutCoverage tx agent (RT_Coverage r) (RT_ObservedAt r) ;;
  let* episode := optional (ActiveIncident tx) in
  let intake incidentID :=
    for_each (fun o => store_observation sc incidentID agent r o tx) (elems (RT_Observations r)) ;;
    follow_recovery sc incidentID tx in
  match episode with
  | Some i => intake (N_ID i)
  | None =>
      if negb (existsb finding (elems (RT_Observations r))) then ret tt else
      let* incidentID := NewID in intake incidentID
  end.

Definition Ingest (f : Service) (sc : Scope) (token : string) (r : Report) : M unit :=
  catch (validate_report r) (fun _ => throw ErrInvalid) ;;
  tx_of f sc (ingestTx f sc token r).
End Intake.

(** ** The checks only read the clock *)
Section Pure.
Context `{Env}.
Lemma pure_check_observations at_ l : forall seen, Steps eq (check_observations at_ seen l).
Proof. induction l as [|o l IH]; intros seen; cbn [check_observations]; [steps|]. steps. Qed.
Lemma pure_validate_report r : Steps eq (validate_report r).
Proof. unfold validate_report. repeat first [apply pure_check_observations | steps_one]. Qed.
Lemma pure_DecodeReport raw : Steps eq (DecodeReport raw).
Proof. unfold DecodeReport. repeat first [apply pure_validate_report | steps_one]. Qed.
End Pure.
End Collection.
