(* ===== verification/Registry.v ===== *)
(** * pkg/agent/collection: the registry of local targets

    registry.go.  The collector keeps, in one encrypted file, which Kubernetes
    object a handle stands for; only handles and commitments, which are HMACs
    under a local key, leave the cluster.  The executor opens the same file for
    reading and resolves the handle of an approved plan.

    A method is a function of the registry's fields, of the file, and of what the
    system calls it makes do ([Io]). *)

From S2P Require Import Prelude.
From S2P Require Import Sha256.
From S2P Require Import Json.
From S2P Require Import JsonFacts.
From S2P Require Import Decode.
From S2P Require Import Identity.
From S2P Require Import Authorization.
From S2P Require Import Incident.
From S2P Require Import Snapshot.

(** k8s.io/apimachinery/pkg/util/validation: a name with no message is made of
    lower-case letters, digits, hyphens and dots. *)
Class Names := {
  IsDNS1123Label : string -> bool;
  IsDNS1123Subdomain : string -> bool;
  label_utf8 : forall s, IsDNS1123Label s = true -> utf8 s;
  subdomain_utf8 : forall s, IsDNS1123Subdomain s = true -> utf8 s
}.

(** AES-256-GCM under a 32-byte key, with a nonce of 12 and a tag of 16 bytes. *)
Class GCM := {
  gcm_seal : list Z -> list Z -> string -> string -> list Z;
  gcm_open : list Z -> list Z -> list Z -> string -> option string;
  gcm_open_seal : forall key nonce plain aad, gcm_open key nonce (gcm_seal key nonce plain aad) aad = Some plain;
  gcm_length : forall key nonce plain aad,
    length (gcm_seal key nonce plain aad) = (String.length plain + 16)%nat
}.

Record LocalTarget := mkLocal {
  LT_Scope : Scope; LT_Kind : string; LT_Namespace : string; LT_Name : string; LT_UID : string;
  LT_ResourceVersion : string; LT_Epoch : string; LT_Generation : Z }.

Module Registry.
Definition maxRegistryEntries : Z := 10000.
Definition maxRegistryBytes : Z := 16777216.
Definition registrySchema : string := "sre-local-targets-v1" +:+ String (chr 10) "".
Definition NonceSize : nat := 12.
Definition Overhead : nat := 16.

Definition target_json (v : LocalTarget) : json :=
  JObj [("scope", scope_json (LT_Scope v)); ("kind", JStr (LT_Kind v)); ("namespace", JStr (LT_Namespace v));
        ("name", JStr (LT_Name v)); ("uid", JStr (LT_UID v)); ("resource_version", JStr (LT_ResourceVersion v));
        ("epoch", JStr (LT_Epoch v)); ("generation", jint (LT_Generation v))].
Definition zero_target : LocalTarget := mkLocal (mkScope "" "" "") "" "" "" "" "" "" 0.
Definition target_fields : list (field_decoder LocalTarget) :=
  [field "scope" LT_Scope (fun x v => mkLocal x (LT_Kind v) (LT_Namespace v) (LT_Name v) (LT_UID v) (LT_ResourceVersion v) (LT_Epoch v) (LT_Generation v)) (dec_struct true (Snapshot.scope_fields true));
   field "kind" LT_Kind (fun x v => mkLocal (LT_Scope v) x (LT_Namespace v) (LT_Name v) (LT_UID v) (LT_ResourceVersion v) (LT_Epoch v) (LT_Generation v)) dec_string;
   field "namespace" LT_Namespace (fun x v => mkLocal (LT_Scope v) (LT_Kind v) x (LT_Name v) (LT_UID v) (LT_ResourceVersion v) (LT_Epoch v) (LT_Generation v)) dec_string;
   field "name" LT_Name (fun x v => mkLocal (LT_Scope v) (LT_Kind v) (LT_Namespace v) x (LT_UID v) (LT_ResourceVersion v) (LT_Epoch v) (LT_Generation v)) dec_string;
   field "uid" LT_UID (fun x v => mkLocal (LT_Scope v) (LT_Kind v) (LT_Namespace v) (LT_Name v) x (LT_ResourceVersion v) (LT_Epoch v) (LT_Generation v)) dec_string;
   field "resource_version" LT_ResourceVersion (fun x v => mkLocal (LT_Scope v) (LT_Kind v) (LT_Namespace v) (LT_Name v) (LT_UID v) x (LT_Epoch v) (LT_Generation v)) dec_string;
   field "epoch" LT_Epoch (fun x v => mkLocal (LT_Scope v) (LT_Kind v) (LT_Namespace v) (LT_Name v) (LT_UID v) (LT_ResourceVersion v) x (LT_Generation v)) dec_string;
   field "generation" LT_Generation (fun x v => mkLocal (LT_Scope v) (LT_Kind v) (LT_Namespace v) (LT_Name v) (LT_UID v) (LT_ResourceVersion v) (LT_Epoch v) x) dec_int64].

(** ** Tokens *)
Definition mac (key : list Z) (domain : string) (v : LocalTarget) : string :=
  hex_encode (hmac_sha256 key (domain +:+ encode (target_json v))).
Definition commitment_domain : string := "sre-target-commitment-v1" +:+ nul.
Definition handle_domain : string := "sre-target-handle-v1" +:+ nul.
(** The target with [ResourceVersion] and [Generation] cleared. *)
Definition identity_of (v : LocalTarget) : LocalTarget :=
  mkLocal (LT_Scope v) (LT_Kind v) (LT_Namespace v) (LT_Name v) (LT_UID v) "" (LT_Epoch v) 0.
Definition tokens (key : list Z) (v : LocalTarget) : string * string :=
  (String.substring 0 32 (mac key handle_domain (identity_of v)), mac key commitment_domain v).

(** ** The file *)
Section Registry.
Context `{Names} `{GCM}.

Definition visible (s : string) : bool :=
  negb (slen s =? 0) && negb (256 <? slen s) && str_forall (fun c => negb ((ord c <? 33) || (126 <? ord c))) s.
Definition validLocalTarget (v : LocalTarget) : bool :=
  Scope_Validate (LT_Scope v) && ValidID (LT_Kind v) && ValidID (LT_Epoch v) && negb (LT_Generation v <? 0)
  && IsDNS1123Subdomain (LT_Name v) && (str_eqb (LT_Namespace v) "" || IsDNS1123Label (LT_Namespace v))
  && visible (LT_UID v) && visible (LT_ResourceVersion v).

(** [map[string]LocalTarget], from handles. *)
Definition Entries : Type := list (string * LocalTarget).
Definition File : Type := option (list Z).

Record Registry := mkRegistry { R_key : list Z; R_readOnly : bool; R_closed : bool; R_entries : Entries }.

(** What the calls of one method do: whether the directory checks, the lock and
    the reads succeed, in which order the map is iterated, the random nonce, and
    what becomes of the rename and the sync after it. *)
Inductive save := Saved | Lost | Unacknowledged.
Record Io := mkIo {
  io_readable : bool; io_order : list LocalTarget -> list LocalTarget; io_nonce : list Z; io_save : save;
  io_order_perm : forall l, Permutation (io_order l) l;
  io_nonce_size : length io_nonce = NonceSize }.

(** The second loop of [reload]. *)
Fixpoint index (key : list Z) (entries : Entries) (values : list LocalTarget) : option Entries :=
  match values with
  | [] => Some entries
  | v :: values =>
      if negb (validLocalTarget v) then None else
      let h := fst (tokens key v) in
      match assoc h entries with
      | Some _ => None
      | None => index key (entries ++ [(h, v)]) values
      end
  end.

Definition unseal (key : list Z) (b : list Z) : option Entries :=
  let schema := bytes_of registrySchema in
  if (maxRegistryBytes <? Z.of_nat (length b)) || (length b <? length schema + NonceSize + Overhead)%nat
     || negb (bool_decide (take (length schema) b = schema)) then None else
  let b := drop (length schema) b in
  plain ← gcm_open key (take NonceSize b) (drop NonceSize b) registrySchema;
  raw ← read_json plain;
  values ← dec_slice zero_target (dec_struct true target_fields) raw None;
  match values with
  | None => None
  | Some values => if maxRegistryEntries <? Z.of_nat (length values) then None else index key [] values
  end.

Definition reload (io : Io) (r : Registry) (file : File) : option Registry :=
  if negb (io_readable io) then None else
  b ← file; es ← unseal (R_key r) b;
  Some (mkRegistry (R_key r) (R_readOnly r) (R_closed r) es).

(** [persist]: whether it reports success, and the file it leaves. *)
Definition persist (io : Io) (key : list Z) (entries : Entries) (file : File) : bool * File :=
  if negb (io_readable io) || (maxRegistryEntries <? Z.of_nat (length entries)) then (false, file) else
  let plain := encode (JArr (map target_json (io_order io (map snd entries)))) in
  if maxRegistryBytes <? slen plain + slen registrySchema + Z.of_nat NonceSize + Z.of_nat Overhead then (false, file) else
  let data := bytes_of registrySchema ++ io_nonce io ++ gcm_seal key (io_nonce io) plain registrySchema in
  match io_save io with
  | Saved => (true, Some data)
  | Lost => (false, file)
  | Unacknowledged => (false, Some data)
  end.

(** ** Methods *)
Definition OpenRegistry (io : Io) (key : list Z) (readOnly : bool) (file : File) : option Registry * File :=
  if negb (length key =? 32)%nat || negb (io_readable io) then (None, file) else
  let r := mkRegistry key readOnly false [] in
  match file with
  | None =>
      if readOnly then (None, file) else
      let '(ok, file) := persist io key [] file in
      (if ok : bool then reload io r file else None, file)
  | Some _ => (reload io r file, file)
  end.

Definition Put (io : Io) (v : LocalTarget) (r : Registry) (file : File) : option (string * string) * Registry * File :=
  if R_closed r || R_readOnly r || negb (validLocalTarget v) then (None, r, file) else
  match reload io r file with
  | None => (None, r, file)
  | Some r =>
      let '(h, c) := tokens (R_key r) v in
      if bool_decide (assoc h (R_entries r) = None) && (maxRegistryEntries <=? Z.of_nat (length (R_entries r)))
      then (None, r, file) else
      let next := assoc_set h v (R_entries r) in
      let '(ok, file) := persist io (R_key r) next file in
      if ok : bool then (Some (h, c), mkRegistry (R_key r) (R_readOnly r) (R_closed r) next, file) else (None, r, file)
  end.

Definition Resolve (io : Io) (handle commitment : string) (r : Registry) (file : File) : option LocalTarget * Registry :=
  if R_closed r || negb (slen handle =? 32) || negb (slen commitment =? 64) then (None, r) else
  match reload io r file with
  | None => (None, r)
  | Some r =>
      match assoc handle (R_entries r) with
      | None => (None, r)
      | Some v => (if str_eqb (snd (tokens (R_key r) v)) commitment then Some v else None, r)
      end
  end.

Definition ReconcileLive (io : Io) (sc : Scope) (handles : list string) (r : Registry) (file : File) : bool * Registry * File :=
  if R_closed r || R_readOnly r || negb (Scope_Validate sc) || (10000 <? Z.of_nat (length handles)) then (false, r, file) else
  match reload io r file with
  | None => (false, r, file)
  | Some r =>
      if negb (forallb (fun h => slen h =? 32) handles) then (false, r, file) else
      let next := List.filter (fun kv => negb (scope_eqb (LT_Scope (snd kv)) sc) || mem_str (fst kv) handles) (R_entries r) in
      if (length next =? length (R_entries r))%nat then (true, r, file) else
      let '(ok, file) := persist io (R_key r) next file in
      if ok : bool then (true, mkRegistry (R_key r) (R_readOnly r) (R_closed r) next, file) else (false, r, file)
  end.

(** [Close] also clears the key. *)
Definition Close (r : Registry) : Registry :=
  if R_closed r then r else mkRegistry (map (fun _ => 0) (R_key r)) (R_readOnly r) true [].
End Registry.
End Registry.
