(* ===== verification/Scheduler.v ===== *)
(** * pkg/scanplan and pkg/scheduler: which scans run, and when

    plan.go, trigger.go and scheduler.go.  A periodic scan and the scans that
    changed objects ask for share one gate; triggers wait in a bounded queue that
    keeps the latest state of each object.  The goroutines of [RunWithTriggers] and
    of the callers of [Enqueue] are a state machine whose events ([event]) are their
    atomic steps, so that every interleaving is a sequence of events.  The jobs
    themselves, timers and the context are events too. *)

From S2P Require Import Prelude.
From S2P Require Import Json.
From S2P Require Import GoTime.
From S2P Require Import Decode.
From S2P Require Import Text.

(** The tables of package unicode beyond ASCII: [unicode.ToLower] and [ToUpper],
    and a representative of the characters that fold to one another. *)
Class Unicode := { unicode_lower : Z -> Z; unicode_upper : Z -> Z; unicode_fold : Z -> Z }.

(** What apimachinery says of label selectors and names. *)
Class Selectors := { selector_parses : string -> bool; dns_label : string -> bool; dns_subdomain : string -> bool }.

Section Strings.
Context `{Unicode}.
Definition lower_rune (r : Z) : Z :=
  if (65 <=? r) && (r <=? 90) then r + 32 else if r <? 128 then r else unicode_lower r.
Definition ToLower (s : string) : string := encode_runes (map lower_rune (runes s)).
Definition upper_rune (r : Z) : Z :=
  if (97 <=? r) && (r <=? 122) then r - 32 else if r <? 128 then r else unicode_upper r.
Definition ToUpper (s : string) : string := encode_runes (map upper_rune (runes s)).
Definition case_fold (r : Z) : Z := let f := fold_rune r in if f <? 128 then f else unicode_fold f.
Definition EqualFold (s t : string) : bool := bool_decide (map case_fold (runes s) = map case_fold (runes t)).
End Strings.

(** ** pkg/scanplan *)
Module Scanplan.
Definition SchemaVersion_ := "scan/v1".
Definition DefaultConcurrency := 8.
Definition MaxConcurrency_ := 32.
Definition DefaultScanTimeout : Duration := 5 * Minute.
Definition MaxScanTimeout : Duration := 15 * Minute.

Record Plan := mkPlan {
  SchemaVersion : string; IncludeNamespaces : list string; ExcludeNamespaces : list string; LabelSelector : string;
  Kinds : list string; Names : list string; Analyzers : list string; MaxConcurrency : Z; Timeout : Duration }.
Definition Default : Plan := mkPlan SchemaVersion_ [] [] "" [] [] [] DefaultConcurrency DefaultScanTimeout.

Section Plans.
Context `{Unicode}.

(** The values, trimmed, the first of those that differ in case only. *)
Fixpoint distinct (seen : list string) (values : list string) : list string :=
  match values with
  | [] => []
  | value :: values =>
      let value := TrimSpace value in
      let key := ToLower value in
      if str_eqb value "" || mem_str key seen then distinct seen values
      else value :: distinct (key :: seen) values
  end.
Definition normalizeValues (values : list string) : list string := isort str_leb (distinct [] values).

Definition containsFold (values : list string) (wanted : string) : bool :=
  existsb (fun value => EqualFold value wanted) values.
Definition intersect (left right : list string) : list string := List.filter (containsFold right) left.

Definition normalized (p : Plan) : Plan :=
  mkPlan (if str_eqb (SchemaVersion p) "" then SchemaVersion_ else SchemaVersion p)
    (normalizeValues (IncludeNamespaces p)) (normalizeValues (ExcludeNamespaces p)) (TrimSpace (LabelSelector p))
    (normalizeValues (Kinds p)) (normalizeValues (Names p)) (normalizeValues (Analyzers p))
    (if MaxConcurrency p =? 0 then DefaultConcurrency else MaxConcurrency p)
    (if Timeout p =? 0 then DefaultScanTimeout else Timeout p).

(** [Validate], whose errors differ in their text only. *)
Definition Validate `{Selectors} (known : list string) (p : Plan) : bool :=
  let p := normalized p in
  let known := map (fun a => ToLower (TrimSpace a)) known in
  str_eqb (SchemaVersion p) SchemaVersion_ && selector_parses (LabelSelector p)
  && (1 <=? MaxConcurrency p) && (MaxConcurrency p <=? MaxConcurrency_)
  && (1000 * Microsecond <=? Timeout p) && (Timeout p <=? MaxScanTimeout)
  && (Z.of_nat (length (intersect (IncludeNamespaces p) (ExcludeNamespaces p))) =? 0)
  && forallb dns_label (IncludeNamespaces p ++ ExcludeNamespaces p) && forallb dns_subdomain (Names p)
  && forallb (str_forall (fun c => negb (is_char 13 c || is_char 10 c || is_char 0 c))) (Kinds p)
  && forallb (fun a => mem_str (ToLower a) known) (Analyzers p).

Definition IncludesNamespace (p : Plan) (namespace : string) : bool :=
  let p := normalized p in
  let namespace := TrimSpace namespace in
  if containsFold (ExcludeNamespaces p) namespace then false
  else bool_decide (IncludeNamespaces p = []) || containsFold (IncludeNamespaces p) namespace.
Definition Includes (p : Plan) (kind name namespace : string) : bool :=
  let p := normalized p in
  if negb (IncludesNamespace p namespace) then false
  else if negb (bool_decide (Kinds p = [])) && negb (containsFold (Kinds p) kind) then false
  else bool_decide (Names p = []) || containsFold (Names p) name.
Definition IncludesAnalyzer (p : Plan) (name : string) : bool :=
  let p := normalized p in bool_decide (Analyzers p = []) || containsFold (Analyzers p) name.
Definition NamespaceArgument (p : Plan) : string :=
  let p := normalized p in
  match IncludeNamespaces p, ExcludeNamespaces p with [n], [] => n | _, _ => "" end.
End Plans.
End Scanplan.

(** ** pkg/scheduler *)
Module Scheduler.
Import Scanplan.
Definition DefaultTriggerQueueCapacity := 256.
Definition DefaultTriggerDebounce : Duration := 2 * Second.

Record Trigger := mkTrigger {
  T_Resource : string; T_Namespace : string; T_Name : string; T_EventType : string; T_TargetResource : string;
  T_TargetNamespace : string; T_TargetName : string }.
Definition normalized (t : Trigger) : Trigger :=
  mkTrigger (TrimSpace (T_Resource t)) (TrimSpace (T_Namespace t)) (TrimSpace (T_Name t)) (TrimSpace (T_EventType t))
    (TrimSpace (T_TargetResource t)) (TrimSpace (T_TargetNamespace t)) (TrimSpace (T_TargetName t)).

Inductive Error := QueueConfiguration | LeaseConfiguration | AlreadyRunning | Cancelled | JobFailed.

Record TriggerQueue := mkQueue {
  Q_pending : list (string * Trigger); Q_capacity : Z; Q_debounce : Duration; Q_notify : bool; Q_dropped : Z }.
Definition NewTriggerQueue (capacity : Z) (debounce : Duration) : Error + TriggerQueue :=
  if (capacity <=? 0) || (debounce <? 0) then inl QueueConfiguration else inr (mkQueue [] capacity debounce false 0).

(** [New]: an interval with a jitter below it. *)
Definition New (interval jitter : Duration) : Error + (Duration * Duration) :=
  if (interval <=? 0) || (jitter <? 0) || (interval <=? jitter) then inl LeaseConfiguration else inr (interval, jitter).

Section Queue.
Context `{Unicode}.

Definition nul := String (chr 0) "".
Definition Key (t : Trigger) : string :=
  let t := normalized t in
  if str_eqb (T_Resource t) "" then "" else ToLower (join nul [T_Resource t; T_Namespace t; T_Name t]).

(** [Enqueue] up to its unlock; an accepted trigger is then announced. *)
Definition put (q : TriggerQueue) (trigger : Trigger) : bool * TriggerQueue :=
  let trigger := normalized trigger in
  let key := Key trigger in
  if str_eqb key "" then (false, q) else
  if bool_decide (assoc key (Q_pending q) = None) && (Q_capacity q <=? Z.of_nat (length (Q_pending q))) then
    (false, mkQueue (Q_pending q) (Q_capacity q) (Q_debounce q) (Q_notify q) ((Q_dropped q + 1) mod 2 ^ 64))
  else (true, mkQueue (assoc_set key trigger (Q_pending q)) (Q_capacity q) (Q_debounce q) (Q_notify q) (Q_dropped q)).
(** The send that never blocks, into a channel of one slot, and its receipt. *)
Definition notify (b : bool) (q : TriggerQueue) : TriggerQueue :=
  mkQueue (Q_pending q) (Q_capacity q) (Q_debounce q) b (Q_dropped q).
Definition Enqueue (q : TriggerQueue) (trigger : Trigger) : bool * TriggerQueue :=
  let '(accepted, q) := put q trigger in (accepted, if accepted then notify true q else q).

Definition Pending (q : TriggerQueue) : Z := Z.of_nat (length (Q_pending q)).
Definition DropCount (q : TriggerQueue) : Z := Q_dropped q.

(** The order of the map does not matter: no two pending triggers have a key in common. *)
Definition drain (q : TriggerQueue) : list Trigger * TriggerQueue :=
  (isort (fun a b => str_leb (Key a) (Key b)) (map snd (Q_pending q)),
   mkQueue [] (Q_capacity q) (Q_debounce q) (Q_notify q) (Q_dropped q)).

(** ** RunWithTriggers

    Where the goroutine of [TriggerQueue.Run] is: in its select; debouncing; before
    the next trigger of a batch; before an attempt ([runOnceJob]) at a trigger;
    between two attempts; in its job; returned. *)
Inductive Consumer :=
| Selecting | Debouncing | Batch (l : list Trigger) | Attempting (t : Trigger) (l : list Trigger)
| Backoff (t : Trigger) (l : list Trigger) | Working (t : Trigger) (l : list Trigger) | Ended.
(** [Runner.Run]: before its first job; in a job, the first or a later one; in the
    wait between two; returned. *)
Inductive Periodic := Starting | Scanning (first : bool) | Waiting | Returned (e : Error).

(** [R_offering] callers of [Enqueue] are between their unlock and their send.
    [R_history] is what was accepted and what jobs were started, in order. *)
Inductive Happened := Accepted (t : Trigger) | Started (t : Trigger).
Record Runner := mkRunner {
  R_queue : TriggerQueue; R_consumer : Consumer; R_periodic : Periodic; R_running : bool; R_cancelled : bool;
  R_offering : nat; R_history : list Happened }.
Definition start (q : TriggerQueue) : Runner := mkRunner q Selecting Starting false false 0 [].

Inductive event :=
| Offer (t : Trigger) | Announce | Cancel
| Wake | Debounced | Next | Attempt | Retry | GiveUp | Done | Quit
| Scan | Scanned (failed : bool) | Halt.

(** [runOnceJob] up to its job: the context, then the gate. *)
Definition runOnceJob (r : Runner) : option Error :=
  if R_cancelled r then Some Cancelled else if R_running r then Some AlreadyRunning else None.

Definition with_consumer (c : Consumer) (r : Runner) : Runner :=
  mkRunner (R_queue r) c (R_periodic r) (R_running r) (R_cancelled r) (R_offering r) (R_history r).
Definition with_queue (q : TriggerQueue) (c : Consumer) (r : Runner) : Runner :=
  mkRunner q c (R_periodic r) (R_running r) (R_cancelled r) (R_offering r) (R_history r).
(** [Run] of the runner returns: [RunWithTriggers] cancels the context of the queue. *)
Definition returned (e : Error) (r : Runner) : Runner :=
  mkRunner (R_queue r) (R_consumer r) (Returned e) (R_running r) true (R_offering r) (R_history r).
Definition scanning (first : bool) (r : Runner) : Runner :=
  mkRunner (R_queue r) (R_consumer r) (Scanning first) true (R_cancelled r) (R_offering r) (R_history r).
Definition idle (r : Runner) : Runner :=
  mkRunner (R_queue r) (R_consumer r) Waiting false (R_cancelled r) (R_offering r) (R_history r).

(** What an event does, where it can happen. *)
Definition fire (e : event) (r : Runner) : option Runner :=
  let q := R_queue r in
  match e with
  | Offer t =>
      let '(accepted, q) := put q t in
      Some (if accepted
            then mkRunner q (R_consumer r) (R_periodic r) (R_running r) (R_cancelled r) (S (R_offering r))
                   (R_history r ++ [Accepted (normalized t)])
            else with_queue q (R_consumer r) r)
  | Announce =>
      match R_offering r with
      | O => None
      | S n => Some (mkRunner (notify true q) (R_consumer r) (R_periodic r) (R_running r) (R_cancelled r) n (R_history r))
      end
  | Cancel => Some (mkRunner q (R_consumer r) (R_periodic r) (R_running r) true (R_offering r) (R_history r))
  | Wake =>
      match R_consumer r with
      | Selecting => if Q_notify q then Some (with_queue (notify false q) Debouncing r) else None
      | _ => None
      end
  | Debounced =>
      match R_consumer r with
      | Debouncing => let '(l, q) := drain q in Some (with_queue q (Batch l) r)
      | _ => None
      end
  | Next =>
      match R_consumer r with
      | Batch [] => Some (with_consumer Selecting r)
      | Batch (t :: l) => Some (with_consumer (if R_cancelled r then Ended else Attempting t l) r)
      | _ => None
      end
  | Attempt =>
      match R_consumer r with
      | Attempting t l =>
          Some (match runOnceJob r with
                | None => mkRunner q (Working t l) (R_periodic r) true (R_cancelled r) (R_offering r) (R_history r ++ [Started t])
                | Some AlreadyRunning => with_consumer (Backoff t l) r
                | Some _ => with_consumer (Batch l) r
                end)
      | _ => None
      end
  | Retry => match R_consumer r with Backoff t l => Some (with_consumer (Attempting t l) r) | _ => None end
  | GiveUp =>
      match R_consumer r with
      | Backoff _ l => if R_cancelled r then Some (with_consumer (Batch l) r) else None
      | _ => None
      end
  | Done =>
      match R_consumer r with
      | Working _ l =>
          Some (mkRunner q (Batch l) (R_periodic r) false (R_cancelled r) (R_offering r) (R_history r))
      | _ => None
      end
  | Quit =>
      match R_consumer r with
      | Selecting => if R_cancelled r then Some (with_consumer Ended r) else None
      | Debouncing => if R_cancelled r && (0 <? Q_debounce q) then Some (with_consumer Ended r) else None
      | _ => None
      end
  | Scan =>
      match R_periodic r with
      | Starting => Some (match runOnceJob r with Some e => returned e r | None => scanning true r end)
      | Waiting => Some (match runOnceJob r with Some _ => r | None => scanning false r end)
      | _ => None
      end
  | Scanned failed =>
      match R_periodic r with
      | Scanning first => Some (if first && failed then returned JobFailed (idle r) else idle r)
      | _ => None
      end
  | Halt =>
      match R_periodic r with
      | Waiting => if R_cancelled r then Some (returned Cancelled r) else None
      | _ => None
      end
  end.
Fixpoint fire_all (es : list event) (r : Runner) : option Runner :=
  match es with [] => Some r | e :: es => r ← fire e r; fire_all es r end.

(** ** kube_trigger.go: what an informer's callback enqueues

    Of an API object only these fields are read. *)
Record KubeEvent := mkKubeEvent {
  KE_Namespace : string; KE_Name : string; KE_Type : string; KE_InvolvedKind : string; KE_InvolvedNamespace : string;
  KE_InvolvedName : string }.
Definition enqueuePod (change namespace name : string) : list Trigger :=
  if str_eqb name "" then [] else [mkTrigger "Pod" namespace name change "" "" ""].
Definition enqueueEvent (change : string) (e : KubeEvent) : list Trigger :=
  if str_eqb (KE_Name e) "" || (negb (str_eqb (KE_Type e) "") && negb (EqualFold (KE_Type e) "Warning")) then [] else
  let involved := TrimSpace (KE_InvolvedNamespace e) in
  let targetNamespace := if str_eqb involved "" then KE_Namespace e else involved in
  let targetKind := TrimSpace (KE_InvolvedKind e) in
  let targetName := TrimSpace (KE_InvolvedName e) in
  mkTrigger "Event" (KE_Namespace e) (KE_Name e) change targetKind targetNamespace targetName ::
  (if str_eqb targetKind "" || str_eqb targetName "" then []
   else [mkTrigger targetKind targetNamespace targetName (ToUpper (TrimSpace (KE_Type e))) "" "" ""]).
(** [enqueue], with the source's filter. *)
Definition enqueue (filter : Trigger -> bool) (q : TriggerQueue) (l : list Trigger) : TriggerQueue :=
  fold_left (fun q t => if filter t then snd (Enqueue q t) else q) l q.

(** ** PlanForTrigger *)
Definition triggerKindAllowed (kinds : list string) (wanted : string) : bool :=
  let lists name := existsb (fun kind => EqualFold (TrimSpace kind) name) kinds in
  lists wanted
  || (mem_str (ToLower (TrimSpace wanted)) ["deployment"; "statefulset"; "daemonset"; "replicaset"; "job"; "cronjob"]
      && lists "workload")
  || (mem_str (ToLower (TrimSpace wanted)) ["persistentvolume"; "persistentvolumeclaim"; "storageclass"]
      && lists "storage").
Definition containsTriggerName (names : list string) (wanted : string) : bool :=
  existsb (fun name => EqualFold (TrimSpace name) (TrimSpace wanted)) names.
Definition triggerNameAllowed (base : Plan) (t : Trigger) : bool :=
  bool_decide (Names base = []) || containsTriggerName (Names base) (T_Name t)
  || (EqualFold (T_Resource t) "Event" && containsTriggerName (Names base) (T_TargetName t)).
Definition uniqueCaseInsensitive (values : list string) : list string :=
  isort (fun a b => str_leb (ToLower a) (ToLower b)) (distinct [] values).

Definition target_resource (t : Trigger) : string :=
  if str_eqb (T_TargetResource t) "" then T_Resource t else T_TargetResource t.
Definition target_namespace (t : Trigger) : string :=
  if str_eqb (T_TargetResource t) "" || str_eqb (T_TargetNamespace t) "" then T_Namespace t else T_TargetNamespace t.

(** The kinds to scan for a normalized trigger, of those that the base plan allows. *)
Definition kind_allowed (base : Plan) (kind : string) : bool :=
  bool_decide (Kinds base = []) || triggerKindAllowed (Kinds base) kind.
Definition trigger_kinds (base : Plan) (t : Trigger) : list string :=
  let resource := target_resource t in
  List.filter (kind_allowed base)
    (resource :: (if EqualFold (T_Resource t) "Event" || EqualFold resource "Pod" then ["Event"] else [])).

Definition PlanForTrigger (base : Plan) (trigger : Trigger) : option Plan :=
  let trigger := normalized trigger in
  let namespace := target_namespace trigger in
  if str_eqb (T_Resource trigger) ""
     || (negb (str_eqb namespace "") && negb (IncludesNamespace base namespace))
     || negb (kind_allowed base (target_resource trigger) || kind_allowed base (T_Resource trigger))
     || negb (triggerNameAllowed base trigger) || bool_decide (trigger_kinds base trigger = [])
  then None
  else Some (mkPlan (SchemaVersion base)
    (if negb (str_eqb namespace "") && bool_decide (IncludeNamespaces base = []) then [namespace] else IncludeNamespaces base)
    (ExcludeNamespaces base) (LabelSelector base) (uniqueCaseInsensitive (trigger_kinds base trigger)) [] (Analyzers base)
    (MaxConcurrency base) (Timeout base)).
End Queue.
End Scheduler.
