(* ===== verification/Toy.v ===== *)
(** * A concrete cipher for the witnesses

    The AEAD of queued grants and AES-GCM of the registry are parameters of the
    model.  These instances show that their laws can hold: the plain text,
    escaped, with the associated data after it; the plain text with a tag of
    sixteen bytes.  No definition of the model uses them. *)

From S2P Require Import Prelude.
From S2P Require Import Json.
From S2P Require Import Sha256.
From S2P Require Import Authorization.
From S2P Require Import Registry.

Module Toy.

Fixpoint bytes (s : string) : list Z :=
  match s with EmptyString => [] | String c s => ord c :: bytes s end.
Fixpoint escaped (s : string) (rest : list Z) : list Z :=
  match s with EmptyString => 0 :: rest | String c s => 1 :: ord c :: escaped s rest end.
Fixpoint unescape (l : list Z) : option (string * list Z) :=
  match l with
  | 0 :: rest => Some ("", rest)
  | 1 :: z :: l => '(s, rest) ← unescape l; Some (String (chr z) s, rest)
  | _ => None
  end.

Definition seal (key nonce : list Z) (pt aad : string) : list Z := replicate 16 0 ++ escaped pt (bytes aad).
Definition open (key nonce ct : list Z) (aad : string) : option string :=
  '(pt, rest) ← unescape (drop 16 ct); if bool_decide (rest = bytes aad) then Some pt else None.

Lemma unescape_escaped pt rest : unescape (escaped pt rest) = Some (pt, rest).
Proof. induction pt as [|c pt IH]; [done|]. cbn [escaped unescape]. rewrite IH. cbn. by rewrite chr_ord. Qed.

Lemma bytes_inj a b : bytes a = bytes b -> a = b.
Proof.
  revert b. induction a as [|x a IH]; intros [|y b]; cbn; try done. intros [= E1 E2].
  rewrite <- (chr_ord x), <- (chr_ord y), E1. f_equal. by apply IH.
Qed.

Lemma bytes_bound s : Forall (fun b => 0 <= b < 256) (bytes s).
Proof. induction s as [|c s IH]; cbn; constructor; [apply ord_bound|done]. Qed.

Lemma escaped_bound pt rest : Forall (fun b => 0 <= b < 256) rest -> Forall (fun b => 0 <= b < 256) (escaped pt rest).
Proof.
  intros Hr. induction pt as [|c pt IH]; cbn; [by constructor|]. constructor; [done|]. constructor; [apply ord_bound|done].
Qed.

#[export] Instance cipher : AEAD.
Proof.
  refine {| Authorization.seal := seal; Authorization.open := open |}.
  - intros k n pt aad. unfold open, seal. rewrite drop_app_length' by done. rewrite unescape_escaped. cbn.
    by rewrite bool_decide_true.
  - intros k n pt aad aad' Hne. unfold open, seal. rewrite drop_app_length' by done. rewrite unescape_escaped. cbn.
    rewrite bool_decide_false; [done|]. intros E. by apply bytes_inj in E.
  - intros k n pt aad. unfold seal. rewrite length_app, length_replicate. lia.
  - intros k n pt aad. unfold seal. apply Forall_app. split; [|apply escaped_bound, bytes_bound].
    apply Forall_forall. intros x ->%elem_of_replicate_inv. lia.
Defined.

(** The cipher of the registry: the plain text and sixteen bytes. *)
Definition registry_seal (key nonce : list Z) (plain aad : string) : list Z := bytes_of plain ++ repeat 0 16.
Definition registry_open (key nonce ct : list Z) (aad : string) : option string :=
  Some (string_of (take (length ct - 16) ct)).

Lemma string_of_bytes s : string_of (bytes_of s) = s.
Proof. induction s as [|c s IH]; [reflexivity|]. cbn. by rewrite IH, chr_ord. Qed.
Lemma length_bytes s : length (bytes_of s) = String.length s.
Proof. induction s as [|c s IH]; [reflexivity|]. cbn. by rewrite IH. Qed.

#[export] Instance gcm : GCM.
Proof.
  refine {| gcm_seal := registry_seal; gcm_open := registry_open |}.
  - intros key nonce plain aad. unfold registry_open, registry_seal.
    rewrite length_app, repeat_length, Nat.add_sub, take_app_length. by rewrite string_of_bytes.
  - intros key nonce plain aad. unfold registry_seal. by rewrite length_app, repeat_length, length_bytes.
Defined.
End Toy.
