(* ===== verification/RegistryFacts.v ===== *)
(** * The registry's file is a map

    What is sealed is read back; an HMAC that repeats repeats a SHA-256; and every
    method, whatever its system calls do, takes the map that the file stands for
    to the map it should become. *)

From S2P Require Import Prelude.
From S2P Require Import Sha256.
From S2P Require Import Json.
From S2P Require Import JsonFacts.
From S2P Require Import Decode.
From S2P Require Import Assoc.
From S2P Require Import Identity.
From S2P Require Import Authorization.
From S2P Require Import Incident.
From S2P Require Import Snapshot.
From S2P Require Import Registry.

Import Registry.

(** ** HMAC *)
Definition sha_collision : Prop := exists x y : string, x <> y /\ sha256 x = sha256 y.

Lemma bytes_string_of l : Forall (fun b => 0 <= b < 256) l -> bytes_of (string_of l) = l.
Proof. induction 1 as [|b l Hb _ IH]; [done|]. cbn. by rewrite IH, ord_chr_id. Qed.
Lemma string_of_inj l l' :
  Forall (fun b => 0 <= b < 256) l -> Forall (fun b => 0 <= b < 256) l' -> string_of l = string_of l' -> l = l'.
Proof. intros H H' E. by rewrite <- (bytes_string_of l H), E, bytes_string_of. Qed.

Lemma app_inv_s (p a b : string) : p +:+ a = p +:+ b -> a = b.
Proof. induction p as [|c p IH]; [done|]. intros [= E]. by apply IH. Qed.

Lemma hmac_bound key msg : Forall (fun b => 0 <= b < 256) (hmac_sha256 key msg).
Proof. apply sha256_bound. Qed.

Definition hmac_pad (byte : Z) (key : list Z) : string :=
  string_of (map (Z.lxor byte) (key ++ replicate (64 - length key) 0)).
Lemma hmac_eq key msg :
  hmac_sha256 key msg = sha256 (hmac_pad 0x5c key +:+ string_of (sha256 (hmac_pad 0x36 key +:+ msg))).
Proof. reflexivity. Qed.

Lemma hmac_repeats key a b : hmac_sha256 key a = hmac_sha256 key b -> a = b \/ sha_collision.
Proof.
  rewrite !hmac_eq. intros E.
  destruct (decide (hmac_pad 0x36 key +:+ a = hmac_pad 0x36 key +:+ b)) as [E1|N1]; [left; by apply app_inv_s in E1|].
  right. destruct (decide (sha256 (hmac_pad 0x36 key +:+ a) = sha256 (hmac_pad 0x36 key +:+ b))) as [E2|N2].
  - by exists (hmac_pad 0x36 key +:+ a), (hmac_pad 0x36 key +:+ b).
  - eexists _, _. split; [|exact E]. intros E3%app_inv_s%string_of_inj; [done|apply sha256_bound..].
Qed.

(** ** The text of a target *)
Definition clean (v : LocalTarget) : Prop :=
  scope_utf8 (LT_Scope v) /\
  Forall utf8 [LT_Kind v; LT_Namespace v; LT_Name v; LT_UID v; LT_ResourceVersion v; LT_Epoch v] /\
  int64_ok (LT_Generation v).

Lemma good_target d v : d <= 30 -> clean v -> good d (target_json v).
Proof.
  intros Hd (Hs & Hf & Hg). pose proof (good_scope (d + 1) _ ltac:(lia) Hs).
  repeat (apply Forall_cons in Hf as [? Hf]). unfold target_json. good_tac.
Qed.

Lemma dec_scope_json s old : dec_struct true (Snapshot.scope_fields true) (scope_json s) old = Some s.
Proof. destruct s as [o c a]. cbn [dec_struct scope_json]. unfold Snapshot.scope_fields. repeat dec_step. done. Qed.

Lemma dec_target v old : clean v -> dec_struct true target_fields (target_json v) old = Some v.
Proof.
  intros (_ & _ & Hg). cbn [dec_struct target_json]. unfold target_fields.
  dec_step. rewrite dec_scope_json. cbn [mbind option_bind]. repeat dec_step.
  cbn [dec_int64 jint]. rewrite (parse_int_show _ Hg). by destruct v.
Qed.

Lemma target_text_inj v v' : clean v -> clean v' -> encode (target_json v) = encode (target_json v') -> v = v'.
Proof.
  intros H H' E. apply (f_equal read_json) in E. rewrite !read_json_encode in E by (by apply good_target).
  assert (Ej : target_json v = target_json v') by congruence.
  pose proof (dec_target v zero_target H) as D. rewrite Ej, dec_target in D by done. congruence.
Qed.

(** A commitment names one target. *)
Lemma commitment_names key v v' :
  clean v -> clean v' -> snd (tokens key v) = snd (tokens key v') -> v = v' \/ sha_collision.
Proof.
  intros H H' E. apply hex_encode_inj in E; [|apply hmac_bound..].
  destruct (hmac_repeats _ _ _ E) as [E'|]; [|by right]. left. apply target_text_inj; [done..|]. by apply app_inv_s in E'.
Qed.

Lemma dec_targets vs : Forall clean vs ->
  dec_elems zero_target (dec_struct true target_fields) (map target_json vs) [] = Some vs.
Proof.
  induction 1 as [|v vs Hv _ IH]; [done|]. cbn [map dec_elems tail]. rewrite dec_target by done.
  cbn [mbind option_bind]. by rewrite IH.
Qed.

(** Evaluating an HMAC of a variable is endless. *)
#[local] Opaque tokens.

Section Facts.
Context `{Names} `{GCM}.

(** ** Entries *)
Definition entry_good (key : list Z) (kv : string * LocalTarget) : Prop :=
  fst kv = fst (tokens key (snd kv)) /\ validLocalTarget (snd kv) = true /\ int64_ok (LT_Generation (snd kv)).
Definition entries_good (key : list Z) (es : Entries) : Prop :=
  NoDup (map fst es) /\ Forall (entry_good key) es.

Lemma visible_utf8 s : visible s = true -> utf8 s.
Proof.
  unfold visible. intros Hv. breflect. apply ascii_utf8. eapply str_forall_impl; [|eassumption].
  intros c Hc. cbv beta in Hc. breflect. apply Z.ltb_lt. lia.
Qed.

Lemma valid_clean v : validLocalTarget v = true -> int64_ok (LT_Generation v) -> clean v.
Proof.
  unfold validLocalTarget, Scope_Validate. intros Hv Hg. breflect. unfold clean, scope_utf8.
  split; [split_and!; by apply ValidID_utf8|]. split; [|done]. repeat apply Forall_cons_2; [by apply ValidID_utf8| | | | | |done].
  - match goal with Ho : _ \/ _ |- _ => destruct Ho as [Ho|Ho]; [|by apply label_utf8]; breflect; rewrite Ho; by apply ascii_utf8 end.
  - by apply subdomain_utf8.
  - by apply visible_utf8.
  - by apply visible_utf8.
  - by apply ValidID_utf8.
Qed.

Lemma index_values key vs : forall acc,
  NoDup (map fst acc ++ map (fun v => fst (tokens key v)) vs) -> Forall (fun v => validLocalTarget v = true) vs ->
  index key acc vs = Some (acc ++ map (fun v => (fst (tokens key v), v)) vs).
Proof.
  induction vs as [|v vs IH]; intros acc Hn Hv; cbn [index map]; [by rewrite app_nil_r|].
  apply Forall_cons in Hv as [Hv Hvs]. rewrite Hv. cbn [negb].
  assert (Ha : assoc (fst (tokens key v)) acc = None).
  { apply assoc_None. intros Hin. apply NoDup_app in Hn as (_ & Hd & _). apply (Hd _ Hin). by left. }
  rewrite Ha, IH; [by rewrite <- app_assoc| |done]. rewrite map_app. cbn [map fst]. by rewrite <- app_assoc.
Qed.

(** What is persisted is read back, in some order. *)
Lemma persist_reads io key es file ok file' :
  entries_good key es -> persist io key es file = (ok, file') ->
  (ok = false /\ file' = file) \/
  (Z.of_nat (length es) <= maxRegistryEntries /\
   exists b es', file' = Some b /\ unseal key b = Some es' /\ Permutation es' es).
Proof.
  intros [Hn Hf] Hp. unfold persist in Hp. case_if_in Hp; [left; by injection Hp as <- <-|].
  case_if_in Hp; [left; by injection Hp as <- <-|]. breflect.
  set (vs := io_order io (map snd es)) in *.
  assert (Hpv : Permutation vs (map snd es)) by apply io_order_perm.
  assert (Hsnd : map (fun v => (fst (tokens key v), v)) (map snd es) = es).
  { clear -Hf. induction Hf as [|[h v] es (Eh & _) _ IH]; [reflexivity|]. cbn [map fst snd] in *. by rewrite IH, <- Eh. }
  assert (Hfst : map (fun v => fst (tokens key v)) (map snd es) = map fst es).
  { rewrite <- Hsnd at 2. rewrite !map_map. reflexivity. }
  assert (Hall : Forall (fun v => validLocalTarget v = true /\ int64_ok (LT_Generation v)) vs).
  { rewrite Hpv. apply Forall_map. eapply Forall_impl; [exact Hf|]. by intros [h v] (_ & ? & ?). }
  set (plain := encode _) in *. set (data := bytes_of registrySchema ++ _) in *.
  assert (Hdata : exists es', unseal key data = Some es' /\ Permutation es' es).
  { exists (map (fun v => (fst (tokens key v), v)) vs). split; [|by rewrite Hpv, Hsnd].
    unfold unseal. cbv zeta.
    assert (Hl : length data = (21 + 12 + (String.length plain + 16))%nat).
    { unfold data. rewrite !length_app, gcm_length, io_nonce_size. reflexivity. }
    rewrite Hl. change (length (bytes_of registrySchema)) with 21%nat. unfold slen in *.
    change (Z.of_nat (String.length registrySchema)) with 21 in *. unfold NonceSize, Overhead in *.
    rewrite (proj2 (Z.ltb_ge _ _)) by lia. rewrite (proj2 (Nat.ltb_ge _ _)) by lia.
    unfold data. rewrite take_app_length' by reflexivity. rewrite bool_decide_true by done. cbn [orb negb].
    rewrite drop_app_length' by reflexivity.
    rewrite take_app_length', drop_app_length' by (symmetry; apply io_nonce_size || apply io_nonce_size).
    rewrite gcm_open_seal. cbn [mbind option_bind]. unfold plain. rewrite read_json_encode.
    2:{ constructor; [lia|]. intros x (v & <- & Hin%list_elem_of_In)%in_map_iff. rewrite Forall_forall in Hall.
        destruct (Hall v Hin). apply good_target; [lia|]. by apply valid_clean. }
    cbn [mbind option_bind dec_slice elems default]. rewrite dec_targets.
    2:{ eapply Forall_impl; [exact Hall|]. intros v [? ?]. by apply valid_clean. }
    cbn [fmap option_fmap option_map mbind option_bind].
    assert (Hlen : length vs = length es) by (by rewrite Hpv, length_map).
    rewrite Hlen, (proj2 (Z.ltb_ge _ _)) by done. rewrite index_values; [done| |].
    - cbn [map app]. by rewrite Hpv, Hfst.
    - eapply Forall_impl; [exact Hall|]. by intros v [? ?]. }
  destruct Hdata as (es' & Hu & Hpe).
  destruct (io_save io); injection Hp as <- <-; [right|by left|right]; split; try done; by exists data, es'.
Qed.

(** ** The map a file stands for *)
Abbreviation target_map := (gmap string LocalTarget).
Definition of_entries (es : Entries) : target_map := list_to_map es.

Lemma of_entries_lookup es h : of_entries es !! h = assoc h es.
Proof.
  unfold of_entries, assoc. induction es as [|[k v] es IH]; [done|].
  change (<[k:=v]> (list_to_map es : target_map) !! h = snd <$> (if str_eqb k h then Some (k, v)
    else List.find (fun kv => str_eqb (fst kv) h) es)).
  destruct (str_eqb k h) eqn:E; breflect.
  - subst. by rewrite lookup_insert_eq.
  - by rewrite lookup_insert_ne.
Qed.

Lemma of_entries_set h v es : of_entries (assoc_set h v es) = <[h:=v]> (of_entries es).
Proof.
  apply map_eq. intros k. rewrite of_entries_lookup. destruct (decide (k = h)) as [->|Hne].
  - by rewrite assoc_set_same, lookup_insert_eq.
  - by rewrite assoc_set_other, lookup_insert_ne, of_entries_lookup.
Qed.

Lemma of_entries_perm es es' : NoDup (map fst es) -> Permutation es' es -> of_entries es' = of_entries es.
Proof. intros Hn Hp. apply list_to_map_proper; [|done]. change (NoDup (map fst es')). by rewrite Hp. Qed.

Lemma of_entries_size es : NoDup (map fst es) -> size (of_entries es) = length es.
Proof. intros Hn. unfold of_entries. by rewrite map_size_list_to_map. Qed.

(** The targets of a scope that are not reported live. *)
Definition gone (sc : Scope) (handles : list string) (kv : string * LocalTarget) : bool :=
  scope_eqb (LT_Scope (snd kv)) sc && negb (mem_str (fst kv) handles).

Lemma of_entries_filter (p : string * LocalTarget -> bool) es : NoDup (map fst es) ->
  of_entries (List.filter p es) = filter (fun kv => p kv = true) (of_entries es).
Proof.
  intros Hn. apply map_eq. intros h. apply option_eq. intros v.
  rewrite map_lookup_filter_Some, !of_entries_lookup.
  rewrite !assoc_Some; [|done|].
  - rewrite !list_elem_of_In, filter_In. tauto.
  - clear v. induction es as [|kv es IH]; [constructor|]. cbn in *. apply NoDup_cons in Hn as [Hk Hn].
    destruct (p kv); cbn; [|by apply IH]. apply NoDup_cons. split; [|by apply IH].
    intros (x & Ex & [Hx _]%list_elem_of_In%filter_In)%list_elem_of_fmap. apply Hk, list_elem_of_fmap. exists x.
    split; [done|]. by apply list_elem_of_In.
Qed.

Definition stands_for (key : list Z) (file : File) (m : target_map) : Prop :=
  match file with
  | None => m = ∅
  | Some b => exists es, unseal key b = Some es /\ of_entries es = m /\ entries_good key es /\
      Z.of_nat (length es) <= maxRegistryEntries
  end.

(** ** What is promised: a map with these steps *)
Inductive event :=
| Opened (readOnly : bool) (ok : bool)
| PutDone (v : LocalTarget) (out : option (string * string))
| Resolved (handle commitment : string) (out : option LocalTarget)
| Reconciled (sc : Scope) (handles : list string) (ok : bool).

Definition storable (v : LocalTarget) : Prop := validLocalTarget v = true /\ int64_ok (LT_Generation v).
Definition put_map (key : list Z) (v : LocalTarget) (m : target_map) : target_map := <[fst (tokens key v) := v]> m.
Definition live_map (sc : Scope) (handles : list string) (m : target_map) : target_map :=
  filter (fun kv => negb (gone sc handles kv) = true) m.

(** A method that fails may still have replaced the file. *)
Inductive map_step (key : list Z) (m : target_map) : event -> target_map -> Prop :=
| ms_opened ro ok : map_step key m (Opened ro ok) m
| ms_put v : storable v -> map_step key m (PutDone v (Some (tokens key v))) (put_map key v m)
| ms_put_failed v m' : m' = m \/ (storable v /\ m' = put_map key v m) -> map_step key m (PutDone v None) m'
| ms_resolved h c v : m !! h = Some v -> snd (tokens key v) = c -> map_step key m (Resolved h c (Some v)) m
| ms_unresolved h c : map_step key m (Resolved h c None) m
| ms_reconciled sc hs : map_step key m (Reconciled sc hs true) (live_map sc hs m)
| ms_not_reconciled sc hs m' : m' = m \/ m' = live_map sc hs m -> map_step key m (Reconciled sc hs false) m'.

(** What the methods do, of any registry opened with [key]. *)
Definition keyed (key : list Z) (r : Registry) : Prop := R_closed r = false -> R_key r = key.
Inductive file_step (key : list Z) (file : File) : event -> File -> Prop :=
| fs_open io ro r file' : OpenRegistry io key ro file = (r, file') ->
    file_step key file (Opened ro (bool_decide (is_Some r))) file'
| fs_put io v r out r' file' : keyed key r -> int64_ok (LT_Generation v) ->
    Put io v r file = (out, r', file') -> file_step key file (PutDone v out) file'
| fs_resolve io h c r out r' : keyed key r ->
    Resolve io h c r file = (out, r') -> file_step key file (Resolved h c out) file
| fs_reconcile io sc hs r ok r' file' : keyed key r ->
    ReconcileLive io sc hs r file = (ok, r', file') -> file_step key file (Reconciled sc hs ok) file'.

Inductive registry_run (key : list Z) : list event -> File -> Prop :=
| rr_nil : registry_run key [] None
| rr_snoc tr file e file' : registry_run key tr file -> file_step key file e file' -> registry_run key (tr ++ [e]) file'.
Inductive map_run (key : list Z) : list event -> target_map -> Prop :=
| mr_nil : map_run key [] ∅
| mr_snoc tr m e m' : map_run key tr m -> map_step key m e m' -> map_run key (tr ++ [e]) m'.

(** ** Refinement, method by method *)
Lemma persist_stands io key es file ok file' m :
  entries_good key es -> stands_for key file m -> persist io key es file = (ok, file') ->
  stands_for key file' (of_entries es) \/ (ok = false /\ stands_for key file' m).
Proof.
  intros He Hm Hp. destruct (persist_reads _ _ _ _ _ _ He Hp) as [[-> ->]|(Hl & b & es' & -> & Hu & Hpe)]; [by right|].
  left. exists es'. destruct He as [Hn Hf]. split; [done|]. split; [by apply of_entries_perm|].
  split; [split; by rewrite Hpe|]. by rewrite (Permutation_length Hpe).
Qed.

Lemma reload_stands io r file m r' :
  reload io r file = Some r' -> stands_for (R_key r) file m ->
  R_key r' = R_key r /\ of_entries (R_entries r') = m /\ entries_good (R_key r) (R_entries r').
Proof.
  unfold reload. case_if as E; [done|]. destruct file as [b|]; [|done]. cbn [mbind option_bind]. intros Hr (es & Hu & Hm & He & _).
  rewrite Hu in Hr. injection Hr as <-. done.
Qed.

Lemma put_stands io key v r file out r' file' m :
  keyed key r -> int64_ok (LT_Generation v) -> stands_for key file m -> Put io v r file = (out, r', file') ->
  exists m', stands_for key file' m' /\ map_step key m (PutDone v out) m'.
Proof.
  intros Hk Hg Hm. unfold Put. case_if as E1; [intros [= <- <- <-]; exists m; split; [done|constructor; by left]|].
  breflect. specialize (Hk ltac:(done)).
  destruct (reload io r file) as [r1|] eqn:Er; [|intros [= <- <- <-]; exists m; split; [done|constructor; by left]].
  rewrite <- Hk in Hm. destruct (reload_stands _ _ _ _ _ Er Hm) as (Ek & Em & Hn & Hf). rewrite Ek, Hk in *.
  destruct (tokens key v) as [h c] eqn:Et.
  case_if as E2; [intros [= <- <- <-]; exists m; split; [done|constructor; by left]|].
  assert (Hst : storable v) by done.
  assert (He : entries_good key (assoc_set h v (R_entries r1))).
  { split; [by apply assoc_set_NoDup|]. apply assoc_set_Forall; [done|]. unfold entry_good. cbn [fst snd]. by rewrite Et. }
  assert (Ep : put_map key v m = of_entries (assoc_set h v (R_entries r1))).
  { unfold put_map. by rewrite of_entries_set, Et, Em. }
  destruct (persist io key _ file) as [ok f'] eqn:Hp. destruct (persist_stands _ _ _ _ _ _ m He Hm Hp) as [Hs|[-> Hs]].
  - destruct ok; intros [= <- <- <-]; exists (put_map key v m); rewrite Ep at 1; (split; [done|]).
    + rewrite <- Et. by constructor.
    + constructor. by right.
  - intros [= <- <- <-]. exists m. split; [done|constructor; by left].
Qed.

Lemma resolve_stands io key h c r file out r' m :
  keyed key r -> stands_for key file m -> Resolve io h c r file = (out, r') -> map_step key m (Resolved h c out) m.
Proof.
  intros Hk Hm. unfold Resolve. case_if as E1; [intros [= <- _]; constructor|]. breflect. specialize (Hk ltac:(done)).
  destruct (reload io r file) as [r1|] eqn:Er; [|intros [= <- _]; constructor]. rewrite <- Hk in Hm.
  destruct (reload_stands _ _ _ _ _ Er Hm) as (Ek & Em & _). rewrite Ek, Hk.
  destruct (assoc h (R_entries r1)) as [v|] eqn:Ea; [|intros [= <- _]; constructor].
  case_if as E2; intros [= <- _]; constructor; breflect; [|done]. by rewrite <- Em, of_entries_lookup.
Qed.

Lemma live_entries key sc hs es : entries_good key es ->
  let next := List.filter (fun kv => negb (scope_eqb (LT_Scope (snd kv)) sc) || mem_str (fst kv) hs) es in
  entries_good key next /\ of_entries next = live_map sc hs (of_entries es).
Proof.
  intros [Hn Hf] next. split.
  - split.
    + unfold next. clear next Hf. induction es as [|kv es IH]; [constructor|]. cbn [map List.filter] in *.
      apply NoDup_cons in Hn as [Hk Hn]. case_if as E; [|by apply IH]. cbn [map]. apply NoDup_cons. split; [|by apply IH].
      intros (x & Ex & [Hx _]%list_elem_of_In%filter_In)%list_elem_of_fmap. apply Hk, list_elem_of_fmap. exists x.
      split; [done|]. by apply list_elem_of_In.
    + unfold next. apply Forall_forall. intros x [Hx _]%list_elem_of_In%filter_In. rewrite Forall_forall in Hf.
      by apply Hf, list_elem_of_In.
  - unfold next, live_map. rewrite of_entries_filter by done. apply map_filter_ext. intros h v _. unfold gone.
    cbn [fst snd]. by rewrite negb_andb, negb_involutive.
Qed.

Lemma filter_same_length {A} (p : A -> bool) l : length (List.filter p l) = length l -> List.filter p l = l.
Proof.
  induction l as [|x l IH]; [done|]. cbn. pose proof (List.filter_length_le p l). destruct (p x); cbn; [|lia].
  intros [= E]. by rewrite IH.
Qed.

Lemma reconcile_stands io key sc hs r file ok r' file' m :
  keyed key r -> stands_for key file m -> ReconcileLive io sc hs r file = (ok, r', file') ->
  exists m', stands_for key file' m' /\ map_step key m (Reconciled sc hs ok) m'.
Proof.
  intros Hk Hm. unfold ReconcileLive. case_if as E1; [intros [= <- <- <-]; exists m; split; [done|constructor; by left]|].
  breflect. specialize (Hk ltac:(done)).
  destruct (reload io r file) as [r1|] eqn:Er; [|intros [= <- <- <-]; exists m; split; [done|constructor; by left]].
  rewrite <- Hk in Hm. destruct (reload_stands _ _ _ _ _ Er Hm) as (Ek & Em & He). rewrite Ek, Hk in *.
  case_if as E2; [intros [= <- <- <-]; exists m; split; [done|constructor; by left]|]. cbv zeta.
  destruct (live_entries key sc hs _ He) as [Hn En]. cbv zeta in Hn, En. rewrite Em in En.
  case_if as E3.
  - apply Nat.eqb_eq, filter_same_length in E3. rewrite E3, Em in En. intros [= <- <- <-]. exists m. split; [done|].
    rewrite En at 2. constructor.
  - destruct (persist io key _ file) as [done f'] eqn:Hp. destruct (persist_stands _ _ _ _ _ _ m Hn Hm Hp) as [Hs|[-> Hs]].
    + rewrite En in Hs. destruct done; intros [= <- <- <-]; exists (live_map sc hs m); (split; [done|]); constructor. by right.
    + intros [= <- <- <-]. exists m. split; [done|constructor; by left].
Qed.

Lemma open_stands io key ro file r file' m :
  stands_for key file m -> OpenRegistry io key ro file = (r, file') -> stands_for key file' m.
Proof.
  intros Hm. unfold OpenRegistry. case_if as E1; [by intros [= _ <-]|]. destruct file as [b|]; [by intros [= _ <-]|].
  case_if as E2; [by intros [= _ <-]|]. destruct (persist io key [] None) as [ok f] eqn:Hp. intros [= _ <-].
  assert (He : entries_good key []) by (split; constructor).
  destruct (persist_stands _ _ _ _ _ _ m He Hm Hp) as [Hs|[_ Hs]]; [|done]. cbn in Hm. by subst m.
Qed.

Lemma file_step_stands key file e file' m :
  stands_for key file m -> file_step key file e file' -> exists m', stands_for key file' m' /\ map_step key m e m'.
Proof.
  intros Hm Hs. destruct Hs as [io ro r f Ho|io v r out r' f Hk Hg Hp|io h c r out r' Hk Hr|io sc hs r ok r' f Hk Hr].
  - exists m. split; [by eapply open_stands|constructor].
  - by eapply put_stands.
  - exists m. split; [done|]. by eapply resolve_stands.
  - by eapply reconcile_stands.
Qed.

Lemma run_stands key tr file : registry_run key tr file -> exists m, map_run key tr m /\ stands_for key file m.
Proof.
  induction 1 as [|tr file e file' _ (m & Hr & Hm) Hs]; [exists ∅; split; [constructor|done]|].
  destruct (file_step_stands _ _ _ _ _ Hm Hs) as (m' & Hm' & Hms). exists m'. split; [by econstructor|done].
Qed.

(** Everything in the map of a run may be stored. *)
Lemma map_run_storable key tr m h v : map_run key tr m -> m !! h = Some v -> storable v.
Proof.
  intros Hr. revert h v. induction Hr as [|tr m e m' _ IH Hs]; intros h v; [by rewrite lookup_empty|].
  assert (Hput : forall w, storable w -> put_map key w m !! h = Some v -> storable v).
  { intros w Hw. unfold put_map. intros [[_ <-]|[_ Hv]]%lookup_insert_Some; [done|by eapply IH]. }
  assert (Hlive : forall sc hs, live_map sc hs m !! h = Some v -> storable v).
  { intros sc hs [Hv _]%map_lookup_filter_Some. by eapply IH. }
  destruct Hs as [| |? ? [->|[? ->]]| | | |? ? ? [->| ->]]; eauto.
Qed.

(** Resolving succeeds when the file can be read and the commitment is that of
    the stored target. *)
Lemma resolve_complete io key h c r b m :
  io_readable io = true -> R_closed r = false -> R_key r = key -> slen h = 32 -> slen c = 64 ->
  stands_for key (Some b) m ->
  fst (Resolve io h c r (Some b)) = (v ← m !! h; if str_eqb (snd (tokens key v)) c then Some v else None).
Proof.
  intros Hio Hcl <- Hh Hc (es & Hu & <- & _). unfold Resolve, reload. rewrite Hcl, Hh, Hc, Hio. cbn [negb orb Z.eqb Pos.eqb mbind option_bind].
  rewrite Hu. cbn [mbind option_bind R_entries R_key]. rewrite of_entries_lookup. by destruct (assoc h es) as [v|].
Qed.
End Facts.
