(* ===== verification/Diagnosis.v ===== *)
(** * pkg/investigation and pkg/stewardship: attempts of enrolled agents, and their review

    agent.go and [Corroborate].  An agent claims a queued job, works on the
    snapshot it is given, may ask twice for fresh evidence, and reports; the
    orchestrator checks the snapshot again, re-assesses the reported conclusion
    against its own copy of the evidence and records a claim.  A steward may
    corroborate that claim from independent evidence. *)

From S2P Require Import Prelude.
From S2P Require Import Json.
From S2P Require Import JsonFacts.
From S2P Require Import GoTime.
From S2P Require Import Decode.
From S2P Require Import Identity.
From S2P Require Import Authorization.
From S2P Require Import Incident.
From S2P Require Import Db.
From S2P Require Import Sql.
From S2P Require Import Storage.
From S2P Require Import Records.
From S2P Require Import Queues.
From S2P Require Import Privacy.
From S2P Require Import Fleet.
From S2P Require Import Governance.
From S2P Require Import Investigation.
From S2P Require Import Snapshot.
From S2P Require Import Rounds.

(** [privacy.Version]. *)
Definition PrivacyVersion := "strict-projection/v1".

Module Agents.
Import Rubric Queue Snapshot Rounds.

(** ** The text of a run *)
Definition usage_json (u : Usage) : json :=
  JObj [("input_tokens", jint (U_InputTokens u)); ("output_tokens", jint (U_OutputTokens u));
        ("total_tokens", jint (U_TotalTokens u))].
Definition round_json (r : Round) : json :=
  JObj [("provider_latency_ms", jint (RD_ProviderLatencyMS r));
        ("usage", match RD_Usage r with Some u => usage_json u | None => JNull end);
        ("number", jint (RD_Number r)); ("status", JStr (RD_Status r)); ("reason", JStr (RD_Reason r));
        ("evidence_count", jint (RD_EvidenceCount r)); ("checks_requested", jint (RD_ChecksRequested r))].
Definition assessment_json (a : Assessment) : json :=
  JObj [("status", JStr (AS_Status a)); ("reason_code", JStr (AS_ReasonCode a));
        ("conclusion", conclusion_json (AS_Conclusion a))].
Definition run_members (r : RunResult) : list (string * json) :=
  omit_if (bool_decide (RR_Rounds r = [])) [("rounds", JArr (map round_json (RR_Rounds r)))]
  ++ omit_if (bool_decide (RR_KnowledgeVersions r = []))
       [("knowledge_versions", JArr (map ref_json (RR_KnowledgeVersions r)))]
  ++ omit_if (RR_EnvironmentVersion r =? 0) [("environment_version", jint (RR_EnvironmentVersion r))]
  ++ [("run_id", JStr (RR_RunID r)); ("profile_id", JStr (RR_ProfileID r)); ("profile_version", JStr (RR_ProfileVersion r));
      ("privacy_version", JStr (RR_PrivacyVersion r)); ("prompt_version", JStr (RR_PromptVersion r));
      ("rubric_version", JStr (RR_RubricVersion r)); ("assessment", assessment_json (RR_Assessment r))].
Definition run_json (r : RunResult) : json := JObj (run_members r).

(** ** ValidateAgentResult *)
Definition waiting_reasons : list string :=
  ["NO_CURRENT_ELIGIBLE_EVIDENCE"; "DISCRIMINATING_EVIDENCE_REQUIRED"; "COLLECTION_BUDGET_EXHAUSTED";
   "REPEATED_CHECK_WITHOUT_PROGRESS"; "FRESH_COLLECTION_UNAVAILABLE"].
Definition failure_reasons : list string :=
  ["PROVIDER_UNAVAILABLE"; "INVALID_PROVIDER_OUTPUT"; "INVALID_PROVIDER_EVIDENCE"].

Definition ValidateAgentResult (result : RunResult) (state : Snapshot) (at_ : Time) : res Assessment :=
  if 3 <? Z.of_nat (length (RR_Rounds result)) then Err ErrInvalid else
  let submitted := RR_Assessment result in
  if negb (bool_decide (AS_Conclusion submitted = zero_conclusion))
  then AssessCandidate (AS_Conclusion submitted) (SN_Evidence state) at_
  else if mem_str (AS_ReasonCode submitted) waiting_reasons then Ok (needs (AS_ReasonCode submitted))
  else if mem_str (AS_ReasonCode submitted) failure_reasons then Ok (abstained (AS_ReasonCode submitted))
  else Err ErrInvalid.

(** The telemetry of a submitted round is bounded; its verdict is replaced. *)
Definition usage_ok (u : Usage) : bool :=
  negb (U_InputTokens u <? 0) && negb (U_OutputTokens u <? 0) && negb (U_TotalTokens u <? 0)
  && negb (1000000000 <? U_InputTokens u) && negb (1000000000 <? U_OutputTokens u)
  && negb (1000000000 <? U_TotalTokens u).
Definition round_ok (r : Round) : bool :=
  negb (RD_ProviderLatencyMS r <? 0) && negb (90000 <? RD_ProviderLatencyMS r)
  && negb (RD_EvidenceCount r <? 0) && negb (64 <? RD_EvidenceCount r)
  && negb (RD_ChecksRequested r <? 0) && negb (2 <? RD_ChecksRequested r) && opt_ok usage_ok (RD_Usage r).
Fixpoint accept_rounds (a : Assessment) (number : Z) (l : list Round) : res (list Round) :=
  match l with
  | [] => Ok []
  | r :: l =>
      if round_ok r then
        res_bind (accept_rounds a (number + 1) l) (fun rest =>
          Ok (mkRound (RD_ProviderLatencyMS r) (RD_Usage r) number (AS_Status a) (AS_ReasonCode a)
                (RD_EvidenceCount r) (RD_ChecksRequested r) :: rest))
      else Err ErrInvalid
  end.

Section Agents.
Context `{Env} `{AEAD}.
(** The two callbacks of [Service], the authenticator of the request, and what
    other replicas do between two transactions. *)
Context (Guidance : option (Principal -> Scope -> M (list GoldenCase)))
  (ValidateGuidance : option (Tx -> GoldenCase -> M bool))
  (auth : Tx -> M Agent) (others : M unit).

(** ** validateAgentSnapshot *)
Definition add_ref (r : ItemRef) (l : list ItemRef) : list ItemRef := if bool_decide (r ∈ l) then l else l ++ [r].

(** The set [byRef] of the current, eligible, valid observations. *)
Fixpoint current_refs (tx : Tx) (at_ : Time) (acc : list ItemRef) (items : list Item) : M (list ItemRef) :=
  match items with
  | [] => ret acc
  | item :: items =>
      let* eligible := Eligible tx (self_ref item) at_ in
      if negb eligible then current_refs tx at_ acc items else
      match strict_observation (I_Body item) with
      | None => throw ErrInvalid
      | Some o => current_refs tx at_ (if current_at o at_ then add_ref (self_ref item) acc else acc) items
      end
  end.

Definition check_reporter (s : Service) (tx : Tx) (o : Observation) (at_ : Time) : M unit :=
  match O_Source o with
  | Some src =>
      let* a := AgentByID tx (S_AgentID src) in
      guard (str_eqb (G_Role a) "COLLECTOR" && negb (G_Revoked a) && (G_Generation a =? S_Generation src)
             && str_eqb (G_Epoch a) (S_Epoch src) && After (G_ExpiresAt a) at_
             && (str_eqb (Q_AuthorityEpoch s) "" || str_eqb (G_Epoch a) (Q_AuthorityEpoch s))) ErrConflict
  | None => guard (str_eqb (Q_AuthorityEpoch s) "") ErrConflict
  end.

Definition check_evidence (s : Service) (tx : Tx) (at_ : Time) (refs : list ItemRef) (e : EvidenceSnapshot) : M unit :=
  guard (bool_decide (ES_Ref e ∈ refs)) ErrConflict ;;
  let* eligible := Eligible tx (ES_Ref e) at_ in
  guard eligible ErrConflict ;;
  check_reporter s tx (ES_Observation e) at_.

Definition check_guidance (tx : Tx) (g : GoldenCase) : M unit :=
  match ValidateGuidance with
  | None => throw ErrConflict
  | Some validate => let* ok := validate tx g in guard ok ErrConflict
  end.

Definition validateAgentSnapshot (s : Service) (tx : Tx) (i : AgentInput) (at_ : Time) : M unit :=
  let state := IN_Snapshot i in
  match profile s (IN_ProfileID i) with
  | None => throw ErrConflict
  | Some pf =>
      guard (str_eqb (PF_Version pf) (IN_ProfileVersion i) && profileAllows pf (IN_Scope i)) ErrConflict ;;
      guard (After (SN_ValidUntil state) at_) ErrConflict ;;
      let* current := CurrentEvidence tx (IN_IncidentID i) at_ 100 in
      let* refs := current_refs tx at_ [] current in
      guard (Nat.eqb (length refs) (length (SN_Evidence state))) ErrConflict ;;
      for_each (check_evidence s tx at_ refs) (SN_Evidence state) ;;
      let* clarifications := InteractionContext tx (IN_IncidentID i) in
      guard (bool_decide (clarifications = SN_Clarifications state)) ErrConflict ;;
      let* environment := optional (GetEnvironmentContext tx) in
      match environment, SN_Environment state with
      | None, None => ret tt
      | Some now, Some then_ => guard (EC_Version now =? EC_Version then_) ErrConflict
      | Some _, None => throw ErrConflict
      | None, Some _ => throw ErrNotFound
      end ;;
      for_each (check_guidance tx) (IN_Guidance i)
  end.

(** The lease of the calling agent, with its authority still valid. *)
Definition authorized_lease (s : Service) (sc : Scope) (id attempt : string) (renew : bool) (tx : Tx)
  : M (Agent * DiagnosticLease) :=
  let* a := auth tx in
  let* l := AgentDiagnostic tx id attempt a renew in
  let* now := time_now in
  of_res (OpenPrincipal (Some (Q_Policy s)) now (L_Authority l) sc Investigate) ;;
  ret (a, l).

(** ** ClaimAgent *)
Definition leaseTx (profiles : list string) (tx : Tx) : M DiagnosticLease :=
  let* a := auth tx in ClaimAgentDiagnostic tx a profiles.

Definition startTx (s : Service) (sc : Scope) (i : AgentInput) (attempt raw : string) (tx : Tx) : M unit :=
  authorized_lease s sc (IN_JobID i) attempt false tx ;;
  let* at_ := time_now in
  validateAgentSnapshot s tx i at_ ;;
  StartAgentDiagnostic tx (IN_JobID i) (IN_ProfileVersion i) PromptVersion RubricVersion ;;
  SetDiagnosticInput tx (IN_JobID i) attempt raw false.

Definition guidance_for (p : Principal) (sc : Scope) (evidence : list EvidenceSnapshot) : M (list GoldenCase) :=
  match Guidance with
  | None => ret []
  | Some f =>
      let* cases := f p sc in
      let* at_ := time_now in
      ret (applicableGuidance cases evidence at_)
  end.

Definition ClaimAgent (s : Service) (sc : Scope) (profiles : list string) : M (option AgentClaim) :=
  let* lease := optional (Transact (Q_Epoch s) sc (leaseTx profiles)) in
  match lease with
  | None => ret None
  | Some lease =>
      let job := L_Job lease in
      match profile s (D_ProfileID job) with
      | None => throw ErrConflict
      | Some pf =>
          guard (profileAllows pf sc) ErrConflict ;;
          let* opened := time_now in
          let* p := of_res (OpenPrincipal (Some (Q_Policy s)) opened (L_Authority lease) sc Investigate) in
          others ;;
          let* now := time_now in
          let* state := readSnapshot s sc (D_IncidentID job) now in
          others ;;
          let* guidance := guidance_for p sc (SN_Evidence state) in
          others ;;
          let i := mkInput sc (D_ID job) (D_IncidentID job) (PF_ID pf) (PF_Version pf) (PF_Metadata pf) state guidance in
          match Marshal (input_json i) with
          | None => throw ErrInvalid
          | Some raw =>
              guard (negb (60000 <? slen raw)) ErrInvalid ;;
              Transact (Q_Epoch s) sc (startTx s sc i (L_AttemptID lease) raw) ;;
              ret (Some (mkAgentClaim i (L_AttemptID lease) (L_LeaseUntil lease)))
          end
      end
  end.

(** ** CompleteAgent *)
Definition submission_ok (i : AgentInput) (sc : Scope) (id : string) (r : RunResult) : bool :=
  str_eqb (IN_JobID i) id && scope_eqb (IN_Scope i) sc && str_eqb (RR_RunID r) id
  && str_eqb (RR_ProfileID r) (IN_ProfileID i) && str_eqb (RR_ProfileVersion r) (IN_ProfileVersion i)
  && str_eqb (RR_PrivacyVersion r) PrivacyVersion && str_eqb (RR_PromptVersion r) PromptVersion
  && str_eqb (RR_RubricVersion r) RubricVersion.

Definition recorded_result (i : AgentInput) (id : string) (a : Assessment) (rounds : list Round) : RunResult :=
  mkRun rounds (map (fun g => mkRef (GC_ID g) (GC_Version g)) (IN_Guidance i))
    (match SN_Environment (IN_Snapshot i) with Some c => EC_Version c | None => 0 end)
    id (IN_ProfileID i) (IN_ProfileVersion i) PrivacyVersion PromptVersion RubricVersion a.

(** The claim, its run, its job, the question to a human when evidence is
    missing, and the event. *)
Definition record_claim (i : AgentInput) (sc : Scope) (id actor : string) (now : Time) (a : Assessment)
  (rounds : list Round) (tx : Tx) : M Item :=
  let body := encode (run_json (recorded_result i id a rounds)) in
  let* claim_id := NewID in
  let* claim := of_res (Seal (mkItem sc (IN_IncidentID i) claim_id 1 Incident.Claim body now
                                (SN_ValidUntil (IN_Snapshot i)) (SN_Parents (IN_Snapshot i)) "")) in
  PutItem tx claim ;;
  let ref := Some (self_ref claim) in
  FinishRun tx id (AS_Status a) (AS_ReasonCode a) ref ;;
  FinishDiagnosticJob tx id "COMPLETED" ref ;;
  (if str_eqb (AS_Status a) NeedsEvidence then
     let* question := NewID in
     CreateInteraction tx (mkRequest sc question (IN_IncidentID i) id Clarification "CHANGE_CONTEXT" 1 "PENDING"
       (Add now Hour) "" "" "" None) actor
   else ret tt) ;;
  Records.Enqueue tx id "INVESTIGATION_RECORDED"
    (print (JObj [("incident_id", JStr (IN_IncidentID i)); ("item_id", JStr (I_ID claim))])) ;;
  ret claim.

Definition CompleteTx (s : Service) (sc : Scope) (id attempt : string) (submitted : RunResult) (tx : Tx) : M Item :=
  let* (_, l) := authorized_lease s sc id attempt false tx in
  match decode_input (default "" (L_Input l)) with
  | None => throw ErrConflict
  | Some i =>
      guard (submission_ok i sc id submitted) ErrInvalid ;;
      let* now := time_now in
      validateAgentSnapshot s tx i now ;;
      let* a := of_res (ValidateAgentResult submitted (IN_Snapshot i) now) in
      let* rounds := of_res (accept_rounds a 1 (RR_Rounds submitted)) in
      record_claim i sc id (D_ActorID (L_Job l)) now a rounds tx
  end.

Definition CompleteAgent (s : Service) (sc : Scope) (id attempt : string) (submitted : RunResult) : M Item :=
  Transact (Q_Epoch s) sc (CompleteTx s sc id attempt submitted).

(** ** RefreshAgent *)

(** The agent asks about a resource of its own evidence, under its generation. *)
Definition own_resource (i : AgentInput) (a : Agent) (c : DiagnosticCheck) : bool :=
  existsb (fun e => str_eqb (O_ResourceHandle (ES_Observation e)) (CK_ResourceHandle c)
    && match O_Source (ES_Observation e) with
       | Some src => str_eqb (S_AgentID src) (G_ID a) && (S_Generation src =? G_Generation a)
       | None => false
       end) (SN_Evidence (IN_Snapshot i)).
Definition refresh_check_ok (i : AgentInput) (a : Agent) (c : DiagnosticCheck) : bool :=
  mem_str (CK_Kind c) ["REFRESH_RESOURCE_STATE"; "REFRESH_DEPENDENCIES"] && ValidHandle (CK_ResourceHandle c)
  && own_resource i a c.

Definition reserveTx (s : Service) (sc : Scope) (id attempt : string) (checks : list DiagnosticCheck) (tx : Tx)
  : M AgentInput :=
  let* (a, l) := authorized_lease s sc id attempt false tx in
  guard (negb (2 <=? L_RefreshCount l) && negb (Z.of_nat (length checks) =? 0) && negb (2 <? Z.of_nat (length checks)))
    ErrInvalid ;;
  match decode_input (default "" (L_Input l)) with
  | None => throw ErrInvalid
  | Some i =>
      guard (forallb (refresh_check_ok i a) checks) ErrInvalid ;;
      let* at_ := time_now in
      validateAgentSnapshot s tx i at_ ;;
      SetDiagnosticInput tx id attempt (default "" (L_Input l)) true ;;
      ret i
  end.

Definition replaceTx (s : Service) (sc : Scope) (id attempt : string) (i : AgentInput) (raw : string) (tx : Tx) : M unit :=
  authorized_lease s sc id attempt false tx ;;
  let* at_ := time_now in
  validateAgentSnapshot s tx i at_ ;;
  SetDiagnosticInput tx id attempt raw false.

Definition with_snapshot (i : AgentInput) (state : Snapshot) : AgentInput :=
  mkInput (IN_Scope i) (IN_JobID i) (IN_IncidentID i) (IN_ProfileID i) (IN_ProfileVersion i) (IN_Provider i) state
    (IN_Guidance i).

Definition RefreshAgent (ticks : nat) (s : Service) (sc : Scope) (id attempt : string) (checks : list DiagnosticCheck)
  : M (option Snapshot) :=
  let* i := Transact (Q_Epoch s) sc (reserveTx s sc id attempt checks) in
  others ;;
  let* ready := collectChecks others ticks s sc (IN_IncidentID i) checks (SN_Evidence (IN_Snapshot i)) in
  if negb ready then ret None else
  others ;;
  let* at_ := time_now in
  let* next := readSnapshot s sc (IN_IncidentID i) at_ in
  guard (negb (environment_changed (SN_Environment (IN_Snapshot i)) (SN_Environment next))) ErrConflict ;;
  others ;;
  let i := with_snapshot i next in
  Transact (Q_Epoch s) sc (replaceTx s sc id attempt i (default "" (Marshal (input_json i)))) ;;
  ret (Some next).
End Agents.
End Agents.

(** ** Corroborate *)
Module Corroboration.
Import Rubric Agents.

Record CorroborateRequest := mkCorroborate {
  CR_Claim : ItemRef; CR_ClaimHash : string; CR_Evidence : list ItemRef;
  CR_UpstreamChecked : bool; CR_TemporalOrderChecked : bool; CR_AlternativesTested : bool }.

(** [json.Marshal] of a [CorroboratedBody]: the members of the run it embeds
    come first. *)
Definition corroborated_json (r : RunResult) (steward : string) (original : ItemRef) : json :=
  JObj (run_members r ++ [("steward_id", JStr steward); ("original_claim", ref_json original);
    ("upstream_checked", JBool true); ("temporal_order_checked", JBool true); ("alternatives_tested", JBool true)]).

Definition with_support (c : Conclusion) (refs : list ItemRef) : Conclusion :=
  mkConclusion (CN_RequestedChecks c) (CN_CauseCode c) (CN_ResourceHandle c) (Some refs) (CN_ContradictingEvidence c)
    (CN_Alternatives c).
Definition with_assessment (r : RunResult) (a : Assessment) : RunResult :=
  mkRun (RR_Rounds r) (RR_KnowledgeVersions r) (RR_EnvironmentVersion r) (RR_RunID r) (RR_ProfileID r)
    (RR_ProfileVersion r) (RR_PrivacyVersion r) (RR_PromptVersion r) (RR_RubricVersion r) a.

(** The first sighting of the cause on the resource; zero when there is none. *)
Definition direct_at (c : Conclusion) (evidence : list EvidenceSnapshot) : Time :=
  fold_left (fun at_ e =>
    let o := ES_Observation e in
    if str_eqb (O_ResourceHandle o) (CN_ResourceHandle c) && str_eqb (O_Code o) (CN_CauseCode c)
       && (IsZero at_ || Before (O_ObservedAt o) at_)
    then O_ObservedAt o else at_) evidence zeroTime.
(** A different symptom of the resource, or of what depends on it, not earlier
    than the cause. *)
Definition discriminates (c : Conclusion) (direct : Time) (e : EvidenceSnapshot) : bool :=
  let o := ES_Observation e in
  negb (str_eqb (O_Code o) (CN_CauseCode c) || str_eqb (O_Code o) Healthy || str_eqb (O_Code o) ReadUnavailable
        || Before (O_ObservedAt o) direct)
  && (str_eqb (O_ResourceHandle o) (CN_ResourceHandle c) || mem_str (CN_ResourceHandle c) (O_DependencyHandles o)).

Section Corroborate.
Context `{Env}.

(** The loop over the request's evidence, with its set [seen]. *)
Fixpoint review (tx : Tx) (incidentID : string) (seen : list ItemRef) (acc : list EvidenceSnapshot) (until : Time)
  (l : list ItemRef) : M (list EvidenceSnapshot * Time) :=
  match l with
  | [] => ret (acc, until)
  | ref :: l =>
      guard (negb (bool_decide (ref ∈ seen))) ErrInvalid ;;
      let* e := GetItem tx ref in
      guard (bool_decide (I_Kind e = Evidence) && str_eqb (I_IncidentID e) incidentID) ErrInvalid ;;
      let* at_ := time_now in
      let* ok := Eligible tx ref at_ in
      guard ok ErrConflict ;;
      match decode_observation (I_Body e) with
      | None => throw ErrInvalid
      | Some o =>
          guard (Validate o) ErrInvalid ;;
          review tx incidentID (ref :: seen) (acc ++ [mkEvidence ref o]) (Snapshot.earlier (I_ValidUntil e) until) l
      end
  end.

(** No eligible current observation calls the resource healthy. *)
Fixpoint no_health (tx : Tx) (handle : string) (items : list Item) : M unit :=
  match items with
  | [] => ret tt
  | e :: items =>
      let* at_ := time_now in
      let* eligible := Eligible tx (self_ref e) at_ in
      (if negb eligible then ret tt else
       match decode_observation (I_Body e) with
       | Some o => guard (negb (str_eqb (O_ResourceHandle o) handle && str_eqb (O_Code o) Healthy)) ErrConflict
       | None => ret tt
       end) ;;
      no_health tx handle items
  end.

Definition record_corroboration (p : Principal) (sc : Scope) (r : CorroborateRequest) (claim : Item) (run : RunResult)
  (a : Assessment) (until : Time) (tx : Tx) : M Item :=
  let run := with_assessment run (mkAssessment Corroborated "INDEPENDENT_STEWARD_CAUSAL_REVIEW" (AS_Conclusion a)) in
  let body := encode (corroborated_json run (P_ID p) (CR_Claim r)) in
  let* id := NewID in
  let* at_ := time_now in
  let* result := of_res (Seal (mkItem sc (I_IncidentID claim) id 1 Incident.Claim body at_ until
                                 (CR_Claim r :: CR_Evidence r) "")) in
  PutItem tx result ;;
  let* event_id := NewID in
  let* event_at := time_now in
  let* key := NewID in
  PutAdjudication tx (mkAdjudication sc event_id (I_IncidentID claim) (self_ref result) (I_Hash result) "" (P_ID p)
    "CONFIRMED" [] (I_Hash result) key event_at) ;;
  Records.Enqueue tx (I_ID result) "CLAIM_CORROBORATED"
    (print (JObj [("incident_id", JStr (I_IncidentID claim)); ("item_id", JStr (I_ID result))])) ;;
  ret result.

Definition CorroborateTx (p : Principal) (sc : Scope) (r : CorroborateRequest) (tx : Tx) : M Item :=
  let* claim := GetItem tx (CR_Claim r) in
  guard (bool_decide (I_Kind claim = Incident.Claim) && str_eqb (I_Hash claim) (CR_ClaimHash r)) ErrConflict ;;
  let* at_ := time_now in
  let* ok := Eligible tx (CR_Claim r) at_ in
  guard ok ErrConflict ;;
  match decode_run (I_Body claim) with
  | None => throw ErrInvalid
  | Some run =>
      let candidate := AS_Conclusion (RR_Assessment run) in
      guard (str_eqb (AS_Status (RR_Assessment run)) Hypothesis_
             && mem_str (CN_CauseCode candidate) [NetworkBlocked; ConfigurationDrift; ResourcePressure]) ErrInvalid ;;
      let* (evidence, until) := review tx (I_IncidentID claim) [CR_Claim r] [] (I_ValidUntil claim) (CR_Evidence r) in
      let direct := direct_at candidate evidence in
      guard (negb (IsZero direct) && existsb (discriminates candidate direct) evidence) ErrConflict ;;
      let candidate := with_support candidate (CR_Evidence r) in
      let* assessed_at := time_now in
      match AssessCandidate candidate evidence assessed_at with
      | Err _ => throw ErrConflict
      | Ok a =>
          guard (str_eqb (AS_Status a) Hypothesis_) ErrConflict ;;
          let* current_time := time_now in
          let* current := CurrentEvidence tx (I_IncidentID claim) current_time 100 in
          guard (negb (Z.of_nat (length current) =? 100)) ErrConflict ;;
          no_health tx (CN_ResourceHandle candidate) current ;;
          record_corroboration p sc r claim run a until tx
      end
  end.

Definition Corroborate (s : Backend) (p : Principal) (sc : Scope) (r : CorroborateRequest) : M Item :=
  authorize (BE_Policy s) p sc Authorization.Adjudicate ;;
  guard (CR_UpstreamChecked r && CR_TemporalOrderChecked r && CR_AlternativesTested r
         && negb (Z.of_nat (length (CR_Evidence r)) <? 2) && negb (32 <? Z.of_nat (length (CR_Evidence r)))) ErrInvalid ;;
  Transact (BE_Epoch s) sc (CorroborateTx p sc r).
End Corroborate.
End Corroboration.
