(* ===== verification/RunText.v ===== *)
(** * The text of a recorded run reads back

    What [CompleteAgent] records about a run is the JSON text of a [RunResult].
    Its canonical form survives jsonb, and decodes to the run again: the
    steward reviews what the orchestrator recorded. *)

From S2P Require Import Prelude.
From S2P Require Import Sha256.
From S2P Require Import Json.
From S2P Require Import JsonFacts.
From S2P Require Import GoTime.
From S2P Require Import Decode.
From S2P Require Import Identity.
From S2P Require Import Authorization.
From S2P Require Import Incident.
From S2P Require Import Db.
From S2P Require Import Sql.
From S2P Require Import Storage.
From S2P Require Import Records.
From S2P Require Import Privacy.
From S2P Require Import Investigation.
From S2P Require Import Snapshot.
From S2P Require Import Rounds.
From S2P Require Import Diagnosis.

Import Rubric Snapshot Rounds Agents.

(** ** Values that jsonb gives back *)
Inductive plain : json -> Prop :=
| plain_null : plain JNull
| plain_bool b : plain (JBool b)
| plain_int z : plain (jint z)
| plain_str s : no_nul s = true -> plain (JStr s)
| plain_arr l : (forall v, In v l -> plain v) -> plain (JArr l)
| plain_obj fs : (forall k v, In (k, v) fs -> no_nul k = true) -> (forall k v, In (k, v) fs -> plain v) -> plain (JObj fs).

Lemma split_number_show z : split_number (show z) = (z <? 0, Z.abs z, 0).
Proof.
  unfold show, split_number. destruct (z <? 0) eqn:E; breflect.
  - destruct (show_pos_spec (- z) ltac:(lia)) as (n & -> & Hu & _).
    rewrite app_cons_s, app_empty_s. change (is_char 45 "-") with true. cbv iota.
    rewrite dec_digits_digits, Z.mod_small by lia. cbv beta iota zeta. repeat f_equal; lia.
  - destruct (show_pos_spec z ltac:(lia)) as (n & -> & Hu & _).
    destruct (digit_first n z ltac:(lia)) as [Hd Hb].
    rewrite Hd at 1. unfold is_char at 1. rewrite digit_ord by lia. bools_true. cbv iota.
    rewrite dec_digits_digits, Z.mod_small by lia. cbv beta iota zeta. repeat f_equal; lia.
Qed.

Lemma jsonb_num_show z : jsonb_num (show z) = Some (show z).
Proof.
  unfold jsonb_num. rewrite split_number_show. cbn. rewrite Z.mul_1_r. unfold show.
  destruct (z <? 0) eqn:E; breflect; cbn [andb].
  - rewrite (proj2 (Z.eqb_neq _ _)) by lia. cbn [negb]. by rewrite Z.abs_neq by lia.
  - by rewrite Z.abs_eq by lia.
Qed.

Lemma jsonb_plain v : plain v -> jsonb v = Some v.
Proof.
  induction v as [|b|lit|s|l IH|fs IH] using json_nested_ind; intros Hp; inversion Hp; subst; cbn [jsonb]; try done.
  - unfold jint in *. by rewrite jsonb_num_show.
  - by rewrite H0.
  - match goal with |- context [?go l] => assert (Hgo : go l = Some l) end; [|by rewrite Hgo].
    clear Hp. induction l as [|v l IHl]; [done|]. rewrite (IH v); [|by left|apply H0; by left]. cbn.
    rewrite IHl; [done| |]; intros; [apply IH; [by right|done]|apply H0; by right].
  - match goal with |- context [?go fs] => assert (Hgo : go fs = Some fs) end; [|by rewrite Hgo].
    clear Hp. induction fs as [|[k v] fs IHl]; [done|]. rewrite (H0 k v) by (by left).
    rewrite (IH k v); [|by left|apply (H1 k v); by left]. cbn.
    rewrite IHl; [done|..]; intros; [eapply IH; [by right|done]|eapply H0; by right|eapply H1; by right].
Qed.

Lemma plain_norm v : plain v -> plain (norm v).
Proof.
  induction v as [|b|lit|s|l IH|fs IH] using json_nested_ind; intros Hp; try done; inversion Hp; subst.
  - cbn [norm]. constructor. intros v Hin. apply in_map_iff in Hin as (w & <- & Hw). auto.
  - rewrite norm_obj. constructor; intros k v Hin; apply in_map_iff in Hin as ([k' w] & [= <- <-] & Hw);
      rewrite isort_perm in Hw; [by eapply H0|eapply IH; [done|by eapply H1]].
Qed.

(** A well-formed plain object: its canonical text survives jsonb, and reads
    back as its normal form. *)
Lemma plain_text fs c :
  good 0 (JObj fs) -> plain (JObj fs) -> CanonicalObject (encode (JObj fs)) = Ok c ->
  c = print (JObj fs) /\ jsonb_text c = Some c /\ CanonicalObject c = Ok c /\ read_json c = Some (norm (JObj fs)).
Proof.
  intros Hg Hp Hc.
  assert (Ec : c = print (JObj fs)).
  { unfold CanonicalObject in Hc. case_if_in Hc. rewrite (read_encode_all _ Hg) in Hc. cbn [skip_ws] in Hc.
    cbv zeta in Hc. case_if_in Hc. congruence. }
  pose proof (good_norm _ _ Hg) as Gn. split; [done|].
  assert (Hr : read_json c = Some (norm (JObj fs))) by (rewrite Ec; by apply read_json_encode).
  split; [|split; [by eapply CanonicalObject_idempotent|done]].
  unfold jsonb_text. rewrite Hr. cbn [mbind option_bind]. rewrite jsonb_plain by (by apply plain_norm).
  rewrite Ec. unfold print. cbn [mbind option_bind]. by rewrite (norm_idem _ _ Hg).
Qed.

(** ** What is written is read *)

(** The value [j] of nesting at most [n] stands for [x]: it prints, survives
    jsonb, and its normal form decodes to [x]. *)
Record wire {A} (n : Z) (d : decoder A) (zero : A) (j : json) (x : A) : Prop := {
  wire_good : forall depth, depth + n <= 32 -> good depth j;
  wire_plain : plain j;
  wire_dec : d (norm j) zero = Some x
}.

(** A text that a JSON string and jsonb both carry. *)
Definition text_ok (s : string) : Prop := utf8 s /\ no_nul s = true.

Lemma wire_str n old s : 0 <= n -> text_ok s -> wire n dec_string old (JStr s) s.
Proof. intros Hn [Hu Hz]. constructor; [constructor; [lia|done]|by constructor|done]. Qed.
Lemma wire_int n old z : 0 <= n -> int64_ok z -> wire n dec_int64 old (jint z) z.
Proof. intros Hn Hz. constructor; [intros; apply good_jint; lia|constructor|]. cbn. by apply parse_int_show. Qed.

Lemma dec_elems_wire {A} n (d : decoder A) zero (f : A -> json) l :
  (forall x, x ∈ l -> wire n d zero (f x) x) -> dec_elems zero d (map norm (map f l)) [] = Some l.
Proof.
  induction l as [|x l IH]; intros Hw; [done|]. cbn [map dec_elems tail]. rewrite (wire_dec _ _ _ _ _ (Hw x ltac:(left))).
  cbn [mbind option_bind]. rewrite IH; [done|]. intros y Hy. apply Hw. by right.
Qed.
Lemma wire_array {A} n (d : decoder A) zero (f : A -> json) l :
  0 <= n -> (forall x, x ∈ l -> wire n d zero (f x) x) -> wire (n + 1) (dec_list zero d) [] (JArr (map f l)) l.
Proof.
  intros Hn Hw. constructor.
  - intros depth Hd. apply good_array; [lia|]. apply Forall_forall. intros v (x & -> & Hx)%list_elem_of_fmap.
    apply (wire_good _ _ _ _ _ (Hw x Hx)). lia.
  - constructor. intros v (x & <- & Hx)%in_map_iff. apply list_elem_of_In in Hx. apply (wire_plain _ _ _ _ _ (Hw x Hx)).
  - cbn. by eapply dec_elems_wire.
Qed.
Lemma wire_slice {A} n (d : decoder A) zero (f : A -> json) (l : slice A) :
  0 <= n -> (forall x, x ∈ elems l -> wire n d zero (f x) x) -> wire (n + 1) (dec_slice zero d) None (jslice f l) l.
Proof.
  intros Hn Hw. destruct l as [l|]; cbn [jslice elems default] in *.
  - destruct (wire_array n d zero f l Hn Hw) as [Hg Hp Hd]. constructor; [done|done|].
    cbn in Hd |- *. by rewrite Hd.
  - constructor; [intros; constructor; lia|constructor|done].
Qed.

Lemma plain_object fs : Forall (fun kv => no_nul (fst kv) = true /\ plain (snd kv)) fs -> plain (JObj fs).
Proof.
  rewrite Forall_forall. intros Hf. constructor; intros k v Hin; apply list_elem_of_In in Hin; by destruct (Hf _ Hin).
Qed.

Fixpoint norm_fields (fs : list (string * json)) : list (string * json) :=
  match fs with [] => [] | (k, v) :: fs => (k, norm v) :: norm_fields fs end.
Lemma norm_object fs : norm (JObj fs) = JObj (norm_fields (isort field_leb fs)).
Proof. rewrite norm_obj. f_equal. by induction (isort field_leb fs) as [|[k v] l IH]; [|cbn; rewrite IH]. Qed.

(** Sort members whose keys are literals. *)
Ltac sort_members :=
  cbn [isort];
  repeat match goal with
  | |- context [insert_sorted field_leb (?a, ?v) ((?b, ?u) :: ?l)] =>
      let r := eval vm_compute in (str_leb a b) in
      change (insert_sorted field_leb (a, v) ((b, u) :: l))
        with (if r then (a, v) :: (b, u) :: l else (b, u) :: insert_sorted field_leb (a, v) l); cbv iota
  | |- context [insert_sorted field_leb ?x []] => change (insert_sorted field_leb x []) with [x]
  end;
  cbn [norm_fields].

(** Members of a struct, one [wire] fact in the context for each. *)
Ltac wire_members :=
  repeat first
  [ apply Forall_nil_2
  | apply Forall_cons_2; [split; cbn [fst snd]|]
  | match goal with
    | |- utf8 _ => apply ascii_utf8; vm_compute; reflexivity
    | |- no_nul _ = true => vm_compute; reflexivity
    | W : wire _ _ _ ?j _ |- good _ ?j => apply (wire_good _ _ _ _ _ W); lia
    | W : wire _ _ _ ?j _ |- plain ?j => exact (wire_plain _ _ _ _ _ W)
    end ].
Ltac wire_struct proj :=
  constructor;
  [ intros depth Hdepth; apply good_object; [lia|apply (bool_decide_eq_true_1 _); vm_compute; reflexivity|wire_members]
  | apply plain_object; wire_members
  | rewrite norm_object; sort_members;
    match goal with |- dec_struct ?b ?f (JObj ?m) ?z = ?r => change (dec_members b f m z = r) end;
    repeat (dec_step; proj ();
      match goal with
      | W : wire _ ?d ?z ?j _ |- context [?d (norm ?j) ?z'] =>
          change (d (norm j) z') with (d (norm j) z); rewrite (wire_dec _ _ _ _ _ W)
      end; cbn [mbind option_bind]; proj ()); try reflexivity ].

Definition ref_ok (r : ItemRef) : Prop := text_ok (R_ID r) /\ int64_ok (R_Version r).
Lemma wire_ref r : ref_ok r -> wire 1 (dec_struct false ref_fields) (mkRef "" 0) (ref_json r) r.
Proof.
  intros [Hi Hv]. destruct r as [i v]. cbn in *.
  pose proof (wire_str 0 "" i ltac:(lia) Hi). pose proof (wire_int 0 0 v ltac:(lia) Hv).
  unfold ref_json, ref_fields. cbn [R_ID R_Version]. wire_struct ltac:(fun _ => cbn [R_ID R_Version]).
Qed.

(** ** The parts of a run *)
Definition check_ok' (c : DiagnosticCheck) : Prop := text_ok (CK_Kind c) /\ text_ok (CK_ResourceHandle c).
Lemma wire_check c : check_ok' c -> wire 1 (dec_struct false check_fields) (mkCheck "" "") (check_json c) c.
Proof.
  destruct c as [k h]. intros [Hk Hh]. cbn in *.
  pose proof (wire_str 0 "" k ltac:(lia) Hk). pose proof (wire_str 0 "" h ltac:(lia) Hh).
  unfold check_json, check_fields. cbn [CK_Kind CK_ResourceHandle].
  wire_struct ltac:(fun _ => cbn [CK_Kind CK_ResourceHandle]).
Qed.

Definition refs_ok (l : slice ItemRef) : Prop := forall r, r ∈ elems l -> ref_ok r.
Lemma wire_refs l : refs_ok l -> wire 2 (slice_decoder false) None (jslice ref_json l) l.
Proof. intros Hl. apply (wire_slice 1); [lia|]. intros r Hr. apply wire_ref. by apply Hl. Qed.

Definition alternative_ok' (a : Alternative) : Prop := text_ok (AL_CauseCode a) /\ refs_ok (AL_DiscriminatingEvidence a).
Lemma wire_alternative a :
  alternative_ok' a -> wire 3 (dec_struct false (alternative_fields false)) (mkAlternative "" None) (alternative_json a) a.
Proof.
  destruct a as [k l]. intros [Hk Hl]. cbn in *.
  pose proof (wire_str 0 "" k ltac:(lia) Hk). pose proof (wire_refs l Hl).
  unfold alternative_json, alternative_fields. cbn [AL_CauseCode AL_DiscriminatingEvidence].
  wire_struct ltac:(fun _ => cbn [AL_CauseCode AL_DiscriminatingEvidence]).
Qed.

Definition usage_ok' (u : Usage) : Prop := int64_ok (U_InputTokens u) /\ int64_ok (U_OutputTokens u) /\ int64_ok (U_TotalTokens u).
Lemma wire_usage u : usage_ok' u -> wire 1 (dec_struct false usage_fields) (mkUsage 0 0 0) (usage_json u) u.
Proof.
  destruct u as [i o t]. intros (Hi & Ho & Ht). cbn in *. pose proof (wire_int 0 0 i ltac:(lia) Hi).
  pose proof (wire_int 0 0 o ltac:(lia) Ho). pose proof (wire_int 0 0 t ltac:(lia) Ht).
  unfold usage_json, usage_fields. cbn [U_InputTokens U_OutputTokens U_TotalTokens].
  wire_struct ltac:(fun _ => cbn [U_InputTokens U_OutputTokens U_TotalTokens]).
Qed.
Lemma wire_usage_ptr o :
  (forall u, o = Some u -> usage_ok' u) ->
  wire 1 (dec_ptr (mkUsage 0 0 0) (dec_struct false usage_fields)) None
    (match o with Some u => usage_json u | None => JNull end) o.
Proof.
  intros Ho. destruct o as [u|]; [|constructor; [intros; constructor; lia|constructor|done]].
  destruct (wire_usage u (Ho u eq_refl)) as [Hg Hp Hd]. constructor; [done|done|].
  unfold dec_ptr. cbn [default]. rewrite Hd. unfold usage_json. by rewrite norm_obj.
Qed.

Definition round_ok' (r : Round) : Prop :=
  int64_ok (RD_ProviderLatencyMS r) /\ (forall u, RD_Usage r = Some u -> usage_ok' u) /\ int64_ok (RD_Number r) /\
  text_ok (RD_Status r) /\ text_ok (RD_Reason r) /\ int64_ok (RD_EvidenceCount r) /\ int64_ok (RD_ChecksRequested r).
Lemma wire_round r : round_ok' r -> wire 2 (dec_struct false (round_fields false)) zero_round (round_json r) r.
Proof.
  destruct r as [l u n s x e c]. intros (Hl & Hu & Hn & Hs & Hx & He & Hc). cbn in *.
  pose proof (wire_int 0 0 l ltac:(lia) Hl). pose proof (wire_usage_ptr u Hu). pose proof (wire_int 0 0 n ltac:(lia) Hn).
  pose proof (wire_str 0 "" s ltac:(lia) Hs). pose proof (wire_str 0 "" x ltac:(lia) Hx).
  pose proof (wire_int 0 0 e ltac:(lia) He). pose proof (wire_int 0 0 c ltac:(lia) Hc).
  unfold round_json, round_fields. cbn [RD_ProviderLatencyMS RD_Usage RD_Number RD_Status RD_Reason RD_EvidenceCount RD_ChecksRequested].
  wire_struct ltac:(fun _ => cbn [RD_ProviderLatencyMS RD_Usage RD_Number RD_Status RD_Reason RD_EvidenceCount RD_ChecksRequested]).
Qed.

Definition conclusion_ok (c : Conclusion) : Prop :=
  (forall x, x ∈ elems (CN_RequestedChecks c) -> check_ok' x) /\ (CN_RequestedChecks c <> Some []) /\
  text_ok (CN_CauseCode c) /\ text_ok (CN_ResourceHandle c) /\ refs_ok (CN_SupportingEvidence c) /\
  refs_ok (CN_ContradictingEvidence c) /\ (forall a, a ∈ elems (CN_Alternatives c) -> alternative_ok' a).
Lemma wire_conclusion c :
  conclusion_ok c -> wire 5 (dec_struct false (conclusion_fields false)) zero_conclusion (conclusion_json c) c.
Proof.
  destruct c as [ch k h s x a]. intros (Hch & Hne & Hk & Hh & Hs & Hx & Ha). cbn in *.
  pose proof (wire_str 0 "" k ltac:(lia) Hk). pose proof (wire_str 0 "" h ltac:(lia) Hh).
  pose proof (wire_refs s Hs). pose proof (wire_refs x Hx).
  pose proof (wire_slice 3 _ _ alternative_json a ltac:(lia) (fun y Hy => wire_alternative y (Ha y Hy))).
  pose proof (wire_slice 1 _ _ check_json ch ltac:(lia) (fun y Hy => wire_check y (Hch y Hy))) as Hc.
  unfold conclusion_json, conclusion_fields.
  cbn [CN_RequestedChecks CN_CauseCode CN_ResourceHandle CN_SupportingEvidence CN_ContradictingEvidence CN_Alternatives].
  destruct ch as [[|y ch]|]; [done| |]; unfold elems, default, id in *; cbn [jslice] in *.
  - rewrite bool_decide_false by done. cbn [omit_if app].
    wire_struct ltac:(fun _ => cbn [CN_RequestedChecks CN_CauseCode CN_ResourceHandle CN_SupportingEvidence CN_ContradictingEvidence CN_Alternatives]).
  - rewrite bool_decide_true by done. cbn [omit_if app].
    wire_struct ltac:(fun _ => cbn [CN_RequestedChecks CN_CauseCode CN_ResourceHandle CN_SupportingEvidence CN_ContradictingEvidence CN_Alternatives]).
Qed.

Definition assessment_ok (a : Assessment) : Prop :=
  text_ok (AS_Status a) /\ text_ok (AS_ReasonCode a) /\ conclusion_ok (AS_Conclusion a).
Lemma wire_assessment a :
  assessment_ok a -> wire 6 (dec_struct false (assessment_fields false)) zero_assessment (assessment_json a) a.
Proof.
  destruct a as [s r c]. intros (Hs & Hr & Hc). cbn in *.
  pose proof (wire_str 0 "" s ltac:(lia) Hs). pose proof (wire_str 0 "" r ltac:(lia) Hr). pose proof (wire_conclusion c Hc).
  unfold assessment_json, assessment_fields. cbn [AS_Status AS_ReasonCode AS_Conclusion].
  wire_struct ltac:(fun _ => cbn [AS_Status AS_ReasonCode AS_Conclusion]).
Qed.

Definition run_ok (r : RunResult) : Prop :=
  (forall x, x ∈ RR_Rounds r -> round_ok' x) /\ (forall x, x ∈ RR_KnowledgeVersions r -> ref_ok x) /\
  int64_ok (RR_EnvironmentVersion r) /\ text_ok (RR_RunID r) /\ text_ok (RR_ProfileID r) /\
  text_ok (RR_ProfileVersion r) /\ text_ok (RR_PrivacyVersion r) /\ text_ok (RR_PromptVersion r) /\
  text_ok (RR_RubricVersion r) /\ assessment_ok (RR_Assessment r).

Ltac run_proj :=
  cbn [id RR_Rounds RR_KnowledgeVersions RR_EnvironmentVersion RR_RunID RR_ProfileID RR_ProfileVersion RR_PrivacyVersion
    RR_PromptVersion RR_RubricVersion RR_Assessment zero_run].

Lemma wire_run r : run_ok r -> wire 7 (dec_struct false (run_fields false id (fun v _ => v))) zero_run (run_json r) r.
Proof.
  destruct r as [ro kv ev ri pi pv qv mv bv a]. intros (Hro & Hkv & Hev & Hri & Hpi & Hpv & Hqv & Hmv & Hbv & Ha). cbn in *.
  pose proof (wire_array 2 _ _ round_json ro ltac:(lia) (fun y Hy => wire_round y (Hro y Hy))).
  assert (wire 2 (refs_decoder false) [] (JArr (map ref_json kv)) kv)
    by exact (wire_array 1 _ _ ref_json kv ltac:(lia) (fun y Hy => wire_ref y (Hkv y Hy))).
  pose proof (wire_int 0 0 ev ltac:(lia) Hev). pose proof (wire_str 0 "" ri ltac:(lia) Hri).
  pose proof (wire_str 0 "" pi ltac:(lia) Hpi). pose proof (wire_str 0 "" pv ltac:(lia) Hpv).
  pose proof (wire_str 0 "" qv ltac:(lia) Hqv). pose proof (wire_str 0 "" mv ltac:(lia) Hmv).
  pose proof (wire_str 0 "" bv ltac:(lia) Hbv). pose proof (wire_assessment a Ha).
  unfold run_json, run_members, run_fields. run_proj.
  destruct ro as [|r0 ro], kv as [|k0 kv], (ev =? 0) eqn:Eev; try (apply Z.eqb_eq in Eev; subst ev);
    repeat first [rewrite bool_decide_true by done | rewrite bool_decide_false by done]; cbn [omit_if app];
    wire_struct ltac:(fun _ => run_proj).
Qed.

(** ** The recorded text *)

Lemma Seal_parents i s : Seal i = Ok s -> Permutation (I_Parents s) (I_Parents i).
Proof.
  unfold Seal. intros Hs. case_if_in Hs. destruct (CanonicalObject (I_Body i)) as [c|]; [|done]. cbv zeta in Hs.
  case_if_in Hs. destruct (Marshal _) as [e|]; [|done]. injection Hs as <-. cbn [set_hash I_Parents]. by rewrite isort_perm.
Qed.
Lemma Seal_body i s : Seal i = Ok s -> CanonicalObject (I_Body i) = Ok (I_Body s).
Proof.
  unfold Seal. intros Hs. case_if_in Hs. destruct (CanonicalObject (I_Body i)) as [c|]; [|done]. cbv zeta in Hs.
  case_if_in Hs. destruct (Marshal _) as [e|]; [|done]. by injection Hs as <-.
Qed.

(** The body of the claim that records a run, once it is sealed: jsonb gives it
    back unchanged, and it decodes to the run. *)
Lemma recorded_run_text r item s :
  run_ok r -> I_Body item = encode (run_json r) -> Seal item = Ok s ->
  (exists b, jsonb_text (I_Body s) = Some b /\ CanonicalObject b = Ok (I_Body s)) /\ decode_run (I_Body s) = Some r.
Proof.
  intros Hr Hb Hs. destruct (wire_run r Hr) as [Hg Hp Hd]. specialize (Hg 0 ltac:(lia)).
  assert (Hc : CanonicalObject (encode (run_json r)) = Ok (I_Body s)).
  { rewrite <- Hb. by apply Seal_body. }
  destruct (plain_text _ _ Hg Hp Hc) as (_ & Hj & Hi & Hrd). split; [by exists (I_Body s)|].
  unfold decode_run, Unmarshal. rewrite Hrd. exact Hd.
Qed.

(** ** A recorded run is such a value *)
Definition clear (s : string) : bool := str_forall (fun c => is_ascii c && negb (is_char 0 c)) s.
Lemma clear_text s : clear s = true -> text_ok s.
Proof.
  intros Hc. split.
  - apply ascii_utf8. change (str_forall is_ascii s = true). induction s as [|c s IH]; [done|].
    cbn in Hc |- *. apply andb_true_iff in Hc as [[-> _]%andb_true_iff Hc]. by apply IH.
  - unfold no_nul. induction s as [|c s IH]; [done|].
    cbn in Hc |- *. apply andb_true_iff in Hc as [[_ ->]%andb_true_iff Hc]. by apply IH.
Qed.

(** What the stored input contributes to the record. *)
Definition input_ok (i : AgentInput) : Prop :=
  text_ok (IN_ProfileID i) /\ text_ok (IN_ProfileVersion i) /\
  (forall c, SN_Environment (IN_Snapshot i) = Some c -> int64_ok (EC_Version c)) /\
  (forall g, g ∈ IN_Guidance i -> text_ok (GC_ID g) /\ int64_ok (GC_Version g)).

Lemma zero_conclusion_ok : conclusion_ok zero_conclusion.
Proof.
  assert (text_ok "") by (by apply clear_text). unfold conclusion_ok, refs_ok.
  split_and!; try done; intros x Hx; by apply elem_of_nil in Hx.
Qed.

Lemma accept_rounds_wire a l : forall n rounds,
  text_ok (AS_Status a) -> text_ok (AS_ReasonCode a) -> 0 <= n -> n + Z.of_nat (length l) <= 1000 ->
  accept_rounds a n l = Ok rounds -> forall x, x ∈ rounds -> round_ok' x.
Proof.
  induction l as [|r l IH]; intros n rounds Hs Hr Hn Hl; cbn [accept_rounds]; [intros [= <-] x Hx%elem_of_nil; done|].
  destruct (round_ok r) eqn:Er; [|done]. destruct (accept_rounds a (n + 1) l) as [rest|] eqn:Ea; [|done].
  cbn [res_bind]. intros [= <-] x [->|Hx]%elem_of_cons; cbn [length] in Hl; [|eapply (IH (n + 1)); try done; lia].
  unfold round_ok in Er. unfold round_ok', int64_ok. cbn.
  repeat match goal with H : _ && _ = true |- _ => apply andb_true_iff in H as [? ?] end.
  assert (forall u, RD_Usage r = Some u -> usage_ok' u).
  { intros u Hu. rewrite Hu in *. cbn [opt_ok] in *. unfold usage_ok', usage_ok, int64_ok in *. breflect. lia. }
  breflect. split_and!; try done; lia.
Qed.

Lemma AssessCandidate_clear c evidence at_ a :
  AssessCandidate c evidence at_ = Ok a -> clear (AS_Status a) = true /\ clear (AS_ReasonCode a) = true /\ AS_Conclusion a = c.
Proof.
  unfold AssessCandidate. case_if as E; [done|]. cbv zeta.
  repeat match goal with |- context [if ?b then _ else _] => destruct b end; intros [= <-]; repeat split; vm_compute; reflexivity.
Qed.

Lemma listed_clear l r : forallb clear l = true -> mem_str r l = true -> text_ok r.
Proof. rewrite forallb_forall. intros Hf Hm%bool_decide_eq_true. apply clear_text, Hf. by apply list_elem_of_In. Qed.

Lemma validated_ok submitted state at_ a :
  ValidateAgentResult submitted state at_ = Ok a -> conclusion_ok (AS_Conclusion (RR_Assessment submitted)) ->
  assessment_ok a /\ (length (RR_Rounds submitted) <= 3)%nat.
Proof.
  unfold ValidateAgentResult. intros Hv Hc. case_if_in Hv. split; [|breflect; lia]. case_if_in Hv.
  - apply AssessCandidate_clear in Hv as (Hs & Hr & Ha). split_and!; [by apply clear_text..|by rewrite Ha].
  - case_if_in Hv.
    + injection Hv as <-. split_and!; [by apply clear_text|by apply (listed_clear waiting_reasons)|apply zero_conclusion_ok].
    + case_if_in Hv. injection Hv as <-.
      split_and!; [by apply clear_text|by apply (listed_clear failure_reasons)|apply zero_conclusion_ok].
Qed.

Lemma recorded_result_ok i id submitted state at_ a rounds :
  input_ok i -> ValidID id = true -> conclusion_ok (AS_Conclusion (RR_Assessment submitted)) ->
  ValidateAgentResult submitted state at_ = Ok a -> accept_rounds a 1 (RR_Rounds submitted) = Ok rounds ->
  run_ok (recorded_result i id a rounds).
Proof.
  intros (Hp & Hpv & He & Hg) Hid Hc Hv Hr. destruct (validated_ok _ _ _ _ Hv Hc) as [Ha Hl].
  unfold run_ok, recorded_result. cbn. split_and!; try (by apply clear_text); try done.
  - destruct Ha as (Hs & Hx & _). by apply (accept_rounds_wire a (RR_Rounds submitted) 1 rounds Hs Hx ltac:(lia) ltac:(lia)).
  - intros x (g & -> & Hgin)%list_elem_of_fmap. by apply Hg.
  - destruct (SN_Environment (IN_Snapshot i)) as [c|]; [by apply He|]. unfold int64_ok. lia.
  - apply clear_text. apply ValidID_chars in Hid. eapply str_forall_impl; [|exact Hid].
    intros c Hch. unfold id_char, is_ascii, is_char, in_range in *. breflect.
    apply andb_true_iff. split; [apply Z.ltb_lt|apply negb_true_iff, Z.eqb_neq]; repeat case_match; breflect; lia.
Qed.
