(* ===== verification/Execution.v ===== *)
(** * pkg/execution: one typed mutation behind an approval

    service.go and reconcile.go.  An action is proposed from current evidence,
    approved by an owner against its plan hash, claimed once by the executor
    named in the plan, and closed by a receipt, a cancellation or a
    reconciliation. *)

From S2P Require Import Prelude.
From S2P Require Import Sha256.
From S2P Require Import Json.
From S2P Require Import JsonFacts.
From S2P Require Import GoTime.
From S2P Require Import Decode.
From S2P Require Import Identity.
From S2P Require Import Authorization.
From S2P Require Import Incident.
From S2P Require Import Db.
From S2P Require Import Sql.
From S2P Require Import Storage.
From S2P Require Import Records.
From S2P Require Import Privacy.
From S2P Require Import Fleet.

(** [Service]; a nil service or a nil fleet is [None]. *)
Record ExecService := mkExec { X_Fleet : option Service; X_Enabled : bool }.

Record ProposeRequest := mkPropose {
  PR_IncidentID : string; PR_Kind : string; PR_Evidence : ItemRef; PR_EvidenceHash : string; PR_ExecutorID : string }.

Record ClaimResult := mkClaim { CL_Action : Action; CL_ReceiptToken : string }.

Definition available (s : option ExecService) : option Service :=
  match s with
  | Some s => if X_Enabled s then X_Fleet s else None
  | None => None
  end.

(** [subtle.ConstantTimeCompare(a, b) == 1]. *)
Definition constant_time_eq (a b : string) : bool := str_eqb a b.

Definition set_approved (a : Action) (by_ : string) (expires : Time) : Action :=
  mkAction (A_Plan a) (A_Hash a) (wrap64 (A_Version a + 1)) "APPROVED" (A_ProposedBy a) by_ expires
    (A_CreatedAt a) (A_SubmittedAt a) (A_CompletedAt a) (A_OutcomeCode a) (A_ReconciledBy a).
Definition set_submitted (a : Action) (at_ : Time) : Action :=
  mkAction (A_Plan a) (A_Hash a) (wrap64 (A_Version a + 1)) "SUBMITTED" (A_ProposedBy a) (A_ApprovedBy a)
    (A_ApprovalExpiresAt a) (A_CreatedAt a) at_ (A_CompletedAt a) (A_OutcomeCode a) (A_ReconciledBy a).
Definition set_closed (a : Action) (state outcome reconciled : string) (at_ : Time) : Action :=
  mkAction (A_Plan a) (A_Hash a) (wrap64 (A_Version a + 1)) state (A_ProposedBy a) (A_ApprovedBy a)
    (A_ApprovalExpiresAt a) (A_CreatedAt a) (A_SubmittedAt a) at_ outcome reconciled.

(** The state a receipt leads to. *)
Definition receipt_state (outcome : string) : string :=
  if str_eqb outcome "APPLIED" || str_eqb outcome "AMBIGUOUS" then outcome else "FAILED".

Section Execution.
Context `{Env}.

Definition enqueue (t : Tx) (a : Action) : M unit :=
  let raw := print (JObj [("action_id", JStr (Pl_ID (A_Plan a))); ("incident_id", JStr (Pl_IncidentID (A_Plan a)));
                          ("state", JStr (A_State a))]) in
  let* key := NewID in
  Enqueue t key "ACTION_UPDATED" raw.

(** The earliest of the instants that bound a plan. *)
Definition earliest (first : Time) (l : list Time) : Time :=
  fold_left (fun expiry until => if Before until expiry then until else expiry) l first.

(** The checks of [Propose] on the decoded observation. *)
Definition replaceable (o : Observation) : option (Target * Provenance) :=
  if negb (Validate o) then None else
  match O_Target o, O_Source o with
  | Some tg, Some src =>
      if str_eqb (T_Kind tg) "Pod" && negb (str_eqb (T_UID tg) "") && negb (str_eqb (T_ResourceVersion tg) "")
         && (str_eqb (O_Code o) CrashLoop || str_eqb (O_Code o) PodFailed)
      then Some (tg, src) else None
  | _, _ => None
  end.

(** The transaction of [Propose] up to the action it saves. *)
Definition propose_action (f : Service) (p : Principal) (sc : Scope) (r : ProposeRequest) (t : Tx) : M Action :=
  let* item := GetItem t (PR_Evidence r) in
  guard (bool_decide (I_Kind item = Evidence) && str_eqb (I_IncidentID item) (PR_IncidentID r)
         && str_eqb (I_Hash item) (PR_EvidenceHash r)) ErrConflict ;;
  let* at_ := time_now in
  let* eligible := Eligible t (PR_Evidence r) at_ in
  guard eligible ErrConflict ;;
  let* current := CurrentItem t (I_ID item) in
  guard (I_Version current =? I_Version item) ErrConflict ;;
  match decode_observation (I_Body item) with
  | None => throw ErrInvalid
  | Some o =>
      match replaceable o with
      | None => throw ErrInvalid
      | Some (tg, src) =>
          let* executor := AgentByID t (PR_ExecutorID r) in
          let* source := AgentByID t (S_AgentID src) in
          let* now := time_now in
          guard (str_eqb (G_Role executor) Executor && negb (G_Revoked executor)
                 && str_eqb (G_Epoch executor) (Epoch f) && After (G_ExpiresAt executor) now
                 && str_eqb (G_ClusterUID executor) (G_ClusterUID source)) ErrConflict ;;
          let* now2 := time_now in
          let expiry := earliest (Add now2 (5 * Minute))
                          [I_ValidUntil item; O_ValidUntil o; G_ExpiresAt source; G_ExpiresAt executor] in
          let* id := NewID in
          let plan := mkPlan sc id (PR_IncidentID r) (PR_Kind r) (PR_Evidence r) (I_Hash item)
            (O_ResourceHandle o) (T_Commitment tg) (S_AgentID src) (S_Generation src) (G_ID executor)
            (G_Generation executor) (Epoch f) (version (Policy_ f)) expiry in
          let* created := time_now in
          ret (mkAction plan (Hash plan) 1 "PROPOSED" (P_ID p) "" zeroTime created zeroTime zeroTime "" "")
      end
  end.

Definition ProposeTx (f : Service) (p : Principal) (sc : Scope) (r : ProposeRequest) (t : Tx) : M Action :=
  let* a := propose_action f p sc r t in
  SaveAction t a 0 "" ;;
  enqueue t a ;;
  ret a.

Definition Propose (s : option ExecService) (p : Principal) (sc : Scope) (r : ProposeRequest) : M Action :=
  match available s with
  | None => throw ErrForbidden
  | Some f =>
      authorize (Policy_ f) p sc Investigate ;;
      guard (str_eqb (PR_Kind r) "REPLACE_POD" && ValidID (PR_ExecutorID r)) ErrInvalid ;;
      tx_of f sc (ProposeTx f p sc r)
  end.

(** [current]: nothing the plan depends on has moved. *)
Definition current (f : Service) (t : Tx) (a : Action) : M unit :=
  let p := A_Plan a in
  let* now := time_now in
  guard (str_eqb (A_Hash a) (Hash p) && str_eqb (Pl_Epoch p) (Epoch f)
         && str_eqb (Pl_PolicyVersion p) (version (Policy_ f)) && After (Pl_ExpiresAt p) now) ErrConflict ;;
  let* at_ := time_now in
  let* eligible := Eligible t (Pl_Evidence p) at_ in
  guard eligible ErrConflict ;;
  let* item := CurrentItem t (R_ID (Pl_Evidence p)) in
  guard ((I_Version item =? R_Version (Pl_Evidence p)) && str_eqb (I_Hash item) (Pl_EvidenceHash p)) ErrConflict ;;
  let* executor := AgentByID t (Pl_ExecutorID p) in
  let* now2 := time_now in
  guard (negb (G_Revoked executor) && str_eqb (G_Role executor) Executor && str_eqb (G_Epoch executor) (Pl_Epoch p)
         && (G_Generation executor =? Pl_ExecutorGeneration p) && After (G_ExpiresAt executor) now2) ErrConflict.

Definition save (t : Tx) (a : Action) (receipt : string) : M unit :=
  SaveAction t a (wrap64 (A_Version a - 1)) receipt ;;
  enqueue t a.

Definition ApproveTx (f : Service) (p : Principal) (id hash : string) (t : Tx) : M Action :=
  let* (a, _) := GetAction t id in
  guard (str_eqb (A_State a) "PROPOSED" && constant_time_eq hash (A_Hash a)) ErrConflict ;;
  current f t a ;;
  let a' := set_approved a (P_ID p) (P_ExpiresAt p) in
  save t a' "" ;;
  ret a'.

Definition Approve (s : option ExecService) (p : Principal) (sc : Scope) (id hash : string) : M Action :=
  match available s with
  | None => throw ErrForbidden
  | Some f =>
      authorize (Policy_ f) p sc Approve ;;
      tx_of f sc (ApproveTx f p id hash)
  end.

Definition ClaimTx (f : Service) (token id : string) (t : Tx) : M ClaimResult :=
  let* agent := AuthenticateTx f t token Executor in
  let* (a, _) := GetAction t id in
  let* now := time_now in
  guard (str_eqb (A_State a) "APPROVED" && negb (str_eqb (A_ApprovedBy a) "") && After (A_ApprovalExpiresAt a) now
         && str_eqb (Pl_ExecutorID (A_Plan a)) (G_ID agent)
         && (Pl_ExecutorGeneration (A_Plan a) =? G_Generation agent)) ErrConflict ;;
  current f t a ;;
  let* at_ := time_now in
  let a' := set_submitted a at_ in
  let* r1 := NewID in
  let* r2 := NewID in
  let receipt := r1 +:+ r2 in
  save t a' (TokenHash receipt) ;;
  ret (mkClaim a' receipt).

Definition Claim (s : option ExecService) (sc : Scope) (token id : string) : M ClaimResult :=
  match available s with
  | None => throw ErrForbidden
  | Some f => tx_of f sc (ClaimTx f token id)
  end.

Definition ReceiptTx (f : Service) (token id receipt outcome : string) (t : Tx) : M Action :=
  let* agent := AuthenticateTx f t token Executor in
  let* (a, stored) := GetAction t id in
  guard (str_eqb (Pl_ExecutorID (A_Plan a)) (G_ID agent)
         && (Pl_ExecutorGeneration (A_Plan a) =? G_Generation agent) && (slen receipt =? 64)
         && constant_time_eq stored (TokenHash receipt)) ErrConflict ;;
  if negb (str_eqb (A_State a) "SUBMITTED") then
    (if str_eqb (A_OutcomeCode a) outcome
        || (str_eqb (A_State a) "AMBIGUOUS" && str_eqb (A_OutcomeCode a) "AMBIGUOUS"
            && negb (str_eqb (A_ReconciledBy a) ""))
     then ret a else throw ErrConflict)
  else
    let* at_ := time_now in
    let a' := set_closed a (receipt_state outcome) outcome (A_ReconciledBy a) at_ in
    save t a' stored ;;
    ret a'.

Definition Receipt (s : option ExecService) (sc : Scope) (token id receipt outcome : string) : M Action :=
  match available s with
  | None => throw ErrForbidden
  | Some f =>
      guard (mem_str outcome ["APPLIED"; "PRECONDITION_FAILED"; "DENIED"; "AMBIGUOUS"]) ErrInvalid ;;
      tx_of f sc (ReceiptTx f token id receipt outcome)
  end.

Definition CancelTx (id : string) (t : Tx) : M Action :=
  let* (a, _) := GetAction t id in
  guard (str_eqb (A_State a) "PROPOSED" || str_eqb (A_State a) "APPROVED") ErrConflict ;;
  let* at_ := time_now in
  let a' := set_closed a "CANCELLED" (A_OutcomeCode a) (A_ReconciledBy a) at_ in
  save t a' "" ;;
  ret a'.

Definition Cancel (s : option ExecService) (p : Principal) (sc : Scope) (id : string) : M Action :=
  match available s with
  | None => throw ErrForbidden
  | Some f =>
      authorize (Policy_ f) p sc Authorization.Approve ;;
      tx_of f sc (CancelTx id)
  end.

Definition ReconcileTx (p : Principal) (id hash : string) (t : Tx) : M Action :=
  let* (a, stored) := GetAction t id in
  let* now := time_now in
  guard (str_eqb (A_State a) "SUBMITTED" && negb (IsZero (A_SubmittedAt a))
         && negb (After (Add (A_SubmittedAt a) (120 * Second)) now) && constant_time_eq hash (A_Hash a)) ErrConflict ;;
  let a' := set_closed a "AMBIGUOUS" "AMBIGUOUS" (P_ID p) now in
  save t a' stored ;;
  ret a'.

Definition Reconcile (s : option ExecService) (p : Principal) (sc : Scope) (id hash : string) : M Action :=
  match available s with
  | None => throw ErrForbidden
  | Some f =>
      authorize (Policy_ f) p sc Authorization.Approve ;;
      guard (ValidID id && (slen hash =? 64)) ErrInvalid ;;
      tx_of f sc (ReconcileTx p id hash)
  end.
End Execution.
