(* ===== verification/Falco.v ===== *)
(** * pkg/falco: the events of Falco

    webhook.go, types.go and sanitizer.go: how the webhook's body is
    authenticated, read and redacted before pkg/orchestrator stores it. *)

From S2P Require Import Prelude.
From S2P Require Import Json.
From S2P Require Import GoTime.
From S2P Require Import Decode.
From S2P Require Import Text.
From S2P Require Import Url.
From S2P Require Import Identity.
From S2P Require Import Http.
From S2P Require Import Execution.
From S2P Require Import Sanitizer.

(** What the Go runtime decides: the order in which, at some instant, it visits
    the members of a map at a place; and the text of the error of a body that
    does not arrive. *)
Class Runtime := {
  range_order : nat -> list nat -> list (string * json) -> list (string * json);
  read_error : nat -> string
}.

Module Falco.
Import Regexp Sanitizer.

(** ** encoding/json without the canonical form's restrictions

    [json.Unmarshal] scans the whole text first ([json_valid]); a key may repeat. *)
Fixpoint read_value (fuel : nat) (s : string) {struct fuel} : option (json * string) :=
  match fuel with
  | O => None
  | S fuel =>
      match skip_ws s with
      | EmptyString => None
      | String c s1 =>
          if is_char 123 c then '(fs, rest) ← read_object fuel true s1; Some (JObj fs, rest)
          else if is_char 91 c then '(l, rest) ← read_array fuel true s1; Some (JArr l, rest)
          else if is_char 34 c then '(x, rest) ← read_string s1; Some (JStr x, rest)
          else if is_char 116 c then rest ← strip "rue" s1; Some (JBool true, rest)
          else if is_char 102 c then rest ← strip "alse" s1; Some (JBool false, rest)
          else if is_char 110 c then rest ← strip "ull" s1; Some (JNull, rest)
          else '(lit, rest) ← read_num NStart (String c s1); Some (JNum lit, rest)
      end
  end
with read_object (fuel : nat) (first : bool) (s : string) {struct fuel} : option (list (string * json) * string) :=
  match fuel with
  | O => None
  | S fuel =>
      match skip_ws s with
      | EmptyString => None
      | String c s1 =>
          if is_char 125 c then Some ([], s1) else
          match skip_ws (if first then String c s1 else s1) with
          | EmptyString => None
          | String _ s2 =>
              '(k, s3) ← read_string s2;
              match skip_ws s3 with
              | EmptyString => None
              | String _ s4 =>
                  '(v, s5) ← read_value fuel s4;
                  '(fs, rest) ← read_object fuel false s5;
                  Some ((k, v) :: fs, rest)
              end
          end
      end
  end
with read_array (fuel : nat) (first : bool) (s : string) {struct fuel} : option (list json * string) :=
  match fuel with
  | O => None
  | S fuel =>
      match skip_ws s with
      | EmptyString => None
      | String c s1 =>
          if is_char 93 c then Some ([], s1) else
          '(v, s2) ← read_value fuel (if first then String c s1 else s1);
          '(l, rest) ← read_array fuel false s2;
          Some (v :: l, rest)
      end
  end.
Definition read_text (s : string) : option json :=
  if json_valid s then fst <$> read_value (read_fuel s) s else None.

(** A number of an [interface{}] is a float64, printed as encoding/json does. *)
Definition float_text (number : string) : option string :=
  f ← parse_float number;
  if bool_decide (f = f_zero) && has_prefix "-" number then Some "-0" else
  match f with FFin m _ => if (m =? 0) && has_prefix "-" number then Some "-0" else show_float f | _ => show_float f end.
(** An [interface{}]: the last of the members of a key stays. *)
Fixpoint decode_any (v : json) : option json :=
  match v with
  | JNum number => JNum <$> float_text number
  | JArr l => JArr <$> (fix elements l :=
      match l with [] => Some [] | v :: l => v ← decode_any v; l ← elements l; Some (v :: l) end) l
  | JObj fs => JObj <$> (fix members fs out :=
      match fs with [] => Some out | (k, v) :: fs => v ← decode_any v; members fs (assoc_set k v out) end) fs []
  | v => Some v
  end.

(** ** types.go *)

(** A time with its offset from UTC in seconds, which its text keeps. *)
Record Event := mkEvent {
  EV_UUID : string; EV_Output : string; EV_Priority : string; EV_Rule : string; EV_Time : Time * Z;
  EV_Source : string; EV_Tags : list string; EV_OutputFields : list (string * json); EV_Hostname : string }.
Definition zero_event : Event := mkEvent "" "" "" "" (zeroTime, 0) "" [] [] "".

(** The offset that ends the text of a time. *)
Definition offset_of (s : string) : Z :=
  default 0 (read_zone (String.substring (String.length s - 6) 6 s)).
Definition dec_zoned : decoder (Time * Z) := fun v old =>
  match v with JNull => Some old | JStr s => t ← parse s; Some (t, offset_of s) | _ => None end.
Definition zone_text (offset : Z) : string :=
  if offset =? 0 then "Z" else
  let minutes := Z.abs offset / 60 in
  (if offset <? 0 then "-" else "+") +:+ digits 2 (minutes / 60) +:+ ":" +:+ digits 2 (minutes mod 60).
(** [Time.MarshalJSON] in the zone of the time. *)
Definition zoned_json (t : Time * Z) : option json :=
  let local := fst t + snd t * Second in
  if (0 <=? year local) && (year local <=? 9999)
  then Some (JStr (trim_suffix "Z" (format local) +:+ zone_text (snd t))) else None.

Definition event_fields : list (field_decoder Event) := [
  field "uuid" EV_UUID (fun x e => mkEvent x (EV_Output e) (EV_Priority e) (EV_Rule e) (EV_Time e) (EV_Source e) (EV_Tags e) (EV_OutputFields e) (EV_Hostname e)) dec_string;
  field "output" EV_Output (fun x e => mkEvent (EV_UUID e) x (EV_Priority e) (EV_Rule e) (EV_Time e) (EV_Source e) (EV_Tags e) (EV_OutputFields e) (EV_Hostname e)) dec_string;
  field "priority" EV_Priority (fun x e => mkEvent (EV_UUID e) (EV_Output e) x (EV_Rule e) (EV_Time e) (EV_Source e) (EV_Tags e) (EV_OutputFields e) (EV_Hostname e)) dec_string;
  field "rule" EV_Rule (fun x e => mkEvent (EV_UUID e) (EV_Output e) (EV_Priority e) x (EV_Time e) (EV_Source e) (EV_Tags e) (EV_OutputFields e) (EV_Hostname e)) dec_string;
  field "time" EV_Time (fun x e => mkEvent (EV_UUID e) (EV_Output e) (EV_Priority e) (EV_Rule e) x (EV_Source e) (EV_Tags e) (EV_OutputFields e) (EV_Hostname e)) dec_zoned;
  field "source" EV_Source (fun x e => mkEvent (EV_UUID e) (EV_Output e) (EV_Priority e) (EV_Rule e) (EV_Time e) x (EV_Tags e) (EV_OutputFields e) (EV_Hostname e)) dec_string;
  field "tags" EV_Tags (fun x e => mkEvent (EV_UUID e) (EV_Output e) (EV_Priority e) (EV_Rule e) (EV_Time e) (EV_Source e) x (EV_OutputFields e) (EV_Hostname e)) (dec_list "" dec_string);
  field "output_fields" EV_OutputFields (fun x e => mkEvent (EV_UUID e) (EV_Output e) (EV_Priority e) (EV_Rule e) (EV_Time e) (EV_Source e) (EV_Tags e) x (EV_Hostname e)) (dec_map JNull (fun v _ => decode_any v));
  field "hostname" EV_Hostname (fun x e => mkEvent (EV_UUID e) (EV_Output e) (EV_Priority e) (EV_Rule e) (EV_Time e) (EV_Source e) (EV_Tags e) (EV_OutputFields e) x) dec_string].

Definition event_json (e : Event) : option json :=
  time ← zoned_json (EV_Time e);
  Some (JObj (omit_if (str_eqb (EV_UUID e) "") [("uuid", JStr (EV_UUID e))]
    ++ [("output", JStr (EV_Output e)); ("priority", JStr (EV_Priority e)); ("rule", JStr (EV_Rule e)); ("time", time)]
    ++ omit_if (str_eqb (EV_Source e) "") [("source", JStr (EV_Source e))]
    ++ omit_if (bool_decide (EV_Tags e = [])) [("tags", JArr (map JStr (EV_Tags e)))]
    ++ omit_if (bool_decide (length (EV_OutputFields e) = O)) [("output_fields", norm (JObj (EV_OutputFields e)))]
    ++ omit_if (str_eqb (EV_Hostname e) "") [("hostname", JStr (EV_Hostname e))])).

(** The first of [keys] that holds a string, not empty unless [empty]. *)
Definition output_field (empty : bool) (keys : list string) (e : Event) : option string :=
  head (omap (fun key => match assoc key (EV_OutputFields e) with
                         | Some (JStr s) => if empty || negb (str_eqb s "") then Some s else None
                         | _ => None
                         end) keys).
(** The name after the [=] of a match. *)
Definition name_class : re := Seq (Class alnum) (star (Class (fun c => alnum c || one_of "-_." c))).
Definition podRegex : re :=
  seq_of [any_of [seq_of [lit "k8s.pod"; opt (lit "_name")]; seq_of [lit "pod"; opt (lit "_name")]]; lit "="; name_class].
Definition nsRegex : re :=
  seq_of [any_of [seq_of [lit "k8s.ns"; opt (lit "_name")]; lit "namespace"]; lit "="; name_class].
Definition submatch (r : re) (s : string) : option string :=
  '(_, found, _) ← Regexp.find r None s; Some (snd (cut (chr 61) found)).

Definition Namespace (e : Event) : string :=
  match output_field false ["k8s.ns.name"; "k8s.ns"; "namespace"] e with
  | Some s => s
  | None => default "default" (submatch nsRegex (EV_Output e))
  end.
Definition PodName (e : Event) : string :=
  match output_field false ["k8s.pod.name"; "k8s.pod"; "pod.name"; "pod"] e with
  | Some s => s
  | None => default "" (submatch podRegex (EV_Output e))
  end.
Definition ContainerID (e : Event) : string := default "" (output_field true ["container.id"; "k8s.container.id"] e).
Definition ProcessName (e : Event) : string :=
  default "" (output_field false ["proc.cmdline"; "proc.name"; "proc.pname"] e).
Definition IsCritical (e : Event) : bool := mem_str (ToLower (EV_Priority e)) ["emergency"; "alert"; "critical"].
Definition ScannerSeverity (e : Event) : string :=
  let p := ToLower (EV_Priority e) in
  if IsCritical e then "CRITICAL" else if str_eqb p "error" then "HIGH" else if str_eqb p "warning" then "MEDIUM" else "LOW".
Definition SuggestedRemediation (e : Event) : string :=
  let rule := ToLower (EV_Rule e) in
  if existsb (fun p => contains p rule) ["kernel"; "escape"; "cgroup"] then "CordonNode"
  else if existsb (fun p => contains p rule) ["shell"; "binary"; "reverse"; "privilege"; "crypto"]
          && negb (str_eqb (PodName e) "") then "RestartPod"
  else "Manual".

(** ** sanitizer.go *)
Definition truncate (s : string) (maxLen : Z) : string :=
  if slen s <=? maxLen then s else String.substring 0 (Z.to_nat maxLen) s +:+ "...[TRUNCATED]".
Definition sanitize_field (order : list nat -> list (string * json) -> list (string * json)) (v : json) : json :=
  match v with
  | JStr s => JStr (truncate (SanitizeText s) 4096)
  | v => SanitizeValue order v
  end.
Definition SanitizeEvent (order : list nat -> list (string * json) -> list (string * json)) (e : Event) : Event :=
  mkEvent (EV_UUID e) (truncate (SanitizeText (EV_Output e)) 4096) (EV_Priority e) (EV_Rule e) (EV_Time e) (EV_Source e)
    (map (fun tag => truncate (SanitizeText tag) 256) (EV_Tags e))
    (imap (fun i kv => (fst kv, sanitize_field (fun place => order (i :: place)) (snd kv))) (EV_OutputFields e))
    (EV_Hostname e).

(** ** webhook.go *)
Inductive WebhookError := ErrUnauthorized | ErrPayloadTooLarge | ErrInvalidJSON | ErrRead.

Definition AuthenticateRequest (r : HttpRequest) (expected : string) : bool :=
  if str_eqb expected "" then true else
  let token := Header_Get r "X-Falco-Token" in
  let token := if negb (str_eqb token "") then token else
    let auth := Header_Get r "Authorization" in
    if has_prefix "bearer " (lower auth) then TrimSpace (String.substring 7 (String.length auth) auth) else "" in
  let token := if str_eqb token "" then Query r "token" else token in
  negb (str_eqb token "") && constant_time_eq token expected.

Definition decode_events (trimmed : string) : option (list Event) :=
  v ← read_text trimmed;
  if has_prefix "[" trimmed then
    l ← dec_list None (dec_ptr zero_event (dec_struct false event_fields)) v [];
    Some (flat_map (fun e : option Event => match e with Some e => [e] | None => [] end) l)
  else (fun e => [e]) <$> dec_struct false event_fields v zero_event.

(** The body behind the server's limit of 64 KiB, which is met before the
    webhook's own of 1 MiB. *)
Definition ParseWebhookPayload (order : list nat -> list (string * json) -> list (string * json)) (r : HttpRequest)
  (secret : string) : WebhookError + list Event :=
  if negb (AuthenticateRequest r secret) then inl ErrUnauthorized else
  match H_Body r with
  | None => inl ErrRead
  | Some body =>
      if 65536 <? slen body then inl ErrPayloadTooLarge else
      let trimmed := TrimSpace body in
      if str_eqb trimmed "" then inl ErrInvalidJSON else
      match decode_events trimmed with
      | None => inl ErrInvalidJSON
      | Some events => inr (imap (fun i e => SanitizeEvent (fun place => order (i :: place)) e) events)
      end
  end.

(** ** The event of falco_test.go *)
Definition shell_text : string :=
  encode (JObj [("output", JStr "Warning Shell spawned (k8s.ns=prod-payments k8s.pod=payment-gateway-6b9c) password=hunter2");
                ("priority", JStr "Warning"); ("rule", JStr "Terminal shell in container");
                ("time", JStr "2026-09-11T03:00:00.5+02:00"); ("tags", JArr [JStr "a"; JNull]);
                ("output_fields", JObj [("proc.cmdline", JStr "/bin/bash -i"); ("n", JNum "10.0"); ("proc.env", JObj [("DB_PASSWORD", JStr "root")]);
                                        ("n", JNum "-1e-7")])]).
Definition shell_event : Event :=
  match decode_events shell_text with Some [e] => SanitizeEvent (fun _ l => l) e | _ => zero_event end.
Example shell_reads :
  (Namespace shell_event, PodName shell_event, ProcessName shell_event) = ("prod-payments", "payment-gateway-6b9c", "/bin/bash -i") /\
  (ScannerSeverity shell_event, SuggestedRemediation shell_event) = ("MEDIUM", "RestartPod").
Proof. vm_compute. split; reflexivity. Qed.
Example shell_prints :
  encode <$> event_json shell_event =
  Some (encode (JObj [("output", JStr "Warning Shell spawned (k8s.ns=prod-payments k8s.pod=payment-gateway-6b9c) password=[REDACTED]");
                ("priority", JStr "Warning"); ("rule", JStr "Terminal shell in container");
                ("time", JStr "2026-09-11T03:00:00.5+02:00"); ("tags", JArr [JStr "a"; JStr ""]);
                ("output_fields", JObj [("n", JNum "-1e-7"); ("proc.cmdline", JStr "/bin/bash -i");
                                        ("proc.env", JObj [("DB_PASSWORD", JStr "[REDACTED]")])])])).
Proof. vm_compute. reflexivity. Qed.
Example events_read : map (fun s => length <$> decode_events s) ["null"; "[null,{}]"; "7"; "{} x"; "[]"]
  = [Some 1%nat; Some 1%nat; None; None; Some O].
Proof. vm_compute. reflexivity. Qed.
End Falco.
