(* ===== verification/Executor.v ===== *)
(** * pkg/agent/executor: the executor's runtime

    journal.go, client.go, action.go and the parts of runtime.go that keep state.
    An executor polls the orchestrator for approved actions, claims one, writes
    the attempt to its journal, and only then touches the cluster; receipts are
    repeated until they are acknowledged.

    The runtime is an interaction tree: [prog A] is a tree of calls to what lies
    outside the process (clock, files, the orchestrator, the Kubernetes API) with
    one continuation per answer.  Nothing is assumed of the answers here, and the
    process may die at any call.  The tree is finite, so a poll always ends. *)

From S2P Require Import Prelude.
From S2P Require Import Json.
From S2P Require Import Text.
From S2P Require Import GoTime.
From S2P Require Import Decode.
From S2P Require Import Identity.
From S2P Require Import Incident.
From S2P Require Import Fleet.
From S2P Require Import Registry.
From S2P Require Import Execution.

(** ** The Kubernetes API

    The objects and predicates of client-go and apimachinery that the runtime
    reads: third-party code, so a parameter. *)
Class Kube := {
  Pod : Type; ContainerStatus : Type; OwnerReference : Type;
  ReplicaSet : Type; StatefulSet : Type; DaemonSet : Type; DeleteError : Type;
  pod_Namespace : Pod -> string; pod_Name : Pod -> string; pod_UID : Pod -> string;
  pod_ResourceVersion : Pod -> string; pod_Phase : Pod -> string; pod_RestartPolicy : Pod -> string;
  pod_Deleting : Pod -> bool;                               (* DeletionTimestamp != nil *)
  pod_Label : Pod -> string -> option string; pod_Annotation : Pod -> string -> option string;
  pod_Conditions : Pod -> list (string * string);           (* type and status *)
  pod_InitContainerStatuses : Pod -> list ContainerStatus; pod_ContainerStatuses : Pod -> list ContainerStatus;
  cs_Waiting : ContainerStatus -> option string;            (* State.Waiting.Reason *)
  cs_Terminated : ContainerStatus -> option Time;           (* State.Terminated.FinishedAt *)
  cs_RestartCount : ContainerStatus -> Z;
  pod_OwnerReferences : Pod -> list OwnerReference;
  or_Controller : OwnerReference -> option bool; or_UID : OwnerReference -> string;
  or_APIVersion : OwnerReference -> string; or_Kind : OwnerReference -> string; or_Name : OwnerReference -> string;
  rs_UID : ReplicaSet -> string; rs_Deleting : ReplicaSet -> bool; rs_Replicas : ReplicaSet -> option Z;
  ss_UID : StatefulSet -> string; ss_Deleting : StatefulSet -> bool; ss_Replicas : StatefulSet -> option Z;
  ds_UID : DaemonSet -> string; ds_Deleting : DaemonSet -> bool; ds_DesiredNumberScheduled : DaemonSet -> Z;
  IsForbidden : DeleteError -> bool; IsUnauthorized : DeleteError -> bool; IsConflict : DeleteError -> bool;
  IsNotFound : DeleteError -> bool; IsInvalid : DeleteError -> bool;
  kube_names :: Names
}.

Module Runtime.
(** ** The journal and its text *)
Record attempt := mkAttempt { AT_ReceiptToken : string; AT_Outcome : string; AT_Acknowledged : bool }.
Definition zero_attempt : attempt := mkAttempt "" "" false.

Definition attempt_json (a : attempt) : json :=
  JObj [("receipt_token", JStr (AT_ReceiptToken a)); ("outcome", JStr (AT_Outcome a));
        ("acknowledged", JBool (AT_Acknowledged a))].
Definition attempt_fields : list (field_decoder attempt) :=
  [field "receipt_token" AT_ReceiptToken (fun v r => mkAttempt v (AT_Outcome r) (AT_Acknowledged r)) dec_string;
   field "outcome" AT_Outcome (fun v r => mkAttempt (AT_ReceiptToken r) v (AT_Acknowledged r)) dec_string;
   field "acknowledged" AT_Acknowledged (fun v r => mkAttempt (AT_ReceiptToken r) (AT_Outcome r) v) dec_bool].

(** [map[string]attempt]: distinct keys, in no particular order; printed sorted. *)
Definition Journal : Type := list (string * attempt).
Definition journal_text (j : Journal) : string :=
  encode (JObj (isort field_leb (map (fun kv => (fst kv, attempt_json (snd kv))) j))).

Definition maxWireBytes : Z := 65536.

(** ** The process *)
Record RuntimeConfig := mkConfig {
  RC_Scope : Scope; RC_ExpectedClusterUID : string; RC_Namespaces : list string;
  RC_ProtectedNamespaces : list string; RC_IdentityKey : list Z; RC_RegistryDir : string; RC_CredentialFile : string }.

(** The fields of [Runtime] that change. *)
Record Runtime := mkRuntime { r_credential : Credential; r_stopped : bool; r_closed : bool; r_journal : Journal }.

Inductive journal_file := JAbsent | JUnreadable | JText (s : string).

Section Programs.
Context `{Kube}.

Inductive call :=
| Now                                                  (* time.Now() *)
| Order (keys : list string)                           (* the order of a map iteration *)
| CheckPaths                                           (* the directory checks of newRuntime *)
| Lock                                                 (* flock on the .lock file *)
| ReadJournal | SaveJournal (text : string)            (* the .attempts file *)
| CredentialExists | LoadCredential | SaveCredential (c : Credential) | ReadBootstrap
| ClusterUID                                           (* the UID of kube-system *)
| PostEnroll (token uid : string) | PostRenew (token : string) | GetActions (token : string)
| PostClaim (token id : string) | PostReceipt (token id receipt outcome : string)
| Resolve (handle commitment : string)                 (* Registry.Resolve *)
| GetPod (namespace name : string) | GetReplicaSet (namespace name : string)
| GetStatefulSet (namespace name : string) | GetDaemonSet (namespace name : string)
| DeletePod (id : string) (t : LocalTarget) (dry : bool). (* [id] is the action it is done for *)

Definition answer (c : call) : Type :=
  match c with
  | Now => Time
  | Order _ => list string
  | CheckPaths | Lock | SaveJournal _ | SaveCredential _ => bool
  | ReadJournal => journal_file
  | CredentialExists => option bool
  | LoadCredential => option Credential
  | ReadBootstrap => option string
  | ClusterUID => option string
  | PostEnroll _ _ | PostRenew _ => res Credential
  | GetActions _ => res (list Action)
  | PostClaim _ _ => res ClaimResult
  | PostReceipt _ _ _ _ => res Action
  | Resolve _ _ => res LocalTarget
  | GetPod _ _ => option Pod
  | GetReplicaSet _ _ => option ReplicaSet
  | GetStatefulSet _ _ => option StatefulSet
  | GetDaemonSet _ _ => option DaemonSet
  | DeletePod _ _ _ => option DeleteError
  end.

Inductive prog (A : Type) : Type :=
| Ret (a : A)
| Call (c : call) (k : answer c -> prog A).
Arguments Ret {A} a.
Arguments Call {A} c k.

Fixpoint bindP {A B} (p : prog A) (f : A -> prog B) : prog B :=
  match p with
  | Ret a => f a
  | Call c k => Call c (fun x => bindP (k x) f)
  end.

(** A method of [*Runtime]: it changes the runtime's fields, and may fail. *)
Definition X (A : Type) : Type := Runtime -> prog (res A * Runtime).
Definition retX {A} (a : A) : X A := fun r => Ret (Ok a, r).
Definition failX {A} (e : GoErr) : X A := fun r => Ret (Err e, r).
Definition bindX {A B} (m : X A) (f : A -> X B) : X B := fun r =>
  bindP (m r) (fun x => match fst x with Ok a => f a (snd x) | Err e => Ret (Err e, snd x) end).
Definition do_call (c : call) : X (answer c) := fun r => Call c (fun x => Ret (Ok x, r)).
Definition get : X Runtime := fun r => Ret (Ok r, r).
Definition set_credential (c : Credential) : X unit := fun r =>
  Ret (Ok tt, mkRuntime c (r_stopped r) (r_closed r) (r_journal r)).
Definition set_journal (j : Journal) : X unit := fun r =>
  Ret (Ok tt, mkRuntime (r_credential r) (r_stopped r) (r_closed r) j).
(** [x, err := m()], with the error looked at. *)
Definition try {A} (m : X A) : X (res A) := fun r => bindP (m r) (fun x => Ret (Ok (fst x), snd x)).
Definition guardX (b : bool) (e : GoErr) : X unit := if b then retX tt else failX e.
Definition of_resX {A} (x : res A) : X A := match x with Ok a => retX a | Err e => failX e end.
End Programs.
Arguments Ret {_ _} a.
Arguments Call {_ _} c k.

Declare Scope runtime_scope.
Delimit Scope runtime_scope with runtime.
Notation "'let!' p ':=' m 'in' k" := (bindX m (fun p => k))
  (at level 10, p as pattern, m at level 200, k at level 200) : runtime_scope.
Notation "m ;;; k" := (bindX m (fun _ => k)) (at level 100, k at level 200, right associativity) : runtime_scope.
#[local] Open Scope runtime_scope.

(** Loops over a slice. *)
Fixpoint eachX `{Kube} {A} (f : A -> X unit) (l : list A) : X unit :=
  match l with
  | [] => retX tt
  | x :: l => f x ;;; eachX f l
  end.

Section Operations.
Context `{Kube}.
Variable config : RuntimeConfig.

(** ** client.go: what a response means *)

(** [controlClient.request] on the status and the body's size; the body is
    decoded by the caller. *)
Definition response_error (status size : Z) : option GoErr :=
  if (status =? 401) || (status =? 403) then Some ErrReenrollment
  else if (maxWireBytes <? size) || (status <? 200) || (300 <=? status) then Some ErrRuntime else None.

Definition enroll (token uid : string) : X Credential := let! r := do_call (PostEnroll token uid) in of_resX r.
Definition renew (old : Credential) : X Credential := let! r := do_call (PostRenew (C_Token old)) in of_resX r.

(** ** journal.go *)

(** [savePrivate]: a text over the limit is refused before anything is written. *)
Definition persistJournal : X unit :=
  let! r := get in
  let text := journal_text (r_journal r) in
  guardX (negb (maxWireBytes <? slen text)) ErrRuntime ;;;
  let! ok := do_call (SaveJournal text) in
  guardX ok ErrRuntime.

Definition valid_entry (kv : string * attempt) : bool :=
  ValidID (fst kv) && (slen (AT_ReceiptToken (snd kv)) =? 64)
  && mem_str (AT_Outcome (snd kv)) ["APPLIED"; "AMBIGUOUS"; "DENIED"; "PRECONDITION_FAILED"].

(** The decoder fills the empty map; [null] leaves it nil, which is refused. *)
Definition decode_journal (text : string) : option Journal :=
  match read_json text with
  | Some JNull | None => None
  | Some v => dec_map zero_attempt (dec_struct true attempt_fields) v []
  end.

Definition openJournal : X unit :=
  let! locked := do_call Lock in
  guardX locked ErrRuntime ;;;
  set_journal [] ;;;
  let! file := do_call ReadJournal in
  match file with
  | JAbsent => let! e := try persistJournal in guardX (is_ok e) ErrRuntime
  | JUnreadable => failX ErrRuntime
  | JText text =>
      if maxWireBytes <? slen text then failX ErrRuntime else
      match decode_journal text with
      | None => failX ErrRuntime
      | Some j =>
          set_journal j ;;;
          guardX (negb (256 <? Z.of_nat (length j)) && forallb valid_entry j) ErrRuntime
      end
  end.

Definition journal_delete (id : string) (j : Journal) : Journal :=
  List.filter (fun kv => negb (str_eqb (fst kv) id)) j.

(** The range loop over the copy [next], which it shrinks. *)
Fixpoint compact (keys : list string) (next : Journal) : Journal :=
  match keys with
  | [] => next
  | id :: keys =>
      if Z.of_nat (length next) <=? 128 then next
      else match assoc id next with
           | Some a => compact keys (if AT_Acknowledged a then journal_delete id next else next)
           | None => compact keys next
           end
  end.

Definition compactJournal : X unit :=
  let! r := get in
  let old := r_journal r in
  if Z.of_nat (length old) <? 192 then retX tt else
  let! keys := do_call (Order (map fst old)) in
  let next := compact keys old in
  if bool_decide (length next = length old) then retX tt else
  set_journal next ;;;
  let! saved := try persistJournal in
  match saved with
  | Ok _ => retX tt
  | Err e => set_journal old ;;; failX e
  end.

(** ** runtime.go *)
Fixpoint namespaces_ok (seen : list string) (l : list string) : bool :=
  match l with
  | [] => true
  | ns :: l => IsDNS1123Label ns && negb (mem_str ns seen)
               && negb (mem_str ns (["kube-system"; "kube-public"; "kube-node-lease"] ++ RC_ProtectedNamespaces config))
               && namespaces_ok (ns :: seen) l
  end.

(** The checks of [newRuntime] on its configuration; [origin] says whether
    [newControlClient] accepts the orchestrator's URL. *)
Definition config_ok (origin : bool) : bool :=
  origin && Scope_Validate (RC_Scope config) && ValidID (RC_ExpectedClusterUID config)
  && (length (RC_IdentityKey config) =? 32)%nat && negb (length (RC_Namespaces config) =? 0)%nat
  && negb (64 <? Z.of_nat (length (RC_Namespaces config))) && negb (str_eqb (RC_CredentialFile config) "")
  && negb (str_eqb (RC_RegistryDir config) "")
  && negb (64 <? Z.of_nat (length (RC_ProtectedNamespaces config)))
  && forallb IsDNS1123Label (RC_ProtectedNamespaces config)
  && namespaces_ok [] (RC_Namespaces config).

Definition zero_credential : Credential := mkCredential "" (mkAgent (mkScope "" "" "") "" "" "" "" 0 "" zeroTime false).
Definition fresh : Runtime := mkRuntime zero_credential false false [].

Definition newRuntime (origin : bool) : X unit :=
  guardX (config_ok origin) ErrRuntime ;;;
  let! paths := do_call CheckPaths in
  guardX paths ErrRuntime ;;;
  openJournal.

Definition Close : X unit := fun r =>
  Ret (Ok tt, if r_closed r then r else mkRuntime (r_credential r) true true (r_journal r)).

Definition verifyCluster : X unit :=
  let! uid := do_call ClusterUID in
  guardX (bool_decide (uid = Some (RC_ExpectedClusterUID config))) ErrRuntime.

Definition credential_valid (c : Credential) (now : Time) : bool :=
  let a := C_Agent c in
  (slen (C_Token c) =? 43) && scope_eqb (G_Scope a) (RC_Scope config)
  && str_eqb (G_ClusterUID a) (RC_ExpectedClusterUID config) && str_eqb (G_Role a) Executor
  && str_eqb (G_Audience a) "sre-execution" && ValidID (G_ID a) && ValidID (G_Epoch a)
  && (1 <=? G_Generation a) && negb (G_Revoked a) && After (G_ExpiresAt a) now.
Definition validCredential (c : Credential) : X bool :=
  let! now := do_call Now in retX (credential_valid c now).

Definition check_credential (c : Credential) : X unit :=
  let! ok := validCredential c in guardX ok ErrReenrollment.

Definition save_credential (c : Credential) : X unit :=
  let! saved := do_call (SaveCredential c) in
  guardX saved ErrReenrollment ;;;
  set_credential c.

(** The first half of [authorize]: a credential from the file, or a new one for
    the bootstrap token. *)
Definition acquire : X unit :=
  let! exists_ := do_call CredentialExists in
  match exists_ with
  | Some true =>
      let! c := do_call LoadCredential in
      match c with
      | None => failX ErrReenrollment
      | Some c => check_credential c ;;; set_credential c
      end
  | None => failX ErrRuntime
  | Some false =>
      let! b := do_call ReadBootstrap in
      match b with
      | None => failX ErrRuntime
      | Some text =>
          let token := TrimSpace text in
          guardX (slen token =? 43) ErrRuntime ;;;
          let! cluster := try verifyCluster in
          guardX (is_ok cluster) ErrRuntime ;;;
          let! c := enroll token (RC_ExpectedClusterUID config) in
          check_credential c ;;;
          save_credential c
      end
  end.

Definition rotate : X unit :=
  let! r := get in
  let! c := renew (r_credential r) in
  let old := C_Agent (r_credential r) in
  let! ok := validCredential c in
  guardX (ok && str_eqb (G_ID (C_Agent c)) (G_ID old) && str_eqb (G_Epoch (C_Agent c)) (G_Epoch old)
          && (G_Generation (C_Agent c) =? wrap64 (G_Generation old + 1))) ErrReenrollment ;;;
  save_credential c.

Definition authorize : X unit :=
  let! r := get in
  (if str_eqb (C_Token (r_credential r)) "" then acquire else retX tt) ;;;
  let! r := get in
  check_credential (r_credential r) ;;;
  let! now := do_call Now in
  if Sub (G_ExpiresAt (C_Agent (r_credential r))) now <? 2 * Minute then rotate else retX tt.

(** ** action.go *)
Definition PodRestarting (p : Pod) (at_ : Time) : bool :=
  existsb (fun s => bool_decide (cs_Waiting s = Some "CrashLoopBackOff")
    || match cs_Terminated s with
       | Some finished =>
           (2 <=? cs_RestartCount s) && str_eqb (pod_RestartPolicy p) "Always" && negb (IsZero finished)
           && negb (After finished at_) && (Sub at_ finished <=? 90 * Second)
       | None => false
       end) (pod_InitContainerStatuses p ++ pod_ContainerStatuses p).

(** The plan and the credential agree with this executor; the three clock
    readings are those of the condition's three deadlines. *)
Definition plan_ok (a : Action) (c : Agent) (now : Time) : bool :=
  let p := A_Plan a in
  ValidID (Pl_ID p) && str_eqb (Pl_Kind p) "REPLACE_POD" && scope_eqb (Pl_Scope p) (RC_Scope config)
  && str_eqb (Pl_ExecutorID p) (G_ID c) && (Pl_ExecutorGeneration p =? G_Generation c)
  && str_eqb (Pl_Epoch p) (G_Epoch c) && (1 <=? Pl_SourceGeneration p) && str_eqb (A_Hash a) (Hash p)
  && After (Pl_ExpiresAt p) now.

Definition target_ok (a : Action) (t : LocalTarget) : bool :=
  let p := A_Plan a in
  str_eqb (LT_Kind t) "Pod" && scope_eqb (LT_Scope t) (Pl_Scope p) && str_eqb (LT_Epoch t) (Pl_Epoch p)
  && (LT_Generation t =? Pl_SourceGeneration p) && negb (str_eqb (LT_UID t) "")
  && negb (str_eqb (LT_ResourceVersion t) "").

Definition namespace_allowed (ns : string) : bool :=
  mem_str ns (RC_Namespaces config)
  && negb (mem_str ns ["kube-system"; "kube-public"; "kube-node-lease"])
  && negb (mem_str ns (RC_ProtectedNamespaces config)).

Definition is_target (p : Pod) (t : LocalTarget) : bool :=
  str_eqb (pod_Namespace p) (LT_Namespace t) && str_eqb (pod_Name p) (LT_Name t) && str_eqb (pod_UID p) (LT_UID t)
  && str_eqb (pod_ResourceVersion p) (LT_ResourceVersion t) && negb (pod_Deleting p).

Definition unprotected (p : Pod) : bool :=
  str_eqb (default "" (pod_Label p "sre.component")) ""
  && negb (str_eqb (default "" (pod_Label p "sre.kubebee.com/protected")) "true").

Definition replace_worthy (p : Pod) (now : Time) : bool :=
  let unhealthy := str_eqb (pod_Phase p) "Failed" || PodRestarting p now
    || existsb (fun s => bool_decide (cs_Waiting s = Some "CrashLoopBackOff"))
         (pod_InitContainerStatuses p ++ pod_ContainerStatuses p) in
  let ready := existsb (fun c => str_eqb (fst c) "Ready" && str_eqb (snd c) "True") (pod_Conditions p) in
  unhealthy && negb ready.

Definition not_static (p : Pod) : bool :=
  negb (bool_decide (is_Some (pod_Annotation p "kubernetes.io/config.mirror")))
  && match pod_Annotation p "kubernetes.io/config.source" with Some source => str_eqb source "api" | None => true end.

(** One controller reference: its live object owns the pod and wants replicas. *)
Definition check_owner (ns : string) (o : OwnerReference) : X unit :=
  guardX (negb (str_eqb (or_UID o) "") && str_eqb (or_APIVersion o) "apps/v1") ErrRuntime ;;;
  let wants (r : option Z) := match r with Some n => 1 <=? n | None => true end in
  if str_eqb (or_Kind o) "ReplicaSet" then
    let! x := do_call (GetReplicaSet ns (or_Name o)) in
    match x with
    | Some x => guardX (str_eqb (rs_UID x) (or_UID o) && negb (rs_Deleting x) && wants (rs_Replicas x)) ErrRuntime
    | None => failX ErrRuntime
    end
  else if str_eqb (or_Kind o) "StatefulSet" then
    let! x := do_call (GetStatefulSet ns (or_Name o)) in
    match x with
    | Some x => guardX (str_eqb (ss_UID x) (or_UID o) && negb (ss_Deleting x) && wants (ss_Replicas x)) ErrRuntime
    | None => failX ErrRuntime
    end
  else if str_eqb (or_Kind o) "DaemonSet" then
    let! x := do_call (GetDaemonSet ns (or_Name o)) in
    match x with
    | Some x => guardX (str_eqb (ds_UID x) (or_UID o) && negb (ds_Deleting x)
                        && (1 <=? ds_DesiredNumberScheduled x)) ErrRuntime
    | None => failX ErrRuntime
    end
  else failX ErrRuntime.

Definition controllers (p : Pod) : list OwnerReference :=
  List.filter (fun o => bool_decide (or_Controller o = Some true)) (pod_OwnerReferences p).

Definition validate (a : Action) : X LocalTarget :=
  let p := A_Plan a in
  let! r := get in
  let! now := do_call Now in
  guardX (plan_ok a (C_Agent (r_credential r)) now) ErrRuntime ;;;
  let! live := validCredential (r_credential r) in
  guardX live ErrRuntime ;;;
  let! now := do_call Now in
  guardX (After (A_ApprovalExpiresAt a) now) ErrRuntime ;;;
  let! resolved := do_call (Resolve (Pl_ResourceHandle p) (Pl_TargetCommitment p)) in
  match resolved with
  | Err _ => failX ErrRuntime
  | Ok t =>
      guardX (target_ok a t && namespace_allowed (LT_Namespace t)) ErrRuntime ;;;
      let! cluster := try verifyCluster in
      guardX (is_ok cluster) ErrRuntime ;;;
      let! pod := do_call (GetPod (LT_Namespace t) (LT_Name t)) in
      match pod with
      | None => failX ErrRuntime
      | Some pod =>
          guardX (is_target pod t && unprotected pod) ErrRuntime ;;;
          let! now := do_call Now in
          guardX (replace_worthy pod now && not_static pod) ErrRuntime ;;;
          eachX (check_owner (LT_Namespace t)) (controllers pod) ;;;
          guardX (length (controllers pod) =? 1)%nat ErrRuntime ;;;
          retX t
      end
  end.

(** The orchestrator's answer to a receipt closes the attempt: the same outcome,
    or an owner's reconciliation of an ambiguous one. *)
Definition accepted (id outcome : string) (out : Action) : bool :=
  let reconciled := str_eqb (A_State out) "AMBIGUOUS" && str_eqb (A_OutcomeCode out) "AMBIGUOUS"
    && negb (str_eqb (A_ReconciledBy out) "") in
  str_eqb (Pl_ID (A_Plan out)) id && (str_eqb (A_OutcomeCode out) outcome || reconciled).

Definition receipt (id : string) (a : attempt) : X unit :=
  let! r := get in
  let! reply := do_call (PostReceipt (C_Token (r_credential r)) id (AT_ReceiptToken a) (AT_Outcome a)) in
  match reply with
  | Err e => failX e
  | Ok out =>
      guardX (accepted id (AT_Outcome a) out) ErrRuntime ;;;
      let! r := get in
      set_journal (assoc_set id (mkAttempt (AT_ReceiptToken a) (AT_Outcome a) true) (r_journal r)) ;;;
      persistJournal
  end.

(** What a failed delete means, for the dry run and for the write. *)
Definition precondition_failed (e : DeleteError) : bool := IsConflict e || IsNotFound e || IsInvalid e.
Definition dry_outcome (e : DeleteError) : string := if precondition_failed e then "PRECONDITION_FAILED" else "DENIED".
Definition write_outcome (e : option DeleteError) : string :=
  match e with
  | None => "APPLIED"
  | Some e => if precondition_failed e then "PRECONDITION_FAILED"
              else if IsForbidden e || IsUnauthorized e then "DENIED" else "AMBIGUOUS"
  end.

Definition granted (a : Action) (claim : ClaimResult) : bool :=
  let c := CL_Action claim in
  str_eqb (A_State c) "SUBMITTED" && str_eqb (A_Hash c) (A_Hash a) && str_eqb (Hash (A_Plan c)) (A_Hash a)
  && (A_Version c =? wrap64 (A_Version a + 1)).

(** The one mutation of a claimed action, after a dry run ([NewRuntime] sets
    [deletePod]). *)
Definition mutate (id : string) (a : Action) (claim : ClaimResult) : X string :=
  if negb (granted a claim) then retX "PRECONDITION_FAILED" else
  let! target := try (validate (CL_Action claim)) in
  match target with
  | Err _ => retX "PRECONDITION_FAILED"
  | Ok target =>
      let! e := do_call (DeletePod id target true) in
      match e with
      | Some e => retX (dry_outcome e)
      | None =>
          let! again := try (validate (CL_Action claim)) in
          match again with
          | Err _ => retX "PRECONDITION_FAILED"
          | Ok _ => let! e := do_call (DeletePod id target false) in retX (write_outcome e)
          end
      end
  end.

Definition perform (a : Action) : X unit :=
  let id := Pl_ID (A_Plan a) in
  let! r := get in
  guardX (negb (256 <=? Z.of_nat (length (r_journal r)))
          && negb (maxWireBytes <? slen (journal_text (r_journal r)) + 512)) ErrRuntime ;;;
  let! claim := do_call (PostClaim (C_Token (r_credential r)) id) in
  let! claim := of_resX claim in
  guardX (slen (CL_ReceiptToken claim) =? 64) ErrRuntime ;;;
  let! r := get in
  set_journal (assoc_set id (mkAttempt (CL_ReceiptToken claim) "AMBIGUOUS" false) (r_journal r)) ;;;
  persistJournal ;;;
  let! outcome := mutate id a claim in
  let pending := mkAttempt (CL_ReceiptToken claim) outcome false in
  let! r := get in
  set_journal (assoc_set id pending (r_journal r)) ;;;
  persistJournal ;;;
  receipt id pending.

(** One approved action of the list; what is not wanted is skipped. *)
Definition attend (a : Action) : X unit :=
  let! r := get in
  match assoc (Pl_ID (A_Plan a)) (r_journal r) with
  | Some _ => retX tt
  | None =>
      let! now := do_call Now in
      if negb (str_eqb (A_State a) "APPROVED" && negb (str_eqb (A_ApprovedBy a) "")
               && After (A_ApprovalExpiresAt a) now) then retX tt else
      let! valid := try (validate a) in
      if is_ok valid then perform a else retX tt
  end.

(** One unacknowledged receipt is sent again. *)
Definition flush_one (id : string) : X unit :=
  let! r := get in
  match assoc id (r_journal r) with
  | Some a => if AT_Acknowledged a then retX tt else check_credential (r_credential r) ;;; receipt id a
  | None => retX tt
  end.
Definition flush : X unit :=
  let! r := get in
  let! keys := do_call (Order (map fst (r_journal r))) in
  eachX flush_one keys.

(** A credential on file is used for the receipts that are still owed. *)
Definition preload : X unit :=
  let! r := get in
  if negb (str_eqb (C_Token (r_credential r)) "") then retX tt else
  let! c := do_call LoadCredential in
  match c with
  | Some c => check_credential c ;;; set_credential c
  | None => retX tt
  end.

Definition poll_body : X unit :=
  let! cluster := try verifyCluster in
  guardX (is_ok cluster) ErrRuntime ;;;
  preload ;;;
  flush ;;;
  compactJournal ;;;
  authorize ;;;
  let! r := get in
  let! actions := do_call (GetActions (C_Token (r_credential r))) in
  let! actions := of_resX actions in
  guardX (negb (100 <? Z.of_nat (length actions))) ErrRuntime ;;;
  eachX attend actions.

(** A rejected credential stops the runtime for good. *)
Definition stop_if_rejected {A} (x : res A * Runtime) : res A * Runtime :=
  match fst x with
  | Err ErrReenrollment =>
      (fst x, mkRuntime (r_credential (snd x)) true (r_closed (snd x)) (r_journal (snd x)))
  | _ => x
  end.
Definition Poll : X unit := fun r =>
  if r_stopped r then Ret (Err ErrReenrollment, r) else bindP (poll_body r) (fun x => Ret (stop_if_rejected x)).
End Operations.
End Runtime.
