(* ===== verification/AgentApi.v ===== *)
(** * pkg/orchestrator: the routes of executors

    action_handlers.go, collector_handlers.go and server.go, as far as an
    executor uses them: what a handler answers, with the status the client turns
    back into an error ([Runtime.response_error]).  The body of a reply is the
    value it decodes to. *)

From S2P Require Import Prelude.
From S2P Require Import Json.
From S2P Require Import GoTime.
From S2P Require Import Decode.
From S2P Require Import Identity.
From S2P Require Import Authorization.
From S2P Require Import Incident.
From S2P Require Import Db.
From S2P Require Import Sql.
From S2P Require Import Storage.
From S2P Require Import Records.
From S2P Require Import Fleet.
From S2P Require Import Execution.
From S2P Require Import Executor.

Module Api.
Definition action_json (a : Action) : option json :=
  plan ← plan_json (A_Plan a); expires ← jtime (A_ApprovalExpiresAt a); created ← jtime (A_CreatedAt a);
  submitted ← jtime (A_SubmittedAt a); completed ← jtime (A_CompletedAt a);
  Some (JObj ([("plan", plan); ("hash", JStr (A_Hash a)); ("version", jint (A_Version a)); ("state", JStr (A_State a));
               ("proposed_by", JStr (A_ProposedBy a))]
              ++ omit_if (str_eqb (A_ApprovedBy a) "") [("approved_by", JStr (A_ApprovedBy a))]
              ++ [("approval_expires_at", expires); ("created_at", created); ("submitted_at", submitted);
                  ("completed_at", completed)]
              ++ omit_if (str_eqb (A_OutcomeCode a) "") [("outcome_code", JStr (A_OutcomeCode a))]
              ++ omit_if (str_eqb (A_ReconciledBy a) "") [("reconciled_by", JStr (A_ReconciledBy a))])).

(** [respondError] and [agentError]. *)
Definition respondError (e : GoErr) : Z :=
  match e with
  | ErrForbidden => 403 | ErrNotFound => 404 | ErrConflict => 409 | ErrInvalid => 400 | ErrBusy => 429 | _ => 503
  end.
Definition agentError (e : GoErr) : Z := match e with ErrAgentUnauthorized => 401 | e => respondError e end.

(** What the client makes of an answer it receives. *)
Definition reply {A} (status : GoErr -> Z) (r : res A) : res A :=
  match r with
  | Ok a => Ok a
  | Err e => Err (default ErrRuntime (Runtime.response_error (status e) 0))
  end.

Section Handlers.
Context `{Env}.

(** The loop of [executorActions], which stops before 60000 bytes. *)
Fixpoint fitting (bytes : Z) (agent : Agent) (l : list Action) : res (list Action) :=
  match l with
  | [] => Ok []
  | a :: l =>
      if str_eqb (Pl_ExecutorID (A_Plan a)) (G_ID agent) && (Pl_ExecutorGeneration (A_Plan a) =? G_Generation agent)
         && str_eqb (A_State a) "APPROVED" then
        match Marshal (action_json a) with
        | None => Err ErrInvalid
        | Some encoded =>
            if 60000 <? bytes + slen encoded + 1 then Ok []
            else res_bind (fitting (bytes + slen encoded + 1) agent l) (fun rest => Ok (a :: rest))
        end
      else fitting bytes agent l
  end.

Definition executorActions (s : option ExecService) (sc : Scope) (token after : string) : M (list Action) :=
  match available s with
  | None => throw ErrForbidden
  | Some f =>
      guard (Scope_Validate sc) ErrInvalid ;;
      tx_of f sc (fun t =>
        let* agent := AuthenticateTx f t token Executor in
        let* actions := ExecutorActions t agent after 100 in
        of_res (fitting 2 agent actions))
  end.

Definition claimAction (s : option ExecService) (sc : Scope) (token id : string) : M ClaimResult :=
  guard (Scope_Validate sc) ErrInvalid ;; Claim s sc token id.
Definition actionReceipt (s : option ExecService) (sc : Scope) (token id receipt outcome : string) : M Action :=
  guard (Scope_Validate sc) ErrInvalid ;; Receipt s sc token id receipt outcome.

(** A failed enrolment or renewal is always answered 401. *)
Definition enroll (f : option Service) (sc : Scope) (token uid role : string) : M Credential :=
  match f with
  | None => throw ErrUnavailable
  | Some f => guard (Scope_Validate sc) ErrInvalid ;; catch (Enroll f sc token uid role) (fun _ => throw ErrAgentUnauthorized)
  end.
Definition renewAgent (f : option Service) (sc : Scope) (token role : string) : M Credential :=
  match f with
  | None => throw ErrUnavailable
  | Some f => guard (Scope_Validate sc) ErrInvalid ;; catch (Renew f sc token role) (fun _ => throw ErrAgentUnauthorized)
  end.
End Handlers.
End Api.
