(* ===== verification/Bodies.v ===== *)
(** * JSON bodies of pkg/orchestrator

    The request structs its handlers decode and the values they answer with, in
    the order of their fields.  In a reply a nil and an empty slice are not told
    apart. *)

From S2P Require Import Prelude.
From S2P Require Import Json.
From S2P Require Import GoTime.
From S2P Require Import Decode.
From S2P Require Import Identity.
From S2P Require Import Authorization.
From S2P Require Import Incident.
From S2P Require Import Db.
From S2P Require Import Sql.
From S2P Require Import Records.
From S2P Require Import Queues.
From S2P Require Import Fleet.
From S2P Require Import Governance.
From S2P Require Import Investigation.
From S2P Require Import Knowledge.
From S2P Require Import Snapshot.
From S2P Require Import Rounds.
From S2P Require Import Diagnosis.
From S2P Require Import Execution.
From S2P Require Import Executor.
From S2P Require Import AgentApi.

Module Bodies.

(** ** Requests *)
Definition one (name : string) : list (field_decoder string) := [field name id (fun v _ => v) dec_string].
Definition two {A B} (a : string) (da : decoder A) (b : string) (db_ : decoder B) : list (field_decoder (A * B)) :=
  [field a fst (fun v r => (v, snd r)) da; field b snd (fun v r => (fst r, v)) db_].
Definition three (a b c : string) : list (field_decoder (string * string * string)) :=
  [field a (fun r => fst (fst r)) (fun v r => (v, snd (fst r), snd r)) dec_string;
   field b (fun r => snd (fst r)) (fun v r => (fst (fst r), v, snd r)) dec_string;
   field c snd (fun v r => (fst r, v)) dec_string].
Definition bootstrap_fields := three "agent_id" "cluster_uid" "role".
Definition enroll_fields := three "token" "cluster_uid" "role".
Definition receipt_fields := two "receipt_token" dec_string "outcome" dec_string.
Definition review_fields := two "version" dec_int64 "operation" dec_string.
Definition answer_fields := two "version" dec_int64 "answer" dec_string.
Definition claim_fields : list (field_decoder (list string)) := [field "profiles" id (fun v _ => v) (dec_list "" dec_string)].
Definition refresh_fields : list (field_decoder (string * list Rubric.DiagnosticCheck)) :=
  two "attempt_id" dec_string "checks" (dec_list (Rubric.mkCheck "" "") (dec_struct true Rubric.check_fields)).
Definition complete_fields : list (field_decoder (string * Rubric.RunResult)) :=
  two "attempt_id" dec_string "result" (dec_struct true (Rubric.run_fields true id (fun v _ => v))).

Definition zero_propose := mkPropose "" "" (mkRef "" 0) "" "".
Definition zero_feedback := Feedback.mkRequest "" (mkRef "" 0) "" (AOther "") "" [] "" "".
Definition zero_adjudicate := (Stewardship.mkAdjudicate (mkRef "" 0) "" "" "" [] "", true).
Definition zero_corroborate := Corroboration.mkCorroborate (mkRef "" 0) "" [] false false false.
Definition zero_candidate := Knowledge.mkCandidate (mkRef "" 0) "" "".
Definition zero_recovery := mkProfile Snapshot.zero_scope "" 0 [] 0 0 0 0.
Definition zero_interaction := mkRequest Snapshot.zero_scope "" "" "" "" "" 0 "" zeroTime "" "" "" None.

Definition propose_fields : list (field_decoder ProposeRequest) :=
  [field "incident_id" PR_IncidentID (fun v r => mkPropose v (PR_Kind r) (PR_Evidence r) (PR_EvidenceHash r) (PR_ExecutorID r)) dec_string;
   field "kind" PR_Kind (fun v r => mkPropose (PR_IncidentID r) v (PR_Evidence r) (PR_EvidenceHash r) (PR_ExecutorID r)) dec_string;
   field "evidence" PR_Evidence (fun v r => mkPropose (PR_IncidentID r) (PR_Kind r) v (PR_EvidenceHash r) (PR_ExecutorID r)) (dec_struct true ref_fields);
   field "evidence_hash" PR_EvidenceHash (fun v r => mkPropose (PR_IncidentID r) (PR_Kind r) (PR_Evidence r) v (PR_ExecutorID r)) dec_string;
   field "executor_id" PR_ExecutorID (fun v r => mkPropose (PR_IncidentID r) (PR_Kind r) (PR_Evidence r) (PR_EvidenceHash r) v) dec_string].
Definition dec_assessment : decoder Assessment := fun v old =>
  s ← dec_string v (assessment_string old);
  Some (if str_eqb s "TRUE" then ATrue else if str_eqb s "FALSE" then AFalse
        else if str_eqb s "CANNOT_VERIFY" then ACannotVerify else AOther s).
Definition feedback_fields : list (field_decoder Feedback.Request) :=
  [field "incident_id" Feedback.FR_IncidentID (fun v r => Feedback.mkRequest v (Feedback.FR_Item r) (Feedback.FR_ItemHash r) (Feedback.FR_Assessment r) (Feedback.FR_ReasonCode r) (Feedback.FR_Evidence r) (Feedback.FR_Supersedes r) (Feedback.FR_IdempotencyKey r)) dec_string;
   field "item" Feedback.FR_Item (fun v r => Feedback.mkRequest (Feedback.FR_IncidentID r) v (Feedback.FR_ItemHash r) (Feedback.FR_Assessment r) (Feedback.FR_ReasonCode r) (Feedback.FR_Evidence r) (Feedback.FR_Supersedes r) (Feedback.FR_IdempotencyKey r)) (dec_struct true ref_fields);
   field "item_hash" Feedback.FR_ItemHash (fun v r => Feedback.mkRequest (Feedback.FR_IncidentID r) (Feedback.FR_Item r) v (Feedback.FR_Assessment r) (Feedback.FR_ReasonCode r) (Feedback.FR_Evidence r) (Feedback.FR_Supersedes r) (Feedback.FR_IdempotencyKey r)) dec_string;
   field "assessment" Feedback.FR_Assessment (fun v r => Feedback.mkRequest (Feedback.FR_IncidentID r) (Feedback.FR_Item r) (Feedback.FR_ItemHash r) v (Feedback.FR_ReasonCode r) (Feedback.FR_Evidence r) (Feedback.FR_Supersedes r) (Feedback.FR_IdempotencyKey r)) dec_assessment;
   field "reason_code" Feedback.FR_ReasonCode (fun v r => Feedback.mkRequest (Feedback.FR_IncidentID r) (Feedback.FR_Item r) (Feedback.FR_ItemHash r) (Feedback.FR_Assessment r) v (Feedback.FR_Evidence r) (Feedback.FR_Supersedes r) (Feedback.FR_IdempotencyKey r)) dec_string;
   field "evidence" Feedback.FR_Evidence (fun v r => Feedback.mkRequest (Feedback.FR_IncidentID r) (Feedback.FR_Item r) (Feedback.FR_ItemHash r) (Feedback.FR_Assessment r) (Feedback.FR_ReasonCode r) v (Feedback.FR_Supersedes r) (Feedback.FR_IdempotencyKey r)) (dec_list (mkRef "" 0) (dec_struct true ref_fields));
   field "supersedes" Feedback.FR_Supersedes (fun v r => Feedback.mkRequest (Feedback.FR_IncidentID r) (Feedback.FR_Item r) (Feedback.FR_ItemHash r) (Feedback.FR_Assessment r) (Feedback.FR_ReasonCode r) (Feedback.FR_Evidence r) v (Feedback.FR_IdempotencyKey r)) dec_string;
   field "idempotency_key" Feedback.FR_IdempotencyKey (fun v r => Feedback.mkRequest (Feedback.FR_IncidentID r) (Feedback.FR_Item r) (Feedback.FR_ItemHash r) (Feedback.FR_Assessment r) (Feedback.FR_ReasonCode r) (Feedback.FR_Evidence r) (Feedback.FR_Supersedes r) v) dec_string].
(** With whether the slice of correction evidence is nil. *)
Definition adjudicate_body : Type := Stewardship.AdjudicateRequest * bool.
Definition correction (b : adjudicate_body) : slice ItemRef :=
  if snd b then None else Some (Stewardship.AR_CorrectionEvidence (fst b)).
Definition adjudicate_fields : list (field_decoder adjudicate_body) :=
  [field "item" (fun r => Stewardship.AR_Item (fst r)) (fun v r => (Stewardship.mkAdjudicate v (Stewardship.AR_ItemHash (fst r)) (Stewardship.AR_FeedbackID (fst r)) (Stewardship.AR_Reason (fst r)) (Stewardship.AR_CorrectionEvidence (fst r)) (Stewardship.AR_IdempotencyKey (fst r)), snd r)) (dec_struct true ref_fields);
   field "item_hash" (fun r => Stewardship.AR_ItemHash (fst r)) (fun v r => (Stewardship.mkAdjudicate (Stewardship.AR_Item (fst r)) v (Stewardship.AR_FeedbackID (fst r)) (Stewardship.AR_Reason (fst r)) (Stewardship.AR_CorrectionEvidence (fst r)) (Stewardship.AR_IdempotencyKey (fst r)), snd r)) dec_string;
   field "feedback_id" (fun r => Stewardship.AR_FeedbackID (fst r)) (fun v r => (Stewardship.mkAdjudicate (Stewardship.AR_Item (fst r)) (Stewardship.AR_ItemHash (fst r)) v (Stewardship.AR_Reason (fst r)) (Stewardship.AR_CorrectionEvidence (fst r)) (Stewardship.AR_IdempotencyKey (fst r)), snd r)) dec_string;
   field "reason" (fun r => Stewardship.AR_Reason (fst r)) (fun v r => (Stewardship.mkAdjudicate (Stewardship.AR_Item (fst r)) (Stewardship.AR_ItemHash (fst r)) (Stewardship.AR_FeedbackID (fst r)) v (Stewardship.AR_CorrectionEvidence (fst r)) (Stewardship.AR_IdempotencyKey (fst r)), snd r)) dec_string;
   field "correction_evidence" correction (fun v r => (Stewardship.mkAdjudicate (Stewardship.AR_Item (fst r)) (Stewardship.AR_ItemHash (fst r)) (Stewardship.AR_FeedbackID (fst r)) (Stewardship.AR_Reason (fst r)) (elems v) (Stewardship.AR_IdempotencyKey (fst r)), bool_decide (v = None))) (dec_slice (mkRef "" 0) (dec_struct true ref_fields));
   field "idempotency_key" (fun r => Stewardship.AR_IdempotencyKey (fst r)) (fun v r => (Stewardship.mkAdjudicate (Stewardship.AR_Item (fst r)) (Stewardship.AR_ItemHash (fst r)) (Stewardship.AR_FeedbackID (fst r)) (Stewardship.AR_Reason (fst r)) (Stewardship.AR_CorrectionEvidence (fst r)) v, snd r)) dec_string].
Definition corroborate_fields : list (field_decoder Corroboration.CorroborateRequest) :=
  [field "claim" Corroboration.CR_Claim (fun v r => Corroboration.mkCorroborate v (Corroboration.CR_ClaimHash r) (Corroboration.CR_Evidence r) (Corroboration.CR_UpstreamChecked r) (Corroboration.CR_TemporalOrderChecked r) (Corroboration.CR_AlternativesTested r)) (dec_struct true ref_fields);
   field "claim_hash" Corroboration.CR_ClaimHash (fun v r => Corroboration.mkCorroborate (Corroboration.CR_Claim r) v (Corroboration.CR_Evidence r) (Corroboration.CR_UpstreamChecked r) (Corroboration.CR_TemporalOrderChecked r) (Corroboration.CR_AlternativesTested r)) dec_string;
   field "evidence" Corroboration.CR_Evidence (fun v r => Corroboration.mkCorroborate (Corroboration.CR_Claim r) (Corroboration.CR_ClaimHash r) v (Corroboration.CR_UpstreamChecked r) (Corroboration.CR_TemporalOrderChecked r) (Corroboration.CR_AlternativesTested r)) (dec_list (mkRef "" 0) (dec_struct true ref_fields));
   field "upstream_checked" Corroboration.CR_UpstreamChecked (fun v r => Corroboration.mkCorroborate (Corroboration.CR_Claim r) (Corroboration.CR_ClaimHash r) (Corroboration.CR_Evidence r) v (Corroboration.CR_TemporalOrderChecked r) (Corroboration.CR_AlternativesTested r)) dec_bool;
   field "temporal_order_checked" Corroboration.CR_TemporalOrderChecked (fun v r => Corroboration.mkCorroborate (Corroboration.CR_Claim r) (Corroboration.CR_ClaimHash r) (Corroboration.CR_Evidence r) (Corroboration.CR_UpstreamChecked r) v (Corroboration.CR_AlternativesTested r)) dec_bool;
   field "alternatives_tested" Corroboration.CR_AlternativesTested (fun v r => Corroboration.mkCorroborate (Corroboration.CR_Claim r) (Corroboration.CR_ClaimHash r) (Corroboration.CR_Evidence r) (Corroboration.CR_UpstreamChecked r) (Corroboration.CR_TemporalOrderChecked r) v) dec_bool].
Definition candidate_fields : list (field_decoder Knowledge.CandidateRequest) :=
  [field "claim" Knowledge.KR_Claim (fun v r => Knowledge.mkCandidate v (Knowledge.KR_ClaimHash r) (Knowledge.KR_RecoveryID r)) (dec_struct true ref_fields);
   field "claim_hash" Knowledge.KR_ClaimHash (fun v r => Knowledge.mkCandidate (Knowledge.KR_Claim r) v (Knowledge.KR_RecoveryID r)) dec_string;
   field "recovery_id" Knowledge.KR_RecoveryID (fun v r => Knowledge.mkCandidate (Knowledge.KR_Claim r) (Knowledge.KR_ClaimHash r) v) dec_string].
Definition recovery_fields : list (field_decoder RecoveryProfile) :=
  [field "scope" RP_Scope (fun v r => mkProfile v (RP_ID r) (RP_Version r) (RP_Handles r) (RP_WindowSeconds r) (RP_MaximumGapSeconds r) (RP_MinimumSamples r) (RP_MinimumReadyReplicas r)) (dec_struct true (Snapshot.scope_fields true));
   field "id" RP_ID (fun v r => mkProfile (RP_Scope r) v (RP_Version r) (RP_Handles r) (RP_WindowSeconds r) (RP_MaximumGapSeconds r) (RP_MinimumSamples r) (RP_MinimumReadyReplicas r)) dec_string;
   field "version" RP_Version (fun v r => mkProfile (RP_Scope r) (RP_ID r) v (RP_Handles r) (RP_WindowSeconds r) (RP_MaximumGapSeconds r) (RP_MinimumSamples r) (RP_MinimumReadyReplicas r)) dec_int64;
   field "handles" RP_Handles (fun v r => mkProfile (RP_Scope r) (RP_ID r) (RP_Version r) v (RP_WindowSeconds r) (RP_MaximumGapSeconds r) (RP_MinimumSamples r) (RP_MinimumReadyReplicas r)) (dec_list "" dec_string);
   field "window_seconds" RP_WindowSeconds (fun v r => mkProfile (RP_Scope r) (RP_ID r) (RP_Version r) (RP_Handles r) v (RP_MaximumGapSeconds r) (RP_MinimumSamples r) (RP_MinimumReadyReplicas r)) dec_int64;
   field "maximum_gap_seconds" RP_MaximumGapSeconds (fun v r => mkProfile (RP_Scope r) (RP_ID r) (RP_Version r) (RP_Handles r) (RP_WindowSeconds r) v (RP_MinimumSamples r) (RP_MinimumReadyReplicas r)) dec_int64;
   field "minimum_samples" RP_MinimumSamples (fun v r => mkProfile (RP_Scope r) (RP_ID r) (RP_Version r) (RP_Handles r) (RP_WindowSeconds r) (RP_MaximumGapSeconds r) v (RP_MinimumReadyReplicas r)) dec_int64;
   field "minimum_ready_replicas" RP_MinimumReadyReplicas (fun v r => mkProfile (RP_Scope r) (RP_ID r) (RP_Version r) (RP_Handles r) (RP_WindowSeconds r) (RP_MaximumGapSeconds r) (RP_MinimumSamples r) v) dec_int64].
Definition interaction_fields : list (field_decoder Request) :=
  [field "scope" Q_Scope (fun v r => mkRequest v (Q_ID r) (Q_IncidentID r) (Q_JobID r) (Q_Kind r) (Q_Question r) (Q_Version r) (Q_Status r) (Q_ExpiresAt r) (Q_Answer r) (Q_ActorID r) (Q_CreatedBy r) (Q_AnsweredAt r)) (dec_struct true (Snapshot.scope_fields true));
   field "id" Q_ID (fun v r => mkRequest (Q_Scope r) v (Q_IncidentID r) (Q_JobID r) (Q_Kind r) (Q_Question r) (Q_Version r) (Q_Status r) (Q_ExpiresAt r) (Q_Answer r) (Q_ActorID r) (Q_CreatedBy r) (Q_AnsweredAt r)) dec_string;
   field "incident_id" Q_IncidentID (fun v r => mkRequest (Q_Scope r) (Q_ID r) v (Q_JobID r) (Q_Kind r) (Q_Question r) (Q_Version r) (Q_Status r) (Q_ExpiresAt r) (Q_Answer r) (Q_ActorID r) (Q_CreatedBy r) (Q_AnsweredAt r)) dec_string;
   field "job_id" Q_JobID (fun v r => mkRequest (Q_Scope r) (Q_ID r) (Q_IncidentID r) v (Q_Kind r) (Q_Question r) (Q_Version r) (Q_Status r) (Q_ExpiresAt r) (Q_Answer r) (Q_ActorID r) (Q_CreatedBy r) (Q_AnsweredAt r)) dec_string;
   field "kind" Q_Kind (fun v r => mkRequest (Q_Scope r) (Q_ID r) (Q_IncidentID r) (Q_JobID r) v (Q_Question r) (Q_Version r) (Q_Status r) (Q_ExpiresAt r) (Q_Answer r) (Q_ActorID r) (Q_CreatedBy r) (Q_AnsweredAt r)) dec_string;
   field "question" Q_Question (fun v r => mkRequest (Q_Scope r) (Q_ID r) (Q_IncidentID r) (Q_JobID r) (Q_Kind r) v (Q_Version r) (Q_Status r) (Q_ExpiresAt r) (Q_Answer r) (Q_ActorID r) (Q_CreatedBy r) (Q_AnsweredAt r)) dec_string;
   field "version" Q_Version (fun v r => mkRequest (Q_Scope r) (Q_ID r) (Q_IncidentID r) (Q_JobID r) (Q_Kind r) (Q_Question r) v (Q_Status r) (Q_ExpiresAt r) (Q_Answer r) (Q_ActorID r) (Q_CreatedBy r) (Q_AnsweredAt r)) dec_int64;
   field "status" Q_Status (fun v r => mkRequest (Q_Scope r) (Q_ID r) (Q_IncidentID r) (Q_JobID r) (Q_Kind r) (Q_Question r) (Q_Version r) v (Q_ExpiresAt r) (Q_Answer r) (Q_ActorID r) (Q_CreatedBy r) (Q_AnsweredAt r)) dec_string;
   field "expires_at" Q_ExpiresAt (fun v r => mkRequest (Q_Scope r) (Q_ID r) (Q_IncidentID r) (Q_JobID r) (Q_Kind r) (Q_Question r) (Q_Version r) (Q_Status r) v (Q_Answer r) (Q_ActorID r) (Q_CreatedBy r) (Q_AnsweredAt r)) dec_time;
   field "answer" Q_Answer (fun v r => mkRequest (Q_Scope r) (Q_ID r) (Q_IncidentID r) (Q_JobID r) (Q_Kind r) (Q_Question r) (Q_Version r) (Q_Status r) (Q_ExpiresAt r) v (Q_ActorID r) (Q_CreatedBy r) (Q_AnsweredAt r)) dec_string;
   field "actor_id" Q_ActorID (fun v r => mkRequest (Q_Scope r) (Q_ID r) (Q_IncidentID r) (Q_JobID r) (Q_Kind r) (Q_Question r) (Q_Version r) (Q_Status r) (Q_ExpiresAt r) (Q_Answer r) v (Q_CreatedBy r) (Q_AnsweredAt r)) dec_string;
   field "created_by" Q_CreatedBy (fun v r => mkRequest (Q_Scope r) (Q_ID r) (Q_IncidentID r) (Q_JobID r) (Q_Kind r) (Q_Question r) (Q_Version r) (Q_Status r) (Q_ExpiresAt r) (Q_Answer r) (Q_ActorID r) v (Q_AnsweredAt r)) dec_string;
   field "answered_at" Q_AnsweredAt (fun v r => mkRequest (Q_Scope r) (Q_ID r) (Q_IncidentID r) (Q_JobID r) (Q_Kind r) (Q_Question r) (Q_Version r) (Q_Status r) (Q_ExpiresAt r) (Q_Answer r) (Q_ActorID r) (Q_CreatedBy r) v) (dec_ptr zeroTime dec_time)].

(** ** Replies *)
Definition str (name s : string) : string * json := (name, JStr s).
Definition opt_str (name s : string) : list (string * json) := omit_if (str_eqb s "") [str name s].
Definition opt_time (name : string) (t : option Time) : option (list (string * json)) :=
  match t with None => Some [] | Some t => v ← jtime t; Some [(name, v)] end.
Definition list_json {A} (f : A -> option json) (l : list A) : option json := JArr <$> mapM f l.

Definition incident_json (i : Incident) : option json :=
  at_ ← jtime (N_OpenedAt i);
  Some (JObj [("scope", scope_json (N_Scope i)); str "id" (N_ID i); ("version", jint (N_Version i)); str "state" (N_State i);
    ("opened_at", at_)]).
Definition feedback_json (e : FeedbackEvent) : option json :=
  at_ ← jtime (F_At e);
  Some (JObj ([("scope", scope_json (F_Scope e)); str "incident_id" (F_IncidentID e); str "id" (F_ID e);
    str "actor_id" (F_ActorID e); ("item", ref_json (F_Item e)); str "item_hash" (F_ItemHash e);
    str "assessment" (assessment_string (F_Assessment e))] ++ opt_str "reason_code" (F_ReasonCode e)
    ++ omit_if (bool_decide (F_Evidence e = [])) [("evidence", JArr (map ref_json (F_Evidence e)))]
    ++ opt_str "supersedes" (F_Supersedes e)
    ++ [str "idempotency_key" (F_IdempotencyKey e); str "request_hash" (F_RequestHash e); ("at", at_)])).
(** [itemView]. *)
Definition item_view_json (v : Item * bool * list FeedbackEvent) : option json :=
  item ← item_json (fst (fst v)); events ← list_json feedback_json (snd v);
  Some (JObj [("item", item); ("eligible", JBool (snd (fst v))); ("feedback", events)]).
Definition agent_json (a : Agent) : option json :=
  at_ ← jtime (G_ExpiresAt a);
  Some (JObj [("scope", scope_json (G_Scope a)); str "id" (G_ID a); str "role" (G_Role a); str "audience" (G_Audience a);
    str "epoch" (G_Epoch a); ("generation", jint (G_Generation a)); str "cluster_uid" (G_ClusterUID a);
    ("expires_at", at_); ("revoked", JBool (G_Revoked a))]).
Definition credential_json (c : Credential) : option json :=
  a ← agent_json (C_Agent c); Some (JObj [str "token" (C_Token c); ("agent", a)]).
Definition claim_json (c : ClaimResult) : option json :=
  a ← Api.action_json (CL_Action c); Some (JObj [("action", a); str "receipt_token" (CL_ReceiptToken c)]).
Definition job_json (j : DiagnosticJob) : option json :=
  created ← jtime (D_CreatedAt j); expires ← jtime (D_ExpiresAt j);
  Some (JObj ([("scope", scope_json (D_Scope j)); str "id" (D_ID j); str "incident_id" (D_IncidentID j);
    str "profile_id" (D_ProfileID j); str "actor_id" (D_ActorID j); str "state" (D_State j); ("created_at", created);
    ("expires_at", expires)] ++ match D_Result j with Some r => [("result", ref_json r)] | None => [] end)).
Definition notification_json (n : Notification) : option json :=
  created ← jtime (NT_CreatedAt n); delivered ← opt_time "delivered_at" (NT_DeliveredAt n);
  Some (JObj ([("scope", scope_json (NT_Scope n)); str "id" (NT_ID n); str "event_id" (NT_EventID n);
    str "route_id" (NT_RouteID n); str "kind" (NT_Kind n); str "incident_id" (NT_IncidentID n); str "state" (NT_State n);
    ("attempts", jint (NT_Attempts n)); ("created_at", created)] ++ delivered
    ++ opt_str "acknowledged_by" (NT_AcknowledgedBy n))).
Definition adjudication_json (a : Adjudication) : option json :=
  at_ ← jtime (J_At a);
  Some (JObj ([("scope", scope_json (J_Scope a)); str "id" (J_ID a); str "incident_id" (J_IncidentID a);
    ("item", ref_json (J_Item a)); str "item_hash" (J_ItemHash a)] ++ opt_str "feedback_id" (J_FeedbackID a)
    ++ [str "actor_id" (J_ActorID a); str "reason" (J_Reason a);
        ("correction_evidence", JArr (map ref_json (J_CorrectionEvidence a))); str "request_hash" (J_RequestHash a);
        str "idempotency_key" (J_IdempotencyKey a); ("at", at_)])).
Definition case_view_json (v : GoldenCase * bool) : option json :=
  g ← Snapshot.golden_json (fst v); Some (JObj [("case", g); ("eligible", JBool (snd v))]).
Definition interaction_json (r : Request) : option json :=
  expires ← jtime (Q_ExpiresAt r); answered ← opt_time "answered_at" (Q_AnsweredAt r);
  Some (JObj ([("scope", scope_json (Q_Scope r)); str "id" (Q_ID r); str "incident_id" (Q_IncidentID r)]
    ++ opt_str "job_id" (Q_JobID r) ++ [str "kind" (Q_Kind r); str "question" (Q_Question r); ("version", jint (Q_Version r));
    str "status" (Q_Status r); ("expires_at", expires)] ++ opt_str "answer" (Q_Answer r) ++ opt_str "actor_id" (Q_ActorID r)
    ++ [str "created_by" (Q_CreatedBy r)] ++ answered)).
Definition profile_json (p : RecoveryProfile) : json :=
  JObj [("scope", scope_json (RP_Scope p)); str "id" (RP_ID p); ("version", jint (RP_Version p));
    ("handles", JArr (map JStr (RP_Handles p))); ("window_seconds", jint (RP_WindowSeconds p));
    ("maximum_gap_seconds", jint (RP_MaximumGapSeconds p)); ("minimum_samples", jint (RP_MinimumSamples p));
    ("minimum_ready_replicas", jint (RP_MinimumReadyReplicas p))].
Definition assessed_json (a : RecoveryAssessment) : option json :=
  at_ ← jtime (RA_At a);
  Some (JObj [str "id" (RA_ID a); ("scope", scope_json (RA_Scope a)); str "incident_id" (RA_IncidentID a);
    str "profile_id" (RA_ProfileID a); ("profile_version", jint (RA_ProfileVersion a)); str "status" (RA_Status a);
    str "reason" (RA_Reason a); ("evidence", JArr (map ref_json (RA_Evidence a))); ("at", at_)]).
Definition attempt_json (c : Snapshot.AgentClaim) : option json :=
  input ← Snapshot.input_json (Snapshot.AC_Input c); until ← jtime (Snapshot.AC_LeaseUntil c);
  Some (JObj [("input", input); str "attempt_id" (Snapshot.AC_AttemptID c); ("lease_until", until)]).
Definition pointer_json {A} (f : A -> option json) (o : option A) : option json :=
  match o with Some a => f a | None => Some JNull end.

(** An interval of [n] nanoseconds in seconds, as a float64. *)
Definition seconds_of (n : Duration) : option float64 :=
  let m := Z.abs n in
  parse_float ((if n <? 0 then "-" else "") +:+ show (m / Second) +:+ "." +:+ digits 9 (m mod Second)).
Definition counts_json (l : list (string * Z)) : json := norm (JObj (map (fun kv => (fst kv, jint (snd kv))) l)).
Definition operations_json (s : OperationalSnapshot) : option json :=
  oldest ← match OS_OldestPending s with Some n => v ← seconds_of n; jfloat v | None => Some JNull end;
  at_ ← jtime (OS_At s);
  Some (JObj [("coverage", counts_json (OS_Coverage s)); ("agents", counts_json (OS_Agents s));
    ("jobs", counts_json (OS_Jobs s)); ("actions", counts_json (OS_Actions s));
    ("notifications", counts_json (OS_Notifications s)); ("fresh_evidence", jint (OS_FreshEvidence s));
    ("quarantined_items", jint (OS_QuarantinedItems s)); ("oldest_pending_seconds", oldest); ("at", at_)]).
End Bodies.
