(* ===== verification/Orchestrator.v ===== *)
(** * pkg/orchestrator: the HTTP front door

    server.go, auth.go and the handler files.  A request is refused at once for a
    foreign origin or an asserted identity; a path under /api/ is authenticated by
    a bearer token or a browser session; then the handler of its route runs one of
    the modelled services and its result or error becomes the reply.  The identity
    provider (pkg/identity's verifier library and golang.org/x/oauth2) is the class
    [Provider]; what the Go runtime decides for the webhook is the class [Runtime]. *)

From S2P Require Import Prelude.
From S2P Require Import Json.
From S2P Require Import GoTime.
From S2P Require Import Decode.
From S2P Require Import Text.
From S2P Require Import Url.
From S2P Require Import Identity.
From S2P Require Import Authorization.
From S2P Require Import Incident.
From S2P Require Import Db.
From S2P Require Import Sql.
From S2P Require Import Http.
From S2P Require Import Messaging.
From S2P Require Import Storage.
From S2P Require Import Records.
From S2P Require Import Queues.
From S2P Require Import Privacy.
From S2P Require Import Fleet.
From S2P Require Import Recovery.
From S2P Require Import Governance.
From S2P Require Import Investigation.
From S2P Require Import Knowledge.
From S2P Require Import Snapshot.
From S2P Require Import Report.
From S2P Require Import Rounds.
From S2P Require Import Diagnosis.
From S2P Require Import Execution.
From S2P Require Import Executor.
From S2P Require Import Falco.
From S2P Require Import Quality.
From S2P Require Import AgentApi.
From S2P Require Import Bodies.

(** The signature check of a token; an exchange of a code at some instant, with
    its verifier, for the text of an identity token; a fresh verifier; and the
    address a browser is sent to. *)
Class Provider := {
  idp_check : string -> option IDToken;
  idp_exchange : nat -> string -> string -> option string;
  idp_verifier : nat -> string;
  idp_location : string -> string -> string -> string
}.

Module Orchestrator.
Import Messaging Bodies.

(** [Config] as [New] and pkg/orchestrator/runtime leave it. *)
Record Server := mkServer {
  SV_Epoch : string; SV_Policy : Policy; SV_Verifier : OIDCVerifier; SV_OAuth : bool;
  SV_Execution : option ExecService; SV_Fleet : option Fleet.Service; SV_Queue : option Queue.Service;
  SV_Investigations : option Queue.Service; SV_Guidance : option Backend; SV_Notifications : option Backend;
  SV_PublicURL : string; SV_Channels : handler;
  SV_Falco : string                      (* FalcoSecret, or else SRE_FALCO_WEBHOOK_SECRET *) }.

Definition backend (s : Server) : Backend := mkBackend (SV_Epoch s) (SV_Policy s).
Definition origin (s : Server) : string := trim_slashes (SV_PublicURL s).

(** ** Routes *)
Inductive Route :=
| CreateInteraction_ | ListInteractions | AnswerInteraction_ | FalcoWebhook
| DiagnosticClaim | DiagnosticHeartbeat | DiagnosticRefresh | DiagnosticComplete
| Login | Callback | Logout | Readyz | Healthz | DiagnosticJobs_ | CancelDiagnosticJob | Notifications_
| AcknowledgeNotification_ | Adjudicate_ | Adjudications_ | Corroborate_ | GoldenCases_ | Candidate_ | ReviewGolden
| QualityMetrics | Operations_ | GetEnvironment | SetEnvironment | SetRecoveryProfile | GetRecoveryProfile_
| AssessRecovery | CloseIncident | ListActions | ProposeAction | ApproveAction | CancelAction | ReconcileAction
| ExecutorActions_ | ClaimAction | ActionReceipt | Capabilities | SetupScopes | ListAgents | Bootstrap_ | RevokeAgent_
| Enroll_ | RenewAgent | CollectionChecks | CollectReport | Scopes_ | Session | Incidents_ | Items_ | Profiles_
| Investigate_ | SubmitFeedback | FeedbackHistory_.

Definition routes : list (string * Route) := [
  ("GET /api/interactions", ListInteractions); ("POST /api/interactions", CreateInteraction_);
  ("POST /api/interactions/{request}/answer", AnswerInteraction_);
  ("POST /api/webhooks/falco", FalcoWebhook);
  ("POST /agent/diagnostics/claim", DiagnosticClaim);
  ("POST /agent/diagnostics/{job}/heartbeat", DiagnosticHeartbeat);
  ("POST /agent/diagnostics/{job}/refresh", DiagnosticRefresh);
  ("POST /agent/diagnostics/{job}/complete", DiagnosticComplete);
  ("GET /auth/login", Login); ("GET /auth/callback", Callback); ("POST /api/logout", Logout);
  ("GET /readyz", Readyz); ("GET /healthz", Healthz);
  ("GET /api/incidents/{incident}/jobs", DiagnosticJobs_); ("POST /api/jobs/{job}/cancel", CancelDiagnosticJob);
  ("GET /api/notifications", Notifications_);
  ("POST /api/notifications/{notification}/acknowledge", AcknowledgeNotification_);
  ("POST /api/adjudications", Adjudicate_); ("GET /api/items/{item}/adjudications", Adjudications_);
  ("POST /api/corroborations", Corroborate_); ("GET /api/golden-cases", GoldenCases_);
  ("POST /api/golden-cases", Candidate_); ("POST /api/golden-cases/{case}/review", ReviewGolden);
  ("GET /api/quality", QualityMetrics); ("GET /api/operations", Operations_);
  ("GET /api/environment", GetEnvironment); ("POST /api/environment", SetEnvironment);
  ("POST /api/recovery-profile", SetRecoveryProfile); ("GET /api/recovery-profile", GetRecoveryProfile_);
  ("POST /api/incidents/{incident}/recovery", AssessRecovery); ("POST /api/incidents/{incident}/close", CloseIncident);
  ("GET /api/actions", ListActions); ("POST /api/actions", ProposeAction);
  ("POST /api/actions/{action}/approve", ApproveAction); ("POST /api/actions/{action}/cancel", CancelAction);
  ("POST /api/actions/{action}/reconcile", ReconcileAction); ("GET /agent/actions", ExecutorActions_);
  ("POST /agent/actions/{action}/claim", ClaimAction); ("POST /agent/actions/{action}/receipt", ActionReceipt);
  ("GET /api/capabilities", Capabilities); ("GET /api/setup-scopes", SetupScopes); ("GET /api/agents", ListAgents);
  ("POST /api/agents/bootstrap", Bootstrap_); ("POST /api/agents/{agent}/revoke", RevokeAgent_);
  ("POST /agent/enroll", Enroll_); ("POST /agent/renew", RenewAgent); ("POST /agent/checks", CollectionChecks);
  ("POST /agent/reports", CollectReport); ("GET /api/scopes", Scopes_); ("GET /api/session", Session);
  ("GET /api/incidents", Incidents_); ("GET /api/incidents/{incident}/items", Items_); ("GET /api/profiles", Profiles_);
  ("POST /api/incidents/{incident}/investigate", Investigate_);
  ("POST /api/incidents/{incident}/feedback", SubmitFeedback);
  ("GET /api/incidents/{incident}/items/{item}/feedback", FeedbackHistory_)].

(** The matching of [http.ServeMux]: by unescaped segment; a wildcard takes any
    segment that is not a slash; GET serves HEAD too. *)
Fixpoint match_segments (pattern path : list string) : option (list string) :=
  match pattern, path with
  | [], [] => Some []
  | p :: pattern, s :: path =>
      if has_prefix "{" p then
        if str_eqb s "/" then None else values ← match_segments pattern path; Some (s :: values)
      else if str_eqb p s then match_segments pattern path else None
  | _, _ => None
  end.
Definition match_route (method : string) (path : list string) (pattern : string) : option (list string) :=
  let '(m, p) := cut (chr 32) pattern in
  if str_eqb m method || (str_eqb m "GET" && str_eqb method "HEAD") then match_segments (tail (split slash p)) path
  else None.
Fixpoint find_route (method : string) (path : list string) (l : list (string * Route)) : option (Route * list string) :=
  match l with
  | [] => None
  | (pattern, route) :: l =>
      match match_route method path pattern with
      | Some values => Some (route, values)
      | None => find_route method path l
      end
  end.

(** [cleanPath] changes the path: it must start with a slash, and have no empty
    segment but the last, nor a dot segment. *)
Definition inner_ok (s : string) : bool := negb (mem_str s [""; "."; ".."]).
Definition clean (path : string) : bool :=
  match split slash path with
  | first :: (_ :: _) as rest =>
      str_eqb first "" && forallb inner_ok (removelast (tail rest))
      && (inner_ok (List.last rest "") || str_eqb (List.last rest "") "")
  | _ => false
  end.

Inductive Target := Handler (route : Route) (values : list string) | Channels | Fallback | Moved.
Definition target_of (r : HttpRequest) : Target :=
  let segments := map (fun s => default s (unescape false s)) (tail (split slash (H_Path r))) in
  let connect := str_eqb (H_Method r) "CONNECT" in
  if negb connect && (negb (clean (H_Path r)) || str_eqb (H_Path r) "/channels") then Moved else
  match find_route (H_Method r) segments routes with
  | Some (route, values) => Handler route values
  | None => match segments with
            | first :: _ :: _ => if str_eqb first "channels" then Channels else Fallback
            | _ => if connect && str_eqb (H_Path r) "/channels" then Moved else Fallback
            end
  end.

Definition query_scope (r : HttpRequest) : Scope :=
  mkScope (Query r "organization_id") (Query r "cluster_id") (Query r "application_id").
Definition bearer (value : string) : option string := strip "Bearer " value.
Definition agentToken (r : HttpRequest) : string :=
  match Header_Values r "Authorization" with [v] => default "" (bearer v) | _ => "" end.

Definition not_found : Response := plain 404 "404 page not found".
Definition fallback (r : HttpRequest) : Response :=
  if has_prefix "/api/" (URLPath r) then not_found else Asset (URLPath r).

Definition login_cookie (value : string) (age : Z) : SetCookie := mkSetCookie "__Secure-sre-login" value "/auth/callback" age "Lax".
Definition session_cookie (value : string) (age : Z) : SetCookie := mkSetCookie "__Host-sre-session" value "/" age "Strict".
Definition authStoreError (e : GoErr) (capacity : string) : Response :=
  match e with
  | ErrAuthCapacity => writeError 429 capacity
  | _ => writeError 503 "authentication storage unavailable"
  end.

Section Handlers.
Context `{Env} `{AEAD} `{Ed25519} `{Provider} `{Runtime}.
Context (s : Server).

(** ** auth.go *)
Definition login : M Response :=
  if negb (SV_OAuth s) then ret (writeError 503 "company sign-in is not configured") else
  let* state := NewID in
  let* nonce := NewID in
  let* verifier := (fun w => (Ok (idp_verifier (tick w)), next w)) in
  let* now := time_now in
  catch (CreateLoginChallenge state (mkLogin verifier nonce (Add now (5 * Minute))) ;;
         ret (Redirect [login_cookie state 300] (idp_location state verifier nonce)))
        (fun e => ret (authStoreError e "sign-in capacity reached")).

(** The session of a verified principal. *)
Definition open_session (p : Principal) : M Response :=
  let* id := NewID in
  let* csrf := NewID in
  catch (CreateBrowserSession id (mkSession p csrf) ;;
         let* now := time_now in
         ret (Redirect [login_cookie "" (-1); session_cookie id (Z.quot (Sub (P_ExpiresAt p) now) Second)] "/"))
        (fun e => ret (authStoreError e "session capacity reached")).

Definition callback (r : HttpRequest) : M Response :=
  if negb (SV_OAuth s) then ret (writeError 503 "company sign-in unavailable") else
  let state := Query r "state" in
  let refused := ret (writeError 400 "invalid sign-in state") in
  match Cookie r "__Secure-sre-login" with
  | None => refused
  | Some cookie =>
      if str_eqb state "" || negb (str_eqb state cookie) then refused else
      fun w =>
      match ConsumeLoginChallenge state w with
      | (Err ErrNotFound, w) => (Ok (writeError 400 "expired or consumed sign-in state"), w)
      | (Err e, w) => (Ok (authStoreError e ""), w)
      | (Ok pending, w) =>
          (let* now := time_now in
           if negb (After (LC_ExpiresAt pending) now) || str_eqb (Query r "code") ""
           then ret (writeError 400 "expired or consumed sign-in state") else
           let* raw := (fun w => (Ok (idp_exchange (tick w) (Query r "code") (LC_Verifier pending)), next w)) in
           match raw with
           | None => ret (writeError 401 "sign-in exchange failed")
           | Some raw =>
               let* now := time_now in
               match VerifyNonce idp_check (SV_Verifier s) now raw (LC_Nonce pending) with
               | Err _ => ret (writeError 401 "identity verification failed")
               | Ok p => open_session p
               end
           end) w
      end
  end.

Definition authenticate (r : HttpRequest) : M (Principal * string) :=
  match Header_Values r "Authorization" with
  | [] =>
      match Cookie r "__Host-sre-session" with
      | None => throw ErrUnauthenticated
      | Some key =>
          let* session := catch (GetBrowserSession key) (fun _ => throw ErrUnauthenticated) in
          let* now := time_now in
          guard (Principal_Valid (S_Principal session) now) ErrUnauthenticated ;;
          guard (mem_str (H_Method r) ["GET"; "HEAD"]
                 || (str_eqb (Header_Get r "Origin") (origin s)
                     && constant_time_eq (Header_Get r "X-Sre-Csrf") (S_CSRF session))) ErrUnauthenticated ;;
          ret (S_Principal session, S_CSRF session)
      end
  | [value] =>
      match bearer value with
      | None => throw ErrUnauthenticated
      | Some token =>
          let* now := time_now in
          let* p := of_res (Verify idp_check (SV_Verifier s) now token) in
          ret (p, "")
      end
  | _ => throw ErrUnauthenticated
  end.

Definition logout (r : HttpRequest) : M Response :=
  let done := match writeJSON 200 (Some (JObj [("signed_out", JBool true)])) with
              | Reply status _ body => Reply status [session_cookie "" (-1)] body
              | other => other
              end in
  match Cookie r "__Host-sre-session" with
  | None => ret done
  | Some key => catch (DeleteBrowserSession key ;; ret done) (fun e => ret (authStoreError e ""))
  end.

(** ** messaging_bridge.go *)
Definition acknowledge (n : option Backend) (p : Principal) (sc : Scope) (id : string) : M unit :=
  match n with
  | None => throw ErrUnavailable
  | Some b => authorize (BE_Policy b) p sc Authorization.Approve ;;
              Transact (BE_Epoch b) sc (fun tx => AcknowledgeNotification tx id (P_ID p))
  end.

Definition messagingCommand (p : Principal) (sc : Scope) (c : Command) : M unit :=
  let verb := CM_Verb c in
  let answering := str_eqb verb "answer" in
  guard (mem_str verb ["approve"; "reject"; "ack"; "answer"]) ErrInvalid ;;
  authorize (SV_Policy s) p sc (if answering then Authorization.Investigate else Authorization.Approve) ;;
  if str_eqb verb "approve" || str_eqb verb "reject" then
    match SV_Execution s ≫= X_Fleet with
    | None => throw ErrUnavailable
    | Some _ =>
        if str_eqb verb "approve" then Execution.Approve (SV_Execution s) p sc (CM_ID c) (CM_Value c) ;; ret tt
        else Cancel (SV_Execution s) p sc (CM_ID c) ;; ret tt
    end
  else if answering then
    Transact (SV_Epoch s) sc (fun tx => AnswerInteraction tx (CM_ID c) (CM_Version c) (CM_Value c) (P_ID p))
  else acknowledge (SV_Notifications s) p sc (CM_ID c).

(** ErrUnavailable is joined with [messaging.ErrRetryable]. *)
Definition execute (p : Principal) (sc : Scope) (c : Command) : M outcome := fun w =>
  match messagingCommand p sc c w with
  | (Ok _, w) => (Ok Accepted, w)
  | (Err ErrUnavailable, w) => (Ok Retryable, w)
  | (Err _, w) => (Ok Rejected, w)
  end.

(** ** The handlers of /api/, for the principal [p] *)
Definition scope_of (p : Principal) (r : HttpRequest) (permission : Permission) : M Scope :=
  let sc := query_scope r in
  guard (Scope_Validate sc) ErrForbidden ;;
  authorize (SV_Policy s) p sc permission ;;
  ret sc.
(** [scope(Read)], or [scope(Setup)] when that fails. *)
Definition read_or_setup (p : Principal) (r : HttpRequest) : M Scope :=
  catch (scope_of p r Authorization.Read) (fun _ => scope_of p r Authorization.Setup).

(** A handler that reads in one transaction of the scope. *)
Definition reading {A} (sc : M Scope) (show : A -> option json) (fn : Tx -> M A) : M Response :=
  respond respondError 200 show (let* sc := sc in Transact (SV_Epoch s) sc fn).
Definition after (r : HttpRequest) : string := Query r "after".

Definition view_item (tx : Tx) (i : Item) : M (Item * bool * list FeedbackEvent) :=
  let* now := time_now in
  let* eligible := Eligible tx (self_ref i) now in
  let* events := FeedbackHistory tx (self_ref i) 20 in
  ret (i, eligible, events).
Definition items_tx (incident after : string) (tx : Tx) : M (list (Item * bool * list FeedbackEvent)) :=
  Incident_ tx incident ;;
  let* items := Items tx incident after 50 in
  map_each (view_item tx) items.
Definition feedback_tx (incident : string) (ref : ItemRef) (tx : Tx) : M (list FeedbackEvent) :=
  let* item := GetItem tx ref in
  guard (str_eqb (I_IncidentID item) incident) ErrNotFound ;;
  FeedbackHistory tx ref 100.
Definition cases_tx (after : string) (tx : Tx) : M (list (GoldenCase * bool)) :=
  let* cases := GoldenCases tx after 50 in
  map_each (fun g => let* ok := Knowledge.EligibleTx tx g in ret (g, ok)) cases.

(** [closeIncident]: only an incident whose recovery is observed is closed. *)
Definition closeTx (sc : Scope) (id : string) (tx : Tx) : M unit :=
  let* current := Incident_ tx id in
  let* now := time_now in
  let* a := Recovery.AssessTx tx sc id Collection.health now in
  guard (str_eqb (RA_Status a) "RECOVERED") ErrConflict ;;
  UpdateIncident tx id (N_Version current) "CLOSED".

Definition scopes_of (permission : option Permission) (p : Principal) : M (list Scope) :=
  let* now := time_now in
  ret (match permission with
       | None => Authorization.Scopes (Some (SV_Policy s)) now p
       | Some permission => ScopesFor (SV_Policy s) now p permission
       end).
Definition allowed_permissions (p : Principal) (r : HttpRequest) : M (list string) :=
  guard (Scope_Validate (query_scope r)) ErrInvalid ;;
  let* allowed := map_each (fun permission =>
    let* now := time_now in ret (Authorize (Some (SV_Policy s)) now p (query_scope r) permission, perm_string permission))
    [Authorization.Read; Authorization.Investigate; Authorization.Feedback; Authorization.Approve;
     Authorization.Adjudicate; Authorization.ReviewKnowledge; Authorization.Setup; SecurityPolicy] in
  ret (map snd (List.filter fst allowed)).

Definition flag (name : string) (b : bool) : json := JObj [(name, JBool b)].
Definition strings_json (l : list string) : option json := Some (JArr (map JStr l)).
Definition version_of (r : HttpRequest) : res Z :=
  match ParseInt (Query r "version") with Some v => Ok v | None => Err ErrInvalid end.

Definition review (p : Principal) (sc : Scope) (id : string) (version : Z) (operation : string) : M GoldenCase :=
  if str_eqb operation "PUBLISH" then Knowledge.Publish (backend s) p sc id version
  else if str_eqb operation "RETIRE" then Knowledge.Retire (backend s) p sc id version
  else throw ErrInvalid.

Definition scoped (p : Principal) (r : HttpRequest) (permission : Permission) {A} (k : Scope -> M A) : M A :=
  let* sc := scope_of p r permission in k sc.
Definition on_body {S A} (fields : list (field_decoder S)) (zero : S) (r : HttpRequest) (k : S -> M A) : M A :=
  let* b := of_res (decode fields zero r) in k b.
(** A service that may be absent. *)
Definition needs {S A} (o : option S) (k : S -> M A) : M A :=
  match o with Some x => k x | None => throw ErrUnavailable end.

(** ** The handlers of agents *)
Definition agent_scope {A} (r : HttpRequest) (k : Scope -> M A) : M A :=
  guard (Scope_Validate (query_scope r)) ErrInvalid ;; k (query_scope r).

(** What replicas do between the transactions of a request, and how often the
    wait for collection polls. *)
Context (others : M unit) (polls : nat).

Definition diagnostic {A} (r : HttpRequest) (k : Scope -> Fleet.Service -> Queue.Service -> M A) : M A :=
  agent_scope r (fun sc => needs (SV_Fleet s) (fun f => needs (SV_Queue s) (fun q => k sc f q))).
Definition authenticator (f : Fleet.Service) (r : HttpRequest) (tx : Tx) : M Agent :=
  AuthenticateTx f tx (agentToken r) Collector.
Definition guided : option (Tx -> GoldenCase -> M bool) := (fun _ => Knowledge.PublishedEligibleTx) <$> SV_Guidance s.
Definition retrieve : option (Principal -> Scope -> M (list GoldenCase)) := Knowledge.Retrieve <$> SV_Guidance s.

Definition collect (r : HttpRequest) (f : Fleet.Service) : M string :=
  agent_scope r (fun sc =>
    match Body r with
    | None => throw ErrInvalid
    | Some raw =>
        let* report := catch (Collection.DecodeReport raw) (fun _ => throw ErrInvalid) in
        Collection.Ingest f sc (agentToken r) report ;;
        ret (Collection.RT_ID report)
    end).

Definition rejected (message : string) (e : GoErr) : Response := writeError 401 message.

(** A failed enrolment or renewal is a 401, whatever the reason, once the request
    itself is well formed. *)
Definition credential (r : HttpRequest) (status : Z) (message : string) {S} (fields : list (field_decoder S)) (zero : S)
  (k : Fleet.Service -> Scope -> S -> M Credential) : M Response :=
  match SV_Fleet s with
  | None => ret (respondError ErrUnavailable)
  | Some f =>
      if negb (Scope_Validate (query_scope r)) then ret (respondError ErrInvalid) else
      match decode fields zero r with
      | Err _ => ret (respondError ErrInvalid)
      | Ok b => respond (rejected message) status credential_json (k f (query_scope r) b)
      end
  end.

Definition interactions (p : Principal) (r : HttpRequest) : M Response :=
  reading (scope_of p r Authorization.Read) (list_json interaction_json) (fun tx => Interactions tx (after r) 50).
Definition createInteraction (p : Principal) (r : HttpRequest) : M Response :=
  respond respondError 201 interaction_json (
    scoped p r Authorization.Investigate (fun sc => on_body interaction_fields zero_interaction r (fun q =>
    guard (scope_eqb (Q_Scope q) sc) ErrInvalid ;;
    Transact (SV_Epoch s) sc (fun tx => CreateInteraction tx q (P_ID p)) ;;
    ret (mkRequest (Q_Scope q) (Q_ID q) (Q_IncidentID q) (Q_JobID q) (Q_Kind q) (Q_Question q) (Q_Version q) (Q_Status q)
             (Q_ExpiresAt q) (Q_Answer q) (Q_ActorID q) (P_ID p) (Q_AnsweredAt q))))).
Definition answerInteraction (p : Principal) (r : HttpRequest) (id : string) : M Response :=
  respond respondError 200 (fun _ => Some (flag "answered" true)) (
    scoped p r Authorization.Investigate (fun sc => on_body answer_fields (0, "") r (fun q =>
    Transact (SV_Epoch s) sc (fun tx => AnswerInteraction tx id (fst q) (snd q) (P_ID p))))).
Definition diagnosticJobs (p : Principal) (r : HttpRequest) (id : string) : M Response :=
  reading (scope_of p r Authorization.Read) (list_json job_json) (fun tx => DiagnosticJobs tx id).
Definition cancelDiagnosticJob (p : Principal) (r : HttpRequest) (id : string) : M Response :=
  respond respondError 200 (fun _ => Some (JObj [("state", JStr "CANCELLED")])) (
    scoped p r Authorization.Investigate (fun sc =>
    needs (SV_Queue s) (fun q => Queue.Cancel q p sc id))).
Definition notifications (p : Principal) (r : HttpRequest) : M Response :=
  reading (scope_of p r Authorization.Read) (list_json notification_json) (fun tx => Notifications tx (after r) 50).
Definition acknowledgeNotification (p : Principal) (r : HttpRequest) (id : string) : M Response :=
  respond respondError 200 (fun _ => Some (flag "acknowledged" true)) (
    scoped p r Authorization.Approve (fun sc => acknowledge (Some (backend s)) p sc id)).
Definition adjudicate (p : Principal) (r : HttpRequest) : M Response :=
  respond respondError 201 adjudication_json (
    scoped p r Authorization.Adjudicate (fun sc => on_body adjudicate_fields zero_adjudicate r (fun q =>
    Stewardship.Adjudicate (backend s) p sc (fst q) (snd q)))).
Definition adjudications (p : Principal) (r : HttpRequest) (id : string) : M Response :=
  reading (let* sc := scope_of p r Authorization.Read in of_res (version_of r) ;; ret sc) (list_json adjudication_json)
    (fun tx => Adjudications tx (mkRef id match version_of r with Ok v => v | Err _ => 0 end) 100).
Definition corroborate (p : Principal) (r : HttpRequest) : M Response :=
  respond respondError 201 item_json (
    scoped p r Authorization.Adjudicate (fun sc => on_body corroborate_fields zero_corroborate r (fun q =>
    Corroboration.Corroborate (backend s) p sc q))).
Definition goldenCases (p : Principal) (r : HttpRequest) : M Response :=
  reading (scope_of p r Authorization.Read) (list_json case_view_json) (cases_tx (after r)).
Definition candidate (p : Principal) (r : HttpRequest) : M Response :=
  respond respondError 201 Snapshot.golden_json (
    scoped p r Authorization.ReviewKnowledge (fun sc => on_body candidate_fields zero_candidate r (fun q =>
    Knowledge.Candidate (backend s) p sc q))).
Definition reviewGolden (p : Principal) (r : HttpRequest) (id : string) : M Response :=
  respond respondError 200 Snapshot.golden_json (
    scoped p r Authorization.ReviewKnowledge (fun sc => on_body review_fields (0, "") r (fun q =>
    review p sc id (fst q) (snd q)))).
Definition operations (p : Principal) (r : HttpRequest) : M Response :=
  reading (scope_of p r Authorization.Read) operations_json (fun tx => let* now := time_now in GetOperationalSnapshot tx now).
Definition getEnvironment (p : Principal) (r : HttpRequest) : M Response :=
  reading (read_or_setup p r) (fun c => Some (Snapshot.environment_json c)) GetEnvironmentContext.
Definition setEnvironment (p : Principal) (r : HttpRequest) : M Response :=
  respond respondError 201 (fun c => Some (Snapshot.environment_json c)) (
    scoped p r Authorization.Setup (fun sc =>
    on_body (Snapshot.environment_fields true) Snapshot.zero_environment r (fun c =>
      guard (scope_eqb (EC_Scope c) sc) ErrInvalid ;; Environment.Set_ (backend s) p c ;; ret c))).
Definition setRecoveryProfile (p : Principal) (r : HttpRequest) : M Response :=
  respond respondError 201 (fun q => Some (profile_json q)) (
    scoped p r Authorization.Setup (fun sc => on_body recovery_fields zero_recovery r (fun q =>
    guard (scope_eqb (RP_Scope q) sc && str_eqb (RP_ID q) Collection.health) ErrInvalid ;;
    Recovery.SetProfile (Recovery.mkService (SV_Epoch s) (SV_Policy s)) p q))).
Definition getRecoveryProfile (p : Principal) (r : HttpRequest) : M Response :=
  reading (scope_of p r Authorization.Read) (fun q => Some (profile_json q)) (fun tx => GetRecoveryProfile tx Collection.health).
Definition assessRecovery (p : Principal) (r : HttpRequest) (id : string) : M Response :=
  respond respondError 200 assessed_json (
    scoped p r Authorization.Read (fun sc =>
    Recovery.Assess (Recovery.mkService (SV_Epoch s) (SV_Policy s)) p sc id Collection.health)).
Definition closeIncident (p : Principal) (r : HttpRequest) (id : string) : M Response :=
  respond respondError 200 (fun _ => Some (JObj [("state", JStr "CLOSED")])) (
    scoped p r Authorization.Approve (fun sc => Transact (SV_Epoch s) sc (closeTx sc id))).
Definition listActions (p : Principal) (r : HttpRequest) : M Response :=
  reading (scope_of p r Authorization.Read) (list_json Api.action_json) (fun tx => Actions tx (after r) 50).
Definition proposeAction (p : Principal) (r : HttpRequest) : M Response :=
  respond respondError 201 Api.action_json (
    scoped p r Authorization.Investigate (fun sc => on_body propose_fields zero_propose r (fun q =>
    Propose (SV_Execution s) p sc q))).
Definition approveAction (p : Principal) (r : HttpRequest) (id : string) : M Response :=
  respond respondError 200 Api.action_json (
    scoped p r Authorization.Approve (fun sc => on_body (one "hash") "" r (fun hash =>
    Execution.Approve (SV_Execution s) p sc id hash))).
Definition cancelAction (p : Principal) (r : HttpRequest) (id : string) : M Response :=
  respond respondError 200 Api.action_json (
    scoped p r Authorization.Approve (fun sc => Cancel (SV_Execution s) p sc id)).
Definition reconcileAction (p : Principal) (r : HttpRequest) (id : string) : M Response :=
  respond respondError 200 Api.action_json (
    scoped p r Authorization.Approve (fun sc => on_body (one "hash") "" r (fun hash =>
    Reconcile (SV_Execution s) p sc id hash))).
Definition capabilities (p : Principal) (r : HttpRequest) : M Response :=
  respond respondError 200 strings_json (allowed_permissions p r).
Definition setupScopes (p : Principal) : M Response :=
  respond respondError 200 (fun l => Some (JArr (map scope_json l))) (scopes_of (Some Authorization.Setup) p).
Definition scopes (p : Principal) : M Response :=
  respond respondError 200 (fun l => Some (JArr (map scope_json l))) (scopes_of None p).
Definition session (p : Principal) (csrf : string) : M Response :=
  respond respondError 200 (fun j => j) (ret (q ← principal_json p;
    Some (norm (JObj [("principal", q); ("csrf", JStr csrf); ("policy_version", JStr (version (SV_Policy s)))])))).
Definition listAgents (p : Principal) (r : HttpRequest) : M Response :=
  reading (read_or_setup p r) (list_json agent_json) (fun tx => Agents tx).
Definition bootstrap (p : Principal) (r : HttpRequest) : M Response :=
  respond respondError 201 credential_json (
    scoped p r Authorization.Setup (fun sc => needs (SV_Fleet s) (fun f =>
    on_body bootstrap_fields ("", "", "") r (fun '(agent, uid, role) => Bootstrap f p sc agent uid role)))).
Definition revokeAgent (p : Principal) (r : HttpRequest) (id : string) : M Response :=
  respond respondError 200 (fun _ => Some (flag "revoked" true)) (
    scoped p r Authorization.Setup (fun sc => needs (SV_Fleet s) (fun f => Revoke f p sc id))).
Definition incidents (p : Principal) (r : HttpRequest) : M Response :=
  reading (scope_of p r Authorization.Read) (list_json incident_json) (fun tx => Incidents tx (after r) 50).
Definition items (p : Principal) (r : HttpRequest) (id : string) : M Response :=
  reading (scope_of p r Authorization.Read) (list_json item_view_json) (items_tx id (after r)).
Definition profiles (p : Principal) (r : HttpRequest) : M Response :=
  respond respondError 200 strings_json (
    scoped p r Authorization.Investigate (fun sc =>
    ret match SV_Investigations s with Some q => Queue.Profiles q sc | None => [] end)).
Definition investigate (p : Principal) (r : HttpRequest) (id : string) : M Response :=
  respond respondError 202 job_json (
    scoped p r Authorization.Investigate (fun sc => on_body (one "profile_id") "" r (fun profile =>
    needs (SV_Investigations s) (fun _ => needs (SV_Queue s) (fun q => Queue.Enqueue q p sc id profile))))).
Definition submitFeedback (p : Principal) (r : HttpRequest) (id : string) : M Response :=
  respond respondError 201 feedback_json (
    scoped p r Authorization.Feedback (fun sc => on_body feedback_fields zero_feedback r (fun q =>
    guard (str_eqb (Feedback.FR_IncidentID q) id) ErrInvalid ;; Feedback.Submit (backend s) p sc q))).
Definition feedbackHistory (p : Principal) (r : HttpRequest) (id : string) (item : string) : M Response :=
  reading (let* sc := scope_of p r Authorization.Read in of_res (version_of r) ;; ret sc) (list_json feedback_json)
    (fun tx => feedback_tx id (mkRef item match version_of r with Ok v => v | Err _ => 0 end) tx).

(** ** stewardship_handlers.go: the quality report, of thirty days unless the
    query says otherwise *)
Definition days_of (r : HttpRequest) : res Z :=
  if str_eqb (Query r "days") "" then Ok 30 else
  match ParseInt (Query r "days") with Some n => Ok n | None => Err ErrInvalid end.
Definition qualityMetrics (p : Principal) (r : HttpRequest) : M Response :=
  respond respondError 200 Quality.report_json (
    scoped p r Authorization.Read (fun sc => let* days := of_res (days_of r) in Quality.report (backend s) p sc days)).

(** ** falco_handler.go *)
Definition falco_scope (r : HttpRequest) (e : Falco.Event) : Scope :=
  let or_default value fallback := if str_eqb value "" then fallback else value in
  let valid id := if ValidID id then id else "default" in
  mkScope (or_default (Query r "organization_id") "default")
    (or_default (Query r "cluster_id") (valid (Falco.EV_Hostname e)))
    (or_default (Query r "application_id") (valid (Falco.Namespace e))).
(** The incident that receives the evidence: the active one, or a new one.  The
    handler goes on after any error of the query; the database refuses the rest
    of a transaction in which a statement has failed. *)
Definition receiving_incident (sc : Scope) (at_ : Time) (tx : Tx) : M string :=
  let* active := catch (let* i := ActiveIncident tx in ret (N_ID i))
    (fun e => if bool_decide (e = ErrNotFound) then ret "" else throw ErrUnavailable) in
  if negb (str_eqb active "") then ret active else
  let* id := NewID in
  CreateIncident tx (mkIncident sc id 1 "OPEN" at_) ;;
  ret id.
Definition recordTx (sc : Scope) (at_ : Time) (body : string) (tx : Tx) : M unit :=
  let* incident := receiving_incident sc at_ tx in
  let* id := NewID in
  let* item := of_res (Seal (mkItem sc incident id 1 Evidence body at_ (Add at_ (24 * Hour)) [] "")) in
  PutItem tx item.
(** An error is not reported; the event is not counted. *)
Definition succeeded (m : M unit) : M bool := fun w =>
  match m w with (Ok _, w) => (Ok true, w) | (Err _, w) => (Ok false, w) end.
Definition event_body (e : Falco.Event) : res string :=
  match Marshal (Falco.event_json e) with Some raw => CanonicalObject raw | None => Err ErrInvalid end.
Definition record_event (r : HttpRequest) (at_ : Time) (e : Falco.Event) : M bool :=
  let sc := falco_scope r e in
  if negb (Scope_Validate sc) then ret false else
  match event_body e with
  | Err _ => ret false
  | Ok body => succeeded (Transact (SV_Epoch s) sc (recordTx sc at_ body))
  end.
Definition processed (l : list bool) : json :=
  norm (JObj [("status", JStr "accepted"); ("events_processed", jint (Z.of_nat (length (List.filter id l))))]).
Definition webhook_error (e : Falco.WebhookError) (read : string) : Response :=
  match e with
  | Falco.ErrUnauthorized => writeError 401 "invalid or missing webhook authentication token"
  | Falco.ErrPayloadTooLarge => writeError 413 "payload exceeds maximum limit"
  | Falco.ErrInvalidJSON => writeError 400 "invalid JSON payload"
  | Falco.ErrRead => writeError 400 ("unable to process webhook: " +:+ read)
  end.
Definition falcoWebhook (r : HttpRequest) : M Response :=
  let* tick := (fun w => (Ok (tick w), next w)) in
  match Falco.ParseWebhookPayload (range_order tick) r (SV_Falco s) with
  | inl e => ret (webhook_error e (read_error tick))
  | inr events =>
      let* now := time_now in
      let* recorded := map_each (record_event r now) events in
      ret (writeJSON 200 (Some (processed recorded)))
  end.

Definition agentDiagnosticClaim (r : HttpRequest) : M Response :=
  respond agentError 200 (pointer_json attempt_json) (
    diagnostic r (fun sc f q => on_body claim_fields [] r (fun profiles =>
    Agents.ClaimAgent retrieve guided (authenticator f r) others q sc profiles))).
Definition agentDiagnosticHeartbeat (r : HttpRequest) (id : string) : M Response :=
  respond agentError 200 (fun t => v ← jtime t; Some (JObj [("lease_until", v)])) (
    diagnostic r (fun sc f q =>
    on_body (one "attempt_id") "" r (fun attempt => Queue.HeartbeatAgent q f sc (agentToken r) id attempt))).
Definition agentDiagnosticRefresh (r : HttpRequest) (id : string) : M Response :=
  respond agentError 200 (pointer_json Snapshot.snapshot_json) (
    diagnostic r (fun sc f q => on_body refresh_fields ("", []) r (fun b =>
    Agents.RefreshAgent guided (authenticator f r) others polls q sc id (fst b) (snd b)))).
Definition agentDiagnosticComplete (r : HttpRequest) (id : string) : M Response :=
  respond agentError 200 (fun i => Some (ref_json (self_ref i))) (
    diagnostic r (fun sc f q =>
    on_body complete_fields ("", Rubric.zero_run) r (fun b =>
      Agents.CompleteAgent guided (authenticator f r) q sc id (fst b) (snd b)))).
Definition executorActions (r : HttpRequest) : M Response :=
  match SV_Fleet s with
  | None => ret (respondError ErrForbidden)
  | Some _ =>
      respond agentError 200 (list_json Api.action_json) (Api.executorActions (SV_Execution s) (query_scope r) (agentToken r) (after r))
  end.
Definition claimAction (r : HttpRequest) (id : string) : M Response :=
  respond agentError 200 claim_json (Api.claimAction (SV_Execution s) (query_scope r) (agentToken r) id).
Definition actionReceipt (r : HttpRequest) (id : string) : M Response :=
  respond agentError 200 Api.action_json (agent_scope r (fun sc => on_body receipt_fields ("", "") r (fun b =>
    Receipt (SV_Execution s) sc (agentToken r) id (fst b) (snd b)))).
Definition enroll (r : HttpRequest) : M Response :=
  credential r 201 "enrollment rejected" enroll_fields ("", "", "")
    (fun f sc '(token, uid, role) => Enroll f sc token uid role).
Definition renewAgent (r : HttpRequest) : M Response :=
  credential r 200 "agent credential rejected" (one "role") ""
    (fun f sc role => Renew f sc (agentToken r) role).
Definition collectionChecks (r : HttpRequest) : M Response :=
  respond agentError 200 (fun b => Some (flag "requested" b)) (needs (SV_Fleet s) (fun f => agent_scope r (fun sc =>
    Transact (SV_Epoch s) sc (fun tx => let* a := authenticator f r tx in CollectionRequested tx a)))).
Definition collectReport (r : HttpRequest) : M Response :=
  respond agentError 202 (fun id => Some (norm (JObj [("report_id", JStr id); ("status", JStr "RECORDED")])))
    (needs (SV_Fleet s) (collect r)).

Definition readyz : M Response :=
  catch (control ;; ret (Reply 200 [] "")) (fun _ => ret (writeError 503 "storage unavailable")).

(** The handler of a route; [p] and [csrf] are those of the caller, [id] and
    [item] the wildcards. *)
Definition serve_route (route : Route) (p : Principal) (csrf : string) (r : HttpRequest) (id item : string) : M Response :=
  match route with
  | ListInteractions => interactions p r
  | CreateInteraction_ => createInteraction p r
  | AnswerInteraction_ => answerInteraction p r id
  | DiagnosticJobs_ => diagnosticJobs p r id
  | CancelDiagnosticJob => cancelDiagnosticJob p r id
  | Notifications_ => notifications p r
  | AcknowledgeNotification_ => acknowledgeNotification p r id
  | Adjudicate_ => adjudicate p r
  | Adjudications_ => adjudications p r id
  | Corroborate_ => corroborate p r
  | GoldenCases_ => goldenCases p r
  | Candidate_ => candidate p r
  | ReviewGolden => reviewGolden p r id
  | Operations_ => operations p r
  | GetEnvironment => getEnvironment p r
  | SetEnvironment => setEnvironment p r
  | SetRecoveryProfile => setRecoveryProfile p r
  | GetRecoveryProfile_ => getRecoveryProfile p r
  | AssessRecovery => assessRecovery p r id
  | CloseIncident => closeIncident p r id
  | ListActions => listActions p r
  | ProposeAction => proposeAction p r
  | ApproveAction => approveAction p r id
  | CancelAction => cancelAction p r id
  | ReconcileAction => reconcileAction p r id
  | Capabilities => capabilities p r
  | SetupScopes => setupScopes p
  | Scopes_ => scopes p
  | Session => session p csrf
  | ListAgents => listAgents p r
  | Bootstrap_ => bootstrap p r
  | RevokeAgent_ => revokeAgent p r id
  | Incidents_ => incidents p r
  | Items_ => items p r id
  | Profiles_ => profiles p r
  | Investigate_ => investigate p r id
  | SubmitFeedback => submitFeedback p r id
  | FeedbackHistory_ => feedbackHistory p r id item
  | Logout => logout r
  | FalcoWebhook => falcoWebhook r
  | QualityMetrics => qualityMetrics p r
  | DiagnosticClaim => agentDiagnosticClaim r
  | DiagnosticHeartbeat => agentDiagnosticHeartbeat r id
  | DiagnosticRefresh => agentDiagnosticRefresh r id
  | DiagnosticComplete => agentDiagnosticComplete r id
  | ExecutorActions_ => executorActions r
  | ClaimAction => claimAction r id
  | ActionReceipt => actionReceipt r id
  | Enroll_ => enroll r
  | RenewAgent => renewAgent r
  | CollectionChecks => collectionChecks r
  | CollectReport => collectReport r
  | Callback => callback r
  | Healthz => ret (Reply 200 [] "")
  | Login => login
  | Readyz => readyz
  end.

(** A request that reached the mux, as [p]. *)
Definition dispatch (p : Principal) (csrf : string) (r : HttpRequest) : M Response :=
  match target_of r with
  | Handler route values => serve_route route p csrf r (nth 0 values "") (nth 1 values "")
  | Channels => Messaging.ServeHTTP execute (SV_Channels s) r
  | Fallback => ret (fallback r)
  | Moved => ret Unclean
  end.

Definition asserted : list string := ["X-User-Email"; "X-User"; "X-Actor"; "X-Remote-User"; "X-Authenticated-User"].

(** [admitted]: one of the 64 request slots is free. *)
Definition ServeHTTP (admitted : bool) (r : HttpRequest) : M Response :=
  if negb admitted then ret (writeError 503 "request capacity reached") else
  if negb (str_eqb (Header_Get r "Origin") "") && negb (str_eqb (Header_Get r "Origin") (origin s))
  then ret (writeError 403 "origin denied") else
  if existsb (fun header => negb (str_eqb (Header_Get r header) "")) asserted
  then ret (writeError 400 "asserted caller identity is not accepted") else
  if has_prefix "/api/" (URLPath r) then
    fun w => match authenticate r w with
             | (Err _, w) => (Ok (writeError 401 "sign in required"), w)
             | (Ok (p, csrf), w) => dispatch p csrf r w
             end
  else dispatch zero_principal "" r.
End Handlers.
End Orchestrator.
