(* ===== verification/ExecutorRun.v ===== *)
(** * The executor across crashes

    A node is an executor's journal file and its process, which may be started,
    polled and killed at any call.  The journal's text reads back; [wp] proves a
    condition of every point a poll can reach, whatever the answers. *)

From S2P Require Import Prelude.
From S2P Require Import Json.
From S2P Require Import JsonFacts.
From S2P Require Import GoTime.
From S2P Require Import Decode.
From S2P Require Import Assoc.
From S2P Require Import Identity.
From S2P Require Import Incident.
From S2P Require Import Fleet.
From S2P Require Import Execution.
From S2P Require Import RunText.
From S2P Require Import Registry.
From S2P Require Import Executor.

Import Runtime.
#[local] Open Scope runtime_scope.

(** ** The journal's text reads back *)
Definition entry_ok (kv : string * attempt) : Prop := valid_entry kv = true /\ utf8 (AT_ReceiptToken (snd kv)).
Definition journal_ok (j : Journal) : Prop := NoDup (map fst j) /\ Forall entry_ok j.
Definition sorted_journal (j : Journal) : Journal := isort field_leb j.

Lemma sorted_journal_perm j : Permutation (sorted_journal j) j.
Proof. apply isort_perm. Qed.

Lemma journal_ok_perm j j' : Permutation j j' -> journal_ok j -> journal_ok j'.
Proof. intros Hp. unfold journal_ok. by rewrite Hp. Qed.

Lemma outcome_utf8 o : mem_str o ["APPLIED"; "AMBIGUOUS"; "DENIED"; "PRECONDITION_FAILED"] = true -> utf8 o.
Proof.
  intros Ho%bool_decide_eq_true. rewrite !elem_of_cons, elem_of_nil in Ho.
  destruct Ho as [->|[->|[->|[->|[]]]]]; by apply ascii_utf8.
Qed.

Lemma good_attempt kv d : d <= 31 -> entry_ok kv -> good d (attempt_json (snd kv)).
Proof.
  intros Hd [Hv Hu]. unfold valid_entry in Hv. breflect. unfold attempt_json.
  assert (utf8 (AT_Outcome (snd kv))) by by apply outcome_utf8.
  good_tac.
Qed.

Lemma dec_attempt a : dec_struct true attempt_fields (attempt_json a) zero_attempt = Some a.
Proof. destruct a as [t o k]. reflexivity. Qed.

Lemma dec_entries_map j acc :
  NoDup (map fst (acc ++ j)) ->
  dec_entries zero_attempt (dec_struct true attempt_fields) (map (fun kv => (fst kv, attempt_json (snd kv))) j) acc
  = Some (acc ++ j).
Proof.
  revert acc. induction j as [|[k a] j IH]; intros acc Hn; cbn [map dec_entries]; [by rewrite app_nil_r|].
  cbn [fst snd]. rewrite dec_attempt. cbn [mbind option_bind].
  assert (E : assoc_set k a acc = acc ++ [(k, a)]).
  { assert (Hk : k ∉ map fst acc).
    { rewrite map_app in Hn. apply NoDup_app in Hn as (_ & Hd & _). intros Hin. apply (Hd k Hin). by left. }
    clear -Hk. induction acc as [|[k' a'] acc IH]; [done|]. cbn in Hk |- *. apply not_elem_of_cons in Hk as [Hne Hk].
    case_if as E; [by apply str_eqb_eq in E|]. by rewrite IH. }
  rewrite E, IH; rewrite <- app_assoc; done.
Qed.

Lemma decode_journal_text j : journal_ok j -> decode_journal (journal_text j) = Some (sorted_journal j).
Proof.
  intros Hj. unfold decode_journal, journal_text. rewrite (isort_fields_map attempt_json). fold (sorted_journal j).
  assert (Hs : journal_ok (sorted_journal j)) by (by eapply journal_ok_perm; [symmetry; apply sorted_journal_perm|]).
  destruct Hs as [Hn Hall].
  assert (Hg : good 0 (JObj (map (fun kv => (fst kv, attempt_json (snd kv))) (sorted_journal j)))).
  { constructor; [lia| |].
    - rewrite map_map. cbn. exact Hn.
    - intros k v (kv & [= <- <-] & Hin)%in_map_iff. rewrite Forall_forall in Hall.
      assert (Hkv : entry_ok kv) by (by apply Hall, list_elem_of_In). split; [|apply good_attempt; [lia|done]].
      destruct Hkv as [Hv _]. unfold valid_entry in Hv. breflect. by apply ValidID_utf8. }
  unfold read_json. rewrite (read_encode_all _ Hg). cbn [skip_ws]. rewrite str_eqb_refl.
  unfold dec_map. by apply (dec_entries_map _ []).
Qed.

(** ** The size of the journal's text *)
Definition acknowledged (a : attempt) : attempt := mkAttempt (AT_ReceiptToken a) (AT_Outcome a) true.
Definition entry_text (kv : string * attempt) : string := quote (fst kv) +:+ ":" +:+ encode (attempt_json (snd kv)).
Definition entries_size (j : Journal) : Z := foldr (fun kv n => slen (entry_text kv) + 1 + n) 0 j.

Lemma encode_obj_eq fs :
  encode (JObj fs) = "{" +:+ join "," (map (fun kv => quote (fst kv) +:+ ":" +:+ encode (snd kv)) fs) +:+ "}".
Proof. done. Qed.

Lemma slen_app_s a b : slen (a +:+ b) = slen a + slen b.
Proof. unfold slen. rewrite length_app_s. lia. Qed.

Lemma join_size l : l <> [] -> slen (join "," l) + 1 = foldr (fun s n => slen s + 1 + n) 0 l.
Proof.
  induction l as [|x l IH]; [done|]. intros _. destruct l as [|y l]; [cbn; lia|].
  change (join "," (x :: y :: l)) with (x +:+ "," +:+ join "," (y :: l)). rewrite !slen_app_s.
  specialize (IH ltac:(done)). cbn [foldr] in *. change (slen ",") with 1. lia.
Qed.

Lemma entries_size_perm j j' : Permutation j j' -> entries_size j = entries_size j'.
Proof. unfold entries_size. induction 1; cbn; lia. Qed.

Lemma journal_text_size j : slen (journal_text j) = match j with [] => 2 | _ => 1 + entries_size j end.
Proof.
  unfold journal_text. rewrite (isort_fields_map attempt_json), encode_obj_eq.
  destruct j as [|kv j]; [reflexivity|]. set (j1 := kv :: j).
  assert (Hs : isort field_leb j1 <> []).
  { intros E. apply (f_equal length) in E. by rewrite isort_length in E. }
  rewrite <- (entries_size_perm _ _ (isort_perm field_leb j1)). revert Hs. generalize (isort field_leb j1). intros l Hl.
  rewrite !slen_app_s. change (slen "{") with 1. change (slen "}") with 1.
  assert (E : map (fun kv => quote (fst kv) +:+ ":" +:+ encode (snd kv)) (map (fun kv => (fst kv, attempt_json (snd kv))) l)
    = map entry_text l) by by rewrite map_map.
  rewrite E. pose proof (join_size (map entry_text l)) as Hj.
  assert (Ef : foldr (fun s n => slen s + 1 + n) 0 (map entry_text l) = entries_size l).
  { clear. unfold entries_size. induction l as [|x l IH]; [done|]. cbn. by rewrite IH. }
  rewrite Ef in Hj. destruct l; [done|]. specialize (Hj ltac:(done)). lia.
Qed.

Lemma entry_text_acknowledged id a : slen (entry_text (id, acknowledged a)) <= slen (entry_text (id, a)).
Proof.
  unfold entry_text, attempt_json, acknowledged. cbn [fst snd AT_ReceiptToken AT_Outcome AT_Acknowledged].
  rewrite !slen_app_s. rewrite !encode_obj_eq. cbn [map join fst snd]. rewrite !slen_app_s.
  destruct (AT_Acknowledged a); cbn [encode]; change (slen "true") with 4; try change (slen "false") with 5; lia.
Qed.

(** Acknowledging an attempt does not make the text longer, nor does sorting it. *)
Lemma journal_text_acknowledged id a j :
  assoc id j = Some a -> slen (journal_text (assoc_set id (acknowledged a) j)) <= slen (journal_text j).
Proof.
  intros Ha. rewrite !journal_text_size.
  assert (Hs : entries_size (assoc_set id (acknowledged a) j) <= entries_size j).
  { unfold entries_size. revert Ha. unfold assoc. induction j as [|[k b] j IH]; cbn; [done|].
    case_if as E; cbn.
    - intros [= ->]. apply str_eqb_eq in E as <-. rewrite str_eqb_refl. cbn.
      pose proof (entry_text_acknowledged k a). lia.
    - intros Ha. specialize (IH Ha). apply str_eqb_neq in E. case_if as E2; [by apply str_eqb_eq in E2; subst|]. cbn. lia. }
  destruct j as [|kv j]; [done|]. destruct (assoc_set id (acknowledged a) (kv :: j)) eqn:E; [|lia].
  cbn in E. destruct kv as [k b]. by destruct (str_eqb id k).
Qed.
Lemma journal_text_perm j j' : Permutation j j' -> slen (journal_text j) = slen (journal_text j').
Proof.
  intros Hp. rewrite !journal_text_size, (entries_size_perm _ _ Hp). apply Permutation_length in Hp.
  by destruct j, j'.
Qed.

(** ** Conditions of every point of a program

    [serve s c x s'] says that call [c] may be answered by [x], what is around
    the process going from [s] to [s']; [pre] must hold at every call, and [inv]
    too: a crash may follow. *)
Section Logic.
Context `{Kube} {S : Type}.
Variable serve : S -> forall c : call, answer c -> S -> Prop.
Variable inv : S -> Prop.
Variable pre : S -> call -> Prop.

Fixpoint wp {A} (p : prog A) (Q : A -> S -> Prop) (s : S) : Prop :=
  match p with
  | Ret a => Q a s
  | Call c k => inv s /\ pre s c /\ forall x s', serve s c x s' -> wp (k x) Q s'
  end.

Lemma wp_mono {A} (p : prog A) (Q R : A -> S -> Prop) s :
  (forall a s, Q a s -> R a s) -> wp p Q s -> wp p R s.
Proof.
  intros HQ. revert s. induction p as [a|c k IH]; cbn; intros s; [apply HQ|].
  intros (Hi & Hp & Hk). split; [done|]. split; [done|]. intros x s' Hs. by apply IH, Hk.
Qed.

Lemma wp_bind {A B} (p : prog A) (f : A -> prog B) Q s :
  wp p (fun a s' => wp (f a) Q s') s -> wp (bindP p f) Q s.
Proof.
  revert s. induction p as [a|c k IH]; cbn; intros s; [done|].
  intros (Hi & Hp & Hk). split; [done|]. split; [done|]. intros x s' Hs. by apply IH, Hk.
Qed.

(** The same for methods of the runtime. *)
Definition wpX {A} (m : X A) (Q : res A -> Runtime -> S -> Prop) (r : Runtime) (s : S) : Prop :=
  wp (m r) (fun x s' => Q (fst x) (snd x) s') s.

Lemma wpX_mono {A} (m : X A) (Q R : res A -> Runtime -> S -> Prop) r s :
  (forall x r s, Q x r s -> R x r s) -> wpX m Q r s -> wpX m R r s.
Proof. intros HQ. apply wp_mono. intros x s'. apply HQ. Qed.

Lemma wpX_bind {A B} (m : X A) (f : A -> X B) Q r s :
  wpX m (fun x r' s' => match x with Ok a => wpX (f a) Q r' s' | Err e => Q (Err e) r' s' end) r s ->
  wpX (bindX m f) Q r s.
Proof.
  intros Hm. unfold wpX, bindX. apply wp_bind. eapply wp_mono; [|exact Hm].
  intros [[a|e] r'] s'; done.
Qed.

Lemma wpX_try {A} (m : X A) Q r s :
  wpX m (fun x r' s' => Q (Ok x) r' s') r s -> wpX (try m) Q r s.
Proof. intros Hm. unfold wpX, try. by apply wp_bind. Qed.

Lemma wpX_call c Q r s :
  inv s -> pre s c -> (forall x s', serve s c x s' -> Q (Ok x) r s') -> wpX (do_call c) Q r s.
Proof. intros Hi Hp Hk. by split. Qed.

Lemma wpX_guard b e (Q : res unit -> Runtime -> S -> Prop) r s :
  (b = true -> Q (Ok tt) r s) -> (b = false -> Q (Err e) r s) -> wpX (guardX b e) Q r s.
Proof. destruct b; cbn; auto. Qed.

Lemma wpX_of_res {A} (x : res A) Q r s : Q x r s -> wpX (of_resX x) Q r s.
Proof. by destruct x. Qed.

Lemma wpX_ret {A} (a : A) (Q : res A -> Runtime -> S -> Prop) r s : Q (Ok a) r s -> wpX (retX a) Q r s.
Proof. done. Qed.
Lemma wpX_fail {A} e (Q : res A -> Runtime -> S -> Prop) r s : Q (Err e) r s -> wpX (failX e) Q r s.
Proof. done. Qed.
Lemma wpX_get_bind {A} (f : Runtime -> X A) Q r s : wpX (f r) Q r s -> wpX (bindX get f) Q r s.
Proof. done. Qed.
Definition with_journal (j : Journal) (r : Runtime) : Runtime :=
  mkRuntime (r_credential r) (r_stopped r) (r_closed r) j.
Lemma wpX_set_bind {A} j (f : unit -> X A) Q r s : wpX (f tt) Q (with_journal j r) s -> wpX (bindX (set_journal j) f) Q r s.
Proof. done. Qed.
Lemma wpX_set j (Q : res unit -> Runtime -> S -> Prop) r s : Q (Ok tt) (with_journal j r) s -> wpX (set_journal j) Q r s.
Proof. done. Qed.
Lemma wpX_call_bind {A} c (f : answer c -> X A) Q r s :
  inv s -> pre s c -> (forall x s', serve s c x s' -> wpX (f x) Q r s') -> wpX (bindX (do_call c) f) Q r s.
Proof. intros Hi Hp Hk. by apply wpX_bind, wpX_call. Qed.
Lemma wpX_guard_bind {A} b e (f : unit -> X A) Q r s :
  (b = true -> wpX (f tt) Q r s) -> (b = false -> Q (Err e) r s) -> wpX (bindX (guardX b e) f) Q r s.
Proof. intros H1 H2. by apply wpX_bind, wpX_guard. Qed.

(** A loop that keeps [I] as long as it goes on, and ends with [Q] when it fails. *)
Lemma wpX_each {A} (f : A -> X unit) (I : Runtime -> S -> Prop) (Q : res unit -> Runtime -> S -> Prop) l r s :
  I r s -> (forall a, a ∈ l -> forall r s, I r s ->
    wpX (f a) (fun x r' s' => match x with Ok _ => I r' s' | Err e => Q (Err e) r' s' end) r s) ->
  (forall r s, I r s -> Q (Ok tt) r s) -> wpX (eachX f l) Q r s.
Proof.
  intros HI Hf HQ. revert r s HI. induction l as [|a l IH]; intros r s HI; cbn [eachX]; [by apply HQ|].
  apply wpX_bind. eapply wpX_mono; [|apply (Hf a); [left|done]].
  intros [[]|e] r' s' Hx; [|done]. apply IH; [|done]. intros b Hb. apply Hf. by right.
Qed.
End Logic.

(** What is known of the answers to calls; by default, nothing. *)
Class Honest `{Kube} := honest : forall c : call, answer c -> Prop.
#[export] Instance any_answer `{Kube} : Honest | 100 := fun _ _ => True.

(** A program that only makes calls of [ok] and leaves the journal alone, while
    it is answered honestly. *)
Section Quiet.
Context `{Kube} {hon : Honest}.

Fixpoint within {A} (ok : call -> bool) (p : prog A) (R : A -> Prop) : Prop :=
  match p with
  | Ret a => R a
  | Call c k => ok c = true /\ forall x, honest c x -> within ok (k x) R
  end.

Definition quiet {A} (ok : call -> bool) (m : X A) (R : res A -> Prop) : Prop :=
  forall r, within ok (m r) (fun x => r_journal (snd x) = r_journal r /\ R (fst x)).

Lemma within_mono {A} ok (p : prog A) (Q R : A -> Prop) : (forall a, Q a -> R a) -> within ok p Q -> within ok p R.
Proof. intros HQ. induction p as [a|c k IH]; cbn; [apply HQ|]. intros [Hc Hk]. split; [done|]. intros x Hx. by apply IH, Hk. Qed.

Lemma within_bind {A B} ok (p : prog A) (f : A -> prog B) R :
  within ok p (fun a => within ok (f a) R) -> within ok (bindP p f) R.
Proof. induction p as [a|c k IH]; cbn; [done|]. intros [Hc Hk]. split; [done|]. intros x Hx. by apply IH, Hk. Qed.

Lemma quiet_bind {A B} ok (m : X A) (f : A -> X B) Q R :
  quiet ok m Q -> (forall a, Q (Ok a) -> quiet ok (f a) R) -> (forall e, R (Err e)) -> quiet ok (bindX m f) R.
Proof.
  intros Hm Hf He r. unfold bindX. apply within_bind. eapply within_mono; [|apply Hm].
  intros [[a|e] r'] [Er HQ]; cbn in *; [|done]. rewrite <- Er. by apply Hf.
Qed.
Lemma quiet_ret {A} ok (a : A) (R : res A -> Prop) : R (Ok a) -> quiet ok (retX a) R.
Proof. by intros HR r. Qed.
Lemma quiet_get {A} ok (f : Runtime -> X A) (R : res A -> Prop) : (forall r, quiet ok (f r) R) -> quiet ok (bindX get f) R.
Proof. intros Hf r. apply Hf. Qed.
Lemma quiet_fail {A} ok e (R : res A -> Prop) : R (Err e) -> quiet ok (failX e) R.
Proof. by intros HR r. Qed.
Lemma quiet_call ok c (R : res (answer c) -> Prop) : ok c = true -> (forall x, honest c x -> R (Ok x)) -> quiet ok (do_call c) R.
Proof. intros Hc HR r. cbn. auto. Qed.
Lemma quiet_guard ok b e (R : res unit -> Prop) : (b = true -> R (Ok tt)) -> R (Err e) -> quiet ok (guardX b e) R.
Proof. destruct b; intros H1 H2 r; cbn; auto. Qed.
Lemma quiet_try {A} ok (m : X A) Q (R : res (res A) -> Prop) : quiet ok m Q -> (forall x, Q x -> R (Ok x)) -> quiet ok (try m) R.
Proof. intros Hm HR r. unfold try. apply within_bind. eapply within_mono; [|apply Hm]. intros [x r'] [Er HQ]. cbn in *. auto. Qed.
Lemma quiet_weaken {A} (ok ok' : call -> bool) (m : X A) R :
  (forall c, ok c = true -> ok' c = true) -> quiet ok m R -> quiet ok' m R.
Proof.
  intros Hok Hm r. specialize (Hm r). revert Hm. generalize (m r). intros p.
  induction p as [a|c k IH]; cbn; [done|]. intros [Hc Hk]. split; [by apply Hok|]. intros x Hx. by apply IH, Hk.
Qed.
Lemma quiet_set_credential ok c (R : res unit -> Prop) : R (Ok tt) -> quiet ok (set_credential c) R.
Proof. by intros HR r. Qed.
Lemma quiet_mono {A} ok (m : X A) (Q R : res A -> Prop) : quiet ok m Q -> (forall x, Q x -> R x) -> quiet ok m R.
Proof. intros Hm HR r. eapply within_mono; [|apply Hm]. intros [x r'] [Er HQ]. auto. Qed.
Lemma quiet_each {A} ok (f : A -> X unit) l :
  (forall a, quiet ok (f a) (fun _ => True)) -> quiet ok (eachX f l) (fun _ => True).
Proof.
  intros Hf. induction l as [|a l IH]; cbn [eachX]; [by apply quiet_ret|].
  by apply (quiet_bind _ _ _ (fun _ => True)).
Qed.

Lemma within_wp {S A} serve inv pre ok (p : prog A) (R : A -> Prop) (s : S) :
  inv s -> (forall c, ok c = true -> pre s c) ->
  (forall c x s', ok c = true -> serve s c x s' -> honest c x /\ s' = s) ->
  within ok p R -> wp serve inv pre p (fun a s' => R a /\ s' = s) s.
Proof.
  intros Hi Hp Hs. induction p as [a|c k IH]; cbn; [done|]. intros [Hc Hk].
  split; [done|]. split; [by apply Hp|]. intros x s' [Hx ->]%Hs; [|done]. by apply IH, Hk.
Qed.

Lemma quiet_wp {S A} serve inv pre ok (m : X A) (R : res A -> Prop) (Q : res A -> Runtime -> S -> Prop) r s :
  quiet ok m R -> inv s -> (forall c, ok c = true -> pre s c) ->
  (forall c x s', ok c = true -> serve s c x s' -> honest c x /\ s' = s) ->
  (forall x r', R x -> r_journal r' = r_journal r -> Q x r' s) -> wpX serve inv pre m Q r s.
Proof.
  intros Hm Hi Hp Hs HQ. unfold wpX. eapply wp_mono; [|eapply within_wp; [done|exact Hp|exact Hs|apply Hm]].
  intros [x r'] s' [[Er HR] ->]. by apply HQ.
Qed.
End Quiet.

(** What holds whatever the answers holds of honest ones. *)
Lemma quiet_honest `{Kube} {A} (hon : Honest) ok (m : X A) R :
  quiet (hon := any_answer) ok m R -> quiet (hon := hon) ok m R.
Proof.
  intros Hm r. specialize (Hm r). revert Hm. generalize (m r). intros p.
  induction p as [a|c k IH]; cbn; [done|]. intros [Hc Hk]. split; [done|]. intros x _. by apply IH, Hk.
Qed.

(** ** What only reads *)
Definition reads `{Kube} (c : call) : bool :=
  match c with
  | Now | ClusterUID | Resolve _ _ | GetPod _ _ | GetReplicaSet _ _ | GetStatefulSet _ _ | GetDaemonSet _ _ => true
  | _ => false
  end.

Ltac quiet_step :=
  match goal with
  | |- quiet _ (bindX get _) _ => apply quiet_get; intros ?
  | |- quiet _ (bindX (do_call _) _) _ =>
      apply (quiet_bind _ _ _ (fun _ => True)); [by apply quiet_call|intros ? _|done]
  | |- quiet _ (bindX (guardX ?b _) _) _ =>
      apply (quiet_bind _ _ _ (fun x => is_ok x = true -> b = true)); [by apply quiet_guard|intros ? ?|done]
  | |- quiet _ (guardX _ _) _ => by apply quiet_guard
  | |- quiet _ (retX _) _ => apply quiet_ret
  | |- quiet _ (failX _) _ => by apply quiet_fail
  end.

Section Readers.
Context `{Kube} {hon : Honest}.
Variable config : RuntimeConfig.
(** What is known of a target resolved for a commitment. *)
Variable committed : string -> LocalTarget -> Prop.
Hypothesis resolves : forall h c t, honest (Resolve h c) (Ok t) -> committed c t.

Lemma validCredential_quiet c : quiet reads (validCredential config c) (fun x => is_ok x = true).
Proof. intros r. cbn. done. Qed.

Lemma verifyCluster_quiet : quiet reads (verifyCluster config) (fun _ => True).
Proof. unfold verifyCluster. repeat quiet_step. Qed.

Lemma check_owner_quiet ns o : quiet reads (check_owner ns o) (fun _ => True).
Proof.
  unfold check_owner. quiet_step. cbv zeta.
  repeat case_match; repeat quiet_step; repeat case_match; repeat quiet_step.
Qed.

(** What a validated target is known to be. *)
Definition validated_target (a : Action) (t : LocalTarget) : Prop :=
  ValidID (Pl_ID (A_Plan a)) = true /\ A_Hash a = Hash (A_Plan a) /\
  target_ok a t = true /\ namespace_allowed config (LT_Namespace t) = true.

Lemma validate_quiet a :
  quiet reads (validate config a) (fun x => match x with
    | Ok t => validated_target a t /\ committed (Pl_TargetCommitment (A_Plan a)) t | Err _ => True end).
Proof.
  unfold validate. cbv zeta. apply quiet_get.
  intros r0. do 2 quiet_step.
  apply (quiet_bind _ _ _ (fun x => is_ok x = true)); [apply validCredential_quiet|intros live _|done].
  do 3 quiet_step.
  apply (quiet_bind _ _ _ (fun x => match x with Ok (Ok t) => committed (Pl_TargetCommitment (A_Plan a)) t | _ => True end)).
  { apply quiet_call; [done|]. intros [t|e] Ht; [by apply resolves in Ht|done]. }
  2:{ done. }
  intros resolved Hres. case_match; [|quiet_step]. quiet_step.
  apply (quiet_bind _ _ _ (fun _ => True)); [by apply (quiet_try _ _ (fun _ => True)); [apply verifyCluster_quiet|]|intros ? _|done].
  do 2 quiet_step. case_match; [|quiet_step]. do 3 quiet_step.
  apply (quiet_bind _ _ _ (fun _ => True)); [apply quiet_each; intros; apply check_owner_quiet|intros ? _|done].
  quiet_step. quiet_step.
  assert (Hp : plan_ok config a (C_Agent (r_credential r0)) a0 = true) by auto.
  match goal with Hg : is_ok (Ok _) = true -> target_ok _ _ && _ = true |- _ => specialize (Hg eq_refl) end.
  unfold plan_ok in Hp. cbv zeta in Hp. unfold validated_target. breflect. done.
Qed.
End Readers.
