(* ===== verification/ExecutorCrash.v ===== *)
(** * The executor's journal survives crashes

    A node is an executor's journal file and its process.  Whatever the
    orchestrator and the cluster answer, and wherever the process dies, the file
    can be opened again and holds every attempt that is not acknowledged. *)

From S2P Require Import Prelude.
From S2P Require Import Json.
From S2P Require Import JsonFacts.
From S2P Require Import GoTime.
From S2P Require Import Decode.
From S2P Require Import Identity.
From S2P Require Import Incident.
From S2P Require Import Fleet.
From S2P Require Import Execution.
From S2P Require Import Assoc.
From S2P Require Import Registry.
From S2P Require Import Executor.
From S2P Require Import ExecutorRun.

Import Runtime.
#[local] Open Scope runtime_scope.

(** ** Nodes *)
Section Nodes.
Context `{Kube}.

(** How the journal file answers, and what it becomes: a failed save may have
    replaced it.  A receipt token was decoded from JSON, so it is UTF-8; a map
    is iterated in some order.  Nothing is assumed of the other answers. *)
Definition disk_reply (d : option string) (c : call) : answer c -> option string -> Prop :=
  match c with
  | ReadJournal => fun x d' =>
      d' = d /\ (x = JUnreadable \/ x = match d with None => JAbsent | Some t => JText t end)
  | SaveJournal text => fun x d' =>
      (x = true /\ d' = Some text) \/ (x = false /\ (d' = d \/ d' = Some text))
  | Order keys => fun x d' => d' = d /\ Permutation x keys
  | PostClaim _ _ => fun x d' => d' = d /\ match x with Ok c => utf8 (CL_ReceiptToken c) | Err _ => True end
  | _ => fun _ d' => d' = d
  end.

Definition obs : Type := {c : call & answer c}.

Inductive phase :=
| Down
| Idle (r : Runtime)
| Busy (starting : bool) (p : prog (res unit * Runtime)).
Record Node := mkNode { n_disk : option string; n_phase : phase }.

(** A process starts, polls, and may be killed at any time. *)
Inductive node_step (config : RuntimeConfig) : Node -> option obs -> Node -> Prop :=
| ns_start d origin :
    node_step config (mkNode d Down) None (mkNode d (Busy true (newRuntime config origin fresh)))
| ns_poll d r : node_step config (mkNode d (Idle r)) None (mkNode d (Busy false (Poll config r)))
| ns_return d starting x r :
    node_step config (mkNode d (Busy starting (Ret (x, r)))) None
      (mkNode d (if starting && negb (is_ok x) then Down else Idle r))
| ns_crash d p : node_step config (mkNode d p) None (mkNode d Down)
| ns_call d starting c k x d' :
    disk_reply d c x d' ->
    node_step config (mkNode d (Busy starting (Call c k))) (Some (existT c x)) (mkNode d' (Busy starting (k x))).

Inductive node_run (config : RuntimeConfig) (n : Node) : list obs -> Node -> Prop :=
| nr_nil : node_run config n [] n
| nr_snoc tr n1 o n2 :
    node_run config n tr n1 -> node_step config n1 o n2 -> node_run config n (tr ++ option_list o) n2.

(** The actions written to the cluster whose receipt is still owed. *)
Definition owed_step (l : list string) (o : obs) : list string :=
  match o with
  | existT (DeletePod id _ false) _ => id :: l
  | existT (PostReceipt _ id _ outcome) (Ok out) =>
      if accepted id outcome out then List.filter (fun x => negb (str_eqb x id)) l else l
  | _ => l
  end.
Definition owed (tr : list obs) : list string := fold_left owed_step tr [].

(** What [openJournal] accepts, and can save again. *)
Definition reopens (t : string) (j : Journal) : Prop :=
  slen t <= maxWireBytes /\ decode_journal t = Some j /\ Z.of_nat (length j) <= 256 /\ journal_ok j /\
  slen (journal_text j) <= maxWireBytes.
Definition on_disk (d : option string) (j : Journal) : Prop :=
  match d with None => j = [] | Some t => reopens t j end.
Definition pending (j : Journal) (id : string) : Prop :=
  exists a, assoc id j = Some a /\ AT_Acknowledged a = false.
Definition settled (j : Journal) : Prop := Forall (fun kv => AT_Acknowledged (snd kv) = true) j.
End Nodes.

(** ** What is kept at every point *)
Section Kept.
Context `{Kube}.
Variable config : RuntimeConfig.

Record state := mkState { s_disk : option string; s_owed : list string }.
Definition serve (s : state) (c : call) (x : answer c) (s' : state) : Prop :=
  disk_reply (s_disk s) c x (s_disk s') /\ s_owed s' = owed_step (s_owed s) (existT c x).
Definition pre (s : state) (c : call) : Prop :=
  match c with DeletePod id _ false => id ∉ s_owed s | _ => True end.

Definition inv (s : state) : Prop :=
  NoDup (s_owed s) /\ exists j, on_disk (s_disk s) j /\ forall id, id ∈ s_owed s -> pending j id.

Definition memory_ok (m : Journal) (s : state) : Prop :=
  journal_ok m /\ Z.of_nat (length m) <= 256 /\ forall id, id ∈ s_owed s -> pending m id.
Definition covers (m : Journal) (s : state) : Prop :=
  forall j id, on_disk (s_disk s) j -> id ∈ map fst j -> id ∈ map fst m.
(** The memory of a running process, and what is around it. *)
Definition live (r : Runtime) (s : state) : Prop := inv s /\ memory_ok (r_journal r) s /\ covers (r_journal r) s.

Abbreviation wpN := (wpX serve inv pre).

Lemma NoDup_keep {A} (p : A -> bool) (l : list A) : NoDup l -> NoDup (List.filter p l).
Proof.
  induction 1 as [|x l Hx Hn IH]; cbn; [constructor|]. destruct (p x); [|done]. constructor; [|done].
  by intros [Hin%list_elem_of_In _]%list_elem_of_In%filter_In.
Qed.

(** *** Journals up to order *)
Lemma assoc_perm (j j' : Journal) id : NoDup (map fst j) -> Permutation j j' -> assoc id j' = assoc id j.
Proof.
  intros Hn Hp. assert (Hn' : NoDup (map fst j')) by (by rewrite <- Hp).
  destruct (assoc id j) as [a|] eqn:E.
  - apply assoc_Some; [done|]. apply assoc_Some in E; [|done]. by rewrite <- Hp.
  - apply assoc_None. apply assoc_None in E. by rewrite <- Hp.
Qed.

Lemma pending_perm j j' id : NoDup (map fst j) -> Permutation j j' -> pending j id -> pending j' id.
Proof. intros Hn Hp (a & Ha & Hk). exists a. by rewrite (assoc_perm j j'). Qed.

Lemma pending_key j id : pending j id -> id ∈ map fst j.
Proof. intros (a & Ha & _). destruct (decide (id ∈ map fst j)) as [|Hn]; [done|]. by apply assoc_None in Hn; congruence. Qed.

Lemma on_disk_fun d j j' : on_disk d j -> on_disk d j' -> j = j'.
Proof. destruct d as [t|]; cbn; [|congruence]. unfold reopens. intros (_ & E & _) (_ & E' & _). congruence. Qed.

(** *** Calls that leave the file and the debts alone *)
Definition calm (c : call) : bool :=
  match c with
  | SaveJournal _ | PostReceipt _ _ _ _ | DeletePod _ _ false => false
  | _ => true
  end.
Lemma calm_pre s c : calm c = true -> pre s c.
Proof. destruct c as [| | | | | | | | | | | | | | | | | | | | |id t []]; done. Qed.
Lemma calm_serve s c x s' : calm c = true -> serve s c x s' -> s' = s.
Proof.
  intros Hc [Hd Ho]. destruct s as [d o], s' as [d' o'].
  destruct c as [| | | | | | | | | | | | | | | | | | | | |id t []]; cbn in *; try done; destruct_and?; by subst.
Qed.

Lemma wp_calm {A} ok (m : X A) (R : res A -> Prop) (Q : res A -> Runtime -> state -> Prop) r s :
  (forall c, ok c = true -> calm c = true) -> quiet ok m R -> inv s ->
  (forall x r', R x -> r_journal r' = r_journal r -> Q x r' s) -> wpN m Q r s.
Proof.
  intros Hok Hm Hi HQ. eapply (quiet_wp _ _ _ calm); [by eapply quiet_weaken|done| | |exact HQ].
  - intros c. apply calm_pre.
  - intros c x s' Hc Hs. split; [done|]. by apply (calm_serve s c x s').
Qed.

(** *** persistJournal *)
Lemma persist_wp r s :
  inv s -> memory_ok (r_journal r) s ->
  wpN persistJournal (fun x r' s' => r' = r /\ s_owed s' = s_owed s /\ inv s' /\
    (s_disk s' = s_disk s \/ on_disk (s_disk s') (sorted_journal (r_journal r))) /\
    (x = Ok tt -> on_disk (s_disk s') (sorted_journal (r_journal r)))) r s.
Proof.
  intros Hi (Hj & Hl & Hp). unfold persistJournal. apply wpX_get_bind. cbv zeta. apply wpX_guard_bind.
  2:{ intros _. split_and!; auto. done. }
  intros Hg. apply wpX_call_bind; [done|done|]. intros x s' [Hd Ho]. cbn [disk_reply owed_step] in Hd, Ho.
  assert (Hnew : forall d, d = Some (journal_text (r_journal r)) -> on_disk d (sorted_journal (r_journal r))).
  { intros d ->. unfold on_disk, reopens. breflect. split; [done|]. split; [by apply decode_journal_text|].
    split; [unfold sorted_journal; by rewrite isort_length|].
    split; [by eapply journal_ok_perm; [symmetry; apply sorted_journal_perm|]|].
    by rewrite (journal_text_perm _ _ (sorted_journal_perm _)). }
  assert (Hi' : inv s').
  { destruct Hi as (Hn & j & Hdj & Hpj). unfold inv. rewrite Ho. split; [done|].
    destruct Hd as [[_ E]|[_ [E|E]]]; [|exists j; by rewrite E|].
    all: exists (sorted_journal (r_journal r)); split; [by apply Hnew|]; intros id Hid;
      apply (pending_perm (r_journal r)); [apply Hj|symmetry; apply sorted_journal_perm|by apply Hp]. }
  apply wpX_guard.
  - intros ->. destruct Hd as [[_ E]|[? _]]; [|done]. split_and!; auto.
  - intros ->. destruct Hd as [[? _]|[_ [E|E]]]; [done|..]; split_and!; auto; done.
Qed.

(** *** Memories after a save *)
Lemma covers_saved m s s' :
  covers m s -> s_disk s' = s_disk s \/ on_disk (s_disk s') (sorted_journal m) -> covers m s'.
Proof.
  intros Hc Hd j id Hj Hin. destruct Hd as [E|Hs].
  - rewrite E in Hj. by eapply Hc.
  - rewrite (on_disk_fun _ _ _ Hj Hs) in Hin. unfold sorted_journal in Hin. by rewrite isort_perm in Hin.
Qed.

Lemma memory_ok_owed m s s' : s_owed s' = s_owed s -> memory_ok m s -> memory_ok m s'.
Proof. intros E (Hj & Hl & Hp). split; [done|]. split; [done|]. by rewrite E. Qed.

Lemma persist_live r s :
  inv s -> memory_ok (r_journal r) s -> covers (r_journal r) s ->
  wpN persistJournal (fun x r' s' => r' = r /\ s_owed s' = s_owed s /\ live r' s' /\
    (x = Ok tt -> on_disk (s_disk s') (sorted_journal (r_journal r)))) r s.
Proof.
  intros Hi Hm Hc. eapply wpX_mono; [|by apply persist_wp]. cbv beta.
  intros x r' s' (-> & Eo & Hi' & Hd & Hok). split_and!; auto. split; [done|].
  split; [by eapply memory_ok_owed|by eapply covers_saved].
Qed.

(** An entry is written over: what is owed stays pending. *)
Lemma memory_set m s id a :
  memory_ok m s -> entry_ok (id, a) -> (AT_Acknowledged a = false \/ id ∉ s_owed s) ->
  Z.of_nat (length (assoc_set id a m)) <= 256 -> memory_ok (assoc_set id a m) s.
Proof.
  intros ((Hn & Hf) & Hl & Hp) He Ha Hlen. split_and!; [split; [by apply assoc_set_NoDup|by apply assoc_set_Forall]|done|].
  intros id' Hin. destruct (decide (id' = id)) as [->|Hne].
  - destruct Ha as [Ha|]; [|done]. exists a. by rewrite assoc_set_same.
  - destruct (Hp id' Hin) as (a' & Ha' & Hk). exists a'. by rewrite assoc_set_other.
Qed.

Lemma covers_set m s id a : covers m s -> covers (assoc_set id a m) s.
Proof. intros Hc j id' Hj Hin. apply assoc_set_keys. right. by eapply Hc. Qed.

Lemma entry_of m id a : journal_ok m -> assoc id m = Some a -> entry_ok (id, a).
Proof. intros [Hn Hf] Ha%assoc_Some; [|done]. rewrite Forall_forall in Hf. by apply Hf. Qed.

Lemma entry_outcome id a o k :
  entry_ok (id, a) -> mem_str o ["APPLIED"; "AMBIGUOUS"; "DENIED"; "PRECONDITION_FAILED"] = true ->
  entry_ok (id, mkAttempt (AT_ReceiptToken a) o k).
Proof.
  intros [Hv Hu] Ho. split; [|done]. unfold valid_entry in *. cbn [fst snd AT_ReceiptToken AT_Outcome] in *.
  apply andb_true_iff in Hv as [Hv _]. by rewrite Hv, Ho.
Qed.

(** *** receipt *)
Lemma receipt_wp id a r s :
  live r s -> assoc id (r_journal r) = Some a ->
  wpN (receipt id a) (fun x r' s' => live r' s' /\
    (x = Ok tt -> r_journal r' = assoc_set id (acknowledged a) (r_journal r))) r s.
Proof.
  intros (Hi & Hm & Hc) Ha. unfold receipt. apply wpX_get_bind.
  apply wpX_call_bind; [done|done|]. intros x s' [Hd Ho]. cbn [disk_reply owed_step] in Hd, Ho.
  assert (Hkey : id ∈ map fst (r_journal r)).
  { destruct (decide (id ∈ map fst (r_journal r))) as [|Hn]; [done|]. apply assoc_None in Hn. congruence. }
  assert (Hsub : forall id', id' ∈ s_owed s' -> id' ∈ s_owed s).
  { intros id' Hin. rewrite Ho in Hin. destruct x as [out|]; [|done]. case_if_in Hin; [|done].
    by apply list_elem_of_In, filter_In in Hin as [Hin%list_elem_of_In _]. }
  assert (Hs' : inv s' /\ memory_ok (r_journal r) s' /\ covers (r_journal r) s').
  { destruct Hi as (Hn & j & Hj & Hp), Hm as (Hmj & Hml & Hmp). split_and!.
    - split.
      + rewrite Ho. destruct x as [out|]; [|done]. case_if as E; [|done]. by apply NoDup_keep.
      + exists j. rewrite Hd. auto.
    - split; [done|]. split; [done|]. auto.
    - intros j' id' Hj'. rewrite Hd in Hj'. by apply Hc. }
  destruct Hs' as (Hi' & Hm' & Hc').
  destruct x as [out|e]; [|split; [done|discriminate]].
  apply wpX_guard_bind; [|split; [done|discriminate]]. intros Hacc.
  rewrite Hacc in Ho. apply wpX_get_bind, wpX_set_bind.
  assert (Hid : id ∉ s_owed s').
  { rewrite Ho. intros [_ Hne]%list_elem_of_In%filter_In. by rewrite str_eqb_refl in Hne. }
  assert (He : entry_ok (id, acknowledged a)) by exact (entry_of _ _ _ (proj1 Hm) Ha).
  eapply wpX_mono; [|apply persist_live; [done|apply memory_set; [done|exact He|by right|]|by apply covers_set]].
  - cbv beta. intros x r' s2 (-> & _ & Hl & _). auto.
  - rewrite assoc_set_length_in by done. apply Hm'.
Qed.

(** *** Credentials do not touch the journal *)
Ltac calm_step :=
  match goal with
  | |- quiet calm (bindX (set_credential _) _) _ =>
      apply (quiet_bind _ _ _ (fun _ => True)); [by apply quiet_set_credential|intros ? _|done]
  | |- quiet calm (set_credential _) _ => by apply quiet_set_credential
  | |- quiet calm (bindX (try (verifyCluster _)) _) _ =>
      apply (quiet_bind _ _ _ (fun _ => True));
        [apply (quiet_try _ _ (fun _ => True)); [apply (quiet_weaken reads); [by intros []|apply verifyCluster_quiet]|done]
        |intros ? _|done]
  | |- quiet calm (bindX (validCredential _ _) _) _ =>
      apply (quiet_bind _ _ _ (fun _ => True));
        [eapply quiet_mono; [apply (quiet_weaken reads); [by intros []|apply validCredential_quiet]|done]|intros ? _|done]
  | |- quiet calm (bindX ?m _) _ =>
      apply (quiet_bind _ _ _ (fun _ => True)); [solve [repeat calm_step]|intros ? _|done]
  | |- quiet calm (of_resX ?x) _ => destruct x; [by apply quiet_ret|by apply quiet_fail]
  | |- quiet calm (match ?x with _ => _ end) _ => destruct x
  | |- quiet calm (check_credential _ _) _ => unfold check_credential
  | |- quiet calm (save_credential _) _ => unfold save_credential
  | |- quiet calm (enroll _ _) _ => unfold enroll
  | |- quiet calm (renew _) _ => unfold renew
  | |- quiet calm (acquire _) _ => unfold acquire; cbv zeta
  | |- quiet calm (rotate _) _ => unfold rotate; cbv zeta
  | |- quiet calm (retX _) _ => by apply quiet_ret
  | _ => quiet_step
  end.

Lemma check_credential_calm c : quiet calm (check_credential config c) (fun _ => True).
Proof. repeat calm_step. Qed.
Lemma preload_calm : quiet calm (preload config) (fun _ => True).
Proof. unfold preload. repeat calm_step. Qed.
Lemma authorize_calm : quiet calm (authorize config) (fun _ => True).
Proof. unfold authorize. repeat calm_step. Qed.
Lemma validate_calm a :
  quiet calm (validate config a) (fun x => match x with Ok t => validated_target config a t | Err _ => True end).
Proof.
  apply (quiet_weaken reads); [by intros []|].
  eapply quiet_mono; [by apply (validate_quiet config (fun _ _ => True))|]. by intros [t|e]; [intros [? _]|].
Qed.

(** *** Receipts that are owed are sent first *)
Definition cleared (id : string) (m : Journal) : Prop := forall a, assoc id m = Some a -> AT_Acknowledged a = true.

Lemma settled_cleared m : NoDup (map fst m) -> settled m <-> forall id, id ∈ map fst m -> cleared id m.
Proof.
  intros Hn. unfold settled. rewrite Forall_forall. split.
  - intros Hf id _ a Ha%assoc_Some; [|done]. by apply (Hf (id, a)).
  - intros Hc [id a] Hin. apply (Hc id); [apply list_elem_of_fmap; by exists (id, a)|]. by apply assoc_Some.
Qed.

Lemma cleared_set id id' a m : AT_Acknowledged a = true -> cleared id m -> cleared id (assoc_set id' a m).
Proof.
  intros Ha Hc b. destruct (decide (id = id')) as [->|Hne].
  - rewrite assoc_set_same. by intros [= <-].
  - rewrite assoc_set_other by done. apply Hc.
Qed.

Lemma settled_owed r s : live r s -> settled (r_journal r) -> s_owed s = [].
Proof.
  intros (_ & ((Hn & _) & _ & Hp) & _) Hs. destruct (s_owed s) as [|id l]; [done|].
  destruct (Hp id) as (a & Ha & Hk); [left|]. apply assoc_Some in Ha; [|done]. unfold settled in Hs.
  rewrite Forall_forall in Hs. apply Hs in Ha. cbn in Ha. congruence.
Qed.

Lemma flush_one_wp id r s :
  live r s ->
  wpN (flush_one config id) (fun x r' s' => live r' s' /\ (x = Ok tt ->
    cleared id (r_journal r') /\ (forall i, i ∈ map fst (r_journal r') -> i ∈ map fst (r_journal r)) /\
    forall i, cleared i (r_journal r) -> cleared i (r_journal r'))) r s.
Proof.
  intros Hl. unfold flush_one. apply wpX_get_bind. destruct (assoc id (r_journal r)) as [a|] eqn:Ea.
  2:{ apply wpX_ret. split; [done|]. intros _. split_and!; [|done..]. intros a. congruence. }
  case_if as Ek.
  { apply wpX_ret. split; [done|]. intros _. split_and!; [|done..]. intros b. congruence. }
  apply wpX_bind. eapply wp_calm; [|apply check_credential_calm|apply Hl|]; [done|].
  intros [[]|e] r1 _ Er; cbn beta iota.
  2:{ split; [|discriminate]. unfold live. by rewrite Er. }
  assert (Hl1 : live r1 s) by (unfold live; by rewrite Er).
  eapply wpX_mono; [|apply receipt_wp; [exact Hl1|by rewrite Er]]. cbv beta.
  intros x r' s' [Hl' Hj]. split; [done|]. intros Hx. rewrite Hj, Er by done. split_and!.
  - intros b. rewrite assoc_set_same. by intros [= <-].
  - intros i [->|Hi]%assoc_set_keys; [|done].
    destruct (decide (id ∈ map fst (r_journal r))) as [|Hn%assoc_None]; [done|congruence].
  - intros i. by apply cleared_set.
Qed.

Lemma flush_wp r s :
  live r s -> wpN (flush config) (fun x r' s' => live r' s' /\ (x = Ok tt -> settled (r_journal r'))) r s.
Proof.
  intros Hl. unfold flush. apply wpX_get_bind. apply wpX_call_bind; [apply Hl|done|].
  intros keys s' [Hd Ho]. cbn [disk_reply owed_step] in Hd, Ho. destruct Hd as [Hd Hperm].
  assert (s' = s) as -> by (destruct s, s'; cbn in *; congruence). clear Hd Ho.
  assert (Hloop : forall l r1 s1, live r1 s1 ->
    wpN (eachX (flush_one config) l) (fun x r' s' => live r' s' /\ (x = Ok tt ->
      (forall i, i ∈ l -> cleared i (r_journal r')) /\
      (forall i, i ∈ map fst (r_journal r') -> i ∈ map fst (r_journal r1)) /\
      forall i, cleared i (r_journal r1) -> cleared i (r_journal r'))) r1 s1).
  { induction l as [|id l IH]; intros r1 s1 Hl1; cbn [eachX].
    - apply wpX_ret. split; [done|]. intros _. split_and!; [|done..]. by intros i ?%elem_of_nil.
    - apply wpX_bind. eapply wpX_mono; [|by apply flush_one_wp]. cbv beta. intros [[]|e] r2 s2 [Hl2 H2].
      + destruct (H2 eq_refl) as (Hc & Hk & Hm). eapply wpX_mono; [|by apply IH]. cbv beta.
        intros x r3 s3 [Hl3 H3]. split; [done|]. intros ->. destruct (H3 eq_refl) as (Hc3 & Hk3 & Hm3).
        split_and!; auto. intros i [->|Hi]%elem_of_cons; auto.
      + split; [done|discriminate]. }
  eapply wpX_mono; [|by apply Hloop]. cbv beta. intros x r' s' [Hl' H']. split; [done|]. intros Hx.
  destruct (H' Hx) as (Hc & Hk & _). apply settled_cleared; [apply Hl'|]. intros i Hi. apply Hc. rewrite Hperm. auto.
Qed.

(** *** Compaction drops acknowledged attempts only *)
Lemma compact_spec keys : forall next,
  journal_ok next ->
  journal_ok (compact keys next) /\ (length (compact keys next) <= length next)%nat /\
  (forall id, pending next id -> pending (compact keys next) id) /\
  (forall kv, kv ∈ compact keys next -> kv ∈ next).
Proof.
  induction keys as [|id keys IH]; intros next Hok; cbn [compact]; [by split_and!|].
  case_if as E; [by split_and!|]. destruct (assoc id next) as [a|] eqn:Ea; [|by apply IH].
  case_if as Ek; [|by apply IH].
  assert (Hd : journal_ok (journal_delete id next)).
  { destruct Hok as [Hn Hf]. unfold journal_delete. split.
    - clear -Hn. induction next as [|[k v] next IHn]; cbn; [constructor|]. cbn in Hn. apply NoDup_cons in Hn as [Hk Hn].
      case_if as E; [|by apply IHn]. cbn. apply NoDup_cons. split; [|by apply IHn].
      intros (kv & -> & [Hin _]%list_elem_of_In%filter_In)%list_elem_of_fmap. apply Hk, list_elem_of_fmap. exists kv.
      split; [done|]. by apply list_elem_of_In.
    - apply Forall_forall. intros kv [Hin _]%list_elem_of_In%filter_In. rewrite Forall_forall in Hf.
      by apply Hf, list_elem_of_In. }
  destruct (IH _ Hd) as (H1 & H2 & H3 & H4). split_and!; [done| | |].
  - etrans; [exact H2|]. apply List.filter_length_le.
  - intros i Hp. apply H3. destruct Hp as (b & Hb & Hk). exists b. split; [|done].
    apply assoc_Some in Hb; [|apply Hok]. apply assoc_Some; [apply Hd|]. unfold journal_delete.
    apply list_elem_of_In, filter_In. split; [by apply list_elem_of_In|]. cbn.
    apply negb_true_iff, str_eqb_neq. intros ->. apply assoc_Some in Hb; [|apply Hok]. congruence.
  - intros kv Hin%H4. by apply list_elem_of_In, filter_In in Hin as [?%list_elem_of_In _].
Qed.

Lemma settled_sub m m' : (forall kv, kv ∈ m' -> kv ∈ m) -> settled m -> settled m'.
Proof. unfold settled. rewrite !Forall_forall. auto. Qed.

Lemma compact_wp r s :
  live r s -> settled (r_journal r) ->
  wpN compactJournal (fun x r' s' => live r' s' /\ settled (r_journal r')) r s.
Proof.
  intros Hl Hset. unfold compactJournal. apply wpX_get_bind. cbv zeta. case_if as E1; [by apply wpX_ret|].
  apply wpX_call_bind; [apply Hl|done|]. intros keys s' [Hd Ho]. cbn [disk_reply owed_step] in Hd, Ho.
  destruct Hd as [Hd _]. assert (s' = s) as -> by (destruct s, s'; cbn in *; congruence). clear Hd Ho.
  case_if as E2; [by apply wpX_ret|]. apply wpX_set_bind, wpX_bind, wpX_try.
  pose proof Hl as (Hi & (Hok & Hlen & Hp) & Hc).
  destruct (compact_spec keys (r_journal r) Hok) as (C1 & C2 & C3 & C4).
  set (r1 := with_journal (compact keys (r_journal r)) r).
  assert (Hm1 : memory_ok (r_journal r1) s) by (cbn; split; [done|]; split; [lia|]; auto).
  eapply wpX_mono; [|by apply persist_wp]. cbv beta. intros [[]|e] r' s' (-> & Eo & Hi' & Hdisk & Hsaved).
  - apply wpX_ret. split; [|by eapply settled_sub]. split; [done|]. split; [by eapply memory_ok_owed|].
    intros j id Hj Hin. rewrite (on_disk_fun _ _ _ Hj (Hsaved eq_refl)) in Hin. unfold sorted_journal in Hin.
    by rewrite isort_perm in Hin.
  - apply wpX_set_bind, wpX_fail. split; [|done]. cbn. split; [done|].
    split; [by eapply memory_ok_owed; [|split_and!]|]. intros j id Hj Hin. destruct Hdisk as [Ed|Hs].
    + rewrite Ed in Hj. by apply (Hc j).
    + rewrite (on_disk_fun _ _ _ Hj Hs) in Hin. unfold sorted_journal in Hin. rewrite isort_perm in Hin.
      apply list_elem_of_fmap in Hin as (kv & -> & Hkv%C4). apply list_elem_of_fmap. by exists kv.
Qed.

(** *** One action *)
Definition outcomes : list string := ["APPLIED"; "AMBIGUOUS"; "DENIED"; "PRECONDITION_FAILED"].

Lemma write_outcome_ok e : mem_str (write_outcome e) outcomes = true.
Proof. unfold write_outcome. repeat case_match; reflexivity. Qed.
Lemma dry_outcome_ok e : mem_str (dry_outcome e) outcomes = true.
Proof. unfold dry_outcome. case_match; reflexivity. Qed.

(** A mutation is done at most once, and only of an attempt that is on file. *)
Definition mutated (id : string) (r : Runtime) (s : state) (x : res string) (r' : Runtime) (s' : state) : Prop :=
  r_journal r' = r_journal r /\ s_disk s' = s_disk s /\ inv s' /\
  (s_owed s' = s_owed s \/ s_owed s' = id :: s_owed s) /\
  match x with Ok o => mem_str o outcomes = true | Err _ => False end.

Lemma mutate_wp id a claim r s :
  inv s -> id ∉ s_owed s -> (exists j, on_disk (s_disk s) j /\ pending j id) ->
  wpN (mutate config id a claim) (mutated id r s) r s.
Proof.
  intros Hi Hid Hdisk. unfold mutate. case_if as Eg; [apply wpX_ret; split_and!; auto|].
  assert (Hval : forall A (f : res LocalTarget -> X A) Q r1, r_journal r1 = r_journal r ->
    (forall t r2, r_journal r2 = r_journal r -> wpN (f (Ok t)) Q r2 s) ->
    (forall e r2, r_journal r2 = r_journal r -> wpN (f (Err e)) Q r2 s) ->
    wpN (bindX (try (validate config (CL_Action claim))) f) Q r1 s).
  { intros A f Q r1 E1 Hok Herr. apply wpX_bind, wpX_try.
    eapply wp_calm; [|apply validate_calm|done|]; [done|].
    intros [t|e] r2 _ E2; [apply Hok|apply Herr]; congruence. }
  apply Hval; [done| |].
  2:{ intros e r2 E2. apply wpX_ret. split_and!; auto. }
  intros t r2 E2. apply wpX_call_bind; [done|done|]. intros x s1 [Hd Ho]. cbn [disk_reply owed_step] in Hd, Ho.
  assert (s1 = s) as -> by (destruct s, s1; cbn in *; congruence). clear Hd Ho.
  destruct x as [e|]; [apply wpX_ret; split_and!; auto using dry_outcome_ok|].
  apply Hval; [done| |].
  2:{ intros e r3 E3. apply wpX_ret. split_and!; auto. }
  intros _ r3 E3. apply wpX_call_bind; [done|done|]. intros x s1 [Hd Ho]. cbn [disk_reply owed_step] in Hd, Ho.
  apply wpX_ret. split_and!; auto using write_outcome_ok.
  destruct Hi as (Hn & j & Hj & Hp). unfold inv. rewrite Hd, Ho. split; [by constructor|]. exists j. split; [done|].
  destruct Hdisk as (j' & Hj' & Hp'). rewrite (on_disk_fun _ _ _ Hj' Hj) in Hp'.
  intros id' [->|]%elem_of_cons; auto.
Qed.

Lemma perform_wp a r s :
  live r s -> settled (r_journal r) -> ValidID (Pl_ID (A_Plan a)) = true ->
  assoc (Pl_ID (A_Plan a)) (r_journal r) = None ->
  wpN (perform config a) (fun x r' s' => live r' s' /\ (x = Ok tt -> settled (r_journal r'))) r s.
Proof.
  intros Hl Hset Hvid Hnone. pose proof Hl as (Hi & Hm & Hc). unfold perform. set (id := Pl_ID (A_Plan a)) in *.
  cbv zeta. apply wpX_get_bind, wpX_guard_bind; [intros Hsize|split; [done|discriminate]].
  apply wpX_call_bind; [done|done|]. intros claim s1 [Hd Ho]. cbn [disk_reply owed_step] in Hd, Ho.
  destruct Hd as [Hd Hutf]. assert (s1 = s) as -> by (destruct s, s1; cbn in *; congruence). clear Hd Ho.
  destruct claim as [claim|e]; cbn [of_resX]; [|apply wpX_bind, wpX_fail; split; [done|discriminate]].
  apply wpX_bind, wpX_ret. apply wpX_guard_bind; [intros Htok|split; [done|discriminate]].
  apply wpX_get_bind, wpX_set_bind.
  assert (Hid : id ∉ s_owed s).
  { intros Hin. destruct Hm as (_ & _ & Hp). destruct (Hp id Hin) as (b & Hb & _). congruence. }
  set (e0 := mkAttempt (CL_ReceiptToken claim) "AMBIGUOUS" false).
  assert (He0 : entry_ok (id, e0)).
  { split; [|done]. unfold valid_entry. cbn [fst snd e0 AT_ReceiptToken AT_Outcome]. by rewrite Hvid, Htok. }
  set (m1 := assoc_set id e0 (r_journal r)).
  assert (Hlen1 : Z.of_nat (length m1) <= 256).
  { pose proof (proj2 (assoc_set_length id e0 (r_journal r))). fold m1 in H0. breflect. lia. }
  assert (Hm1 : memory_ok m1 s) by (apply memory_set; auto).
  apply wpX_bind. eapply wpX_mono; [|apply persist_live; [done|exact Hm1|by apply covers_set]].
  cbv beta. intros [[]|e] r1 s1 (-> & Eo & Hl1 & Hsave); [|split; [done|discriminate]].
  specialize (Hsave eq_refl). pose proof Hl1 as (Hi1 & Hm1' & Hc1). cbn [r_journal with_journal] in Hsave, Hl1, Hm1', Hc1.
  assert (Hpend : pending (sorted_journal m1) id).
  { apply (pending_perm m1); [apply Hm1|symmetry; apply sorted_journal_perm|]. exists e0. unfold m1.
    by rewrite assoc_set_same. }
  apply wpX_bind. eapply wpX_mono; [|apply mutate_wp; [done|by rewrite Eo|by exists (sorted_journal m1)]].
  intros [outcome|e] r2 s2 (Ej & Ed & Hi2 & Ho2 & Hout); [|done]. cbn [r_journal with_journal] in Ej.
  apply wpX_get_bind, wpX_set_bind.
  set (e1 := mkAttempt (CL_ReceiptToken claim) outcome false). rewrite Ej.
  assert (He1 : entry_ok (id, e1)) by exact (entry_outcome id e0 outcome false He0 Hout).
  assert (Hin1 : id ∈ map fst m1) by (apply assoc_set_keys; by left).
  assert (Hm2 : memory_ok m1 s2).
  { split_and!; [apply Hm1|done|]. intros i Hin. destruct Ho2 as [E|E]; rewrite E, Eo in Hin.
    - by apply Hm1.
    - apply elem_of_cons in Hin as [->|Hin]; [|by apply Hm1]. exists e0. unfold m1. by rewrite assoc_set_same. }
  assert (Hc2 : covers m1 s2) by (intros j i Hj; rewrite Ed in Hj; by apply Hc1).
  apply wpX_bind. eapply wpX_mono;
    [|apply persist_live; [done|apply memory_set; [exact Hm2|exact He1|by left|by rewrite assoc_set_length_in]|by apply covers_set]].
  cbv beta. intros [[]|e] r3 s3 (-> & _ & Hl3 & _); [|split; [done|discriminate]].
  eapply wpX_mono; [|apply receipt_wp; [done|cbn; apply assoc_set_same]]. cbv beta. cbn [r_journal with_journal].
  intros x r4 s4 [Hl4 Hj4]. split; [done|]. intros ->. rewrite Hj4 by done.
  apply settled_cleared; [apply assoc_set_NoDup, assoc_set_NoDup; apply Hm1|]. intros i Hin b.
  destruct (decide (i = id)) as [->|Hne]; [rewrite assoc_set_same; by intros [= <-]|].
  unfold m1. rewrite !assoc_set_other by done. apply (proj1 (settled_cleared _ (proj1 (proj1 Hm))) Hset).
  apply assoc_set_keys in Hin as [?|Hin]; [done|]. apply assoc_set_keys in Hin as [?|Hin]; [done|].
  by apply assoc_set_keys in Hin as [?|Hin].
Qed.

Lemma attend_wp a r s :
  live r s /\ settled (r_journal r) ->
  wpN (attend config a) (fun x r' s' => live r' s' /\ (x = Ok tt -> settled (r_journal r'))) r s.
Proof.
  intros [Hl Hset]. unfold attend. apply wpX_get_bind.
  destruct (assoc _ _) as [b|] eqn:Ea; [by apply wpX_ret|].
  apply wpX_call_bind; [apply Hl|done|]. intros now s1 [Hd Ho]. cbn [disk_reply owed_step] in Hd, Ho.
  assert (s1 = s) as -> by (destruct s, s1; cbn in *; congruence). clear Hd Ho.
  case_if as Eg; [by apply wpX_ret|]. apply wpX_bind, wpX_try.
  eapply wp_calm; [|apply validate_calm|apply Hl|]; [done|]. intros [t|e] r1 Hv Ej; cbn [is_ok].
  2:{ apply wpX_ret. unfold live. by rewrite Ej. }
  apply perform_wp; [unfold live; by rewrite Ej|by rewrite Ej|apply Hv|by rewrite Ej].
Qed.

(** *** A poll, and a start *)
Lemma poll_wp r s :
  live r s ->
  wp serve inv pre (Poll config r) (fun x s' => live (snd x) s' /\ (fst x = Ok tt -> settled (r_journal (snd x)))) s.
Proof.
  intros Hl. unfold Poll. case_if as Estop; [by split|]. apply wp_bind.
  assert (Hbody : wpN (poll_body config) (fun x r' s' => live r' s' /\ (x = Ok tt -> settled (r_journal r'))) r s).
  { unfold poll_body. apply wpX_bind, wpX_try.
    eapply (wp_calm reads); [by intros []|apply verifyCluster_quiet|apply Hl|].
    intros c r1 _ E1. assert (Hl1 : live r1 s) by (unfold live; by rewrite E1). clear Hl E1.
    apply wpX_guard_bind; [intros _|split; [done|discriminate]]. apply wpX_bind.
    eapply wp_calm; [|apply preload_calm|apply Hl1|]; [done|].
    intros [[]|e] r2 _ E2; [|split; [unfold live; by rewrite E2|discriminate]].
    assert (Hl2 : live r2 s) by (unfold live; by rewrite E2). clear Hl1 E2 r1.
    apply wpX_bind. eapply wpX_mono; [|by apply flush_wp]. cbv beta.
    intros [[]|e] r3 s3 [Hl3 H3]; [|split; [done|discriminate]].
    apply wpX_bind. eapply wpX_mono; [|apply compact_wp; auto]. cbv beta.
    intros [[]|e] r4 s4 [Hl4 H4]; [|split; [done|discriminate]].
    apply wpX_bind. eapply wp_calm; [|apply authorize_calm|apply Hl4|]; [done|].
    intros [[]|e] r5 _ E5; [|split; [unfold live; by rewrite E5|discriminate]].
    assert (Hl5 : live r5 s4) by (unfold live; by rewrite E5). rewrite <- E5 in H4. clear E5 Hl4.
    apply wpX_get_bind. apply wpX_call_bind; [apply Hl5|done|]. intros actions s5 [Hd Ho]. cbn [disk_reply owed_step] in Hd, Ho.
    assert (s5 = s4) as -> by (destruct s4, s5; cbn in *; congruence). clear Hd Ho.
    destruct actions as [actions|e]; cbn [of_resX]; [|apply wpX_bind, wpX_fail; split; [done|discriminate]].
    apply wpX_bind, wpX_ret. apply wpX_guard_bind; [intros _|split; [done|discriminate]].
    apply (wpX_each _ _ _ _ (fun r s => live r s /\ settled (r_journal r))); [done| |].
    - intros a _ r6 s6 H6. eapply wpX_mono; [|by apply attend_wp]. cbv beta.
      intros [[]|e] r7 s7 [Hl7 H7]; [auto|split; [done|discriminate]].
    - intros r6 s6 [Hl6 H6]. auto. }
  eapply wp_mono; [|exact Hbody]. cbv beta. intros [x r'] s' [Hl' Hx]. cbn [fst snd] in *. cbn.
  unfold stop_if_rejected. cbn [fst snd]. destruct x as [[]|[]]; cbn; split; try done; auto.
Qed.

Lemma start_wp origin s :
  inv s ->
  wp serve inv pre (newRuntime config origin fresh)
    (fun x s' => inv s' /\ (fst x = Ok tt -> live (snd x) s')) s.
Proof.
  intros Hi. change (wpN (newRuntime config origin) (fun x r' s' => inv s' /\ (x = Ok tt -> live r' s')) fresh s).
  unfold newRuntime. apply wpX_guard_bind; [intros _|done].
  apply wpX_call_bind; [done|done|]. intros paths s1 [Hd Ho]. cbn [disk_reply owed_step] in Hd, Ho.
  assert (s1 = s) as -> by (destruct s, s1; cbn in *; congruence). clear Hd Ho.
  apply wpX_guard_bind; [intros _|done]. unfold openJournal.
  apply wpX_call_bind; [done|done|]. intros locked s1 [Hd Ho]. cbn [disk_reply owed_step] in Hd, Ho.
  assert (s1 = s) as -> by (destruct s, s1; cbn in *; congruence). clear Hd Ho.
  apply wpX_guard_bind; [intros _|done]. apply wpX_set_bind.
  apply wpX_call_bind; [done|done|]. intros file s1 [Hd Ho]. cbn [disk_reply owed_step] in Hd, Ho.
  destruct Hd as [Hd Hf]. assert (s1 = s) as -> by (destruct s, s1; cbn in *; congruence). clear Hd Ho.
  destruct Hf as [->| ->]; [by apply wpX_fail|]. pose proof Hi as (Hn & j & Hj & Hp).
  destruct (s_disk s) as [t|] eqn:Ed.
  - destruct Hj as (Hlen & Hdec & Hl & Hok & Hsize). case_if as E1; [by apply wpX_fail|]. rewrite Hdec.
    apply wpX_set_bind, wpX_guard; [|done]. intros _. split; [done|]. intros _. split; [done|].
    cbn [r_journal with_journal]. split; [by split_and!|].
    intros j' id Hj'. rewrite Ed in Hj'. by rewrite (on_disk_fun _ _ j Hj'); [|split_and!].
  - cbn in Hj. subst j. assert (Ho : s_owed s = []).
    { destruct (s_owed s) as [|id l]; [done|]. by destruct (Hp id ltac:(left)) as (a & Ha & _). }
    apply wpX_bind, wpX_try. eapply wpX_mono; [|apply persist_live; [done| |]]. cbv beta.
    + intros x r' s' (-> & _ & Hl' & _). apply wpX_guard; [|by intros; split; [apply Hl'|]].
      intros _. split; [apply Hl'|]. intros _. exact Hl'.
    + split_and!; [split; constructor|cbn; lia|]. rewrite Ho. by intros id ?%elem_of_nil.
    + intros j' id Hj' Hin. rewrite Ed in Hj'. cbn in Hj'. by subst j'.
Qed.

(** *** Every reachable node *)
Definition node_ok (n : Node) (l : list string) : Prop :=
  let s := mkState (n_disk n) l in
  inv s /\
  match n_phase n with
  | Down => True
  | Idle r => live r s
  | Busy true p => wp serve inv pre p (fun x s' => inv s' /\ (fst x = Ok tt -> live (snd x) s')) s
  | Busy false p =>
      wp serve inv pre p (fun x s' => live (snd x) s' /\ (fst x = Ok tt -> settled (r_journal (snd x)))) s
  end.

Lemma wp_inv {A} (p : prog A) (Q : A -> state -> Prop) s :
  (forall a s, Q a s -> inv s) -> wp serve inv pre p Q s -> inv s.
Proof. intros HQ. destruct p; cbn; [apply HQ|]. by intros [? _]. Qed.

Lemma node_step_ok n o n' l :
  node_step config n o n' -> node_ok n l ->
  (match o with Some o => pre (mkState (n_disk n) l) (projT1 o) | None => True end) /\
  node_ok n' (fold_left owed_step (option_list o) l).
Proof.
  intros Hs [Hi Hp]. destruct Hs as [d origin|d r|d starting x r|d p|d starting c k x d' Hr]; cbn in *.
  - split; [done|]. split; [done|]. by apply start_wp.
  - split; [done|]. split; [done|]. by apply poll_wp.
  - split; [done|]. split; [done|]. destruct starting, x as [[]|e]; cbn in *; try done; [by apply Hp|exact (proj1 Hp)|exact (proj1 Hp)].
  - done.
  - assert (Hcall : forall Q, wp serve inv pre (Call c k) Q (mkState d l) ->
      pre (mkState d l) c /\ wp serve inv pre (k x) Q (mkState d' (owed_step l (existT c x)))).
    { intros Q (_ & Hpre & Hk). split; [done|]. by apply Hk. }
    destruct starting; apply Hcall in Hp as [Hpre Hk]; (split; [done|]); (split; [|exact Hk]);
      (eapply wp_inv; [|exact Hk]); cbv beta; intros a s' Hq; first [exact (proj1 (proj1 Hq))|exact (proj1 Hq)].
Qed.

Lemma node_run_ok tr n :
  node_run config (mkNode None Down) tr n -> node_ok n (owed tr).
Proof.
  induction 1 as [|tr n1 o n2 _ IH Hs].
  - split; [|done]. split; [constructor|]. exists []. split; [done|]. by intros id ?%elem_of_nil.
  - unfold owed. rewrite fold_left_app. by apply (node_step_ok n1).
Qed.
End Kept.
