(* ===== verification/ExecutorDrain.v ===== *)
(** * Owed receipts reach the orchestrator

    After any history of crashes, an executor that restarts with a valid
    credential on file, a disk that works and an orchestrator that accepts its
    receipts sends every receipt it owes in its first poll. *)

From S2P Require Import Prelude.
From S2P Require Import Json.
From S2P Require Import GoTime.
From S2P Require Import Decode.
From S2P Require Import Identity.
From S2P Require Import Incident.
From S2P Require Import Fleet.
From S2P Require Import Execution.
From S2P Require Import Assoc.
From S2P Require Import Registry.
From S2P Require Import Executor.
From S2P Require Import ExecutorRun.
From S2P Require Import ExecutorCrash.

Import Runtime.
#[local] Open Scope runtime_scope.

(** ** Running a program against a server

    A server answers a call by what was called before it. *)
Section Play.
Context `{Kube}.
Definition server : Type := list obs -> forall c : call, answer c.

Fixpoint served {A} (h : server) (p : prog A) (tr : list obs) : list obs * A :=
  match p with
  | Ret a => (tr, a)
  | Call c k => let x := h tr c in served h (k x) (tr ++ [existT c x])
  end.

Definition by_server (h : server) (tr : list obs) (c : call) (x : answer c) (tr' : list obs) : Prop :=
  x = h tr c /\ tr' = tr ++ [existT c x].

Lemma served_wp {A} h (p : prog A) Q tr :
  wp (by_server h) (fun _ => True) (fun _ _ => True) p Q tr -> Q (snd (served h p tr)) (fst (served h p tr)).
Proof.
  revert tr. induction p as [a|c k IH]; cbn; intros tr; [done|]. intros (_ & _ & Hk). by apply IH, Hk.
Qed.

Definition saves (o : obs) : bool := match o with existT (SaveJournal _) _ => true | _ => false end.

(** A server that lets an executor with credential [c0] work on disk [d]. *)
Record cooperative (config : RuntimeConfig) (c0 : Credential) (d : option string) (h : server) : Prop := {
  co_paths : forall tr, h tr CheckPaths = true;
  co_lock : forall tr, h tr Lock = true;
  co_read : forall tr, existsb saves tr = false ->
    h tr ReadJournal = match d with None => JAbsent | Some t => JText t end;
  co_save : forall tr t, h tr (SaveJournal t) = true;
  co_order : forall tr keys, Permutation (h tr (Order keys)) keys;
  co_cluster : forall tr, h tr ClusterUID = Some (RC_ExpectedClusterUID config);
  co_load : forall tr, h tr LoadCredential = Some c0;
  co_clock : forall tr, credential_valid config c0 (h tr Now) = true;
  co_receipt : forall tr token id receipt outcome,
    exists out, h tr (PostReceipt token id receipt outcome) = Ok out /\ accepted id outcome out = true
}.
End Play.

Section Drain.
Context `{Kube}.
Variable config : RuntimeConfig.
Variable c0 : Credential.
Variable d : option string.
Variable h : server.
Hypothesis Hco : cooperative config c0 d h.
(** What happened before the process started. *)
Variable past : list obs.

Abbreviation wpH := (wpX (by_server h) (fun _ => True) (fun _ _ => True)).
Definition owes (tr : list obs) : list string := owed (past ++ tr).

Lemma owes_snoc tr o : owes (tr ++ [o]) = owed_step (owes tr) o.
Proof. unfold owes, owed. by rewrite app_assoc, fold_left_app. Qed.

Lemma wpH_call {A} c (f : answer c -> X A) Q r tr :
  wpH (f (h tr c)) Q r (tr ++ [existT c (h tr c)]) -> wpH (bindX (do_call c) f) Q r tr.
Proof. intros Hf. apply wpX_call_bind; [done|done|]. by intros x tr' [-> ->]. Qed.

(** What the journal of a process says, and could be saved as. *)
Definition sound (j : Journal) (tr : list obs) : Prop :=
  journal_ok j /\ slen (journal_text j) <= maxWireBytes /\ forall id, id ∈ owes tr -> pending j id.

Lemma persists r tr :
  slen (journal_text (r_journal r)) <= maxWireBytes ->
  wpH persistJournal (fun x r' tr' => x = Ok tt /\ r' = r /\ owes tr' = owes tr) r tr.
Proof.
  intros Hs. unfold persistJournal. apply wpX_get_bind. cbv zeta. apply wpX_guard_bind; intros Hg.
  - apply wpH_call. rewrite (co_save _ _ _ _ Hco). apply wpX_guard; [|done]. intros _. by rewrite owes_snoc.
  - breflect. lia.
Qed.

Lemma checks r tr (Q : res unit -> Runtime -> list obs -> Prop) :
  (forall tr', owes tr' = owes tr -> Q (Ok tt) r tr') -> wpH (check_credential config c0) Q r tr.
Proof.
  intros HQ. unfold check_credential, validCredential. apply wpX_bind. apply wpH_call, wpX_ret.
  rewrite (co_clock _ _ _ _ Hco). apply wpX_guard; [|done]. intros _. apply HQ. by rewrite owes_snoc.
Qed.

(** ** Starting *)
Definition up (r : Runtime) (tr : list obs) : Prop :=
  r_credential r = zero_credential /\ r_stopped r = false /\ sound (r_journal r) tr.

Lemma starts :
  config_ok config true = true ->
  inv (mkState d (owes [])) ->
  wpH (newRuntime config true) (fun x r' tr' => x = Ok tt /\ up r' tr') fresh [].
Proof.
  intros Hcfg (Hn & j & Hj & Hp). unfold newRuntime. rewrite Hcfg. apply wpX_guard_bind; [intros _|done].
  apply wpH_call. rewrite (co_paths _ _ _ _ Hco). apply wpX_guard_bind; [intros _|done]. unfold openJournal.
  apply wpH_call. rewrite (co_lock _ _ _ _ Hco). apply wpX_guard_bind; [intros _|done]. apply wpX_set_bind, wpH_call.
  rewrite (co_read _ _ _ _ Hco) by done.
  cbn [s_disk s_owed] in *. case_eq d; [intros t Ed|intros Ed]; rewrite Ed in Hj; cbn [on_disk] in Hj.
  - destruct Hj as (H1 & H2 & H3 & H4 & H5). rewrite (proj2 (Z.ltb_ge _ _) H1), H2. apply wpX_set_bind, wpX_guard.
    + intros _. split; [done|]. split; [done|]. split; [done|]. split; [done|]. split; [done|].
      by rewrite !owes_snoc.
    + rewrite (proj2 (Z.ltb_ge _ _) H3), (proj2 (forallb_forall valid_entry j)); [done|].
      intros kv Hin%list_elem_of_In. destruct H4 as [_ Hf]. rewrite Forall_forall in Hf. by apply Hf.
  - subst j.
    assert (Ho : owes [] = []).
    { destruct (owes []) as [|id l]; [done|]. by destruct (Hp id ltac:(left)) as (a & Ha & _). }
    apply wpX_bind, wpX_try. eapply wpX_mono; [|by apply persists]. cbv beta. intros x r' tr' (-> & -> & Eo).
    apply wpX_guard; [|done]. intros _. split; [done|]. split; [done|]. split; [done|].
    split; [split; constructor|]. split; [done|]. rewrite Eo, !owes_snoc, Ho. by intros id ?%elem_of_nil.
Qed.

(** ** Polling *)
Definition flushing (r : Runtime) (tr : list obs) : Prop := r_credential r = c0 /\ sound (r_journal r) tr.

Lemma flushes_one id r tr :
  flushing r tr ->
  wpH (flush_one config id) (fun x r' tr' => x = Ok tt /\ flushing r' tr' /\
    forall i, pending (r_journal r') i -> pending (r_journal r) i /\ i <> id) r tr.
Proof.
  intros (Hc & Hok & Hs & Hp). unfold flush_one. apply wpX_get_bind.
  destruct (assoc id (r_journal r)) as [a|] eqn:Ea.
  2:{ apply wpX_ret. split; [done|]. split; [done|]. intros i Hi. split; [done|]. intros ->. destruct Hi as (b & Hb & _). congruence. }
  case_if as Ek.
  { apply wpX_ret. split; [done|]. split; [done|]. intros i Hi. split; [done|]. intros ->. destruct Hi as (b & Hb & Hk). congruence. }
  rewrite Hc. apply wpX_bind, checks. intros tr1 E1. unfold receipt. apply wpX_get_bind, wpH_call.
  destruct (co_receipt _ _ _ _ Hco tr1 (C_Token (r_credential r)) id (AT_ReceiptToken a) (AT_Outcome a)) as (out & Eout & Hacc).
  set (o := existT _ _). assert (Eo : owes (tr1 ++ [o]) = List.filter (fun x => negb (str_eqb x id)) (owes tr)).
  { rewrite owes_snoc, E1. unfold o. rewrite Eout. cbn [owed_step]. by rewrite Hacc. }
  clearbody o. rewrite Eout, Hacc. apply wpX_guard_bind; [intros _|done]. apply wpX_get_bind, wpX_set_bind.
  fold (acknowledged a). set (j := assoc_set id (acknowledged a) (r_journal r)).
  assert (Hj : journal_ok j).
  { destruct Hok as [Hn Hf]. split; [by apply assoc_set_NoDup|]. apply assoc_set_Forall; [done|].
    exact (entry_of _ _ _ (conj Hn Hf) Ea). }
  assert (Hsj : slen (journal_text j) <= maxWireBytes) by (etrans; [by apply journal_text_acknowledged|done]).
  assert (Hpj : forall i, pending j i <-> pending (r_journal r) i /\ i <> id).
  { intros i. unfold j, pending. destruct (decide (i = id)) as [->|Hne].
    - rewrite assoc_set_same. split; [|tauto]. by intros (b & [= <-] & ?).
    - rewrite assoc_set_other by done. tauto. }
  eapply wpX_mono; [|by apply persists]. cbv beta. intros x r' tr' (-> & -> & Ex). split; [done|].
  split; [|intros i; apply Hpj]. split; [done|]. split; [done|]. split; [done|]. rewrite Ex, Eo.
  intros i [Hi Hne]%list_elem_of_In%filter_In. apply Hpj. split; [by apply Hp, list_elem_of_In|].
  intros ->. by rewrite str_eqb_refl in Hne.
Qed.

Lemma flushes l : forall r tr,
  flushing r tr -> (forall i, pending (r_journal r) i -> i ∈ l) ->
  wpH (eachX (flush_one config) l) (fun x r' tr' => x = Ok tt /\ owes tr' = []) r tr.
Proof.
  induction l as [|id l IH]; intros r tr Hf Hl; cbn [eachX].
  - apply wpX_ret. split; [done|]. destruct (owes tr) as [|i o] eqn:E; [done|]. exfalso.
    apply (not_elem_of_nil i), Hl, Hf. rewrite E. by left.
  - apply wpX_bind. eapply wpX_mono; [|by apply flushes_one]. cbv beta. intros x r' tr' (-> & Hf' & Hp).
    apply IH; [done|]. intros i [Hi Hne]%Hp. apply Hl in Hi. by apply elem_of_cons in Hi as [?|].
Qed.

Definition drained (tr : list obs) : Prop := exists tr', tr' `prefix_of` tr /\ owes tr' = [].

Lemma drained_stays {A} (p : prog A) tr :
  drained tr -> wp (by_server h) (fun _ => True) (fun _ _ => True) p (fun _ => drained) tr.
Proof.
  revert tr. induction p as [a|c k IH]; intros tr Hd; [exact Hd|]. split; [done|]. split; [done|].
  intros x tr' [_ ->]. apply IH. destruct Hd as (tr1 & Hp & Ho). exists tr1. split; [by apply prefix_app_r|done].
Qed.
Lemma drained_bind {A B} (m : X A) (f : A -> X B) r tr :
  wpH m (fun _ _ => drained) r tr -> wpH (bindX m f) (fun _ _ => drained) r tr.
Proof.
  intros Hm. apply wpX_bind. eapply wpX_mono; [|exact Hm]. cbv beta. intros [a|e] r' tr' Hd; [by apply drained_stays|done].
Qed.

Lemma polls r tr :
  up r tr -> wp (by_server h) (fun _ => True) (fun _ _ => True) (Poll config r) (fun _ => drained) tr.
Proof.
  intros (Hc & Hst & Hs). unfold Poll. rewrite Hst. apply wp_bind.
  assert (Hb : wpH (poll_body config) (fun _ _ => drained) r tr); [|eapply wp_mono; [|exact Hb]; done].
  unfold poll_body. apply wpX_bind, wpX_try. unfold verifyCluster. apply wpH_call.
  rewrite (co_cluster _ _ _ _ Hco), bool_decide_true by done. apply wpX_guard; [intros _|done].
  apply wpX_guard_bind; [intros _|done]. apply wpX_bind. unfold preload. apply wpX_get_bind. rewrite Hc. cbn [negb str_eqb C_Token zero_credential].
  apply wpH_call. rewrite (co_load _ _ _ _ Hco). apply wpX_bind, checks. intros tr1 E1. unfold wpX at 1. cbn.
  change (wpH (flush config ;;; compactJournal ;;; authorize config ;;;
    let! r := get in let! actions := do_call (GetActions (C_Token (r_credential r))) in
    let! actions := of_resX actions in
    guardX (negb (100 <? Z.of_nat (length actions))) ErrRuntime ;;; eachX (attend config) actions)
    (fun _ _ => drained) (mkRuntime c0 (r_stopped r) (r_closed r) (r_journal r)) tr1).
  apply drained_bind. unfold flush. apply wpX_get_bind, wpH_call. cbn [r_journal].
  eapply wpX_mono; [|apply flushes].
  - cbv beta. intros x r' tr' [_ Ho]. by exists tr'.
  - split; [done|]. destruct Hs as (H1 & H2 & H3). split; [done|]. split; [done|]. cbn [r_journal].
    rewrite owes_snoc, E1, owes_snoc. cbn [owed_step]. rewrite owes_snoc. exact H3.
  - cbn [r_journal]. intros i Hi. rewrite (co_order _ _ _ _ Hco). by apply pending_key.
Qed.
End Drain.
