(* ===== verification/ExecutionFacts.v ===== *)
(** * The action state machine

    The abstract life of an action is the relation [action_step]; the handlers
    of pkg/execution refine it, and the invariant of reachable databases gives
    the guarantees of the approval protocol: an approval before every
    submission, one submission at most, an immutable plan, and final states. *)

From S2P Require Import Prelude.
From S2P Require Import Sha256.
From S2P Require Import Json.
From S2P Require Import JsonFacts.
From S2P Require Import GoTime.
From S2P Require Import Decode.
From S2P Require Import Identity.
From S2P Require Import Authorization.
From S2P Require Import Incident.
From S2P Require Import Db.
From S2P Require Import Sql.
From S2P Require Import Storage.
From S2P Require Import Records.
From S2P Require Import Privacy.
From S2P Require Import Fleet.
From S2P Require Import Execution.

(** ** The abstract machine *)
Definition outcomes : list string := ["APPLIED"; "PRECONDITION_FAILED"; "DENIED"; "AMBIGUOUS"].

Inductive action_step : option Action -> option Action -> Prop :=
| step_propose a :
    A_State a = "PROPOSED" -> A_Version a = 1 -> A_Hash a = Hash (A_Plan a) -> A_ApprovedBy a = "" ->
    action_step None (Some a)
| step_approve a by_ expires :
    A_State a = "PROPOSED" -> by_ <> "" -> action_step (Some a) (Some (set_approved a by_ expires))
| step_claim a at_ :
    A_State a = "APPROVED" -> A_ApprovedBy a <> "" -> action_step (Some a) (Some (set_submitted a at_))
| step_receipt a outcome at_ :
    A_State a = "SUBMITTED" -> outcome ∈ outcomes ->
    action_step (Some a) (Some (set_closed a (receipt_state outcome) outcome (A_ReconciledBy a) at_))
| step_cancel a at_ :
    A_State a = "PROPOSED" \/ A_State a = "APPROVED" ->
    action_step (Some a) (Some (set_closed a "CANCELLED" (A_OutcomeCode a) (A_ReconciledBy a) at_))
| step_reconcile a by_ at_ :
    A_State a = "SUBMITTED" -> A_SubmittedAt a + 120 * Second <= at_ ->
    action_step (Some a) (Some (set_closed a "AMBIGUOUS" "AMBIGUOUS" by_ at_)).

(** The action that a database holds under a scope and identifier. *)
Definition find_row (l : list (row Tactions)) (sc : Scope) (id : string) : option ActionRow :=
  List.find (fun r : row Tactions => scope_eqb (a_scope r) sc && str_eqb (a_id r) id) l.
Definition action_row (d : DB) (sc : Scope) (id : string) : option ActionRow := find_row (d Tactions) sc id.
Definition action_view (d : DB) (sc : Scope) (id : string) : option Action :=
  a_envelope <$> action_row d sc id.

(** ** Rows agree with their envelopes *)
Definition row_ok (r : ActionRow) : Prop :=
  a_scope r = Pl_Scope (A_Plan (a_envelope r)) /\ a_id r = Pl_ID (A_Plan (a_envelope r)) /\
  a_version r = A_Version (a_envelope r) /\ a_state r = A_State (a_envelope r) /\
  A_Hash (a_envelope r) = Hash (A_Plan (a_envelope r)).

Definition rows_ok (d : DB) : Prop := forall r : row Tactions, r ∈ d Tactions -> row_ok r.

(** ** The actions table as a map *)
Definition row_key (r : ActionRow) : key := kscope (a_scope r) ++ [KS (a_id r)].

Lemma row_key_inj r r' : row_key r = row_key r' <-> a_scope r = a_scope r' /\ a_id r = a_id r'.
Proof.
  split; [|by intros [E1 E2]; unfold row_key; rewrite E1, E2].
  intros E. apply kscope_app_inj in E as [? E]. by injection E.
Qed.

Lemma find_row_in l sc id r : find_row l sc id = Some r -> r ∈ l /\ a_scope r = sc /\ a_id r = id.
Proof.
  intros E. apply find_Some_in in E as [Hin Hp]. apply andb_true_iff in Hp as [H1 H2].
  apply scope_eqb_eq in H1. by breflect.
Qed.

Lemma actions_inj (l : list (row Tactions)) r r' :
  unique_ok Tactions l = true -> r ∈ l -> r' ∈ l -> row_key r = row_key r' -> r = r'.
Proof.
  intros Hu Hr Hr' E. eapply (unique_inj Tactions _ _ r r' (row_key r')); [done|by left|done|done|..].
  - cbn. by apply row_key_inj in E as [-> ->].
  - done.
Qed.

Lemma find_row_unique (l : list (row Tactions)) r :
  unique_ok Tactions l = true -> r ∈ l -> find_row l (a_scope r) (a_id r) = Some r.
Proof.
  intros Hu Hin.
  destruct (find_is_Some (fun r' : row Tactions => scope_eqb (a_scope r') (a_scope r) && str_eqb (a_id r') (a_id r))
    l r Hin) as [r' E]; [by rewrite scope_eqb_refl, str_eqb_refl|].
  unfold find_row. rewrite E. apply find_row_in in E as (Hin' & Hs & Hi). f_equal.
  apply (actions_inj l); try done. by apply row_key_inj.
Qed.

Lemma find_row_insert (l : list (row Tactions)) (new : ActionRow) :
  unique_ok Tactions (l ++ [new]) = true ->
  find_row l (a_scope new) (a_id new) = None /\
  find_row (l ++ [new]) (a_scope new) (a_id new) = Some new /\
  forall sc id, (sc, id) <> (a_scope new, a_id new) -> find_row (l ++ [new]) sc id = find_row l sc id.
Proof.
  intros Hu. assert (Hnone : find_row l (a_scope new) (a_id new) = None).
  { destruct (find_row l _ _) as [r|] eqn:E; [|done]. exfalso. apply find_row_in in E as (Hin & Hs & Hi).
    unfold unique_ok in Hu. rewrite forallb_forall in Hu. specialize (Hu _ (or_introl eq_refl)).
    apply bool_decide_eq_true in Hu. rewrite omap_app in Hu. apply NoDup_app in Hu as (_ & Hu & _).
    apply (Hu (row_key new)); [|by left]. apply list_elem_of_omap. exists r. split; [done|].
    cbn. unfold row_key. by rewrite Hs, Hi. }
  unfold find_row in *. split; [done|]. rewrite find_app, Hnone. split.
  - simpl. by rewrite scope_eqb_refl, str_eqb_refl.
  - intros sc id Hne. clear Hnone. rewrite find_app. destruct (List.find _ l); [done|]. simpl.
    destruct (scope_eqb (a_scope new) sc && str_eqb (a_id new) id) eqn:E; [|done]. apply andb_true_iff in E as [E1 E2]. apply scope_eqb_eq in E1. breflect. by subst.
Qed.

Lemma find_row_replace (l : list (row Tactions)) (hit : row Tactions -> bool) (f : row Tactions -> row Tactions) r0 :
  unique_ok Tactions l = true -> r0 ∈ l -> hit r0 = true ->
  (forall r, hit r = true -> row_key r = row_key r0) -> (forall r, row_key (f r) = row_key r) ->
  let l' := map (fun r => if hit r then f r else r) l in
  find_row l' (a_scope r0) (a_id r0) = Some (f r0) /\
  (forall sc id, (sc, id) <> (a_scope r0, a_id r0) -> find_row l' sc id = find_row l sc id) /\
  (forall r, r ∈ l' -> r = f r0 \/ r ∈ l).
Proof.
  intros Hu Hin Hhit Hkey Hf l'.
  assert (Hp : forall sc id x, scope_eqb (a_scope (f x)) sc && str_eqb (a_id (f x)) id
                             = scope_eqb (a_scope x) sc && str_eqb (a_id x) id).
  { intros sc id x. by destruct (proj1 (row_key_inj _ _) (Hf x)) as [-> ->]. }
  assert (Hold : forall r, r ∈ l -> hit r = true -> r = r0) by (intros; apply (actions_inj l); auto).
  split; [|split].
  - unfold find_row, l'. rewrite find_update by apply Hp.
    fold (find_row l (a_scope r0) (a_id r0)). rewrite (find_row_unique l r0) by done. cbn. by rewrite Hhit.
  - intros sc id Hne. unfold find_row, l'. rewrite find_update by apply Hp.
    fold (find_row l sc id). destruct (find_row l sc id) as [r|] eqn:E; [|done]. cbn.
    destruct (hit r) eqn:Eh; [|done]. apply find_row_in in E as (Hr & <- & <-).
    rewrite (Hold r Hr Eh) in Hne. done.
  - intros r Hr. apply list_elem_of_fmap in Hr as (r1 & -> & Hr1).
    destruct (hit r1) eqn:Eh; [|by right]. left. by rewrite (Hold _ Hr1 Eh).
Qed.

Section Save.
Context `{Env}.

Lemma GetAction_ok t id w a rc w' :
  GetAction t id w = (Ok (a, rc), w') ->
  w' = next w /\ A_Hash a = Hash (A_Plan a) /\ Pl_Scope (A_Plan a) = scope t /\
  exists r : row Tactions, r ∈ db w Tactions /\ a_scope r = scope t /\ a_id r = id /\
    a_envelope r = a /\ a_receipt r = rc.
Proof.
  unfold GetAction. intros Ha. run.
  apply query_row_ok in Hm as [[l E] ->].
  apply filter_cons_in in E as [Hin Hp]. unfold action_at, in_scope in Hp.
  apply andb_true_iff in Hp as [Hs Hi]. apply scope_eqb_eq in Hs. breflect.
  unfold decode_action, of_res in Hm0. case_if_in Hm0. injection Hm0 as <- <-.
  apply andb_true_iff in E as [E1 E2]. apply scope_eqb_eq in E1. breflect.
  split; [done|]. split; [done|]. split; [done|]. exists r. done.
Qed.

(** The row that [SaveAction] leaves under the key of the plan. *)
Definition saved_row (incident : string) (a : Action) (rc : string) : ActionRow :=
  mkActionRow (Pl_Scope (A_Plan a)) (Pl_ID (A_Plan a)) incident (A_Version a) (A_State a) a rc.

Lemma SaveAction_ok t a ev rc w x w' :
  SaveAction t a ev rc w = (Ok x, w') ->
  unique_ok Tactions (db w Tactions) = true ->
  Pl_Scope (A_Plan a) = scope t /\ A_Hash a = Hash (A_Plan a) /\ A_Version a = wrap64 (ev + 1) /\
  touches [Tactions; Taction_events] (db w) (db w') /\
  db w' Taction_events = db w Taction_events ++ [mkActionEventRow (scope t) (Pl_ID (A_Plan a)) (A_Version a) a] /\
  unique_ok Taction_events (db w' Taction_events) = true /\
  unique_ok Tactions (db w' Tactions) = true /\
  exists inc,
    (forall r, r ∈ db w' Tactions -> r = saved_row inc a rc \/ r ∈ db w Tactions) /\
    action_row (db w') (scope t) (Pl_ID (A_Plan a)) = Some (saved_row inc a rc) /\
    (forall sc id, (sc, id) <> (scope t, Pl_ID (A_Plan a)) -> action_row (db w') sc id = action_row (db w) sc id) /\
    (ev = 0 -> action_row (db w) (scope t) (Pl_ID (A_Plan a)) = None) /\
    (ev <> 0 -> exists r, action_row (db w) (scope t) (Pl_ID (A_Plan a)) = Some r /\ a_version r = ev).
Proof.
  unfold SaveAction, action_row. intros Hs Hu. run.
  rewrite !andb_true_iff in Hg. destruct Hg as [[[Hsc Hid] Hh] Hv].
  apply scope_eqb_eq in Hsc. breflect.
  apply insert_ok in Hs as (Ed' & _ & Hue). rewrite Ed' in *. rewrite upd_same in *.
  rewrite (upd_other _ Taction_events _ Tactions) by done. rewrite <- Hsc in *.
  enough (exists l, db w0 = upd (db w) Tactions l /\ unique_ok Tactions l = true /\ exists inc,
    (forall r, r ∈ l -> r = saved_row inc a rc \/ r ∈ db w Tactions) /\
    find_row l (Pl_Scope (A_Plan a)) (Pl_ID (A_Plan a)) = Some (saved_row inc a rc) /\
    (forall sc id, (sc, id) <> (Pl_Scope (A_Plan a), Pl_ID (A_Plan a)) -> find_row l sc id = find_row (db w Tactions) sc id) /\
    (ev = 0 -> find_row (db w Tactions) (Pl_Scope (A_Plan a)) (Pl_ID (A_Plan a)) = None) /\
    (ev <> 0 -> exists r, find_row (db w Tactions) (Pl_Scope (A_Plan a)) (Pl_ID (A_Plan a)) = Some r /\ a_version r = ev))
    as (l & El & Hul & Hl).
  { rewrite El in *. rewrite upd_same. rewrite (upd_other _ Tactions _ Taction_events) in * by done.
    repeat (split; [done|]). split; [|done]. intros tb Htb.
    rewrite !upd_other; [done|intros <-; apply Htb; rewrite !elem_of_cons; tauto..]. }
  destruct (Z.eqb_spec ev 0) as [->|Hev].
  - apply insert_ok in Hm as (Ed & _ & Hu'). rewrite Ed, upd_same in Hu'. eexists. split; [done|]. split; [done|].
    apply find_row_insert in Hu' as (Hn & Hf & Ho). exists (Pl_IncidentID (A_Plan a)).
    split; [|done]. intros r [Hr|Hr]%elem_of_app; [by right|].
    apply list_elem_of_singleton in Hr as ->. by left.
  - run. apply update_ok in Hm0 as (En & Ed & Hu'). rewrite Ed, upd_same in Hu'. eexists. split; [done|]. split; [done|].
    apply Z.eqb_eq in Hg. subst r. apply filter_one in Hg as [r0 E0].
    apply find_Some_in in E0 as [Hin0 Hhit0].
    assert (Hk : forall r, action_at t (Pl_ID (A_Plan a)) r && (a_version r =? ev) = true ->
      a_scope r = Pl_Scope (A_Plan a) /\ a_id r = Pl_ID (A_Plan a) /\ a_version r = ev).
    { intros r. unfold action_at, in_scope. rewrite !andb_true_iff, scope_eqb_eq, str_eqb_eq, Z.eqb_eq, Hsc. tauto. }
    destruct (Hk _ Hhit0) as (Hs0 & Hi0 & Hv0). exists (a_incident r0).
    edestruct (find_row_replace (db w Tactions)
      (fun r => action_at t (Pl_ID (A_Plan a)) r && (a_version r =? ev))
      (fun r => mkActionRow (a_scope r) (a_id r) (a_incident r) (A_Version a) (A_State a) a rc) r0)
      as (Hf & Ho & Hr); [done|done|done| |done|].
    { intros r Hr. apply row_key_inj. destruct (Hk _ Hr) as (-> & -> & _). done. }
    cbv beta in *. rewrite Hs0, Hi0 in *. split; [done|]. split; [done|]. split; [done|]. split; [done|].
    intros _. exists r0. rewrite <- Hs0, <- Hi0. split; [|done]. by apply find_row_unique.
Qed.
End Save.

(** ** The event log *)

(** The envelopes recorded for an action, oldest first. *)
Definition log (d : DB) (sc : Scope) (id : string) : list Action :=
  map ae_envelope (List.filter (fun e : row Taction_events => scope_eqb (ae_scope e) sc && str_eqb (ae_action e) id)
    (d Taction_events)).

(** A log is a path of the abstract machine that ends in the stored action. *)
Inductive path : list Action -> option Action -> Prop :=
| path_nil : path [] None
| path_snoc l x a : path l x -> action_step x (Some a) -> path (l ++ [a]) (Some a).

(** The databases that the handlers of pkg/execution maintain. *)
Record exec_inv (d : DB) : Prop := {
  inv_unique : unique_ok Tactions (d Tactions) = true;
  inv_rows : rows_ok d;
  inv_path : forall sc id, path (log d sc id) (action_view d sc id)
}.

(** One action made one abstract step, which was logged; no other action
    changed. *)
Record moves (d d' : DB) (sc : Scope) (id : string) (a : Action) : Prop := {
  mv_step : action_step (action_view d sc id) (Some a);
  mv_log : log d' sc id = log d sc id ++ [a];
  mv_view : action_view d' sc id = Some a;
  mv_other : forall sc' id', (sc', id') <> (sc, id) ->
    log d' sc' id' = log d sc' id' /\ action_view d' sc' id' = action_view d sc' id';
  mv_plan : Pl_Scope (A_Plan a) = sc /\ Pl_ID (A_Plan a) = id /\ A_Hash a = Hash (A_Plan a);
  mv_unique : unique_ok Tactions (d' Tactions) = true;
  mv_rows : rows_ok d'
}.

Lemma exec_inv_same d d' :
  d' Tactions = d Tactions -> d' Taction_events = d Taction_events -> exec_inv d -> exec_inv d'.
Proof.
  intros E1 E2 [Hu Hr Hp]. constructor.
  - by rewrite E1.
  - intros r Hin. rewrite E1 in Hin. by apply Hr.
  - intros sc id. specialize (Hp sc id). unfold log, action_view, action_row in *. by rewrite E1, E2.
Qed.

Lemma exec_inv_moves d d' sc id a : exec_inv d -> moves d d' sc id a -> exec_inv d'.
Proof.
  intros [Hu Hr Hp] [Hstep Hlog Hview Hother Hplan Hu' Hr']. constructor; [done..|].
  intros sc' id'. destruct (decide ((sc', id') = (sc, id))) as [[= -> ->]|Hne].
  - rewrite Hlog, Hview. by econstructor.
  - destruct (Hother _ _ Hne) as [-> ->]. apply Hp.
Qed.

Section Moves.
Context `{Env}.

Lemma enqueue_touches t a w r w' : enqueue t a w = (r, w') -> touches [Toutbox] (db w) (db w').
Proof. revert w r w'. change (Steps (touches [Toutbox]) (enqueue t a)).
  unfold enqueue, Enqueue, EnqueueOnce, NewID. steps. Qed.

(** Saving an action under a legal transition is one move of the machine. *)
Lemma SaveAction_moves t a ev rc w x w' :
  SaveAction t a ev rc w = (Ok x, w') -> exec_inv (db w) ->
  action_step (action_view (db w) (scope t) (Pl_ID (A_Plan a))) (Some a) ->
  moves (db w) (db w') (scope t) (Pl_ID (A_Plan a)) a.
Proof.
  intros Hs [Hu Hr Hp] Hstep.
  apply SaveAction_ok in Hs as (Hsc & Hh & Hv & Ht & Hev & _ & Hu' & inc & Hin & Hrow & Hother & _); [|done].
  constructor; try done.
  - unfold log. rewrite Hev, List.filter_app, map_app. simpl. by rewrite scope_eqb_refl, str_eqb_refl.
  - unfold action_view. by rewrite Hrow.
  - intros sc' id' Hne. unfold log. rewrite Hev, List.filter_app, map_app. split.
    + simpl. destruct (scope_eqb (scope t) sc' && str_eqb (Pl_ID (A_Plan a)) id') eqn:E; [|by rewrite app_nil_r].
      apply andb_true_iff in E as [E1 E2]. apply scope_eqb_eq in E1. breflect. by subst.
    + unfold action_view. by rewrite Hother.
  - intros r Hr'. destruct (Hin _ Hr') as [->|Hold]; [|by apply Hr]. done.
Qed.

Lemma moves_after d d' d'' sc id a : moves d d' sc id a -> touches [Toutbox] d' d'' -> moves d d'' sc id a.
Proof.
  intros [H1 H2 H3 H4 H5 H6 H7] Ht.
  assert (E1 : d'' Tactions = d' Tactions) by (apply Ht; rewrite elem_of_cons, elem_of_nil; by intros [?|?]).
  assert (E2 : d'' Taction_events = d' Taction_events) by (apply Ht; rewrite elem_of_cons, elem_of_nil; by intros [?|?]).
  constructor; try done.
  - rewrite <- H2. unfold log. by rewrite E2.
  - rewrite <- H3. unfold action_view, action_row. by rewrite E1.
  - intros sc' id' Hne. destruct (H4 _ _ Hne) as [<- <-]. unfold log, action_view, action_row. by rewrite E1, E2.
  - by rewrite E1.
  - intros r Hr. rewrite E1 in Hr. by apply H7.
Qed.

(** The stored action behind a successful [GetAction]. *)
Lemma GetAction_view t id w a rc w' :
  GetAction t id w = (Ok (a, rc), w') -> exec_inv (db w) ->
  w' = next w /\ action_view (db w) (scope t) id = Some a /\ Pl_ID (A_Plan a) = id /\
  action_row (db w) (scope t) id = Some (mkActionRow (scope t) id
    (default "" (a_incident <$> action_row (db w) (scope t) id)) (A_Version a) (A_State a) a rc).
Proof.
  intros Hg [Hu Hr _]. apply GetAction_ok in Hg as (-> & _ & _ & r & Hin & Hs & Hi & <- & <-).
  assert (E : action_row (db w) (scope t) id = Some r).
  { rewrite <- Hs, <- Hi. by apply find_row_unique. }
  destruct (Hr _ Hin) as (R1 & R2 & R3 & R4 & _).
  unfold action_view. rewrite E. cbn. split; [done|]. split; [done|]. split; [congruence|].
  destruct r; cbn in *. by subst.
Qed.

Lemma save_moves t id a a' rc w x w' :
  save t a' rc w = (Ok x, w') -> exec_inv (db w) -> Pl_ID (A_Plan a') = id ->
  action_view (db w) (scope t) id = Some a -> action_step (Some a) (Some a') ->
  moves (db w) (db w') (scope t) id a'.
Proof.
  unfold save. intros Hs Hinv <- Hv Hstep. run. eapply moves_after; [|by eapply enqueue_touches].
  eapply SaveAction_moves; [done|done|]. by rewrite Hv.
Qed.

(** Reading leaves the database alone. *)
Lemma current_pure f t a w r w' : current f t a w = (r, w') -> db w' = db w.
Proof.
  assert (Steps eq (current f t a)) as Hs; [|intros Hc; symmetry; by eapply Hs].
  unfold current, Eligible, CurrentItem, AgentByID. steps.
Qed.
Lemma NewID_pure w r w' : NewID w = (r, w') -> db w' = db w.
Proof. unfold NewID, rand_read. cbn. by intros [= _ <-]. Qed.
End Moves.

(** ** What [current] checks *)
Definition executor_row_ok (d : DB) (sc : Scope) (p : ActionPlan) (now : Time) : Prop :=
  exists g : row Tagents, g ∈ d Tagents /\ g_scope g = sc /\ g_id g = Pl_ExecutorID p /\
    g_role g = Executor /\ g_revoked g = false /\ g_epoch g = Pl_Epoch p /\
    g_generation g = Pl_ExecutorGeneration p /\ now < g_expires g.

(** The plan rests on evidence that is eligible and unchanged, names the
    executor as it is enrolled now, and was made under this policy and epoch;
    the clock is read by effects [lo] to [hi]. *)
Record plan_current `{Env} (f : Service) (t : Tx) (d : DB) (lo hi : nat) (a : Action) : Prop := {
  pc_hash : A_Hash a = Hash (A_Plan a);
  pc_epoch : Pl_Epoch (A_Plan a) = Epoch f;
  pc_policy : Pl_PolicyVersion (A_Plan a) = version (Policy_ f);
  pc_unexpired : exists k, (lo <= k < hi)%nat /\ go_now k < Pl_ExpiresAt (A_Plan a);
  pc_evidence : exists k, (lo <= k < hi)%nat /\ all_of (lineage t d (Pl_Evidence (A_Plan a))) (node_eligible t d (pgTime (go_now k))) = inr true;
  pc_item : exists r : row Titems, r ∈ d Titems /\ i_scope r = scope t /\
    R_ID (i_ref r) = R_ID (Pl_Evidence (A_Plan a)) /\
    I_Version (i_envelope r) = R_Version (Pl_Evidence (A_Plan a)) /\ I_Hash (i_envelope r) = Pl_EvidenceHash (A_Plan a);
  pc_executor : exists k, (lo <= k < hi)%nat /\ executor_row_ok d (scope t) (A_Plan a) (go_now k)
}.

Section Current.
Context `{Env}.

Lemma plan_current_widen f t d lo hi lo' hi' a :
  plan_current f t d lo hi a -> (lo' <= lo)%nat -> (hi <= hi')%nat -> plan_current f t d lo' hi' a.
Proof.
  intros [? ? ? (k1 & ? & ?) (k2 & ? & ?) ? (k3 & ? & ?)] Hl Hh. constructor; try done.
  - exists k1. split; [lia|done].
  - exists k2. split; [lia|done].
  - exists k3. split; [lia|done].
Qed.

Lemma Eligible_ok t r at_ w b w' :
  Eligible t r at_ w = (Ok b, w') ->
  w' = next w /\ all_of (lineage t (db w) r) (node_eligible t (db w) (pgTime at_)) = inr b.
Proof. unfold Eligible. intros He. run. by apply query_ok in He as [Hq ->]. Qed.

Lemma decodeItem_ok raw i : decodeItem raw = Ok i -> Seal raw = Ok i /\ I_Hash raw = I_Hash i.
Proof.
  unfold decodeItem. destruct (Seal raw) as [s|]; [|done]. intros Hd. case_if_in Hd. injection Hd as ->.
  by breflect.
Qed.

Lemma CurrentItem_ok t i w x w' :
  CurrentItem t i w = (Ok x, w') ->
  w' = next w /\ exists r : row Titems, r ∈ db w Titems /\ i_scope r = scope t /\ R_ID (i_ref r) = i /\
    Seal (i_envelope r) = Ok x /\ I_Hash (i_envelope r) = I_Hash x.
Proof.
  unfold CurrentItem. intros Hc. run. apply query_row_ok in Hm as [[l E] ->].
  unfold of_res in Hc. injection Hc as Hc <-. split; [done|].
  assert (Hin : r ∈ r :: l) by left. rewrite <- E in Hin.
  apply list_elem_of_fmap in Hin as (y & -> & Hy). rewrite isort_elem in Hy.
  apply list_elem_of_In, filter_In in Hy as [Hy Hp]. apply list_elem_of_In in Hy.
  unfold in_scope, scope_eqb in Hp. breflect. exists y.
  by apply decodeItem_ok in Hc as [? ?].
Qed.

Lemma current_ok f t a w x w' :
  current f t a w = (Ok x, w') -> plan_current f t (db w) (tick w) (tick w') a /\ tick w' = (tick w + 6)%nat.
Proof.
  unfold current. intros Hc. run.
  apply time_now_ok in Hm as [-> ->], Hm0 as [-> ->]. apply Eligible_ok in Hm1 as [-> He].
  apply CurrentItem_ok in Hm2 as (-> & r & Hr & Hs & Hi & Hseal & Hh).
  apply AgentByID_ok in Hm3 as (-> & g & Hgin & Hgs & Hgi & ->). apply time_now_ok in Hm4 as [-> ->].
  apply Seal_fields in Hseal as (_ & _ & _ & Hv & _). unfold After in *. breflect. subst.
  unfold agent_of in *. cbn [G_Role G_Revoked G_Epoch G_Generation G_ExpiresAt tick next] in *.
  split; [|cbn; lia]. constructor; try done.
  - eexists. split; [|done]. cbn. lia.
  - eexists. split; [|done]. cbn. lia.
  - exists r. repeat (split; [done|]). split; congruence.
  - eexists. split; [|exists g; repeat split; done]. cbn. lia.
Qed.
End Current.

(** ** The handlers refine the machine *)

(** Both tables of actions are as they were. *)
Definition still (d d' : DB) : Prop := d' Tactions = d Tactions /\ d' Taction_events = d Taction_events.

Section Handlers.
Context `{Env}.

Lemma view_db w w' sc id : db w' = db w -> action_view (db w') sc id = action_view (db w) sc id.
Proof. by intros ->. Qed.

Lemma NewID_later : Later NewID.
Proof. unfold NewID. later. Qed.
Lemma save_later t a rc : Later (save t a rc).
Proof. unfold save, SaveAction, enqueue, Enqueue, EnqueueOnce, NewID. later. Qed.

Lemma ApproveTx_ok f p id hash t w a' w' :
  ApproveTx f p id hash t w = (Ok a', w') -> exec_inv (db w) -> P_ID p <> "" ->
  exists a, action_view (db w) (scope t) id = Some a /\ A_State a = "PROPOSED" /\ hash = A_Hash a /\
    a' = set_approved a (P_ID p) (P_ExpiresAt p) /\ plan_current f t (db w) (tick w) (tick w') a /\
    moves (db w) (db w') (scope t) id a'.
Proof.
  unfold ApproveTx. intros Ha Hinv Hp. run. destruct r as [a rc]. run.
  apply GetAction_view in Hm as (-> & Hv & Hid & _); [|done].
  apply andb_true_iff in Hg as [Hst Hh]. unfold constant_time_eq in Hh. breflect.
  apply current_pure in Hm0 as Hc. apply current_ok in Hm0 as [Hcur Hk]. exists a. do 4 (split; [done|]).
  match goal with Hs : save _ _ _ _ = _ |- _ => pose proof (save_later _ _ _ _ _ _ Hs) as Hl end. cbn in Hl, Hk.
  split; [eapply plan_current_widen; [exact Hcur|cbn; lia|cbn; lia]|].
  change (db w) with (db (next w)). rewrite <- Hc.
  eapply save_moves; [done|by rewrite Hc|done|by rewrite Hc|by constructor].
Qed.

Lemma ClaimTx_ok f token id t w c w' :
  ClaimTx f token id t w = (Ok c, w') -> exec_inv (db w) ->
  exists a agent, action_view (db w) (scope t) id = Some a /\ A_State a = "APPROVED" /\ A_ApprovedBy a <> "" /\
    Pl_ExecutorID (A_Plan a) = G_ID agent /\ Pl_ExecutorGeneration (A_Plan a) = G_Generation agent /\
    (exists w1, AuthenticateTx f t token Executor w = (Ok agent, w1)) /\
    (exists k, (tick w <= k < tick w')%nat /\ go_now k < A_ApprovalExpiresAt a) /\
    plan_current f t (db w) (tick w) (tick w') a /\
    (exists at_, CL_Action c = set_submitted a at_) /\
    moves (db w) (db w') (scope t) id (CL_Action c).
Proof.
  unfold ClaimTx. intros Hcl Hinv. run. destruct r0 as [a rc]. run.
  pose proof (AuthenticateTx_ok _ _ _ _ _ _ _ Hm) as [Ea (_ & _ & _ & _ & _ & _ & _ & _ & _ & _ & k & Hk & _)].
  apply GetAction_view in Hm0 as (-> & Hv & Hid & _); [|by rewrite Ea]. rewrite Ea in Hv.
  apply time_now_ok in Hm1 as [-> ->].
  rewrite !andb_true_iff, negb_true_iff in Hg. destruct Hg as [[[[Hst Hby] Hexp] Hex] Hgen].
  unfold After in Hexp. breflect.
  apply current_pure in Hm2 as Hc. apply current_ok in Hm2 as [Hcur Hk2]. cbn in Hcur, Hk2. rewrite Ea in Hcur.
  apply time_now_ok in Hm3 as [-> ->].
  pose proof (NewID_later _ _ _ Hm4) as L4. pose proof (NewID_later _ _ _ Hm5) as L5. apply NewID_pure in Hm4, Hm5.
  match goal with Hs : save _ _ _ ?ws = _ |- _ =>
    assert (Edb : db ws = db w) by (rewrite Hm5, Hm4; cbn; by rewrite Hc); pose proof (save_later _ _ _ _ _ _ Hs) as Hl end.
  cbn in L4, L5, Hl. exists a, r. do 5 (split; [done|]). split; [by eexists|].
  split; [eexists; split; [|exact Hexp]; cbn; lia|].
  split; [eapply plan_current_widen; [exact Hcur|cbn; lia|cbn; lia]|]. split; [by eexists|].
  rewrite <- Edb. eapply save_moves; [done|by rewrite Edb|done|by rewrite Edb|by constructor].
Qed.

Lemma ReceiptTx_ok f token id receipt outcome t w a' w' :
  ReceiptTx f token id receipt outcome t w = (Ok a', w') -> exec_inv (db w) -> outcome ∈ outcomes ->
  exists a agent, action_view (db w) (scope t) id = Some a /\
    Pl_ExecutorID (A_Plan a) = G_ID agent /\ Pl_ExecutorGeneration (A_Plan a) = G_Generation agent /\
    (exists w1, AuthenticateTx f t token Executor w = (Ok agent, w1)) /\
    ((A_State a <> "SUBMITTED" /\ a' = a /\ db w' = db w /\
      (A_OutcomeCode a = outcome \/ (A_State a = "AMBIGUOUS" /\ A_ReconciledBy a <> ""))) \/
     (A_State a = "SUBMITTED" /\ A_State a' = receipt_state outcome /\ moves (db w) (db w') (scope t) id a')).
Proof.
  unfold ReceiptTx. intros Hr Hinv Ho. run. destruct r0 as [a stored]. run.
  pose proof (AuthenticateTx_ok _ _ _ _ _ _ _ Hm) as [Ea _].
  apply GetAction_view in Hm0 as (-> & Hv & Hid & _); [|by rewrite Ea]. rewrite Ea in Hv.
  rewrite !andb_true_iff in Hg. destruct Hg as [[[Hex Hgen] Hlen] Hrc]. breflect.
  exists a, r. do 3 (split; [done|]). split; [by eexists|].
  destruct (str_eqb (A_State a) "SUBMITTED") eqn:Est; cbn [negb] in Hr; breflect.
  - right. run. apply time_now_ok in Hm0 as [-> ->]. do 2 (split; [done|]).
    rewrite <- Ea. change (db w0) with (db (next (next w0))).
    eapply save_moves; [done|by cbn; rewrite Ea|done|cbn; by rewrite Ea|by constructor].
  - left. case_if_in Hr. run. split; [done|]. split; [done|]. split; [by cbn|].
    apply orb_true_iff in E as [E|E]; breflect; [by left|]. right. breflect. done.
Qed.

Lemma CancelTx_ok id t w a' w' :
  CancelTx id t w = (Ok a', w') -> exec_inv (db w) -> moves (db w) (db w') (scope t) id a'.
Proof.
  unfold CancelTx. intros Hc Hinv. run. destruct r as [a rc]. run.
  apply GetAction_view in Hm as (-> & Hv & Hid & _); [|done].
  apply time_now_ok in Hm0 as [-> ->].
  change (db w) with (db (next (next w))).
  eapply save_moves; [done|done|done|done|]. constructor. breflect. destruct Hg; breflect; auto.
Qed.

Lemma ReconcileTx_ok p id hash t w a' w' :
  ReconcileTx p id hash t w = (Ok a', w') -> exec_inv (db w) ->
  A_State a' = "AMBIGUOUS" /\ moves (db w) (db w') (scope t) id a'.
Proof.
  unfold ReconcileTx. intros Hc Hinv. run. destruct r as [a rc]. run.
  apply GetAction_view in Hm as (-> & Hv & Hid & _); [|done].
  apply time_now_ok in Hm0 as [-> ->]. split; [done|].
  rewrite !andb_true_iff, !negb_true_iff in Hg. destruct Hg as [[[Hst Hz] Haf] Hh].
  unfold After, Add in Haf. breflect.
  change (db w) with (db (next (next w))).
  eapply save_moves; [done|done|done|done|]. by constructor.
Qed.

Lemma earliest_le first l : earliest first l <= first.
Proof.
  unfold earliest. revert first. induction l as [|x l IH]; intros first; [done|]. cbn [fold_left].
  etrans; [apply IH|]. unfold Before. destruct (Z.ltb_spec x first); lia.
Qed.

Lemma propose_action_ok f p sc r t w a w' :
  propose_action f p sc r t w = (Ok a, w') ->
  db w' = db w /\ A_State a = "PROPOSED" /\ A_Version a = 1 /\ A_Hash a = Hash (A_Plan a) /\ A_ApprovedBy a = "" /\
  A_ProposedBy a = P_ID p /\ Pl_Kind (A_Plan a) = PR_Kind r /\ Pl_Evidence (A_Plan a) = PR_Evidence r /\
  Pl_Epoch (A_Plan a) = Epoch f /\ Pl_PolicyVersion (A_Plan a) = version (Policy_ f) /\
  exists k, Pl_ExpiresAt (A_Plan a) <= go_now k + 5 * Minute.
Proof.
  intros Hp. assert (Steps eq (propose_action f p sc r t)) as Hs.
  { unfold propose_action, GetItem, Eligible, CurrentItem, AgentByID, check_item_scope, NewID. steps. }
  split; [symmetry; by eapply Hs|]. clear Hs. unfold propose_action in Hp. run.
  destruct (decode_observation _) as [o|]; [|discriminate].
  destruct (replaceable o) as [[tg src]|]; [|discriminate]. run. do 9 (split; [done|]).
  cbn [A_Plan Pl_ExpiresAt].
  apply time_now_ok in Hm6 as [-> _]. exists (tick w6).
  exact (earliest_le (Add (go_now (tick w6)) (5 * Minute))
           [I_ValidUntil r0; O_ValidUntil o; G_ExpiresAt r5; G_ExpiresAt r4]).
Qed.

Lemma ProposeTx_ok f p sc r t w a w' :
  ProposeTx f p sc r t w = (Ok a, w') -> exec_inv (db w) ->
  moves (db w) (db w') (scope t) (Pl_ID (A_Plan a)) a.
Proof.
  unfold ProposeTx. intros Hp Hinv. run.
  apply propose_action_ok in Hm as (E & H1 & H2 & H3 & H4 & _). rewrite <- E in *.
  eapply moves_after; [|by eapply enqueue_touches].
  eapply SaveAction_moves; [done|done|]. pose proof (SaveAction_ok _ _ _ _ _ _ _ Hm0 (inv_unique _ Hinv)) as Hs.
  destruct Hs as (_ & _ & _ & _ & _ & _ & _ & inc & _ & _ & _ & Hnone & _).
  unfold action_view. rewrite Hnone by done. by constructor.
Qed.
End Handlers.
