(* ===== verification/ExecutionSafety.v ===== *)
(** * Guarantees of the approval protocol

    The requests of pkg/execution as one labelled system, the refinement of the
    action machine by every request (failed statements, rolled-back
    transactions and lost commit acknowledgements included), and what holds in
    every reachable database. *)

From stdpp Require Import relations.
From S2P Require Import Prelude.
From S2P Require Import Sha256.
From S2P Require Import Json.
From S2P Require Import JsonFacts.
From S2P Require Import GoTime.
From S2P Require Import Decode.
From S2P Require Import Identity.
From S2P Require Import Authorization.
From S2P Require Import Incident.
From S2P Require Import Db.
From S2P Require Import Sql.
From S2P Require Import Storage.
From S2P Require Import Records.
From S2P Require Import Privacy.
From S2P Require Import Fleet.
From S2P Require Import Execution.
From S2P Require Import ExecutionFacts.

Inductive exec_op :=
| OpPropose (p : Principal) (r : ProposeRequest)
| OpApprove (p : Principal) (id hash : string)
| OpClaim (token id : string)
| OpReceipt (token id receipt outcome : string)
| OpCancel (p : Principal) (id : string)
| OpReconcile (p : Principal) (id hash : string).

Definition run_op `{Env} (s : option ExecService) (sc : Scope) (op : exec_op) : M unit :=
  match op with
  | OpPropose p r => Propose s p sc r ;; ret tt
  | OpApprove p id hash => Approve s p sc id hash ;; ret tt
  | OpClaim token id => Claim s sc token id ;; ret tt
  | OpReceipt token id receipt outcome => Receipt s sc token id receipt outcome ;; ret tt
  | OpCancel p id => Cancel s p sc id ;; ret tt
  | OpReconcile p id hash => Reconcile s p sc id hash ;; ret tt
  end.

Lemma still_refl d : still d d.
Proof. done. Qed.

Lemma principal_id_nonempty p now : Principal_Valid p now = true -> P_ID p <> "".
Proof. rewrite Principal_Valid_spec. intros [Hid _]. by apply ValidID_nonempty. Qed.

Section Refinement.
Context `{Env}.

(** What a transaction of pkg/execution does to the database. *)
Definition refines {A} (sc : Scope) (m : M A) : Prop :=
  forall w r w', m w = (r, w') -> exec_inv (db w) ->
    still (db w) (db w') \/ exists id a, moves (db w) (db w') sc id a.

Lemma refines_bind_pure {A B} sc (m : M A) (f : A -> M B) :
  Steps eq m -> (forall w a w', m w = (Ok a, w') -> refines sc (f a)) -> refines sc (bind m f).
Proof.
  intros Hm Hf w r w'. unfold bind. destruct (m w) as [[a|e] w1] eqn:E; intros Hr Hinv.
  - apply Hm in E as Ed. rewrite Ed in *. by eapply Hf.
  - injection Hr as _ <-. apply Hm in E as <-. by left.
Qed.

Lemma refines_ret {A} sc (m : M A) : refines sc m -> refines sc (m ;; ret tt).
Proof.
  intros Hm w r w'. unfold bind. destruct (m w) as [[a|e] w1] eqn:E; intros [= _ <-] Hinv; by eapply Hm.
Qed.

Lemma refines_throw {A} sc e : refines sc (@throw A e).
Proof. intros w r w' [= _ <-] _. by left. Qed.

Lemma refines_tx {A} f sc (fn : Tx -> M A) :
  (forall t w a w', scope t = sc -> fn t w = (Ok a, w') -> exec_inv (db w) ->
     still (db w) (db w') \/ exists id x, moves (db w) (db w') sc id x) ->
  refines sc (tx_of f sc fn).
Proof.
  intros Hf w r w' Ht Hinv. apply Transact_atomic in Ht as [->|(_ & a & w0 & w1 & E & Hr & -> & _)]; [by left|].
  rewrite <- E in *. refine (Hf _ _ _ _ _ Hr _); done.
Qed.

Lemma authorize_pure p principal sc perm : Steps eq (authorize p principal sc perm).
Proof. unfold authorize. steps. Qed.
Lemma authorize_principal p principal sc perm w x w' :
  authorize p principal sc perm w = (Ok x, w') -> P_ID principal <> "".
Proof.
  intros [Ha _]%authorize_ok. apply Authorize_spec in Ha as (_ & Hv & _). by eapply principal_id_nonempty.
Qed.
Lemma guard_pure b e : Steps eq (guard b e).
Proof. steps. Qed.

Lemma run_op_refines s sc op : refines sc (run_op s sc op).
Proof.
  destruct op; apply refines_ret; unfold Propose, Approve, Claim, Receipt, Cancel, Reconcile;
    (destruct (available s) as [f|]; [|apply refines_throw]);
    repeat (lazymatch goal with |- refines _ (bind _ _) =>
      apply refines_bind_pure; [apply authorize_pure || apply guard_pure|intros ? [] ? ?] end);
    apply refines_tx; intros t wt a wt' <- Ht Hinv.
  - right. eexists _, _. by eapply ProposeTx_ok.
  - right. apply ApproveTx_ok in Ht as (a0 & _ & _ & _ & _ & _ & Hmv); [eauto|done|].
    by eapply authorize_principal.
  - right. apply ClaimTx_ok in Ht as (? & ? & _ & _ & _ & _ & _ & _ & _ & _ & _ & Hmv); eauto.
  - apply ReceiptTx_ok in Ht as (? & ? & _ & _ & _ & _ & [(_ & _ & -> & _)|(_ & _ & Hmv)]);
      [by left|right; eauto|done|].
    match goal with Hg : guard _ _ _ = _ |- _ => apply guard_ok in Hg as [Hg _]; unfold mem_str in Hg; by breflect end.
  - right. eexists _, _. by eapply CancelTx_ok.
  - right. apply ReconcileTx_ok in Ht as [_ Hmv]; eauto.
Qed.
End Refinement.

(** ** Reachable databases

    A step is any request under any environment, service configuration and
    scope, or any change that leaves the two tables of actions alone, as every
    other component does. *)
Inductive sys_step (d d' : DB) : Prop :=
| sys_exec (E : Env) (s : option ExecService) (sc : Scope) (op : exec_op) (k : nat) (r : res unit) (w' : World) :
    run_op s sc op (mkWorld d k) = (r, w') -> d' = db w' -> sys_step d d'
| sys_other : still d d' -> sys_step d d'.

Lemma sys_step_cases d d' :
  exec_inv d -> sys_step d d' -> still d d' \/ exists sc id a, moves d d' sc id a.
Proof.
  intros Hinv [E s sc op k r w' Hr ->|Hs]; [|by left].
  destruct (run_op_refines s sc op _ _ _ Hr Hinv) as [?|(id & a & Hm)]; [by left|]. right. eauto.
Qed.

Lemma exec_inv_step d d' : exec_inv d -> sys_step d d' -> exec_inv d'.
Proof.
  intros Hinv Hs. destruct (sys_step_cases _ _ Hinv Hs) as [[E1 E2]|(sc & id & a & Hm)].
  - by eapply exec_inv_same.
  - by eapply exec_inv_moves.
Qed.

Lemma exec_inv_steps d d' : exec_inv d -> rtc sys_step d d' -> exec_inv d'.
Proof. intros Hinv Hs. induction Hs; [done|]. by eauto using exec_inv_step. Qed.

Lemma exec_inv_empty d : d Tactions = [] -> d Taction_events = [] -> exec_inv d.
Proof.
  intros E1 E2. constructor.
  - by rewrite E1.
  - intros r Hr. rewrite E1 in Hr. by apply elem_of_nil in Hr.
  - intros sc id. unfold log, action_view, action_row, find_row. rewrite E1, E2. constructor.
Qed.

(** ** Paths of the abstract machine *)
Definition closed_states : list string := ["APPLIED"; "FAILED"; "AMBIGUOUS"; "CANCELLED"].

(** Where in its life an action is, and what it must then carry. *)
Definition stage (a : Action) (n : Z) : Prop :=
  (A_State a = "PROPOSED" /\ n = 1) \/
  (A_State a = "APPROVED" /\ n = 2 /\ A_ApprovedBy a <> "") \/
  (A_State a = "SUBMITTED" /\ n = 3 /\ A_ApprovedBy a <> "") \/
  (A_State a ∈ ["APPLIED"; "FAILED"; "AMBIGUOUS"] /\ n = 4 /\ A_ApprovedBy a <> "") \/
  (A_State a = "CANCELLED" /\ 2 <= n <= 3).

(** Decide membership of a literal in a literal list. *)
Ltac listed H := apply (bool_decide_eq_true_2 _) in H; vm_compute in H; discriminate H.

Lemma receipt_state_cases o : receipt_state o ∈ ["APPLIED"; "FAILED"; "AMBIGUOUS"].
Proof. unfold receipt_state. case_if as E; [|by rewrite !elem_of_cons; auto].
  breflect. rewrite !elem_of_cons. destruct E; breflect; subst; auto. Qed.

Lemma path_stage l x : path l x ->
  match x with
  | None => l = []
  | Some a => A_Version a = Z.of_nat (length l) /\ stage a (A_Version a) /\
              A_Hash a = Hash (A_Plan a) /\ Forall (fun b => A_Plan b = A_Plan a /\ A_Hash b = A_Hash a) l
  end.
Proof.
  induction 1 as [|l x a Hp IH Hs]; [done|]. rewrite length_app, Nat2Z.inj_add. cbn [length].
  inversion Hs as [a' S1 S2 S3 S4|a' b e S1 S2|a' t S1 S2|a' o t S1 S2|a' t S1|a' b t S1 S2]; subst.
  1: { cbn in IH. subst l. rewrite S2. split; [done|]. split; [by left|]. split; [done|]. by constructor. }
  all: destruct IH as (Hv & Hst & Hh & Hall);
    assert (Hw : wrap64 (A_Version a' + 1) = Z.of_nat (length l) + 1)
      by (rewrite wrap64_id, Hv; [done|]; unfold int64_ok;
          destruct Hst as [[_ ->]|[(_ & -> & _)|[(_ & -> & _)|[(_ & -> & _)|(_ & ?)]]]]; lia);
    cbn; rewrite Hw; (split; [lia|]); (split; [|split; [done|apply Forall_app; split; [done|by constructor]]]);
    unfold stage in *; cbn; rewrite <- Hv in *.
  - right; left. destruct Hst as [[_ ->]|[(? & _)|[(? & _)|[(Hin & _)|(? & _)]]]]; [done|congruence..| |congruence].
    by rewrite S1 in Hin; listed Hin.
  - do 2 right; left. destruct Hst as [[? _]|[(_ & -> & _)|[(? & _)|[(Hin & _)|(? & _)]]]]; [congruence|done|congruence| |congruence].
    by rewrite S1 in Hin; listed Hin.
  - do 3 right; left. destruct Hst as [[? _]|[(? & _)|[(_ & -> & ?)|[(Hin & _)|(? & _)]]]]; [congruence|congruence| | |congruence].
    + split; [apply receipt_state_cases|done].
    + by rewrite S1 in Hin; listed Hin.
  - do 4 right. split; [done|].
    destruct Hst as [[_ ->]|[(_ & -> & _)|[(? & _)|[(Hin & _)|(? & _)]]]]; [lia|lia|destruct S1; congruence| |destruct S1; congruence].
    destruct S1 as [S1|S1]; by rewrite S1 in Hin; listed Hin.
  - do 3 right; left. destruct Hst as [[? _]|[(? & _)|[(_ & -> & ?)|[(Hin & _)|(? & _)]]]]; [congruence|congruence| | |congruence].
    + split; [by rewrite !elem_of_cons; auto|done].
    + by rewrite S1 in Hin; listed Hin.
Qed.
