(* ===== verification/System.v ===== *)
(** * The whole system as one labelled transition system

    Every request of the modelled services, and every transaction that runs any
    sequence of the other storage methods (which is what the HTTP handlers, the
    collector intake and the background loops do), under any environment.  Facts
    about all reachable databases are proved here once per relation. *)

From stdpp Require Import relations.
From S2P Require Import Prelude.
From S2P Require Import Sha256.
From S2P Require Import Md5.
From S2P Require Import Json.
From S2P Require Import JsonFacts.
From S2P Require Import GoTime.
From S2P Require Import Decode.
From S2P Require Import Identity.
From S2P Require Import Authorization.
From S2P Require Import Incident.
From S2P Require Import Db.
From S2P Require Import Sql.
From S2P Require Import Storage.
From S2P Require Import Records.
From S2P Require Import Queues.
From S2P Require Import Privacy.
From S2P Require Import Fleet.
From S2P Require Import Recovery.
From S2P Require Import Governance.
From S2P Require Import Investigation.
From S2P Require Import Knowledge.
From S2P Require Import Snapshot.
From S2P Require Import Rounds.
From S2P Require Import Diagnosis.
From S2P Require Import Execution.
From S2P Require Import ExecutionFacts.
From S2P Require Import ExecutionSafety.

(** A storage method that is called outside pkg/execution and pkg/fleet. *)
Inductive tx_op :=
| TCreateIncident (i : Incident) | TUpdateIncident (id : string) (v : Z) (state : string)
| TPutItem (i : Item) | TQuarantine (r : ItemRef) | TEnqueueOnce (key kind payload : string)
| TStartRun (id inc prof pv prompt rubric : string) (at_ : Time)
| TFinishRun (id status reason : string) (r : option ItemRef) | TInterruptRuns | TQueueRun (id : string)
| TPutHealthSample (s : HealthSample) | TPutRecoveryProfile (p : RecoveryProfile)
| TPutRecoveryAssessment (a : RecoveryAssessment) | TPutGoldenCase (g : GoldenCase)
| TAddFeedback (e : FeedbackEvent) | TPutAdjudication (a : Adjudication) | TPutEnvironmentContext (c : EnvironmentContext)
| TPutCollectionCheck (c : CollectionCheck) | TFulfillCollectionChecks (a : Agent) (h : string) (at_ : Time)
| TPutCoverage (a : Agent) (c : string) (at_ : Time)
| TPutDiagnosticJob (j : DiagnosticJob) (authority : string) | TClaimDiagnosticJob
| TFinishDiagnosticJob (id state : string) (r : option ItemRef) | TInterruptDiagnosticJobs
| TClaimAgentDiagnostic (a : Agent) (profiles : list string)
| TAgentDiagnostic (id attempt : string) (a : Agent) (renew : bool)
| TSetDiagnosticInput (id attempt input : string) (refresh : bool)
| TStartAgentDiagnostic (id pv prompt rubric : string)
| TMaterializeNotifications (route : string) | TLeaseNotification (route : string)
| TFinishNotification (n : Notification) (delivered : bool) | TAcknowledgeNotification (id actor : string)
| TEscalateNotifications (route to : string) (after : Duration) | TRegisterNotificationRoute (id : string)
| TCreateInteraction (r : Request) (actor : string) | TAnswerInteraction (id : string) (v : Z) (answer actor : string)
| TRetain (days : Z).

Definition run_tx_op `{Env} (t : Tx) (o : tx_op) : M unit :=
  match o with
  | TCreateIncident i => CreateIncident t i
  | TUpdateIncident id v state => UpdateIncident t id v state
  | TPutItem i => PutItem t i
  | TQuarantine r => Quarantine t r
  | TEnqueueOnce key kind payload => EnqueueOnce t key kind payload ;; ret tt
  | TStartRun id inc prof pv prompt rubric at_ => StartRun t id inc prof pv prompt rubric at_
  | TFinishRun id status reason r => FinishRun t id status reason r
  | TInterruptRuns => InterruptRuns t
  | TQueueRun id => QueueRun t id
  | TPutHealthSample s => PutHealthSample t s
  | TPutRecoveryProfile p => PutRecoveryProfile t p
  | TPutRecoveryAssessment a => PutRecoveryAssessment t a
  | TPutGoldenCase g => PutGoldenCase t g
  | TAddFeedback e => AddFeedback t e
  | TPutAdjudication a => PutAdjudication t a
  | TPutEnvironmentContext c => PutEnvironmentContext t c
  | TPutCollectionCheck c => PutCollectionCheck t c
  | TFulfillCollectionChecks a h at_ => FulfillCollectionChecks t a h at_
  | TPutCoverage a c at_ => PutCoverage t a c at_
  | TPutDiagnosticJob j authority => PutDiagnosticJob t j authority
  | TClaimDiagnosticJob => ClaimDiagnosticJob t ;; ret tt
  | TFinishDiagnosticJob id state r => FinishDiagnosticJob t id state r
  | TInterruptDiagnosticJobs => InterruptDiagnosticJobs t
  | TClaimAgentDiagnostic a profiles => ClaimAgentDiagnostic t a profiles ;; ret tt
  | TAgentDiagnostic id attempt a renew => AgentDiagnostic t id attempt a renew ;; ret tt
  | TSetDiagnosticInput id attempt input refresh => SetDiagnosticInput t id attempt input refresh
  | TStartAgentDiagnostic id pv prompt rubric => StartAgentDiagnostic t id pv prompt rubric
  | TMaterializeNotifications route => MaterializeNotifications t route
  | TLeaseNotification route => LeaseNotification t route ;; ret tt
  | TFinishNotification n delivered => FinishNotification t n delivered
  | TAcknowledgeNotification id actor => AcknowledgeNotification t id actor
  | TEscalateNotifications route to after => EscalateNotifications t route to after
  | TRegisterNotificationRoute id => RegisterNotificationRoute t id
  | TCreateInteraction r actor => CreateInteraction t r actor
  | TAnswerInteraction id v answer actor => AnswerInteraction t id v answer actor
  | TRetain days => Retain t days
  end.

(** A transaction that a handler composes of storage methods and of parts that
    only read, in any order, on any results; the errors it goes on after are those
    of reads. *)
Inductive composed `{Env} (t : Tx) : forall A : Type, M A -> Prop :=
| co_read A (m : M A) : Steps eq m -> composed t A m
| co_op o : composed t unit (run_tx_op t o)
| co_part A (m : M A) o : run_tx_op t o = (m ;; ret tt) -> composed t A m
| co_bind A B (m : M A) (k : A -> M B) : composed t A m -> (forall a, composed t B (k a)) -> composed t B (bind m k)
| co_catch A (m : M A) (h : GoErr -> M A) : Steps eq m -> (forall e, composed t A (h e)) -> composed t A (catch m h).
Arguments composed {_} t {A} m.

(** A request, or a background transaction, of the system. *)
Inductive request :=
| RExec (s : option ExecService) (sc : Scope) (o : exec_op)
| RBootstrap (s : Service) (p : Principal) (sc : Scope) (id uid role : string)
| REnroll (s : Service) (sc : Scope) (bootstrap uid role : string)
| RRenew (s : Service) (sc : Scope) (token role : string)
| RRevoke (s : Service) (p : Principal) (sc : Scope) (id : string)
| RSetProfile (s : Recovery.Service) (p : Principal) (profile : RecoveryProfile)
| RAssess (s : Recovery.Service) (p : Principal) (sc : Scope) (incident profile : string)
| RSetEnvironment (s : Backend) (p : Principal) (c : EnvironmentContext)
| RFeedback (s : Backend) (p : Principal) (sc : Scope) (r : Feedback.Request)
| RAdjudicate (s : Backend) (p : Principal) (sc : Scope) (r : Stewardship.AdjudicateRequest) (is_nil : bool)
| RCandidate (s : Backend) (p : Principal) (sc : Scope) (r : Knowledge.CandidateRequest)
| RPublish (s : Backend) (p : Principal) (sc : Scope) (id : string) (v : Z)
| RRetire (s : Backend) (p : Principal) (sc : Scope) (id : string) (v : Z)
| RRetrieve (s : Backend) (p : Principal) (sc : Scope)
| RCancelJob (s : Queue.Service) (p : Principal) (sc : Scope) (id : string)
| REnqueueJob (A : AEAD) (s : Queue.Service) (p : Principal) (sc : Scope) (incident profile : string)
| RHeartbeat (A : AEAD) (s : Queue.Service) (f : Service) (sc : Scope) (token id attempt : string)
| RLease (s : Queue.Service) (f : Service) (sc : Scope) (token : string) (profiles : list string)
| RStart (A : AEAD) (s : Queue.Service) (f : Service) (sc : Scope) (token : string) (i : Snapshot.AgentInput)
    (attempt raw : string)
| RComplete (A : AEAD) (s : Queue.Service) (f : Service) (sc : Scope) (token id attempt : string) (r : Rubric.RunResult)
| RReserve (A : AEAD) (s : Queue.Service) (f : Service) (sc : Scope) (token id attempt : string)
    (checks : list Rubric.DiagnosticCheck)
| RReplace (A : AEAD) (s : Queue.Service) (f : Service) (sc : Scope) (token id attempt : string) (i : Snapshot.AgentInput)
    (raw : string)
| RRequestChecks (epoch : string) (sc : Scope) (incident : string) (at_ : Time) (checks : list Rubric.DiagnosticCheck)
    (evidence : list Rubric.EvidenceSnapshot)
| RCorroborate (s : Backend) (p : Principal) (sc : Scope) (r : Corroboration.CorroborateRequest)
| RLogin (key : string) (c : LoginChallenge) | RConsumeLogin (key : string)
| RSession (key : string) (b : BrowserSession) | RLogout (key : string)
| RTransaction (epoch : string) (sc : Scope) (ops : list tx_op)
| RHandler (epoch : string) (sc : Scope) (fn : forall E : Env, Tx -> M unit)
    (Hfn : forall (E : Env) t, scope t = sc -> composed t (fn E t)).

(** The authenticator of an agent's diagnostic requests, and the orchestrator's
    check of the guidance they cite. *)
Definition collector `{Env} (f : Service) (token : string) (tx : Tx) : M Agent := AuthenticateTx f tx token Collector.
Definition validated `{Env} : option (Tx -> GoldenCase -> M bool) := Some Knowledge.PublishedEligibleTx.

Definition run_request `{Env} (r : request) : M unit :=
  match r with
  | RExec s sc o => run_op s sc o
  | RBootstrap s p sc id uid role => Bootstrap s p sc id uid role ;; ret tt
  | REnroll s sc bootstrap uid role => Enroll s sc bootstrap uid role ;; ret tt
  | RRenew s sc token role => Renew s sc token role ;; ret tt
  | RRevoke s p sc id => Revoke s p sc id
  | RSetProfile s p profile => Recovery.SetProfile s p profile ;; ret tt
  | RAssess s p sc incident profile => Recovery.Assess s p sc incident profile ;; ret tt
  | RSetEnvironment s p c => Environment.Set_ s p c
  | RFeedback s p sc r => Feedback.Submit s p sc r ;; ret tt
  | RAdjudicate s p sc r is_nil => Stewardship.Adjudicate s p sc r is_nil ;; ret tt
  | RCandidate s p sc r => Knowledge.Candidate s p sc r ;; ret tt
  | RPublish s p sc id v => Knowledge.Publish s p sc id v ;; ret tt
  | RRetire s p sc id v => Knowledge.Retire s p sc id v ;; ret tt
  | RRetrieve s p sc => Knowledge.Retrieve s p sc ;; ret tt
  | RCancelJob s p sc id => Queue.Cancel s p sc id
  | REnqueueJob A s p sc incident profile => Queue.Enqueue s p sc incident profile ;; ret tt
  | RHeartbeat A s f sc token id attempt => Queue.HeartbeatAgent s f sc token id attempt ;; ret tt
  | RLease s f sc token profiles => Transact (Queue.Q_Epoch s) sc (Agents.leaseTx (collector f token) profiles) ;; ret tt
  | RStart A s f sc token i attempt raw =>
      Transact (Queue.Q_Epoch s) sc (Agents.startTx validated (collector f token) s sc i attempt raw)
  | RComplete A s f sc token id attempt r =>
      Agents.CompleteAgent validated (collector f token) s sc id attempt r ;; ret tt
  | RReserve A s f sc token id attempt checks =>
      Transact (Queue.Q_Epoch s) sc (Agents.reserveTx validated (collector f token) s sc id attempt checks) ;; ret tt
  | RReplace A s f sc token id attempt i raw =>
      Transact (Queue.Q_Epoch s) sc (Agents.replaceTx validated (collector f token) s sc id attempt i raw)
  | RRequestChecks epoch sc incident at_ checks evidence =>
      Transact epoch sc (Rounds.requestChecksTx sc incident at_ checks evidence) ;; ret tt
  | RCorroborate s p sc r => Corroboration.Corroborate s p sc r ;; ret tt
  | RLogin key c => CreateLoginChallenge key c
  | RConsumeLogin key => ConsumeLoginChallenge key ;; ret tt
  | RSession key b => CreateBrowserSession key b
  | RLogout key => DeleteBrowserSession key
  | RTransaction epoch sc ops => Transact epoch sc (fun t => for_each (run_tx_op t) ops)
  | RHandler epoch sc fn _ => Transact epoch sc (fn _)
  end.

(** What the reads and the storage methods keep, composed transactions keep. *)
Lemma steps_part {A} R (m : M A) : Steps R (m ;; ret tt) -> Steps R m.
Proof.
  intros Hm w r w' Hr. apply (Hm w (match r with Ok _ => Ok tt | Err e => Err e end) w').
  unfold bind. rewrite Hr. by destruct r.
Qed.
Lemma composed_steps `{Env} R `{!Reflexive R, !Transitive R} t {A} (m : M A) :
  (forall o, Steps R (run_tx_op t o)) -> composed t m -> Steps R m.
Proof.
  intros Ho. induction 1 as [A m Hm|o|A m o E|A B m k _ IH1 _ IH2|A m h Hm _ IH2].
  - intros w r w' Hr. by rewrite (Hm _ _ _ Hr).
  - apply Ho.
  - apply steps_part. rewrite <- E. apply Ho.
  - by apply steps_bind.
  - apply steps_catch; [exact _|intros w r w' Hr; by rewrite (Hm _ _ _ Hr)|done].
Qed.

Inductive step (d d' : DB) : Prop :=
| step_request (E : Env) (r : request) (k : nat) (x : res unit) (w' : World) :
    run_request r (mkWorld d k) = (x, w') -> d' = db w' -> step d d'.

(** ** What a part that succeeded tells the rest *)
Lemma steps_bind_ok R `{!Reflexive R, !Transitive R} {A B} (m : M A) (f : A -> M B) :
  Steps R m -> (forall w a w', m w = (Ok a, w') -> Steps R (f a)) -> Steps R (bind m f).
Proof.
  intros Hm Hf w x w' Hx. unfold bind in Hx. destruct (m w) as [[a|e] w1] eqn:E.
  - etrans; [exact (Hm _ _ _ E)|exact (Hf _ _ _ E _ _ _ Hx)].
  - injection Hx as <- <-. exact (Hm _ _ _ E).
Qed.
Lemma steps_guarded R `{!Reflexive R, !Transitive R} {A} b e (m : M A) : (b = true -> Steps R m) -> Steps R (guard b e ;; m).
Proof.
  intros Hm. destruct b; [intros w x w' Hr; by apply (Hm eq_refl) in Hr|]. by intros w x w' [= _ <-].
Qed.

(** ** Loops that only read *)
Lemma steps_pure {A} R `{!Reflexive R} (m : M A) : Steps eq m -> Steps R m.
Proof. intros Hm w r w' Hr. by rewrite (Hm _ _ _ Hr). Qed.

Create HintDb pure.

Section Pure.
Context `{Env}.

Lemma pure_Uncontested t r : Steps eq (Uncontested t r).
Proof. unfold Uncontested. steps. Qed.
Lemma pure_GetItem t r : Steps eq (GetItem t r).
Proof. unfold GetItem, check_item_scope. steps. Qed.
Lemma pure_Eligible t r at_ : Steps eq (Eligible t r at_).
Proof. unfold Eligible. steps. Qed.
Lemma pure_HistoricalEligible t r : Steps eq (HistoricalEligible t r).
Proof. unfold HistoricalEligible, Uncontested. steps. Qed.
Lemma pure_HealthSamples t i h s : Steps eq (HealthSamples t i h s).
Proof. unfold HealthSamples. steps. Qed.

Lemma pure_cite t p head l : forall n cited, Steps eq (Recovery.cite t p head n cited l).
Proof. induction l as [|s l IH]; intros n cited; cbn [Recovery.cite]; unfold Uncontested; steps. Qed.
Lemma pure_assess t p i at_ l : forall cited, Steps eq (Recovery.assess_handles t p i at_ cited l).
Proof.
  induction l as [|h l IH]; intros cited; cbn [Recovery.assess_handles]; [steps|].
  apply steps_bind; [exact _|apply pure_HealthSamples|]. intros samples.
  destruct (Recovery.AssessWindow p samples at_) as [st rs], samples as [|head samples]; [steps|].
  case_if as E; [steps|]. apply steps_bind; [exact _|apply pure_Eligible|]. intros ok. case_if as E1; [steps|].
  apply steps_bind; [exact _|apply pure_cite|]. intros [b c]. case_if as E2; [steps|apply IH].
Qed.
Lemma pure_check_correction t i l : forall seen, Steps eq (Stewardship.check_correction t i seen l).
Proof.
  induction l as [|r l IH]; intros seen; cbn [Stewardship.check_correction]; [steps|].
  unfold GetItem, Eligible, check_item_scope. steps.
Qed.
Lemma pure_all_hold {A} (f : A -> M bool) l : (forall x, Steps eq (f x)) -> Steps eq (Knowledge.all_hold f l).
Proof.
  intros Hf. induction l as [|x l IH]; cbn [Knowledge.all_hold]; [steps|].
  apply steps_bind; [exact _|apply Hf|]. intros ok. case_if as E; [steps|apply IH].
Qed.
Lemma pure_EligibleTx t g : Steps eq (Knowledge.EligibleTx t g).
Proof.
  unfold Knowledge.EligibleTx, GetItem, check_item_scope, GetRecoveryAssessment.
  apply steps_bind; [exact _|apply pure_HistoricalEligible|]. intros ok. case_if as E; [steps|].
  steps. apply pure_all_hold. intros x. apply pure_HistoricalEligible.
Qed.
Lemma pure_take_active t l : forall result, Steps eq (Knowledge.take_active t result l).
Proof.
  induction l as [|g l IH]; intros result; cbn [Knowledge.take_active]; [steps|].
  case_if as E; [apply IH|]. apply steps_bind; [exact _|apply pure_EligibleTx|]. intros ok.
  case_if as E1; [apply IH|]. case_if as E2; [steps|apply IH].
Qed.
Lemma pure_pages t n : forall after result, Steps eq (Knowledge.pages t n after result).
Proof.
  induction n as [|n IH]; intros after result; cbn [Knowledge.pages]; [steps|].
  unfold GoldenCases. steps. apply pure_take_active.
Qed.
Lemma pure_CurrentEvidence t i at_ n : Steps eq (CurrentEvidence t i at_ n).
Proof. unfold CurrentEvidence, check_item_scope. steps. Qed.
Lemma pure_InteractionContext t i : Steps eq (InteractionContext t i).
Proof. unfold InteractionContext. steps. Qed.
Lemma pure_GetEnvironmentContext t : Steps eq (GetEnvironmentContext t).
Proof. unfold GetEnvironmentContext. steps. Qed.
Lemma pure_AuthenticateTx f t token role : Steps eq (AuthenticateTx f t token role).
Proof. unfold AuthenticateTx, AgentByToken. steps. Qed.
Lemma pure_collector f token t : Steps eq (collector f token t).
Proof. apply pure_AuthenticateTx. Qed.
Lemma pure_collect s t now l : forall acc until, Steps eq (Snapshot.collect s t now acc until l).
Proof.
  induction l as [|i l IH]; intros acc until; cbn [Snapshot.collect]; [steps|].
  case_if as E; [apply IH|]. apply steps_bind; [exact _|apply pure_Eligible|]. intros ok. case_if as E1; [apply IH|].
  destruct (Snapshot.strict_observation _) as [o|]; [|steps].
  apply steps_bind; [exact _|unfold Snapshot.reporter_ok, AgentByID; steps|]. intros live. case_if as E2; [apply IH|].
  apply steps_bind; [exact _|steps|]. intros _. apply IH.
Qed.
Lemma pure_readSnapshotTx s i now t : Steps eq (Snapshot.readSnapshotTx s i now t).
Proof.
  unfold Snapshot.readSnapshotTx, Incident_.
  repeat first [apply pure_collect | apply pure_CurrentEvidence | apply pure_InteractionContext
    | apply pure_GetEnvironmentContext | steps_one].
Qed.
Lemma pure_current_refs t at_ l : forall acc, Steps eq (Agents.current_refs t at_ acc l).
Proof.
  induction l as [|i l IH]; intros acc; cbn [Agents.current_refs]; [steps|].
  apply steps_bind; [exact _|apply pure_Eligible|]. intros ok. case_if as E1; [apply IH|].
  destruct (Snapshot.strict_observation _) as [o|]; [apply IH|steps].
Qed.
Lemma pure_PublishedEligibleTx t g : Steps eq (Knowledge.PublishedEligibleTx t g).
Proof.
  unfold Knowledge.PublishedEligibleTx, GetGoldenCase. repeat first [apply pure_EligibleTx | steps_one].
Qed.
Lemma pure_validateAgentSnapshot s t i at_ : Steps eq (Agents.validateAgentSnapshot validated s t i at_).
Proof.
  unfold Agents.validateAgentSnapshot, validated. destruct (Queue.profile s _) as [pf|]; [|steps].
  repeat first [apply pure_current_refs | apply pure_CurrentEvidence | apply pure_InteractionContext
    | apply pure_GetEnvironmentContext | apply pure_PublishedEligibleTx | apply pure_Eligible
    | progress unfold Agents.check_evidence, Agents.check_reporter, Agents.check_guidance, AgentByID | steps_one].
Qed.
Lemma pure_authorized_lease `{AEAD} f token s sc id attempt t :
  Steps eq (Agents.authorized_lease (collector f token) s sc id attempt false t).
Proof.
  unfold Agents.authorized_lease, collector, AgentDiagnostic.
  repeat first [apply pure_AuthenticateTx | progress cbv iota | steps_one].
Qed.
Lemma pure_review t i l : forall seen acc until, Steps eq (Corroboration.review t i seen acc until l).
Proof.
  induction l as [|r l IH]; intros seen acc until; cbn [Corroboration.review]; [steps|].
  repeat first [apply IH | apply pure_GetItem | apply pure_Eligible | steps_one].
Qed.
Lemma pure_no_health t h l : Steps eq (Corroboration.no_health t h l).
Proof.
  induction l as [|i l IH]; cbn [Corroboration.no_health]; [steps|].
  repeat first [apply IH | apply pure_Eligible | steps_one].
Qed.
Lemma pure_checksReadyTx ids t : Steps eq (Rounds.checksReadyTx ids t).
Proof. unfold Rounds.checksReadyTx, CollectionCheckReady. steps. Qed.
End Pure.
#[export] Hint Resolve pure_CurrentEvidence pure_InteractionContext pure_GetEnvironmentContext pure_AuthenticateTx pure_collector
  pure_readSnapshotTx pure_validateAgentSnapshot pure_authorized_lease pure_review pure_no_health pure_checksReadyTx : pure.
#[export] Hint Resolve pure_Uncontested pure_GetItem pure_Eligible pure_HistoricalEligible pure_assess
  pure_check_correction pure_EligibleTx pure_pages : pure.

(** Every method of the storage layer, unfolded; [unfold_methods] leaves those that
    write items. *)
Ltac unfold_methods :=
  unfold ensure_scope, CreateIncident, UpdateIncident, Incident_, Quarantine, CurrentItem, EnqueueOnce, StartRun, FinishRun, InterruptRuns, QueueRun, PutRecoveryProfile, GetRecoveryProfile, PutHealthSample,
    PutRecoveryAssessment, GetRecoveryAssessment, PutGoldenCase, GetGoldenCase, FeedbackForKey, FeedbackByID,
    AddFeedback, PutAdjudication, AdjudicationForKey, GetEnvironmentContext, PutEnvironmentContext, PutCollectionCheck,
    FulfillCollectionChecks, PutCoverage, CreateBootstrap, AgentByToken, AgentByID, ConsumeBootstrap, RevokeAgent,
    RotateAgent, GetAction, SaveAction, PutDiagnosticJob, ClaimDiagnosticJob, FinishDiagnosticJob, GetDiagnosticJob,
    InterruptDiagnosticJobs, ClaimAgentDiagnostic, AgentDiagnostic, SetDiagnosticInput, StartAgentDiagnostic,
    MaterializeNotifications, LeaseNotification, FinishNotification, AcknowledgeNotification, EscalateNotifications,
    RegisterNotificationRoute, CreateInteraction, AnswerInteraction, Retain, Enqueue, NewID in *.
Ltac unfold_storage := unfold_methods; unfold PutItem, linkGuidance in *.
Ltac unfold_services :=
  unfold run_op, Propose, Execution.Approve, Claim, Receipt, Cancel, Reconcile, ProposeTx, ApproveTx, ClaimTx, ReceiptTx,
    CancelTx, ReconcileTx, save, enqueue, propose_action, current, Bootstrap, Enroll, Renew, Revoke, AuthenticateTx,
    tx_of, newToken, authorize, Recovery.SetProfile, Recovery.Assess, Recovery.AssessTx, Recovery.next_version,
    Environment.Set_, Environment.SetTx, Feedback.Submit, Feedback.SubmitTx, Feedback.record,
    Stewardship.Adjudicate, Stewardship.AdjudicateTx, Stewardship.record, Knowledge.Candidate, Knowledge.CandidateTx,
    Knowledge.Publish, Knowledge.PublishTx, Knowledge.Retire, Knowledge.RetireTx, Knowledge.Retrieve,
    Queue.Cancel, Queue.CancelTx, Queue.Enqueue, Queue.EnqueueTx, Queue.HeartbeatAgent, ActiveDiagnosticJob,
    Agents.leaseTx, Agents.startTx, Agents.CompleteAgent, Agents.CompleteTx, Agents.record_claim, Agents.reserveTx,
    Agents.replaceTx, Rounds.requestChecksTx, Corroboration.Corroborate, Corroboration.CorroborateTx,
    Corroboration.record_corroboration in *.
