(* ===== verification/Evolution.v ===== *)
(** * How stored rows may change

    For every table, [K] says what may become of one of its rows in any request
    of the system: audit records are immutable, a quarantine is never lifted,
    an agent's generation only grows, a closed job or run stays closed, an
    answer stays the answer, an acknowledgement stays.  [evolves] holds of
    every step. *)

From stdpp Require Import relations.
From S2P Require Import Prelude.
From S2P Require Import Sha256.
From S2P Require Import Md5.
From S2P Require Import Json.
From S2P Require Import JsonFacts.
From S2P Require Import GoTime.
From S2P Require Import Decode.
From S2P Require Import Identity.
From S2P Require Import Authorization.
From S2P Require Import Incident.
From S2P Require Import Db.
From S2P Require Import Sql.
From S2P Require Import Storage.
From S2P Require Import Records.
From S2P Require Import Queues.
From S2P Require Import Privacy.
From S2P Require Import Fleet.
From S2P Require Import Recovery.
From S2P Require Import Governance.
From S2P Require Import Investigation.
From S2P Require Import Knowledge.
From S2P Require Import Execution.
From S2P Require Import ExecutionFacts.
From S2P Require Import ExecutionSafety.
From S2P Require Import System.

(** Tables whose rows are never deleted. *)
Definition keeps (t : tbl) : bool :=
  match t with Toutbox | Tbootstraps | Tchallenges | Tsessions => false | _ => true end.

Definition K (t : tbl) : row t -> row t -> Prop :=
  match t with
  | Tagents => fun r r' => g_scope r' = g_scope r /\ g_id r' = g_id r /\ (r' = r \/ g_generation r < g_generation r')
  | Teligibility => fun r r' => e_scope r' = e_scope r /\ e_item r' = e_item r /\
                                (e_quarantined r = true -> e_quarantined r' = true)
  | Tincidents => fun r r' => N_Scope r' = N_Scope r /\ N_ID r' = N_ID r /\ N_OpenedAt r' = N_OpenedAt r /\
                              (r' = r \/ N_Version r < N_Version r')
  | Tinteractions => fun r r' => x_scope r' = x_scope r /\ x_id r' = x_id r /\ x_question r' = x_question r /\
                                 (x_status r = "PENDING" \/ r' = r)
  | Tnotifications => fun r r' => n_scope r' = n_scope r /\ n_id r' = n_id r /\ n_attempts r <= n_attempts r' /\
                                  (n_acknowledged r = "" \/ n_acknowledged r' = n_acknowledged r) /\
                                  (n_state r = "DELIVERED" -> n_state r' = "DELIVERED")
  | Tactions => fun r r' => a_scope r' = a_scope r /\ a_id r' = a_id r
  | Tjobs => fun r r' => d_scope r' = d_scope r /\ d_id r' = d_id r /\ d_incident r' = d_incident r /\
                         d_actor r' = d_actor r /\ d_expires r' = d_expires r /\
                         (is_active (d_state r) = true \/ (d_state r' = d_state r /\ d_result r' = d_result r))
  | Truns => fun r r' => r_scope r' = r_scope r /\ r_id r' = r_id r /\ r_incident r' = r_incident r /\
                         (is_active (r_status r) = true \/ r' = r)
  | Tchecks => fun r r' => c_scope r' = c_scope r /\ c_id r' = c_id r /\ c_handle r' = c_handle r /\
                           (c_fulfilled r = None \/ r' = r)
  | Tcoverage => fun r r' => cv_scope r' = cv_scope r /\ cv_agent r' = cv_agent r /\ cv_observed r <= cv_observed r'
  | _ => fun r r' => r' = r
  end.

Lemma K_refl t r : K t r r.
Proof. destruct t; cbn; repeat split; auto; lia. Qed.

Lemma K_trans t a b c : K t a b -> K t b c -> K t a c.
Proof.
  destruct t; cbn; intros H1 H2; try (by subst);
    repeat match goal with H : _ /\ _ |- _ => destruct H end;
    repeat split; try congruence; try lia; auto;
    match goal with
    | H1 : b = a \/ _, H2 : c = b \/ _ |- _ => destruct H1 as [->|L1], H2 as [->|L2]; auto; right; lia
    | H1 : is_active (d_state a) = true \/ _, H2 : is_active (d_state b) = true \/ _ |- _ =>
        destruct H1 as [L1|[E1 E2]]; [by left|]; rewrite E1 in H2; destruct H2 as [L2|[F1 F2]];
          [by left|right; by rewrite F1, F2]
    | H1 : n_acknowledged a = "" \/ _, H2 : n_acknowledged b = "" \/ _ |- _ =>
        destruct H1 as [L1|E1]; [by left|]; rewrite E1 in H2; destruct H2 as [L2|E2]; [by left|right; by rewrite E2]
    | H1 : _ \/ b = a |- _ => destruct H1 as [L1| ->]; auto
    end.
Qed.

Definition rows_evolve (d d' : DB) : Prop :=
  forall t (r : row t), keeps t = true -> r ∈ d t -> exists r', r' ∈ d' t /\ K t r r'.

(** The constraints hold throughout, and every row becomes what it may. *)
Definition evolves (d d' : DB) : Prop := db_ok d -> db_ok d' /\ rows_evolve d d'.

#[export] Instance evolves_refl : Reflexive evolves.
Proof. intros d Hd. split; [done|]. intros t r _ Hr. exists r. split; [done|apply K_refl]. Qed.
#[export] Instance evolves_trans : Transitive evolves.
Proof.
  intros a b c H1 H2 Ha. destruct (H1 Ha) as [Hb R1]. destruct (H2 Hb) as [Hc R2]. split; [done|].
  intros t r Hk Hr. destruct (R1 _ _ Hk Hr) as (r1 & Hr1 & K1). destruct (R2 _ _ Hk Hr1) as (r2 & Hr2 & K2).
  exists r2. split; [done|by eapply K_trans].
Qed.

Section Statements.
Context `{Env}.

Lemma store_evolves {A} (a : A) d t l a' d' :
  (db_ok d -> keeps t = true -> forall r, r ∈ d t -> exists r', r' ∈ l /\ K t r r') ->
  store a d t l = inr (a', d') -> evolves d d'.
Proof.
  intros Hl Hs Hd. split; [by eapply store_keeps|]. apply store_ok in Hs as (_ & -> & _).
  intros t' r Hk Hr. destruct (decide (t = t')) as [<-|Hne].
  - rewrite upd_same. by apply Hl.
  - rewrite upd_other by done. exists r. split; [done|apply K_refl].
Qed.

Lemma store_app_evolves {A} (a : A) d t l a' d' :
  (forall r, r ∈ d t -> r ∈ l) -> store a d t l = inr (a', d') -> evolves d d'.
Proof. intros Hl. apply store_evolves. intros _ _ r Hr. exists r. split; [by apply Hl|apply K_refl]. Qed.

Lemma evolves_insert t r : Steps evolves (insert t r).
Proof.
  apply steps_exec; [exact _|]. intros now d a d'. apply store_app_evolves. intros x Hx. apply elem_of_app. by left.
Qed.
Lemma evolves_insert_or_skip t c r : Steps evolves (insert_or_skip t c r).
Proof.
  apply steps_exec; [exact _|]. intros now d a d'. case_if as E1; [done|]. case_if as E2; [by intros [= _ <-]|].
  apply store_app_evolves. intros x Hx. apply elem_of_app. by left.
Qed.

Lemma map_evolves t (hit : row t -> bool) f l r :
  (hit r = true -> K t r (f r)) -> r ∈ l ->
  exists r', r' ∈ map (fun x => if hit x then f x else x) l /\ K t r r'.
Proof.
  intros Hf Hr. exists (if hit r then f r else r). split.
  - by apply (list_elem_of_fmap_2 (fun x => if hit x then f x else x)).
  - destruct (hit r) eqn:E; [by apply Hf|apply K_refl].
Qed.

Lemma evolves_update_returning t c s :
  (keeps t = true -> forall now d r, db_ok d -> r ∈ d t -> c now d r = true -> K t r (s now r)) ->
  Steps evolves (update_returning t c s).
Proof.
  intros Hs. apply steps_exec; [exact _|]. intros now d a d'. apply store_evolves. intros Hd Hk r Hr.
  apply (map_evolves t (c now d) (s now)); [by apply Hs|done].
Qed.
Lemma evolves_update t c s :
  (keeps t = true -> forall now d r, db_ok d -> r ∈ d t -> c now d r = true -> K t r (s now r)) ->
  Steps evolves (update t c s).
Proof.
  intros Hs. apply steps_bind; [exact _|by apply evolves_update_returning|]. intros rs. apply steps_ret. exact _.
Qed.
Lemma evolves_upsert t c cond s r :
  (keeps t = true -> forall o, c r o && cond r o = true -> K t o (s r o)) -> Steps evolves (upsert t c cond s r).
Proof.
  intros Hs. apply steps_exec; [exact _|]. intros now d a d'. case_if as E1; [done|]. case_if as E2.
  - apply store_evolves. intros _ Hk x Hx.
    apply (map_evolves t (fun o => c r o && cond r o) (s r)); [by apply Hs|done].
  - apply store_app_evolves. intros x Hx. apply elem_of_app. by left.
Qed.
Lemma evolves_delete_returning t c : keeps t = false -> Steps evolves (delete_returning t c).
Proof.
  intros Hk. apply steps_exec; [exact _|]. intros now d a d'. apply store_evolves. rewrite Hk. done.
Qed.
Lemma evolves_delete t c : keeps t = false -> Steps evolves (delete t c).
Proof.
  intros Hk. apply steps_bind; [exact _|by apply evolves_delete_returning|]. intros rs. apply steps_ret. exact _.
Qed.
End Statements.

(** ** The conditions of particular statements *)
Lemma jobs_inj d (r r' : row Tjobs) :
  db_ok d -> r ∈ d Tjobs -> r' ∈ d Tjobs -> d_scope r = d_scope r' -> d_id r = d_id r' -> r = r'.
Proof.
  intros [Hd _] Hr Hr' Es Ei. destruct (Hd Tjobs) as [_ Hu].
  eapply (unique_inj Tjobs _ _ r r' (kscope (d_scope r') ++ [KS (d_id r')])); [done|by left|done|done|..]; cbn.
  - by rewrite Es, Ei.
  - done.
Qed.

(** The row that a claim takes is queued. *)
Lemma claimable_queued t d ok (r : row Tjobs) :
  db_ok d -> r ∈ d Tjobs -> in_scope t (d_scope r) = true -> claimable t d ok = Some (d_id r) -> d_state r = "QUEUED".
Proof.
  intros Hd Hr Hs Hc. unfold claimable in Hc. destruct (running t d); [done|].
  destruct (head _) as [r'|] eqn:E; [|done]. injection Hc as Hid.
  assert (Hin : r' ∈ isort oldest_leb (List.filter (fun r : row Tjobs =>
      in_scope t (d_scope r) && str_eqb (d_state r) "QUEUED" && ok r) (d Tjobs))).
  { destruct (isort _ _); [done|]. injection E as ->. by left. }
  rewrite isort_elem in Hin. apply list_elem_of_In, filter_In in Hin as [Hin Hp]. apply list_elem_of_In in Hin.
  breflect. replace r with r'; [done|]. unfold in_scope, scope_eqb in *. breflect.
  eapply jobs_inj; [done|done|done|congruence|congruence].
Qed.

Lemma notifications_inj d (r r' : row Tnotifications) :
  db_ok d -> r ∈ d Tnotifications -> r' ∈ d Tnotifications -> n_scope r = n_scope r' -> n_id r = n_id r' -> r = r'.
Proof.
  intros [Hd _] Hr Hr' Es Ei. destruct (Hd Tnotifications) as [_ Hu].
  eapply (unique_inj Tnotifications _ _ r r' (kscope (n_scope r') ++ [KS (n_id r')])); [done|by left|done|done|..]; cbn.
  - by rewrite Es, Ei.
  - done.
Qed.

(** The row that a lease takes is of the route, neither delivered nor
    acknowledged, and has an attempt left. *)
Lemma due_row t d route (n : row Tnotifications) :
  db_ok d -> n ∈ d Tnotifications -> in_scope t (n_scope n) = true -> due t d route = Some (n_id n) ->
  n_route n = route /\ n_state n <> "DELIVERED" /\ n_acknowledged n = "" /\ n_attempts n < 8.
Proof.
  intros Hd Hn Hs Hdue. unfold due in Hdue. destruct (isort _ _) as [|m l] eqn:E; [done|]. injection Hdue as Hid.
  assert (Hin : m ∈ isort due_leb (List.filter (fun n : row Tnotifications =>
    in_scope t (n_scope n) && str_eqb (n_route n) route && str_eqb (n_acknowledged n) ""
    && ((str_eqb (n_state n) "PENDING" && (n_next n <=? tx_now t)) || lease_expired t n)
    && (n_attempts n <? 8)) (d Tnotifications))) by (rewrite E; left).
  rewrite isort_elem in Hin. apply list_elem_of_In, filter_In in Hin as [Hin Hp]. apply list_elem_of_In in Hin.
  replace n with m.
  - unfold lease_expired in Hp. breflect. split; [done|split; [|done]].
    match goal with H : _ \/ _ |- _ => destruct H end; breflect; congruence.
  - unfold in_scope, scope_eqb in *. breflect. eapply notifications_inj; [done..|congruence|done].
Qed.
Lemma due_not_delivered t d route (n : row Tnotifications) :
  db_ok d -> n ∈ d Tnotifications -> in_scope t (n_scope n) = true -> due t d route = Some (n_id n) ->
  n_state n = "DELIVERED" -> "SENDING" = "DELIVERED".
Proof. intros Hd Hn Hs Hdue E. by destruct (due_row _ _ _ _ Hd Hn Hs Hdue) as (_ & [] & _). Qed.

Lemma add_new_keeps rs : forall (l : list (row Tnotifications)) r, r ∈ l -> r ∈ add_new l rs.
Proof.
  unfold add_new. induction rs as [|x rs IH]; intros l r Hr; [done|]. cbn [fold_left]. apply IH.
  destruct (existsb _ _); [done|]. apply elem_of_app. by left.
Qed.

Lemma in_app_l {A} (x : A) l l' : x ∈ l -> x ∈ l ++ l'.
Proof. intros Hx. apply elem_of_app. by left. Qed.

Lemma active_queued s : s = "QUEUED" -> is_active s = true.
Proof. by intros ->. Qed.
Lemma active_running s : s = "RUNNING" -> is_active s = true.
Proof. by intros ->. Qed.

(** Solve the condition of an update from its guard. *)
Ltac row_side :=
  intros; cbn in *; unfold lease_expired, fenced, job_at, check_of in *; breflect; cbn;
  repeat match goal with |- _ /\ _ => split end;
  eauto using active_queued, active_running, due_not_delivered; try lia; try congruence;
  try (left; by eauto using active_queued, active_running, claimable_queued).

Ltac evolves_step :=
  first
  [ apply steps_pure; [exact _|solve [auto with pure nocore]]
  | progress cbv zeta
  | apply evolves_insert
  | apply evolves_insert_or_skip
  | apply evolves_upsert; intros _
  | apply evolves_update_returning; first [discriminate|intros _]
  | apply evolves_update; first [discriminate|intros _]
  | apply evolves_delete_returning; reflexivity
  | apply evolves_delete; reflexivity
  | apply steps_exec; [exact _|intros ? ? ? ?; apply store_app_evolves; cbv zeta; intros; solve [auto using add_new_keeps, in_app_l]]
  | steps_one ].

Section Evolves.
Context `{Env}.

Lemma evolves_tx_op t o : Steps evolves (run_tx_op t o).
Proof.
  destruct o; cbn [run_tx_op]; unfold_storage; repeat evolves_step; row_side.
Qed.

Lemma evolves_request r : Steps evolves (run_request r).
Proof.
  destruct r as [? ? []| | | | | | | | | | | | | | | | | | | | | | | | | | | | |epoch sc fn Hfn]; cbn [run_request]; [..|by apply steps_Transact; [exact _|]; intros t Ht; eapply composed_steps; [exact _|exact _|intros o; apply evolves_tx_op|apply Hfn]];
    unfold_services; unfold_storage;
    unfold CreateLoginChallenge, ConsumeLoginChallenge, CreateBrowserSession, DeleteBrowserSession, createAuthRecord;
    repeat evolves_step.
  all: try apply evolves_tx_op; row_side.
Qed.
End Evolves.

(** ** Every database the system can reach *)
Lemma step_evolves d d' : step d d' -> evolves d d'.
Proof. intros [E r k x w' Hr ->]. exact (evolves_request r _ _ _ Hr). Qed.

Lemma steps_evolves d d' : rtc step d d' -> evolves d d'.
Proof. induction 1 as [|d d1 d' H1 _ IH]; [done|]. etrans; [by apply step_evolves|done]. Qed.

Lemma empty_ok : db_ok empty_db.
Proof. split; [by intros []|reflexivity]. Qed.

(** The databases that the system builds from an empty schema. *)
Definition system (d : DB) : Prop := rtc step empty_db d.

Lemma system_ok d : system d -> db_ok d.
Proof. intros Hs. by apply (steps_evolves _ _ Hs), empty_ok. Qed.

Lemma system_step d d' : system d -> rtc step d d' -> system d'.
Proof. intros H1 H2. by apply (transitivity (R := rtc step)) with d. Qed.

Lemma rows_kept d d' t (r : row t) :
  db_ok d -> rtc step d d' -> keeps t = true -> r ∈ d t -> exists r', r' ∈ d' t /\ K t r r'.
Proof. intros Hd Hs. by apply (steps_evolves _ _ Hs). Qed.

(** ** Only pkg/execution touches actions *)
#[export] Instance still_refl_inst : Reflexive still.
Proof. intros d. apply still_refl. Qed.
#[export] Instance still_trans_inst : Transitive still.
Proof. intros a b c [H1 H2] [H3 H4]. split; congruence. Qed.

Definition action_table (t : tbl) : bool := match t with Tactions | Taction_events => true | _ => false end.

Lemma store_still {A} (a : A) d t l a' d' : action_table t = false -> store a d t l = inr (a', d') -> still d d'.
Proof. intros Ht (_ & -> & _)%store_ok. split; apply upd_other; by intros ->. Qed.

Ltac still_side := intros; match goal with H : store _ _ _ _ = inr _ |- _ => eapply store_still; [|exact H]; reflexivity end.
Ltac still_step :=
  first
  [ apply steps_pure; [exact _|solve [auto with pure nocore]]
  | progress cbv zeta
  | apply steps_insert; [exact _|still_side]
  | apply steps_insert_or_skip; [exact _|still_side]
  | apply steps_upsert; [exact _|still_side]
  | apply steps_update_returning; [exact _|still_side]
  | apply steps_update; [exact _|exact _|still_side]
  | apply steps_delete_returning; [exact _|still_side]
  | apply steps_delete; [exact _|exact _|still_side]
  | apply steps_exec; [exact _|intros ? ? ? ?; cbv zeta; still_side]
  | steps_one ].

Section Still.
Context `{Env}.

Lemma still_tx_op t o : Steps still (run_tx_op t o).
Proof. destruct o; cbn [run_tx_op]; unfold_storage; repeat still_step. Qed.

Lemma still_request r : (forall s sc o, r <> RExec s sc o) -> Steps still (run_request r).
Proof.
  intros Hne. destruct r as [s sc o| | | | | | | | | | | | | | | | | | | | | | | | | | | | |epoch sc fn Hfn];
    [by destruct (Hne s sc o)|..|by apply steps_Transact; [exact _|]; intros t Ht; eapply composed_steps;
      [exact _|exact _|intros o; apply still_tx_op|apply Hfn]]; clear Hne; cbn [run_request]; unfold_services; unfold_storage;
    unfold CreateLoginChallenge, ConsumeLoginChallenge, CreateBrowserSession, DeleteBrowserSession, createAuthRecord;
    repeat still_step.
  apply still_tx_op.
Qed.
End Still.

Lemma step_sys_step d d' : step d d' -> sys_step d d'.
Proof.
  intros [E r k x w' Hr ->]. destruct r as [s sc o| | | | | | | | | | | | | | | | | | | | | | | | | | | | |];
    [by eapply sys_exec|..]; apply sys_other; eapply still_request in Hr; try done.
Qed.
