(* ===== verification/ItemGraph.v ===== *)
(** * The evidence graph

    What every request keeps true of the tables of items and of their
    dependencies: an item is stored as it was sealed, and what it depends on was
    stored before it. *)

From stdpp Require Import relations.
From S2P Require Import Prelude.
From S2P Require Import Sha256.
From S2P Require Import Md5.
From S2P Require Import Json.
From S2P Require Import JsonFacts.
From S2P Require Import GoTime.
From S2P Require Import Decode.
From S2P Require Import Identity.
From S2P Require Import Authorization.
From S2P Require Import Incident.
From S2P Require Import Db.
From S2P Require Import Sql.
From S2P Require Import Storage.
From S2P Require Import Lineage.
From S2P Require Import Records.
From S2P Require Import Queues.
From S2P Require Import Privacy.
From S2P Require Import Fleet.
From S2P Require Import Recovery.
From S2P Require Import Governance.
From S2P Require Import Investigation.
From S2P Require Import Knowledge.
From S2P Require Import Snapshot.
From S2P Require Import Rounds.
From S2P Require Import Diagnosis.
From S2P Require Import Execution.
From S2P Require Import ExecutionFacts.
From S2P Require Import ExecutionSafety.
From S2P Require Import System.
From S2P Require Import Evolution.

(** The row of a sealed item; its body is in the form jsonb keeps. *)
Record stored_as (s : Item) (r : row Titems) : Prop := {
  si_sealed : Seal s = Ok s;
  si_key : i_scope r = I_Scope s /\ i_incident r = I_IncidentID s /\ i_ref r = self_ref s /\ i_kind r = I_Kind s;
  si_times : i_observed r = pgTime (I_ObservedAt s) /\ i_valid_until r = pgTime (I_ValidUntil s);
  si_hash : i_hash r = I_Hash s;
  si_text : jsonb_item s = Some (i_envelope r) }.

(** [c] is the row of [child], and [p], stored before it, that of [parent]. *)
Record stored_before (d : DB) (sc : Scope) (child parent : ItemRef) (c p : row Titems) : Prop := {
  sb_child : i_scope c = sc /\ i_ref c = child;
  sb_parent : i_scope p = sc /\ i_ref p = parent;
  sb_order : exists l1 l2, d Titems = l1 ++ c :: l2 /\ p ∈ l1 }.

Record graph_ok (d : DB) : Prop := {
  go_items : forall r : row Titems, r ∈ d Titems -> exists s, stored_as s r;
  go_parents : forall e : row Tparents, e ∈ d Tparents -> exists c p,
    stored_before d (p_scope e) (p_child e) (p_parent e) c p /\
    i_incident c = p_incident e /\ i_incident p = p_incident e /\ p_parent e ∈ I_Parents (i_envelope c);
  go_history : forall e : row Thistory, e ∈ d Thistory -> exists c p,
    stored_before d (h_scope e) (h_child e) (h_parent e) c p }.

Definition keeps_graph (d d' : DB) : Prop := db_ok d -> graph_ok d -> db_ok d' /\ graph_ok d'.
#[export] Instance keeps_graph_refl : Reflexive keeps_graph.
Proof. by intros d Hd Hg. Qed.
#[export] Instance keeps_graph_trans : Transitive keeps_graph.
Proof. intros a b c H1 H2 Ha Hg. destruct (H1 Ha Hg). by apply H2. Qed.

Definition graph_table (t : tbl) : bool := match t with Titems | Tparents | Thistory => true | _ => false end.

Lemma before_same d d' sc child parent c p :
  d' Titems = d Titems -> stored_before d sc child parent c p -> stored_before d' sc child parent c p.
Proof. intros E [H1 H2 H3]. by constructor; rewrite ?E. Qed.
Lemma before_app d d' sc child parent c p x :
  d' Titems = d Titems ++ [x] -> stored_before d sc child parent c p -> stored_before d' sc child parent c p.
Proof.
  intros E [H1 H2 (l1 & l2 & Ed & Hp)]. constructor; [done..|]. exists l1, (l2 ++ [x]). split; [|done].
  by rewrite E, Ed, <- app_assoc.
Qed.

Lemma store_elsewhere {A} (a : A) d t l a' d' :
  graph_table t = false -> store a d t l = inr (a', d') -> keeps_graph d d' /\ d' Titems = d Titems.
Proof.
  intros Ht Hs. pose proof (store_keeps _ _ _ _ _ _ Hs) as Hk. apply store_ok in Hs as (_ & -> & _).
  assert (E1 : upd d t l Titems = d Titems) by (apply upd_other; by intros ->). split; [|done].
  intros Hd [H1 H2 H3]. split; [by apply Hk|]. constructor.
  - by rewrite E1.
  - rewrite (upd_other d t l Tparents) by (by intros ->). intros e He. destruct (H2 e He) as (c & p & Hb & Hr).
    exists c, p. split; [by eapply before_same|done].
  - rewrite (upd_other d t l Thistory) by (by intros ->). intros e He. destruct (H3 e He) as (c & p & Hb).
    exists c, p. by eapply before_same.
Qed.

(** ** While the last item's dependencies are recorded *)
Definition adding (c : row Titems) (d d' : DB) : Prop :=
  forall l, d Titems = l ++ [c] -> d' Titems = l ++ [c] /\ keeps_graph d d'.
#[export] Instance adding_refl c : Reflexive (adding c).
Proof. intros d l Hl. done. Qed.
#[export] Instance adding_trans c : Transitive (adding c).
Proof. intros d1 d2 d3 H1 H2 l Hl. destruct (H1 l Hl) as [Hl2 K1]. destruct (H2 l Hl2) as [Hl3 K2]. split; [done|by etrans]. Qed.

Lemma adding_elsewhere {A} c (a : A) d t l a' d' :
  graph_table t = false -> store a d t l = inr (a', d') -> adding c d d'.
Proof. intros Ht Hs l' Hl. destruct (store_elsewhere _ _ _ _ _ _ Ht Hs) as [Hk E]. split; [by rewrite E|done]. Qed.

(** A foreign key to items finds its row before the last one, if it is another. *)
Lemma referenced d t (e : row t) (s : row t -> Scope) (x : row t -> ItemRef) l c :
  fk_holds d (fk_item t s x) = true -> e ∈ d t -> d Titems = l ++ [c] -> i_ref c <> x e ->
  exists p, p ∈ l /\ i_scope p = s e /\ i_ref p = x e.
Proof.
  unfold fk_holds, fk_item. cbn [fk_from fk_to fk_src fk_dst]. rewrite forallb_forall. intros Hf He Hl Hne.
  apply list_elem_of_In, Hf, existsb_exists in He as (p & Hp & E%bool_decide_eq_true). apply list_elem_of_In in Hp.
  apply kscope_app_inj in E as [Es Er]. assert (i_ref p = x e) as Ei.
  { destruct (i_ref p), (x e). cbn in Er. by injection Er as -> ->. }
  rewrite Hl in Hp. apply elem_of_app in Hp as [Hp| ->%list_elem_of_singleton]; [by exists p|done].
Qed.
Lemma referenced_incident d t (e : row t) (s : row t -> Scope) (i : row t -> string) (x : row t -> ItemRef) l c :
  fk_holds d (fk_incident_item t s i x) = true -> e ∈ d t -> d Titems = l ++ [c] -> i_ref c <> x e ->
  exists p, p ∈ l /\ i_scope p = s e /\ i_incident p = i e /\ i_ref p = x e.
Proof.
  unfold fk_holds, fk_incident_item. cbn [fk_from fk_to fk_src fk_dst]. rewrite forallb_forall. intros Hf He Hl Hne.
  apply list_elem_of_In, Hf, existsb_exists in He as (p & Hp & E%bool_decide_eq_true). apply list_elem_of_In in Hp.
  apply kscope_app_inj in E as [Es Er].
  assert (i_ref p = x e /\ i_incident p = i e) as [Ei Ein].
  { destruct (i_ref p), (x e). cbn in Er. by injection Er as -> -> ->. }
  rewrite Hl in Hp. apply elem_of_app in Hp as [Hp| ->%list_elem_of_singleton]; [by exists p|done].
Qed.
Lemma fk_in d f : db_ok d -> f ∈ fks -> fk_holds d f = true.
Proof. intros [_ Hf] Hin. rewrite forallb_forall in Hf. by apply Hf, list_elem_of_In. Qed.

Section Adding.
Context `{Env}.

Lemma adding_parent c sc incident child ref :
  i_scope c = sc -> i_incident c = incident -> i_ref c = child -> ref ∈ I_Parents (i_envelope c) -> ref <> child ->
  Steps (adding c) (insert Tparents (fun _ => mkParentRow sc incident child ref)).
Proof.
  intros Es Ei Er Hin Hne. apply steps_exec; [exact _|]. intros now d a d' Hs l Hl.
  pose proof (store_keeps _ _ _ _ _ _ Hs) as Hk. apply store_ok in Hs as (_ & Ed & _).
  assert (El : d' Titems = l ++ [c]) by (by rewrite Ed, upd_other). split; [done|].
  intros Hd [H1 H2 H3]. pose proof (Hk Hd) as Hd'. split; [done|].
  assert (E1 : d' Titems = d Titems) by (by rewrite El, Hl). constructor.
  - by rewrite E1.
  - intros e He. rewrite Ed, upd_same in He. apply elem_of_app in He as [He| ->%list_elem_of_singleton].
    + destruct (H2 e He) as (c' & p & Hb & Hr). exists c', p. split; [by eapply before_same|done].
    + destruct (referenced_incident d' Tparents (mkParentRow sc incident child ref) p_scope p_incident p_parent l c)
        as (p & Hp & Ps & Pi & Pr); [apply fk_in; [done|by do 3 right; left] | | done | cbn; congruence |].
      { rewrite Ed, upd_same. apply elem_of_app. right. by left. }
      exists c, p. cbn in *. split; [|done]. constructor; [done..|]. exists l, []. by rewrite El.
  - rewrite Ed, upd_other by done. intros e He. destruct (H3 e He) as (c' & p & Hb). exists c', p.
    eapply before_same; [|done]. by rewrite <- Ed.
Qed.
Lemma adding_history c sc child ref skip :
  i_scope c = sc -> i_ref c = child -> R_ID ref <> R_ID child ->
  Steps (adding c) (insert_or_skip Thistory skip (fun _ => mkHistoryRow sc child ref)).
Proof.
  intros Es Er Hne. apply steps_exec; [exact _|]. intros now d a d' Hs l Hl.
  destruct (check _ _); [|done]. cbn [negb] in Hs. destruct (existsb _ _); [by injection Hs as _ <-|].
  pose proof (store_keeps _ _ _ _ _ _ Hs) as Hk. apply store_ok in Hs as (_ & Ed & _).
  assert (El : d' Titems = l ++ [c]) by (by rewrite Ed, upd_other). split; [done|].
  intros Hd [H1 H2 H3]. pose proof (Hk Hd) as Hd'. split; [done|].
  assert (E1 : d' Titems = d Titems) by (by rewrite El, Hl). constructor.
  - by rewrite E1.
  - intros e He. rewrite Ed, upd_other in He by done. destruct (H2 e He) as (c' & p & Hb & Hr). exists c', p.
    split; [by eapply before_same|done].
  - intros e He. rewrite Ed, upd_same in He. apply elem_of_app in He as [He| ->%list_elem_of_singleton].
    + destruct (H3 e He) as (c' & p & Hb). exists c', p. by eapply before_same.
    + destruct (referenced d' Thistory (mkHistoryRow sc child ref) h_scope h_parent l c)
        as (p & Hp & Ps & Pr); [apply fk_in; [done|by do 22 right; left] | | done | cbn; congruence |].
      { rewrite Ed, upd_same. apply elem_of_app. right. by left. }
      exists c, p. cbn in *. constructor; [done..|]. exists l, []. by rewrite El.
Qed.

(** ** Writing an item *)
Lemma steps_for_each_in R `{!Reflexive R, !Transitive R} {A} (f : A -> M unit) l :
  (forall a, a ∈ l -> Steps R (f a)) -> Steps R (for_each f l).
Proof.
  induction l as [|a l IH]; intros Hf; cbn; [by apply steps_ret|].
  apply steps_bind; [exact _|apply Hf; left|]. intros _. apply IH. intros b Hb. apply Hf. by right.
Qed.

Lemma adding_linkGuidance c t s : i_scope c = scope t -> i_ref c = self_ref s -> Steps (adding c) (linkGuidance t s).
Proof.
  intros Es Er. unfold linkGuidance. case_if as E; [apply steps_ret; exact _|].
  destruct (Unmarshal _ _ _) as [knowledge|]; [|apply steps_throw; exact _].
  apply steps_guarded; [exact _..|]. intros _. apply steps_for_each; [exact _..|]. intros ref.
  apply steps_bind; [exact _|apply steps_pure; [exact _|]; unfold GetGoldenCase; steps|]. intros g.
  apply steps_guarded; [exact _..|]. intros _.
  apply steps_bind; [exact _|apply steps_pure; [exact _|]; unfold GetRecoveryAssessment; steps|]. intros a.
  apply steps_for_each; [exact _..|]. intros parent. apply steps_guarded; [exact _..|]. intros Hne%negb_true_iff%str_eqb_neq.
  apply steps_bind; [exact _|apply steps_pure; [exact _|apply pure_GetItem]|]. intros _.
  apply steps_bind; [exact _|by apply adding_history|]. intros _. apply steps_ret. exact _.
Qed.

(** The statements that follow the insertion of an item's row. *)
Lemma adding_rest c t s :
  Seal s = Ok s -> i_scope c = scope t -> i_incident c = I_IncidentID s -> i_ref c = self_ref s ->
  I_Parents (i_envelope c) = I_Parents s ->
  Steps (adding c) (insert Teligibility (fun _ => mkEligibilityRow (scope t) (self_ref s) false) ;;
    for_each (fun ref => insert Tparents (fun _ => mkParentRow (scope t) (I_IncidentID s) (self_ref s) ref)) (I_Parents s) ;;
    linkGuidance t s).
Proof.
  intros Hs Es Ei Er Ep. apply steps_bind; [exact _| |intros _].
  - apply steps_exec; [exact _|]. intros now d a d'. by apply adding_elsewhere.
  - apply steps_bind; [exact _| |intros _; by apply adding_linkGuidance]. apply steps_for_each_in; [exact _..|].
    intros ref Hin. apply adding_parent; try done; [by rewrite Ep|]. apply Seal_sealed in Hs. intros ->.
    destruct (sealed_parents _ Hs) as (_ & _ & Hself & _). by apply Hself.
Qed.

(** A sealed item is appended. *)
Lemma insert_item_keeps s envelope t d (a : unit) d' :
  Seal s = Ok s -> I_Scope s = scope t -> jsonb_item s = Some envelope ->
  let c : row Titems := mkItemRow (scope t) (I_IncidentID s) (self_ref s) (I_Kind s) envelope (I_Hash s)
    (pgTime (I_ObservedAt s)) (pgTime (I_ValidUntil s)) in
  store tt d Titems (d Titems ++ [c]) = inr (a, d') -> keeps_graph d d'.
Proof.
  intros Hs Esc Ej c Hst. pose proof (store_keeps _ _ _ _ _ _ Hst) as Hk. apply store_ok in Hst as (_ & Ed & _).
  assert (El : d' Titems = d Titems ++ [c]) by (by rewrite Ed, upd_same).
  intros Hd [H1 H2 H3]. split; [by apply Hk|]. constructor.
  - rewrite El. intros r [Hr| ->%list_elem_of_singleton]%elem_of_app; [by apply H1|]. exists s. by constructor.
  - rewrite Ed, upd_other by done. intros e He. destruct (H2 e He) as (c' & p & Hb & Hr). exists c', p.
    split; [|done]. eapply before_app; [|done]. by rewrite <- Ed.
  - rewrite Ed, upd_other by done. intros e He. destruct (H3 e He) as (c' & p & Hb). exists c', p.
    eapply before_app; [|done]. by rewrite <- Ed.
Qed.

Lemma graph_PutItem t item0 : Steps keeps_graph (PutItem t item0).
Proof.
  unfold PutItem. apply steps_guarded; [exact _..|]. intros Hsc. apply scope_eqb_eq in Hsc.
  destruct (Seal item0) as [s|] eqn:Es; [|apply steps_throw; exact _].
  assert (Hs : Seal s = Ok s) by (by eapply Seal_idempotent). apply Seal_fields in Es as (Esc & _).
  apply steps_bind; [exact _|apply steps_pure; [exact _|]|intros _].
  { repeat first [apply pure_GetItem | steps_one]. }
  destruct (jsonb_item s) as [envelope|] eqn:Ej; [|apply steps_throw; exact _].
  set (row := mkItemRow _ _ _ _ _ _ _ _).
  intros w x w' Hr. unfold bind at 1 in Hr. destruct (insert Titems _ w) as [[u|e] w1] eqn:Ei.
  - assert (Hrow : db w1 Titems = db w Titems ++ [row]) by (apply insert_ok in Ei as (-> & _); by rewrite upd_same).
    assert (Hk : keeps_graph (db w) (db w1)).
    { revert Ei. apply (steps_exec keeps_graph). intros now d a d'. by apply insert_item_keeps; [|congruence|]. }
    etrans; [exact Hk|]. refine (proj2 (adding_rest row t s Hs eq_refl eq_refl eq_refl _ w1 x w' Hr _ Hrow)).
    unfold jsonb_item in Ej. destruct (jsonb_text _); [|done]. by injection Ej as <-.
  - injection Hr as _ <-. revert Ei. unfold insert, exec. destruct (fault _); [by intros [= _ <-]|].
    destruct (store _ _ _ _) as [|[? ?]]; [by intros [= _ <-]|done].
Qed.
End Adding.

(** ** Every request *)
Ltac graph_side :=
  intros; match goal with H : store _ _ _ _ = inr _ |- _ => eapply proj1, store_elsewhere; [|exact H]; reflexivity end.
Ltac graph_step :=
  first
  [ apply graph_PutItem
  | apply steps_pure; [exact _|solve [auto with pure nocore]]
  | progress cbv zeta
  | apply steps_insert; [exact _|graph_side]
  | apply steps_insert_or_skip; [exact _|graph_side]
  | apply steps_upsert; [exact _|graph_side]
  | apply steps_update_returning; [exact _|graph_side]
  | apply steps_update; [exact _|exact _|graph_side]
  | apply steps_delete_returning; [exact _|graph_side]
  | apply steps_delete; [exact _|exact _|graph_side]
  | apply steps_exec; [exact _|intros ? ? ? ?; cbv zeta; graph_side]
  | steps_one ].

Section Requests.
Context `{Env}.

Lemma graph_tx_op t o : Steps keeps_graph (run_tx_op t o).
Proof. destruct o; cbn [run_tx_op]; unfold_methods; repeat graph_step. Qed.

Lemma graph_request r : Steps keeps_graph (run_request r).
Proof.
  destruct r as [? ? []| | | | | | | | | | | | | | | | | | | | | | | | | | | | |epoch sc fn Hfn]; cbn [run_request];
    [..|by apply steps_Transact; [exact _|]; intros t Ht; eapply composed_steps;
      [exact _|exact _|intros o; apply graph_tx_op|apply Hfn]];
    unfold_services; unfold_methods;
    unfold CreateLoginChallenge, ConsumeLoginChallenge, CreateBrowserSession, DeleteBrowserSession, createAuthRecord;
    repeat graph_step.
  all: apply graph_tx_op.
Qed.
End Requests.

Lemma steps_graph d d' : rtc step d d' -> keeps_graph d d'.
Proof.
  induction 1 as [|d d1 d' [E r k x w' Hr ->] _ IH]; [done|]. etrans; [exact (graph_request r _ _ _ Hr)|done].
Qed.
Lemma system_graph d : system d -> graph_ok d.
Proof. intros Hs. apply (steps_graph _ _ Hs); [apply empty_ok|]. constructor; by intros r ?%not_elem_of_nil. Qed.
