(* ===== verification/ItemEdges.v ===== *)
(** * Nothing that an item names is left out

    An item is stored with an edge to each item it names, or not at all: what a
    transaction that fails has written does not stay. *)

From stdpp Require Import relations.
From S2P Require Import Prelude.
From S2P Require Import Sha256.
From S2P Require Import Md5.
From S2P Require Import Json.
From S2P Require Import JsonFacts.
From S2P Require Import GoTime.
From S2P Require Import Decode.
From S2P Require Import Identity.
From S2P Require Import Authorization.
From S2P Require Import Incident.
From S2P Require Import Db.
From S2P Require Import Sql.
From S2P Require Import Storage.
From S2P Require Import Lineage.
From S2P Require Import Records.
From S2P Require Import Queues.
From S2P Require Import Privacy.
From S2P Require Import Fleet.
From S2P Require Import Recovery.
From S2P Require Import Governance.
From S2P Require Import Investigation.
From S2P Require Import Knowledge.
From S2P Require Import Snapshot.
From S2P Require Import Rounds.
From S2P Require Import Diagnosis.
From S2P Require Import Execution.
From S2P Require Import ExecutionFacts.
From S2P Require Import ExecutionSafety.
From S2P Require Import System.
From S2P Require Import Evolution.
From S2P Require Import ItemGraph.
Definition named (d : DB) : Prop := forall (r : row Titems) ref, r ∈ d Titems -> ref ∈ I_Parents (i_envelope r) ->
  exists e : row Tparents, e ∈ d Tparents /\ p_scope e = i_scope r /\ p_child e = i_ref r /\ p_parent e = ref.
Definition keeps_named (d d' : DB) : Prop := named d -> named d'.
#[export] Instance keeps_named_refl : Reflexive keeps_named.
Proof. by intros d Hd. Qed.
#[export] Instance keeps_named_trans : Transitive keeps_named.
Proof. intros a b c H1 H2 Ha. by apply H2, H1. Qed.

Lemma store_named {A} (a : A) d t l a' d' :
  graph_table t = false -> store a d t l = inr (a', d') -> keeps_named d d'.
Proof.
  intros Ht (_ & -> & _)%store_ok Hd r ref. rewrite !upd_other by (by intros ->). apply Hd.
Qed.

(** What holds of the runs of [m] that succeed. *)
Definition OkSteps {A} (R : DB -> DB -> Prop) (m : M A) : Prop := forall w a w', m w = (Ok a, w') -> R (db w) (db w').

Section OkSteps.
Context `{Env} (R : DB -> DB -> Prop) `{!Reflexive R, !Transitive R}.

Lemma ok_steps {A} (m : M A) : Steps R m -> OkSteps R m.
Proof. intros Hm w a w' Hr. exact (Hm _ _ _ Hr). Qed.
Lemma ok_bind {A B} (m : M A) (f : A -> M B) : OkSteps R m -> (forall a, OkSteps R (f a)) -> OkSteps R (bind m f).
Proof. intros Hm Hf w b w' (a & w1 & H1 & H2)%bind_ok. etrans; [exact (Hm _ _ _ H1)|exact (Hf _ _ _ _ H2)]. Qed.
Lemma ok_catch {A} (m : M A) h : Steps eq m -> (forall e, OkSteps R (h e)) -> OkSteps R (catch m h).
Proof.
  intros Hm Hh w a w' [Hr|(e & w1 & Hr & Hx)]%catch_ok; [by rewrite (Hm _ _ _ Hr)|].
  rewrite (Hm _ _ _ Hr). exact (Hh _ _ _ _ Hx).
Qed.
Lemma ok_for_each {A} (f : A -> M unit) l : (forall a, OkSteps R (f a)) -> OkSteps R (for_each f l).
Proof. intros Hf. induction l; cbn; [apply ok_steps, steps_ret; done|by apply ok_bind]. Qed.
Lemma ok_map_each {A B} (f : A -> M B) l : (forall a, OkSteps R (f a)) -> OkSteps R (map_each f l).
Proof.
  intros Hf. induction l; cbn; [apply ok_steps, steps_ret; done|]. apply ok_bind; [done|]. intros b.
  apply ok_bind; [done|]. intros bs. apply ok_steps, steps_ret. done.
Qed.
Lemma ok_Transact {A} epoch sc (fn : Tx -> M A) :
  (forall tx, scope tx = sc -> OkSteps R (fn tx)) -> Steps R (Transact epoch sc fn).
Proof.
  intros Hf w r w' [E|(_ & a & w0 & w1 & E & Hr & -> & _)]%Transact_atomic; [by rewrite E|].
  rewrite <- E. by refine (Hf _ _ _ _ _ Hr).
Qed.
Lemma ok_in_transaction {A} (m : M A) : OkSteps R m -> Steps R (in_transaction m).
Proof.
  intros Hm w r w'. unfold in_transaction. destruct (m w) as [[a|e] w1] eqn:E; [|by intros [= _ <-]].
  apply Hm in E. destruct (fault _); [|by intros [= _ <-]]. destruct (commit_applied _); by intros [= _ <-].
Qed.
Lemma ok_composed t {A} (m : M A) : (forall o, OkSteps R (run_tx_op t o)) -> composed t m -> OkSteps R m.
Proof.
  intros Ho. induction 1 as [A m Hm|o|A m o E|A B m k _ IH1 _ IH2|A m h Hm _ IH2].
  - by apply ok_steps, steps_pure.
  - apply Ho.
  - intros w a w' Hr. eapply (Ho o w tt w'). rewrite E. unfold bind. by rewrite Hr.
  - by apply ok_bind.
  - by apply ok_catch.
Qed.
End OkSteps.

Section Named.
Context `{Env}.

Lemma for_each_parents sc incident child l : forall w x w',
  for_each (fun ref => insert Tparents (fun _ => mkParentRow sc incident child ref)) l w = (Ok x, w') ->
  db w' Titems = db w Titems /\ (forall e : row Tparents, e ∈ db w Tparents -> e ∈ db w' Tparents) /\
  forall ref, ref ∈ l -> mkParentRow sc incident child ref ∈ db w' Tparents.
Proof.
  induction l as [|p l IH]; intros w x w' Hr; cbn in Hr.
  - injection Hr as _ <-. split; [done|]. split; [done|]. by intros ref ?%elem_of_nil.
  - apply bind_ok in Hr as ([] & w1 & (E & _)%insert_ok & Hr). destruct (IH _ _ _ Hr) as (H1 & H2 & H3).
    split; [by rewrite H1, E, upd_other|]. split.
    + intros e He. apply H2. rewrite E, upd_same. apply elem_of_app. by left.
    + intros ref [->|Hin]%elem_of_cons; [|by apply H3]. apply H2. rewrite E, upd_same. apply elem_of_app. right. by left.
Qed.

Lemma named_PutItem t item0 : OkSteps keeps_named (PutItem t item0).
Proof.
  unfold PutItem. intros w x w' Hr. run. destruct (Seal item0) as [s|]; [|done].
  apply bind_ok in Hr as (u & w1 & Hc & Hr).
  assert (E1 : db w = db w1).
  { refine ((_ : Steps eq _) _ _ _ Hc). repeat first [apply pure_GetItem | steps_one]. }
  destruct (jsonb_item s) as [envelope|] eqn:Ej; [|done].
  apply bind_ok in Hr as ([] & w2 & (E2 & _)%insert_ok & Hr). apply bind_ok in Hr as ([] & w3 & (E3 & _)%insert_ok & Hr).
  apply bind_ok in Hr as (v & w4 & (H1 & H2 & H3)%for_each_parents & Hl).
  assert (Ht : touches [Thistory] (db w4) (db w')).
  { assert (Hs : Steps (touches [Thistory]) (linkGuidance t s)); [|exact (Hs _ _ _ Hl)].
    unfold linkGuidance, GetGoldenCase, GetRecoveryAssessment, GetItem, check_item_scope. steps. }
  intros Hd r ref. rewrite (Ht Titems), (Ht Tparents) by (by intros [[=]|[]%elem_of_nil]%elem_of_cons).
  rewrite H1, E3, upd_other, E2, upd_same, <- E1 by done. intros [Hr| ->%list_elem_of_singleton]%elem_of_app Hin.
  - destruct (Hd r ref Hr Hin) as (e & He & Hs). exists e. split; [|done]. apply H2.
    by rewrite E3, upd_other, E2, upd_other, <- E1 by done.
  - eexists. split; [apply H3|done]. unfold jsonb_item in Ej. destruct (jsonb_text _); [|done].
    by injection Ej as <-.
Qed.
End Named.

Ltac named_side :=
  intros; match goal with H : store _ _ _ _ = inr _ |- _ => eapply store_named; [|exact H]; reflexivity end.
Ltac named_steps :=
  repeat first
  [ apply steps_pure; [exact _|solve [auto with pure nocore]]
  | progress cbv zeta
  | lazymatch goal with |- Steps _ (Transact _ _ _) => apply ok_Transact; [exact _|intros ? ?] end
  | lazymatch goal with |- Steps _ (in_transaction _) => apply ok_in_transaction; [exact _|] end
  | lazymatch goal with |- Steps _ _ => idtac end;
    first
    [ apply steps_insert; [exact _|named_side]
    | apply steps_insert_or_skip; [exact _|named_side]
    | apply steps_upsert; [exact _|named_side]
    | apply steps_update_returning; [exact _|named_side]
    | apply steps_update; [exact _|exact _|named_side]
    | apply steps_delete_returning; [exact _|named_side]
    | apply steps_delete; [exact _|exact _|named_side]
    | apply steps_exec; [exact _|intros ? ? ? ?; cbv zeta; named_side]
    | steps_one ]
  | lazymatch goal with
    | |- OkSteps _ (PutItem _ _) => apply named_PutItem
    | |- OkSteps _ (run_tx_op _ _) => fail
    | |- OkSteps _ (bind _ _) => apply ok_bind; [exact _| |intros ?]
    | |- OkSteps _ (for_each _ _) => apply ok_for_each; [exact _|exact _|intros ?]
    | |- OkSteps _ (map_each _ _) => apply ok_map_each; [exact _|exact _|intros ?]
    | |- OkSteps _ (catch _ _) => apply ok_catch; [exact _|solve [auto with pure nocore | steps]|intros ?]
    | |- OkSteps _ (if ?b then _ else _) => destruct b
    | |- OkSteps _ (match ?x with _ => _ end) => destruct x
    | |- OkSteps _ _ => apply ok_steps
    end ].

Section NamedRequests.
Context `{Env}.

Lemma named_tx_op t o : OkSteps keeps_named (run_tx_op t o).
Proof. destruct o; cbn [run_tx_op]; unfold_methods; named_steps. Qed.

Lemma named_request r : Steps keeps_named (run_request r).
Proof.
  destruct r as [? ? []| | | | | | | | | | | | | | | | | | | | | | | | | | | | |epoch sc fn Hfn]; cbn [run_request];
    [..|by apply ok_Transact; [exact _|]; intros t Ht; eapply ok_composed;
      [exact _|exact _|intros o; apply named_tx_op|apply Hfn]];
    unfold_services; unfold_methods;
    unfold CreateLoginChallenge, ConsumeLoginChallenge, CreateBrowserSession, DeleteBrowserSession, createAuthRecord;
    named_steps.
  all: apply named_tx_op.
Qed.
End NamedRequests.

Lemma steps_named d d' : rtc step d d' -> keeps_named d d'.
Proof.
  induction 1 as [|d d1 d' [E r k x w' Hr ->] _ IH]; [done|]. etrans; [exact (named_request r _ _ _ Hr)|done].
Qed.
Lemma system_named d : system d -> named d.
Proof. intros Hs. apply (steps_named _ _ Hs). by intros r ref ?%not_elem_of_nil. Qed.

(** ** The order in which items are stored *)
Lemma item_place d i j a b :
  db_ok d -> d Titems !! i = Some a -> d Titems !! j = Some b -> i_scope a = i_scope b -> i_ref a = i_ref b -> i = j.
Proof.
  intros [Hd _] Ha Hb Es Er. destruct (Hd Titems) as [_ Hu]. unfold unique_ok in Hu. rewrite forallb_forall in Hu.
  specialize (Hu (fun r : ItemRow => Some (kscope (i_scope r) ++ kref (i_ref r))) (or_introl eq_refl)).
  apply bool_decide_eq_true in Hu.
  assert (Hm : forall l : list ItemRow, omap (fun r => Some (kscope (i_scope r) ++ kref (i_ref r))) l =
    map (fun r => kscope (i_scope r) ++ kref (i_ref r)) l) 
    by (induction l as [|x l IH]; [done|cbn; f_equal; exact IH]).
  rewrite Hm in Hu. set (key_of := fun r : ItemRow => _) in Hu.
  assert (Hk : forall k x, d Titems !! k = Some x -> map key_of (d Titems) !! k = Some (key_of x)).
  { intros k x Hx. rewrite list_lookup_fmap. exact (f_equal (fmap key_of) Hx). }
  assert (E : key_of a = key_of b) by (unfold key_of; by rewrite Es, Er).
  eapply NoDup_lookup; [exact Hu|exact (Hk i a Ha)|]. rewrite E. exact (Hk j b Hb).
Qed.

(** [parent] is stored before [child]. *)
Definition older (d : DB) (sc : Scope) (child parent : ItemRef) : Prop :=
  exists i j c p, d Titems !! i = Some c /\ i_scope c = sc /\ i_ref c = child /\
    d Titems !! j = Some p /\ i_scope p = sc /\ i_ref p = parent /\ (j < i)%nat.

Lemma older_before d sc child parent : older d sc child parent <-> exists c p, stored_before d sc child parent c p.
Proof.
  split.
  - intros (i & j & c & p & Hi & Ec & Er & Hj & Es & Ep & Hlt). exists c, p. constructor; [done..|].
    exists (take i (d Titems)), (drop (S i) (d Titems)). split; [by rewrite take_drop_middle|].
    apply (list_elem_of_lookup_2 _ j). by rewrite lookup_take_lt.
  - intros (c & p & [[Ec Er] [Es Ep] (l1 & l2 & E & [j Hj]%list_elem_of_lookup_1)]). exists (length l1), j, c, p.
    rewrite E. split; [by apply list_lookup_middle|]. do 2 (split; [done|]).
    split; [by apply lookup_app_l_Some|]. do 2 (split; [done|]). by apply lookup_lt_Some in Hj.
Qed.
Lemma older_trans d sc a b c : db_ok d -> older d sc a b -> older d sc b c -> older d sc a c.
Proof.
  intros Hd (i & j & x & y & H1 & H2 & H3 & H4 & H5 & H6 & H7) (i' & j' & x' & y' & K1 & K2 & K3 & K4 & K5 & K6 & K7).
  exists i, j', x, y'. repeat split; try done. assert (j = i') by (eapply item_place; [done|exact H4|exact K1|congruence..]). lia.
Qed.
Lemma older_irrefl d sc a : db_ok d -> ~ older d sc a a.
Proof.
  intros Hd (i & j & x & y & H1 & H2 & H3 & H4 & H5 & H6 & H7).
  assert (i = j) by (eapply item_place; [done|exact H1|exact H4|congruence..]). lia.
Qed.

Lemma edge_older d t child parent b : graph_ok d -> (child, parent, b) ∈ edges t d -> older d (scope t) child parent.
Proof.
  intros [_ H2 H3]. unfold edges. rewrite older_before. intros [He|He]%elem_of_app;
    apply list_elem_of_fmap in He as (e & [= -> -> ->] & He); apply list_elem_of_In, filter_In in He as [He Hs];
    apply list_elem_of_In in He; apply scope_eqb_eq in Hs; rewrite <- Hs.
  - destruct (H2 e He) as (c & p & Hb & _). by exists c, p.
  - by apply H3.
Qed.
Lemma ancestors_older d t n n' :
  db_ok d -> graph_ok d -> tc (parent (edges t d)) n n' -> older d (scope t) (fst n) (fst n').
Proof.
  intros Hd Hg. assert (H1 : forall x y, parent (edges t d) x y -> older d (scope t) (fst x) (fst y)).
  { intros x y ([[c p] b] & He & <- & ->). by apply (edge_older _ _ _ _ b). }
  induction 1 as [x y Hp|x y z Hp _ IH]; [by apply H1|]. eapply older_trans; [done|by apply H1|done].
Qed.

(** The edges of an item are the items that its sealed text names. *)
Lemma edges_named d (r : row Titems) s ref :
  db_ok d -> graph_ok d -> named d -> r ∈ d Titems -> stored_as s r ->
  (ref ∈ I_Parents s <->
   exists e : row Tparents, e ∈ d Tparents /\ p_scope e = i_scope r /\ p_child e = i_ref r /\ p_parent e = ref).
Proof.
  intros Hd Hg Hn Hr Hs. assert (Ep : I_Parents (i_envelope r) = I_Parents s).
  { pose proof (si_text _ _ Hs) as E. unfold jsonb_item in E. destruct (jsonb_text _); [|done]. by injection E as <-. }
  rewrite <- Ep. split; [by apply Hn|]. intros (e & He & Es & Ec & <-).
  destruct (go_parents _ Hg e He) as (c & p & [[Cs Cr] _ (l1 & l2 & El & _)] & _ & _ & Hin).
  apply list_elem_of_lookup_1 in Hr as [i Hi].
  assert (Hc : d Titems !! length l1 = Some c) by (rewrite El; by apply list_lookup_middle).
  assert (i = length l1) by (eapply item_place; [done|exact Hi|exact Hc|congruence..]). congruence.
Qed.
