(* ===== verification/Scenario.v ===== *)
(** * A concrete deployment

    One organisation with a collector, an executor, an administrator and an
    owner, a clock that ticks a millisecond per effect, and no failures.  The
    programs of the model run on it: agents enroll, an incident with a crash
    loop observation is stored, and its pod is replaced through proposal,
    approval, claim and receipt.  The theorems are applied to it. *)

From stdpp Require Import relations.
From S2P Require Import Prelude.
From S2P Require Import Sha256.
From S2P Require Import Json.
From S2P Require Import JsonFacts.
From S2P Require Import GoTime.
From S2P Require Import Decode.
From S2P Require Import Identity.
From S2P Require Import Authorization.
From S2P Require Import Incident.
From S2P Require Import Db.
From S2P Require Import Sql.
From S2P Require Import Storage.
From S2P Require Import Records.
From S2P Require Import Queues.
From S2P Require Import Privacy.
From S2P Require Import Fleet.
From S2P Require Import Registry.
From S2P Require Import Execution.
From S2P Require Import ExecutionFacts.
From S2P Require Import ExecutionSafety.

Module Demo.
(** 2026-01-01T00:00:00Z in nanoseconds since 1970. *)
Definition T0 : Time := 1767225600 * Second.

#[export] Instance env : Env := {|
  go_now k := T0 + Z.of_nat k * 1000000;
  pg_now k := T0 + Z.of_nat k * 1000000;
  rand_bytes k n := List.map (fun i => (Z.of_nat k * 7 + Z.of_nat i) mod 256) (seq 0 n);
  fault _ := None;
  commit_applied _ := true
|}.

Definition sc : Scope := mkScope "org" "cluster" "app".
Definition admin : Principal := mkPrincipal "admin" "https://issuer" "" "" "" ["admins"] T0 (T0 + 10 * Minute).
Definition owner : Principal := mkPrincipal "owner" "https://issuer" "" "" "" ["owners"] T0 (T0 + 10 * Minute).
Definition policy : Policy := mkPolicy [] [mkBinding sc "admins" Administrator; mkBinding sc "owners" Owner;
  mkBinding sc "owners" Steward] "v1".
Definition epoch : string := "epoch-1".
Definition svc : Service := mkService policy epoch epoch.
Definition exec_svc : option ExecService := Some (mkExec (Some svc) true).

Definition enroll (id role : string) : M string :=
  let* b := Bootstrap svc admin sc id "cluster-uid" role in
  let* c := Enroll svc sc (C_Token b) "cluster-uid" role in
  ret (C_Token c).

(** The broken pod, under the key of the cluster's registry. *)
Definition registry_key : list Z := repeat 7 32.
Definition target : LocalTarget :=
  mkLocal sc "Pod" "prod" "web-0" "01234567-89ab-cdef-0123-456789abcdef" "42" epoch 1.
Definition handle : string := Eval vm_compute in fst (Registry.tokens registry_key target).
Definition commitment : string := Eval vm_compute in snd (Registry.tokens registry_key target).
Definition quoted (s : string) : json := JStr s.
Definition body : string := encode (JObj
  [("code", JStr CrashLoop); ("observed_at", JStr "2026-01-01T00:00:00Z"); ("resource_handle", JStr handle);
   ("source", JObj [("agent_id", JStr "collector"); ("epoch", JStr epoch); ("generation", JNum "1");
                    ("report_id", JStr handle)]);
   ("target", JObj [("commitment", JStr commitment); ("kind", JStr "Pod"); ("resource_version", JStr "42");
                    ("uid", JStr "01234567-89ab-cdef-0123-456789abcdef")]);
   ("valid_until", JStr "2026-01-01T00:30:00Z")]).
Definition item : Item := mkItem sc "incident" "evidence" 1 Evidence body T0 (T0 + 30 * Minute) [] "".
Definition ref : ItemRef := mkRef "evidence" 1.

Definition world0 : World := mkWorld empty_db 0.
Definition after {A} (m : M A) (w : World) : World := snd (m w).
Definition result {A} (m : M A) (w : World) : res A := fst (m w).
Definition value {A} (d : A) (r : res A) : A := match r with Ok a => a | Err _ => d end.

(** Both agents enrolled, the incident and its evidence stored. *)
Definition setup : M (string * string) :=
  let* collector := enroll "collector" Collector in
  let* executor := enroll "executor" Executor in
  Transact epoch sc (fun t => CreateIncident t (mkIncident sc "incident" 1 "OPEN" T0) ;; PutItem t item) ;;
  ret (collector, executor).
Definition tokens : string * string := value ("", "") (result setup world0).
Definition world1 : World := after setup world0.

Definition sealed_hash : string := match Seal item with Ok i => I_Hash i | Err _ => "" end.
Definition request : ProposeRequest := mkPropose "incident" "REPLACE_POD" ref sealed_hash "executor".
Definition zero_plan : ActionPlan := mkPlan sc "" "" "" ref "" "" "" "" 0 "" 0 "" "" 0.
Definition zero_action : Action := mkAction zero_plan "" 0 "" "" "" 0 0 0 0 "" "".

Definition propose : M Action := Propose exec_svc owner sc request.
Definition proposed : Action := value zero_action (result propose world1).
Definition id : string := Pl_ID (A_Plan proposed).
Definition world2 : World := after propose world1.

Definition approve : M Action := Execution.Approve exec_svc owner sc id (A_Hash proposed).
Definition world3 : World := after approve world2.

Definition claim : M ClaimResult := Claim exec_svc sc (snd tokens) id.
Definition claimed : ClaimResult := value (mkClaim zero_action "") (result claim world3).
Definition world4 : World := after claim world3.

Definition revoke : M unit := Revoke svc admin sc "executor".
Definition receipt : M Action := Receipt exec_svc sc (snd tokens) id (CL_ReceiptToken claimed) "APPLIED".
Definition world5 : World := after receipt world4.

(** Every stage succeeds, and the event log of the action tells its life. *)
Lemma scenario_runs :
  is_ok (result setup world0) = true /\ is_ok (result propose world1) = true /\
  is_ok (result approve world2) = true /\ is_ok (result claim world3) = true /\
  is_ok (result receipt world4) = true /\ is_ok (result revoke world3) = true /\ map A_State (log (db world5) sc id) = ["PROPOSED"; "APPROVED"; "SUBMITTED"; "APPLIED"]
  /\ db world1 Tactions = [] /\ db world1 Taction_events = []
  /\ (fun a => Pl_ExecutorID (A_Plan a)) <$> action_view (db world3) sc id = Some "executor".
Proof. vm_compute. repeat split. Qed.

Lemma run_value {A} (m : M A) w d : is_ok (result m w) = true -> m w = (Ok (value d (result m w)), after m w).
Proof. unfold result, after. by destruct (m w) as [[a|e] w']. Qed.
Lemma run_pair {A} (m : M A) w : m w = (result m w, after m w).
Proof. apply surjective_pairing. Qed.

Lemma setup_steps : rtc sys_step empty_db (db world1).
Proof. apply rtc_once, sys_other. destruct scenario_runs as (_ & _ & _ & _ & _ & _ & _ & E1 & E2 & _). by split. Qed.

Lemma after_unit {A} (m : M A) w : after (m ;; ret tt) w = after m w.
Proof. unfold after, bind. by destruct (m w) as [[a|e] w']. Qed.

(** A request of the service is a step. *)
Lemma op_step {A} (op : exec_op) (m : M A) (w : World) :
  run_op exec_svc sc op = (m ;; ret tt) -> sys_step (db w) (db (after m w)).
Proof.
  intros E. destruct w as [d k]. eapply (sys_exec _ _ _ exec_svc sc op k); [apply run_pair|].
  by rewrite E, after_unit.
Qed.

Lemma op_run op (w : World) : sys_step (db w) (db (after (run_op exec_svc sc op) w)).
Proof. destruct w as [d k]. by eapply (sys_exec _ _ _ exec_svc sc op k), eq_refl; apply run_pair. Qed.
Lemma propose_op p r w : sys_step (db w) (db (after (Propose exec_svc p sc r) w)).
Proof. by apply (op_step (OpPropose p r)). Qed.
Lemma approve_op p i h w : sys_step (db w) (db (after (Execution.Approve exec_svc p sc i h) w)).
Proof. by apply (op_step (OpApprove p i h)). Qed.
Lemma claim_op tok i w : sys_step (db w) (db (after (Claim exec_svc sc tok i) w)).
Proof. by apply (op_step (OpClaim tok i)). Qed.
Lemma receipt_op tok i rc o w : sys_step (db w) (db (after (Receipt exec_svc sc tok i rc o) w)).
Proof. by apply (op_step (OpReceipt tok i rc o)). Qed.

Lemma propose_step : sys_step (db world1) (db world2).
Proof. unfold world2, propose. apply propose_op. Qed.
Lemma approve_step : sys_step (db world2) (db world3).
Proof. unfold world3, approve. apply approve_op. Qed.
Lemma claim_step : sys_step (db world3) (db world4).
Proof. unfold world4, claim. apply claim_op. Qed.
Lemma receipt_step : sys_step (db world4) (db world5).
Proof. unfold world5, receipt. apply receipt_op. Qed.

Lemma claim_run d : is_ok (result claim world3) = true ->
  Claim exec_svc sc (snd tokens) id world3 = (Ok (value d (result claim world3)), world4).
Proof. unfold world4, claim. apply run_value. Qed.
Lemma receipt_run d : is_ok (result receipt world4) = true ->
  receipt world4 = (Ok (value d (result receipt world4)), world5).
Proof. unfold world5. apply run_value. Qed.
#[global] Opaque world0 world1 world2 world3 world4 world5 tokens id proposed claimed.
End Demo.
