(* ===== verification/ExecutionProps.v ===== *)
(** * Theorems on the approval protocol

    What pkg/execution guarantees of every action in every reachable database:
    refinement of the abstract machine, the well-formedness invariant, an
    approval before the single submission, final outcomes, an immutable plan,
    and the authority behind every transition. *)

From stdpp Require Import relations.
From S2P Require Import Prelude.
From S2P Require Import Sha256.
From S2P Require Import Json.
From S2P Require Import JsonFacts.
From S2P Require Import GoTime.
From S2P Require Import Decode.
From S2P Require Import Identity.
From S2P Require Import Authorization.
From S2P Require Import Incident.
From S2P Require Import Db.
From S2P Require Import Sql.
From S2P Require Import Storage.
From S2P Require Import Records.
From S2P Require Import Queues.
From S2P Require Import Privacy.
From S2P Require Import Fleet.
From S2P Require Import Execution.
From S2P Require Import ExecutionFacts.
From S2P Require Import ExecutionSafety.
From S2P Require Import Scenario.

(** ** Growth of the log *)
Lemma log_step d d' sc id :
  exec_inv d -> sys_step d d' ->
  (log d' sc id = log d sc id /\ action_view d' sc id = action_view d sc id) \/
  exists a, log d' sc id = log d sc id ++ [a] /\ action_view d' sc id = Some a /\
            action_step (action_view d sc id) (Some a).
Proof.
  intros Hinv Hs. destruct (sys_step_cases _ _ Hinv Hs) as [[E1 E2]|(sc' & id' & a & Hm)].
  - left. unfold log, action_view, action_row. by rewrite E1, E2.
  - destruct (decide ((sc, id) = (sc', id'))) as [[= -> ->]|Hne].
    + right. exists a. by destruct Hm.
    + left. by apply Hm.
Qed.

(** The same plan, under the same hash, proposed by the same person. *)
Definition same_request (a b : Action) : Prop :=
  A_Plan a = A_Plan b /\ A_Hash a = A_Hash b /\ A_ProposedBy a = A_ProposedBy b /\ A_CreatedAt a = A_CreatedAt b.

Lemma action_step_request a b : action_step (Some a) (Some b) -> same_request a b.
Proof. by inversion 1. Qed.

Lemma log_grows d d' sc id :
  exec_inv d -> rtc sys_step d d' ->
  exists l, log d' sc id = log d sc id ++ l /\
    (l = [] -> action_view d' sc id = action_view d sc id) /\
    (forall a, action_view d sc id = Some a -> exists a', action_view d' sc id = Some a' /\ same_request a a').
Proof.
  intros Hinv Hs. revert Hinv. induction Hs as [d|d d1 d' H1 Hs IH]; intros Hinv.
  { exists []. rewrite app_nil_r. split; [done|]. split; [done|]. intros a Ha. by exists a. }
  destruct (IH (exec_inv_step _ _ Hinv H1)) as (l & El & Hnil & Hview).
  destruct (log_step _ _ sc id Hinv H1) as [[Elog Ev]|(a & Elog & Ev & Hst)].
  - exists l. rewrite El, Elog, <- Ev. done.
  - exists (a :: l). rewrite El, Elog, <- app_assoc. split; [done|]. split; [done|].
    intros b Hb. destruct (Hview _ Ev) as (a' & Ha' & (E1 & E2 & E3 & E4)). exists a'. split; [done|].
    rewrite Hb in Hst. apply action_step_request in Hst as (F1 & F2 & F3 & F4).
    repeat split; congruence.
Qed.

Lemma view_stage d sc id a :
  exec_inv d -> action_view d sc id = Some a ->
  A_Version a = Z.of_nat (length (log d sc id)) /\ stage a (A_Version a) /\ A_Hash a = Hash (A_Plan a).
Proof. intros Hinv Ha. pose proof (path_stage _ _ (inv_path _ Hinv sc id)) as Hp. rewrite Ha in Hp. tauto. Qed.

Ltac stage_cases H :=
  destruct H as [[? ?]|[(? & ? & ?)|[(? & ? & ?)|[(? & ? & ?)|(? & ?)]]]].

(** ** What one path of the machine contains *)
Lemma path_entries l x : path l x ->
  forall l1 a l2, l = l1 ++ a :: l2 -> path (l1 ++ [a]) (Some a).
Proof.
  induction 1 as [|l x b Hp IH Hs]; intros l1 a l2 E; [by destruct l1|].
  destruct l2 as [|c l2 _] using rev_ind.
  - apply app_inj_tail in E as [-> ->]. by econstructor.
  - rewrite app_comm_cons, app_assoc in E. apply app_inj_tail in E as [-> _]. by eapply IH.
Qed.

Lemma path_last l x a : path (l ++ [a]) x -> x = Some a.
Proof.
  inversion 1 as [E|l' y b Hp Hs E]; [by destruct l|]. apply app_inj_tail in E as [_ ->]. done.
Qed.

Lemma path_snoc_inv l a x : path (l ++ [a]) x -> exists y, path l y /\ action_step y (Some a).
Proof.
  inversion 1 as [E|l' y b Hp Hs E]; [by destruct l|]. apply app_inj_tail in E as [-> ->]. eauto.
Qed.

Lemma path_submitted l a :
  path (l ++ [a]) (Some a) -> A_State a = "SUBMITTED" ->
  exists l0 b, l = l0 ++ [b] /\ A_State b = "APPROVED" /\ A_ApprovedBy b = A_ApprovedBy a /\ A_ApprovedBy b <> "" /\
    A_Plan b = A_Plan a /\ A_Hash b = A_Hash a.
Proof.
  intros Hp Hst. apply path_snoc_inv in Hp as (y & Hp & Hs).
  inversion Hs as [? E|? ? ? ?|b at_ E1 E2|? ? ? ? ?|? ? ?|? ? ? ?]; subst; cbn in *; try congruence.
  - inversion Hp as [|l' z b' Hp' Hs' E]; subst. exists l', b. done.
  - pose proof (receipt_state_cases outcome) as Hin. rewrite Hst in Hin. listed Hin.
Qed.


(** ** Reachable databases *)
Definition reachable (d : DB) : Prop :=
  exists d0, d0 Tactions = [] /\ d0 Taction_events = [] /\ rtc sys_step d0 d.

Lemma reachable_inv d : reachable d -> exec_inv d.
Proof. intros (d0 & E1 & E2 & Hs). by eapply exec_inv_steps, Hs; apply exec_inv_empty. Qed.

Lemma entry_stage d sc id l1 a l2 :
  exec_inv d -> log d sc id = l1 ++ a :: l2 ->
  path (l1 ++ [a]) (Some a) /\ A_Version a = Z.of_nat (length l1) + 1 /\ stage a (A_Version a).
Proof.
  intros Hinv E. assert (Hp : path (l1 ++ [a]) (Some a)) by (eapply path_entries; [by apply Hinv|done]).
  split; [done|]. apply path_stage in Hp as (Hv & Hst & _). rewrite length_app in Hv. cbn [length] in Hv.
  split; [lia|done].
Qed.

Lemma submitted_third a n : stage a n -> A_State a = "SUBMITTED" -> n = 3.
Proof.
  intros Hs E. stage_cases Hs; try congruence; try done.
  match goal with H : A_State a ∈ _ |- _ => rewrite E in H; listed H end.
Qed.
Lemma approved_second a n : stage a n -> A_State a = "APPROVED" -> n = 2.
Proof.
  intros Hs E. stage_cases Hs; try congruence; try done.
  match goal with H : A_State a ∈ _ |- _ => rewrite E in H; listed H end.
Qed.

Lemma closed_step a x : A_State a ∈ closed_states -> ~ action_step (Some a) x.
Proof.
  intros Hc Hs. inversion Hs; subst; repeat match goal with E : _ \/ _ |- _ => destruct E end;
    match goal with E : A_State a = _ |- _ => rewrite E in Hc; listed Hc end.
Qed.

Lemma closed_steps d d' sc id a :
  exec_inv d -> rtc sys_step d d' -> action_view d sc id = Some a -> A_State a ∈ closed_states ->
  log d' sc id = log d sc id /\ action_view d' sc id = Some a.
Proof.
  intros Hinv Hs. revert Hinv. induction Hs as [d|d d1 d' H1 Hs IH]; intros Hinv Ha Hc; [done|].
  destruct (log_step _ _ sc id Hinv H1) as [[El Ev]|(b & _ & _ & Hst)].
  - rewrite <- El. apply IH; [by eapply exec_inv_step|by rewrite Ev|done].
  - rewrite Ha in Hst. by apply closed_step in Hst.
Qed.

Lemma tx_changes {A} `{Env} f sc (fn : Tx -> M A) w r w' :
  tx_of f sc fn w = (r, w') ->
  db w' = db w \/ exists t a w0 w1, scope t = sc /\ db w0 = db w /\ fn t w0 = (Ok a, w1) /\ db w' = db w1 /\
    (tick w < tick w0)%nat /\ (tick w1 < tick w')%nat.
Proof.
  intros [E|(_ & a & w0 & w1 & E & Hr & E' & K1 & K2)]%Transact_atomic; [by left|]. right. by exists (mkTx sc (StoreEpoch f) (pg_now (tick w))), a, w0, w1.
Qed.

(** ** Properties *)
Section Properties.
Context `{Env}.

Lemma authorize_run p principal sc perm w :
  authorize p principal sc perm w =
  (if Authorize (Some p) (go_now (tick w)) principal sc perm then Ok tt else Err ErrForbidden, next w).
Proof. unfold authorize, bind, time_now, guard. by destruct (Authorize _ _ _ _ _). Qed.

Lemma Approve_effect s p sc id hash w r w' :
  Execution.Approve s p sc id hash w = (r, w') -> exec_inv (db w) ->
  still (db w) (db w') \/
  exists f t a, available s = Some f /\ scope t = sc /\
    Authorize (Some (Policy_ f)) (go_now (tick w)) p sc Authorization.Approve = true /\
    action_view (db w) sc id = Some a /\ A_State a = "PROPOSED" /\ hash = A_Hash a /\
    plan_current f t (db w) (tick w) (tick w') a /\
    moves (db w) (db w') sc id (set_approved a (P_ID p) (P_ExpiresAt p)).
Proof.
  unfold Execution.Approve. destruct (available s) as [f|]; [|by intros [= _ <-]; left].
  unfold bind at 1. rewrite authorize_run. destruct (Authorize _ _ _ _ _) eqn:Ha; [|by intros [= _ <-]; left].
  intros Ht Hinv. apply tx_changes in Ht as [E|(t & x & w0 & w1 & <- & E0 & Hr & E1 & K1 & K2)]; [left; by rewrite E|].
  right. cbn in E0. rewrite <- E0 in *. rewrite E1.
  apply ApproveTx_ok in Hr as (a & Hv & Hst & Hh & -> & Hcur & Hm); [|done|].
  - exists f, t, a. do 6 (split; [done|]). split; [|done]. cbn in K1. eapply plan_current_widen; [exact Hcur|lia|lia].
  - apply Authorize_spec in Ha as (_ & Hval & _). by eapply principal_id_nonempty.
Qed.

Lemma Claim_effect s sc token id w r w' :
  Claim s sc token id w = (r, w') -> exec_inv (db w) ->
  still (db w) (db w') \/
  exists f t a agent at_, available s = Some f /\ scope t = sc /\
    agent ∈ db w Tagents /\ g_scope agent = sc /\ g_token agent = TokenHash token /\ g_revoked agent = false /\
    g_epoch agent = Epoch f /\ g_role agent = Executor /\
    Pl_ExecutorID (A_Plan a) = g_id agent /\ Pl_ExecutorGeneration (A_Plan a) = g_generation agent /\
    action_view (db w) sc id = Some a /\ A_State a = "APPROVED" /\ A_ApprovedBy a <> "" /\
    (exists k, (tick w <= k < tick w')%nat /\ go_now k < A_ApprovalExpiresAt a) /\
    plan_current f t (db w) (tick w) (tick w') a /\
    moves (db w) (db w') sc id (set_submitted a at_).
Proof.
  unfold Claim. destruct (available s) as [f|]; [|by intros [= _ <-]; left].
  intros Ht Hinv. apply tx_changes in Ht as [E|(t & x & w0 & w1 & <- & E0 & Hr & E1 & K1 & K2)]; [left; by rewrite E|].
  right. rewrite <- E0 in *. rewrite E1.
  apply ClaimTx_ok in Hr as (a & agent & Hv & Hst & Hby & Hid & Hgen & (w2 & Hau) & Hexp & Hcur & (at_ & Ea) & Hm); [|done].
  rewrite Ea in Hm. apply AuthenticateTx_ok in Hau as [_ (g & G1 & -> & G2 & G3 & G4 & G5 & G6 & _)].
  destruct Hexp as (k & Hk & Hexp). exists f, t, a, g, at_. do 13 (split; [done|]).
  split; [exists k; split; [lia|done]|]. split; [|done]. eapply plan_current_widen; [exact Hcur|lia|lia].
Qed.

Lemma Claim_result s sc token id w c w' :
  Claim s sc token id w = (Ok c, w') -> exec_inv (db w) ->
  exists a, action_view (db w) sc id = Some a /\ A_State a = "APPROVED" /\ A_State (CL_Action c) = "SUBMITTED" /\
    moves (db w) (db w') sc id (CL_Action c).
Proof.
  unfold Claim. destruct (available s) as [f|]; [|done].
  intros (Hsc & w0 & w1 & E0 & Hr & E1)%Transact_ok Hinv. rewrite <- E0 in *. rewrite E1.
  apply ClaimTx_ok in Hr as (a & agent & Hv & Hst & _ & _ & _ & _ & _ & _ & (at_ & Ea) & Hm); [|done].
  cbn in *. exists a. rewrite Ea in *. done.
Qed.

Lemma Receipt_effect s sc token id receipt outcome w a w' :
  Receipt s sc token id receipt outcome w = (Ok a, w') -> exec_inv (db w) ->
  exists f b agent, available s = Some f /\ agent ∈ db w Tagents /\ g_scope agent = sc /\
    g_token agent = TokenHash token /\ g_revoked agent = false /\
    Pl_ExecutorID (A_Plan b) = g_id agent /\ Pl_ExecutorGeneration (A_Plan b) = g_generation agent /\
    action_view (db w) sc id = Some b /\ action_view (db w') sc id = Some a /\
    ((A_State b = "SUBMITTED" /\ A_State a = receipt_state outcome /\ moves (db w) (db w') sc id a) \/
     (A_State b <> "SUBMITTED" /\ a = b /\ db w' = db w /\
      (A_OutcomeCode a = outcome \/ (A_State a = "AMBIGUOUS" /\ A_ReconciledBy a <> "")))).
Proof.
  unfold Receipt. destruct (available s) as [f|]; [|done]. intros Hr Hinv. run.
  apply Transact_ok in Hr as (_ & w0 & w1 & E0 & Hr & E1). rewrite <- E0 in *. rewrite E1.
  assert (Ho : outcome ∈ outcomes) by (unfold mem_str in Hg; by breflect).
  apply ReceiptTx_ok in Hr as (b & agent & Hv & Hid & Hgen & (w2 & Hau) & Hcase); [|done|done].
  apply AuthenticateTx_ok in Hau as [_ (g & G1 & -> & G2 & G3 & G4 & G5 & G6 & _)]. cbn [scope] in *.
  exists f, b, g. do 8 (split; [done|]).
  destruct Hcase as [(Hst & -> & E & Hout)|(Hst & Ha & Hm)].
  - split; [by rewrite E|]. right. done.
  - split; [by apply Hm|]. left. done.
Qed.
End Properties.

(** ** The demonstration's databases *)
Module DemoFacts.
Import Demo.


Lemma reach1 : reachable (db world1).
Proof. exists empty_db. split; [done|]. split; [done|]. apply setup_steps. Qed.
Lemma reach_step d d' : reachable d -> sys_step d d' -> reachable d'.
Proof. intros (d0 & E1 & E2 & Hs) H. exists d0. split; [done|]. split; [done|]. by eapply rtc_r. Qed.
Lemma reach3 : reachable (db world3).
Proof. eapply reach_step, approve_step. eapply reach_step, propose_step. apply reach1. Qed.
Lemma reach5 : reachable (db world5).
Proof. eapply reach_step, receipt_step. eapply reach_step, claim_step. apply reach3. Qed.

Lemma claimed_ok : exists c, Claim exec_svc sc (snd tokens) id world3 = (Ok c, world4).
Proof.
  destruct scenario_runs as (_ & _ & _ & Hc & _). exists (value claimed (result claim world3)).
  exact (claim_run claimed Hc).
Qed.

Lemma receipted_ok : exists a, receipt world4 = (Ok a, world5).
Proof.
  destruct scenario_runs as (_ & _ & _ & _ & Hc & _). exists (value zero_action (result receipt world4)).
  exact (receipt_run zero_action Hc).
Qed.

(** The four entries of the action's log. *)
Lemma log_entries : exists a b c e, log (db world5) sc id = [a; b; c; e] /\ A_State c = "SUBMITTED" /\
  A_State e = "APPLIED" /\ action_view (db world5) sc id = Some e.
Proof.
  destruct scenario_runs as (_ & _ & _ & _ & _ & _ & Hs & _).
  destruct (log (db world5) sc id) as [|a [|b [|c [|e [|]]]]] eqn:El; try discriminate Hs.
  exists a, b, c, e. injection Hs as _ _ Hc He. split; [reflexivity|]. split; [exact Hc|]. split; [exact He|].
  pose proof (inv_path _ (reachable_inv _ reach5) sc id) as Hp. rewrite El in Hp.
  by apply (path_last [a; b; c]) in Hp.
Qed.
End DemoFacts.

(** ** The theorems *)
#[local] Existing Instance Demo.env.

(** C1: refinement.  Whatever request of pkg/execution runs, under any clock,
    any randomness, any failing statement and any lost commit acknowledgement,
    the two tables of actions either stay as they were or make exactly one step
    of the abstract machine [action_step] on one action, which is logged, with
    every other action and its log untouched. *)
Theorem requests_refine_machine `{Env} s sc op w r w' :
  run_op s sc op w = (r, w') -> reachable (db w) ->
  still (db w) (db w') \/ exists id a, moves (db w) (db w') sc id a.
Proof. intros Hr Hd%reachable_inv. by eapply run_op_refines. Qed.

Lemma requests_refine_machine_witness :
  still (db Demo.world3) (db (Demo.after (run_op Demo.exec_svc Demo.sc (OpClaim (snd Demo.tokens) Demo.id)) Demo.world3)) \/
  exists id a, moves (db Demo.world3)
    (db (Demo.after (run_op Demo.exec_svc Demo.sc (OpClaim (snd Demo.tokens) Demo.id)) Demo.world3)) Demo.sc id a.
Proof. eapply requests_refine_machine; [apply Demo.run_pair|apply DemoFacts.reach3]. Defined.

(** C2: invariant.  In every reachable database action identifiers are unique,
    the columns of an action row agree with its envelope and its hash with its
    plan, and the event log of every action is a path of the machine that ends
    in the stored action. *)
Theorem reachable_actions_consistent d : reachable d -> exec_inv d.
Proof. apply reachable_inv. Qed.

Lemma reachable_actions_consistent_witness : exec_inv (db Demo.world5).
Proof. apply reachable_actions_consistent, DemoFacts.reach5. Defined.

(** C3: an action is submitted to an executor at most once in its life, and
    the entry right before its submission is the approval, by the approver the
    submission names, of the same plan under the same hash. *)
Theorem submission_approved_and_unique d sc id l1 a l2 :
  reachable d -> log d sc id = l1 ++ a :: l2 -> A_State a = "SUBMITTED" ->
  (exists l0 b, l1 = l0 ++ [b] /\ A_State b = "APPROVED" /\ A_ApprovedBy b = A_ApprovedBy a /\ A_ApprovedBy b <> "" /\
     A_Plan b = A_Plan a /\ A_Hash b = A_Hash a) /\
  Forall (fun c => A_State c <> "SUBMITTED") (l1 ++ l2).
Proof.
  intros Hd%reachable_inv El Hst.
  destruct (entry_stage _ _ _ _ _ _ Hd El) as (Hp & Hv & Hsg).
  apply submitted_third in Hsg as H3; [|done]. split; [by apply path_submitted|].
  apply Forall_forall. intros c Hc Hst'. apply elem_of_app in Hc as [Hc|Hc];
    apply list_elem_of_split in Hc as (m1 & m2 & ->).
  - rewrite <- app_assoc in El. cbn [app] in El. destruct (entry_stage _ _ _ _ _ _ Hd El) as (_ & Hv' & Hs').
    apply submitted_third in Hs'; [|done]. rewrite length_app in Hv. cbn in Hv. lia.
  - rewrite app_comm_cons, app_assoc in El. destruct (entry_stage _ _ _ _ _ _ Hd El) as (_ & Hv' & Hs').
    apply submitted_third in Hs'; [|done]. rewrite length_app in Hv'. cbn in Hv'. lia.
Qed.

Lemma submission_approved_and_unique_witness : exists l1 a l2,
  log (db Demo.world5) Demo.sc Demo.id = l1 ++ a :: l2 /\ A_State a = "SUBMITTED" /\
  Forall (fun c => A_State c <> "SUBMITTED") (l1 ++ l2).
Proof.
  destruct DemoFacts.log_entries as (a & b & c & e & El & Hc & _). exists [a; b], c, [e].
  split; [exact El|]. split; [exact Hc|].
  exact (proj2 (submission_approved_and_unique _ _ _ [a; b] c [e] DemoFacts.reach5 El Hc)).
Defined.

(** C4: the outcome of an action is final.  Once it is applied, failed,
    ambiguous or cancelled, no sequence of requests, whoever makes them, changes
    it or adds to its log. *)
Theorem closed_is_final d d' sc id a :
  reachable d -> rtc sys_step d d' -> action_view d sc id = Some a -> A_State a ∈ closed_states ->
  action_view d' sc id = Some a /\ log d' sc id = log d sc id.
Proof. intros Hd%reachable_inv Hs Ha Hc. destruct (closed_steps _ _ _ _ _ Hd Hs Ha Hc). done. Qed.

Lemma closed_is_final_witness : exists a, action_view (db Demo.world5) Demo.sc Demo.id = Some a /\
  A_State a = "APPLIED" /\
  action_view (db (Demo.after (run_op Demo.exec_svc Demo.sc (OpCancel Demo.owner Demo.id)) Demo.world5)) Demo.sc Demo.id = Some a.
Proof.
  destruct DemoFacts.log_entries as (_ & _ & _ & a & _ & _ & Ha & Hv). exists a. split; [exact Hv|]. split; [exact Ha|].
  eapply closed_is_final; [exact DemoFacts.reach5| |exact Hv|rewrite Ha; by left].
  exact (rtc_once _ _ (Demo.op_run (OpCancel Demo.owner Demo.id) Demo.world5)).
Defined.

(** The plan of an action, its hash, its proposer and its creation time
    never change, and its log only grows. *)
Theorem plan_is_immutable d d' sc id a :
  reachable d -> rtc sys_step d d' -> action_view d sc id = Some a ->
  exists a' l, action_view d' sc id = Some a' /\ same_request a a' /\ log d' sc id = log d sc id ++ l /\
    A_Version a' = A_Version a + Z.of_nat (length l).
Proof.
  intros Hd%reachable_inv Hs Ha. destruct (log_grows _ _ sc id Hd Hs) as (l & El & _ & Hv).
  destruct (Hv _ Ha) as (a' & Ha' & Hsame). exists a', l. do 3 (split; [done|]).
  destruct (view_stage _ _ _ _ Hd Ha) as [-> _].
  destruct (view_stage _ _ _ _ (exec_inv_steps _ _ Hd Hs) Ha') as [-> _].
  rewrite El, length_app. lia.
Qed.

Lemma plan_is_immutable_witness : exists a a' (l : list Action),
  action_view (db Demo.world5) Demo.sc Demo.id = Some a /\
  action_view (db (Demo.after (run_op Demo.exec_svc Demo.sc (OpCancel Demo.owner Demo.id)) Demo.world5)) Demo.sc Demo.id = Some a' /\
  same_request a a' /\ A_Version a' = A_Version a + Z.of_nat (length l).
Proof.
  destruct DemoFacts.log_entries as (_ & _ & _ & a & _ & _ & Ha & Hv).
  destruct (plan_is_immutable (db Demo.world5)
    (db (Demo.after (run_op Demo.exec_svc Demo.sc (OpCancel Demo.owner Demo.id)) Demo.world5)) Demo.sc Demo.id a)
    as (a' & l & H1 & H2 & _ & H3).
  - exact DemoFacts.reach5.
  - exact (rtc_once _ _ (Demo.op_run (OpCancel Demo.owner Demo.id) Demo.world5)).
  - exact Hv.
  - exists a, a', l. exact (conj Hv (conj H1 (conj H2 H3))).
Defined.

(** At most one claim.  After a claim of an action has been granted, no
    later claim of it is, in whatever database later requests lead to, for
    whatever token, service and environment. *)
Theorem claim_at_most_once (E1 E2 : Env) s1 s2 sc token1 token2 id w c w1 w2 r w3 :
  reachable (db w) ->
  @Claim E1 s1 sc token1 id w = (Ok c, w1) -> rtc sys_step (db w1) (db w2) ->
  @Claim E2 s2 sc token2 id w2 = (r, w3) -> is_ok r = false.
Proof.
  intros Hd%reachable_inv H1 Hs H2. destruct r as [c2|]; [exfalso|done].
  destruct (Claim_result _ _ _ _ _ _ _ H1 Hd) as (a & Ha & Hst & _ & Hm).
  assert (Hd1 : exec_inv (db w1)) by (by eapply exec_inv_moves).
  assert (Hd2 : exec_inv (db w2)) by (by eapply exec_inv_steps).
  destruct (Claim_result _ _ _ _ _ _ _ H2 Hd2) as (b & Hb & Hst2 & _).
  destruct (view_stage _ _ _ _ Hd Ha) as (Hv & Hg & _). destruct (view_stage _ _ _ _ Hd2 Hb) as (Hv2 & Hg2 & _).
  apply approved_second in Hg; [|done]. apply approved_second in Hg2; [|done].
  destruct (log_grows _ _ sc id Hd1 Hs) as (l & El & _).
  rewrite El, (mv_log _ _ _ _ _ Hm), !length_app in Hv2. cbn in Hv2. lia.
Qed.

Lemma claim_at_most_once_witness :
  is_ok (Demo.result (Claim Demo.exec_svc Demo.sc (snd Demo.tokens) Demo.id) Demo.world4) = false.
Proof.
  destruct DemoFacts.claimed_ok as [c Hc].
  exact (claim_at_most_once Demo.env Demo.env Demo.exec_svc Demo.exec_svc Demo.sc (snd Demo.tokens) (snd Demo.tokens)
    Demo.id Demo.world3 c Demo.world4 Demo.world4 _ _ DemoFacts.reach3 Hc (rtc_refl _ _)
    (Demo.run_pair (Claim Demo.exec_svc Demo.sc (snd Demo.tokens) Demo.id) Demo.world4)).
Defined.

(** Approval authority.  Whatever an Approve request returns, the action
    tables change only if the policy granted the principal the Approve
    permission on that scope at the clock reading of the request, the action was
    PROPOSED, the presented hash is the hash of its plan, and the plan is
    current: unexpired, made under this policy and epoch, its evidence eligible
    through its whole lineage and unchanged, its executor enrolled and
    unrevoked.  The action is then approved in that principal's name, until that
    principal's identity expires.  The clock readings compared are those of this
    request: effects [tick w] to [tick w']. *)
Theorem approval_needs_authority `{Env} s p sc id hash w r w' :
  Execution.Approve s p sc id hash w = (r, w') -> reachable (db w) ->
  still (db w) (db w') \/
  exists f t a, available s = Some f /\ scope t = sc /\
    Authorize (Some (Policy_ f)) (go_now (tick w)) p sc Authorization.Approve = true /\
    action_view (db w) sc id = Some a /\ A_State a = "PROPOSED" /\ hash = A_Hash a /\
    plan_current f t (db w) (tick w) (tick w') a /\
    moves (db w) (db w') sc id (set_approved a (P_ID p) (P_ExpiresAt p)).
Proof. intros Hr Hd%reachable_inv. by eapply Approve_effect. Qed.

Lemma approval_needs_authority_witness : exists r w',
  Execution.Approve Demo.exec_svc Demo.owner Demo.sc Demo.id (A_Hash Demo.proposed) Demo.world2 = (r, w') /\
  (still (db Demo.world2) (db w') \/
   exists f t a, available Demo.exec_svc = Some f /\ scope t = Demo.sc /\
    Authorize (Some (Policy_ f)) (go_now (tick Demo.world2)) Demo.owner Demo.sc Authorization.Approve = true /\
    action_view (db Demo.world2) Demo.sc Demo.id = Some a /\ A_State a = "PROPOSED" /\ A_Hash Demo.proposed = A_Hash a /\
    plan_current f t (db Demo.world2) (tick Demo.world2) (tick w') a /\
    moves (db Demo.world2) (db w') Demo.sc Demo.id (set_approved a (P_ID Demo.owner) (P_ExpiresAt Demo.owner))).
Proof.
  eexists _, _. split; [apply Demo.run_pair|].
  exact (approval_needs_authority Demo.exec_svc Demo.owner Demo.sc Demo.id (A_Hash Demo.proposed) Demo.world2 _ _
    (Demo.run_pair _ _) (DemoFacts.reach_step _ _ DemoFacts.reach1 Demo.propose_step)).
Defined.

(** C8: claim authority.  Whatever a Claim request returns, the action tables
    change only if the token is the stored credential of an unrevoked executor of
    the current epoch, that executor and generation are the ones the plan names,
    the action is APPROVED by someone whose approval has not expired, and the
    plan is still current. *)
Theorem claim_needs_authority `{Env} s sc token id w r w' :
  Claim s sc token id w = (r, w') -> reachable (db w) ->
  still (db w) (db w') \/
  exists f t a agent at_, available s = Some f /\ scope t = sc /\
    agent ∈ db w Tagents /\ g_scope agent = sc /\ g_token agent = TokenHash token /\ g_revoked agent = false /\
    g_epoch agent = Epoch f /\ g_role agent = Executor /\
    Pl_ExecutorID (A_Plan a) = g_id agent /\ Pl_ExecutorGeneration (A_Plan a) = g_generation agent /\
    action_view (db w) sc id = Some a /\ A_State a = "APPROVED" /\ A_ApprovedBy a <> "" /\
    (exists k, (tick w <= k < tick w')%nat /\ go_now k < A_ApprovalExpiresAt a) /\
    plan_current f t (db w) (tick w) (tick w') a /\
    moves (db w) (db w') sc id (set_submitted a at_).
Proof. intros Hr Hd%reachable_inv. by eapply Claim_effect. Qed.

Lemma claim_needs_authority_witness : exists r w',
  Claim Demo.exec_svc Demo.sc (snd Demo.tokens) Demo.id Demo.world3 = (r, w') /\
  (still (db Demo.world3) (db w') \/
   exists f t a agent at_, available Demo.exec_svc = Some f /\ scope t = Demo.sc /\
    agent ∈ db Demo.world3 Tagents /\ g_scope agent = Demo.sc /\ g_token agent = TokenHash (snd Demo.tokens) /\
    g_revoked agent = false /\ g_epoch agent = Epoch f /\ g_role agent = Executor /\
    Pl_ExecutorID (A_Plan a) = g_id agent /\ Pl_ExecutorGeneration (A_Plan a) = g_generation agent /\
    action_view (db Demo.world3) Demo.sc Demo.id = Some a /\ A_State a = "APPROVED" /\ A_ApprovedBy a <> "" /\
    (exists k, (tick Demo.world3 <= k < tick w')%nat /\ go_now k < A_ApprovalExpiresAt a) /\
    plan_current f t (db Demo.world3) (tick Demo.world3) (tick w') a /\
    moves (db Demo.world3) (db w') Demo.sc Demo.id (set_submitted a at_)).
Proof.
  eexists _, _. split; [apply Demo.run_pair|].
  exact (claim_needs_authority Demo.exec_svc Demo.sc (snd Demo.tokens) Demo.id Demo.world3 _ _
    (Demo.run_pair _ _) DemoFacts.reach3).
Defined.

(** C9: receipts.  A receipt is accepted only from the executor that claimed the
    action.  The first one closes the action with the state of its outcome; a
    later one is accepted only if it repeats the recorded outcome, or after an
    owner reconciled the action as ambiguous, and then changes nothing. *)
Theorem receipt_closes_once `{Env} s sc token id receipt outcome w a w' :
  Receipt s sc token id receipt outcome w = (Ok a, w') -> reachable (db w) ->
  exists f b agent, available s = Some f /\ agent ∈ db w Tagents /\ g_scope agent = sc /\
    g_token agent = TokenHash token /\ g_revoked agent = false /\
    Pl_ExecutorID (A_Plan b) = g_id agent /\ Pl_ExecutorGeneration (A_Plan b) = g_generation agent /\
    action_view (db w) sc id = Some b /\ action_view (db w') sc id = Some a /\
    ((A_State b = "SUBMITTED" /\ A_State a = receipt_state outcome /\ moves (db w) (db w') sc id a) \/
     (A_State b <> "SUBMITTED" /\ a = b /\ db w' = db w /\
      (A_OutcomeCode a = outcome \/ (A_State a = "AMBIGUOUS" /\ A_ReconciledBy a <> "")))).
Proof. intros Hr Hd%reachable_inv. by eapply Receipt_effect. Qed.

Lemma receipt_closes_once_witness : exists a,
  Demo.receipt Demo.world4 = (Ok a, Demo.world5) /\ action_view (db Demo.world5) Demo.sc Demo.id = Some a.
Proof.
  destruct DemoFacts.receipted_ok as [a Ha]. exists a. split; [exact Ha|].
  destruct (receipt_closes_once Demo.exec_svc Demo.sc (snd Demo.tokens) Demo.id (CL_ReceiptToken Demo.claimed) "APPLIED"
    Demo.world4 a Demo.world5 Ha (DemoFacts.reach_step _ _ DemoFacts.reach3 Demo.claim_step))
    as (f & b & g & _ & _ & _ & _ & _ & _ & _ & _ & Hv & _).
  exact Hv.
Defined.
