(* ===== verification/SystemProps.v ===== *)
(** * Theorems on the whole system

    Invariants and monotone facts of every database the system reaches, whatever
    requests run, in whatever order, under whatever failures. *)

From stdpp Require Import relations.
From S2P Require Import Prelude.
From S2P Require Import Sha256.
From S2P Require Import Md5.
From S2P Require Import Json.
From S2P Require Import JsonFacts.
From S2P Require Import GoTime.
From S2P Require Import Decode.
From S2P Require Import Identity.
From S2P Require Import Authorization.
From S2P Require Import Incident.
From S2P Require Import Db.
From S2P Require Import Sql.
From S2P Require Import Storage.
From S2P Require Import Lineage.
From S2P Require Import Records.
From S2P Require Import Queues.
From S2P Require Import Privacy.
From S2P Require Import Fleet.
From S2P Require Import Recovery.
From S2P Require Import Governance.
From S2P Require Import Investigation.
From S2P Require Import Knowledge.
From S2P Require Import Execution.
From S2P Require Import ExecutionFacts.
From S2P Require Import ExecutionSafety.
From S2P Require Import System.
From S2P Require Import Evolution.
From S2P Require Import ItemGraph.
From S2P Require Import ItemEdges.
From S2P Require Import Scenario.
From S2P Require Import ExecutionProps.

(** ** Small reachable databases *)
Module Small.
#[export] Existing Instance Demo.env.

Definition run_all (rs : list request) (w : World) : World := fold_left (fun w r => snd (run_request r w)) rs w.

Lemma run_all_steps rs : forall w, rtc step (db w) (db (run_all rs w)).
Proof.
  induction rs as [|r rs IH]; intros w; [done|]. cbn [run_all fold_left].
  eapply rtc_l; [|apply IH]. destruct w as [d k]. eapply step_request; [apply surjective_pairing|done].
Qed.

Definition start : World := mkWorld empty_db 0.
Definition incident : Incident := mkIncident Demo.sc "incident" 1 "OPEN" Demo.T0.
Definition requests : list request :=
  [RTransaction Demo.epoch Demo.sc [TCreateIncident incident; TPutItem Demo.item]].
Definition world : World := run_all requests start.

Lemma small_system : system (db world).
Proof. exact (run_all_steps requests start). Qed.

(** The incident alone, and the item quarantined. *)
Definition opened : World := run_all [RTransaction Demo.epoch Demo.sc [TCreateIncident incident]] start.
Definition quarantined : World := run_all (requests ++ [RTransaction Demo.epoch Demo.sc [TQuarantine Demo.ref]]) start.
Lemma opened_system : system (db opened).
Proof. exact (run_all_steps _ start). Qed.
Lemma quarantined_system : system (db quarantined).
Proof. exact (run_all_steps _ start). Qed.

Definition tx : Tx := mkTx Demo.sc Demo.epoch Demo.T0.
Definition update (state : string) : request :=
  RTransaction Demo.epoch Demo.sc [TUpdateIncident "incident" 1 state].
Lemma updated : run_request (update "MITIGATED") opened = (Ok tt, snd (run_request (update "MITIGATED") opened)).
Proof. vm_compute. reflexivity. Qed.

(** A second item that names the first as its parent. *)
Definition child : Item := mkItem Demo.sc "incident" "reasoned" 1 Evidence Demo.body Demo.T0 (Demo.T0 + 30 * Minute) [Demo.ref] "".
Definition child_ref : ItemRef := mkRef "reasoned" 1.
Definition family : World := run_all (requests ++ [RTransaction Demo.epoch Demo.sc [TPutItem child]]) start.
Lemma family_system : system (db family).
Proof. exact (run_all_steps _ start). Qed.
Lemma family_edges : edges tx (db family) = [(child_ref, Demo.ref, false)].
Proof. vm_compute. reflexivity. Qed.

(** The incident, the item and its eligibility are there. *)
Lemma world_rows : map N_ID (db world Tincidents) = ["incident"] /\ map i_ref (db world Titems) = [Demo.ref] /\
  map (fun r => (e_scope r, e_item r)) (db world Teligibility) = [(Demo.sc, Demo.ref)].
Proof. vm_compute. repeat split. Qed.
Lemma world_item : exists r : row Titems, r ∈ db world Titems /\ i_ref r = Demo.ref.
Proof.
  destruct world_rows as (_ & E & _). destruct (db world Titems) as [|r l]; [discriminate E|]. exists r.
  split; [left|]. injection E as E _. exact E.
Qed.
End Small.

(** ** Helpers *)
Definition same_key_incident (i j : Incident) : Prop := N_Scope i = N_Scope j /\ N_ID i = N_ID j.

Lemma incidents_inj d (r r' : row Tincidents) :
  db_ok d -> r ∈ d Tincidents -> r' ∈ d Tincidents -> same_key_incident r r' -> r = r'.
Proof.
  intros [Hd _] Hr Hr' [Es Ei]. destruct (Hd Tincidents) as [_ Hu].
  eapply (unique_inj Tincidents _ _ r r' (kscope (N_Scope r') ++ [KS (N_ID r')])); [done|by left|done|done|..]; cbn.
  - by rewrite Es, Ei.
  - done.
Qed.

Lemma agents_inj d (r r' : row Tagents) :
  db_ok d -> r ∈ d Tagents -> r' ∈ d Tagents -> g_scope r = g_scope r' -> g_id r = g_id r' -> r = r'.
Proof.
  intros [Hd _] Hr Hr' Es Ei. destruct (Hd Tagents) as [_ Hu].
  eapply (unique_inj Tagents _ _ r r' (kscope (g_scope r') ++ [KS (g_id r')])); [done|by left|done|done|..]; cbn.
  - by rewrite Es, Ei.
  - done.
Qed.

Lemma eligibility_inj d (r r' : row Teligibility) :
  db_ok d -> r ∈ d Teligibility -> r' ∈ d Teligibility -> e_scope r = e_scope r' -> e_item r = e_item r' -> r = r'.
Proof.
  intros [Hd _] Hr Hr' Es Ei. destruct (Hd Teligibility) as [_ Hu].
  eapply (unique_inj Teligibility _ _ r r' (kscope (e_scope r') ++ kref (e_item r'))); [done|by left|done|done|..]; cbn.
  - by rewrite Es, Ei.
  - done.
Qed.

(** Records of what happened: never changed, never deleted. *)
Definition audit : list tbl :=
  [Tscopes; Titems; Tparents; Tfeedback; Taction_events; Tprofiles; Tsamples; Tassessments; Tcontexts; Tadjudications;
   Trevocations; Tgolden; Thistory; Troutes].

Lemma audit_kept d d' t (r : row t) : db_ok d -> rtc step d d' -> t ∈ audit -> r ∈ d t -> r ∈ d' t.
Proof.
  intros Hd Hs Ht Hr. destruct (rows_kept d d' t r Hd Hs) as (r' & Hr' & HK); [|done|].
  - apply (bool_decide_eq_true_2 _) in Ht. by destruct t.
  - apply (bool_decide_eq_true_2 _) in Ht. destruct t; try discriminate Ht; cbn in HK; by subst.
Qed.

Lemma edges_kept d d' t e : db_ok d -> rtc step d d' -> e ∈ edges t d -> e ∈ edges t d'.
Proof.
  intros Hd Hs. unfold edges. rewrite !elem_of_app. intros [He|He]; [left|right];
    apply list_elem_of_fmap in He as (r & -> & Hr);
    apply list_elem_of_In, filter_In in Hr as [Hr Hp]; apply list_elem_of_In in Hr;
    apply list_elem_of_fmap; exists r; (split; [done|]); apply list_elem_of_In, filter_In;
    (split; [|done]); apply list_elem_of_In; (eapply audit_kept; [done|done| |done]);
    apply (bool_decide_eq_true_1 _); vm_compute; reflexivity.
Qed.

Lemma parent_mono es es' n n' : (forall e, e ∈ es -> e ∈ es') -> parent es n n' -> parent es' n n'.
Proof. intros Hin (e & He & E). exists e. auto. Qed.

Lemma ancestor_kept d d' t ref r : db_ok d -> rtc step d d' -> ancestor t d ref r -> ancestor t d' ref r.
Proof.
  intros Hd Hs (b & Hp). exists b. induction Hp as [|x y z Hxy _ IH]; [done|].
  eapply rtc_l; [|done]. eapply parent_mono; [|done]. intros e. by apply edges_kept.
Qed.

Lemma steps_sys d d' : rtc step d d' -> rtc sys_step d d'.
Proof. induction 1 as [|d d1 d' H1 _ IH]; [apply rtc_refl|]. eapply rtc_l; [by apply step_sys_step|done]. Qed.

Lemma system_reachable d : system d -> reachable d.
Proof. intros Hs. exists empty_db. split; [done|]. split; [done|]. by apply steps_sys. Qed.

(** A quarantine mark on an item. *)
Definition marked (d : DB) (sc : Scope) (ref : ItemRef) : Prop :=
  exists e : row Teligibility, e ∈ d Teligibility /\ e_scope e = sc /\ e_item e = ref /\ e_quarantined e = true.

Lemma marked_kept d d' sc ref : db_ok d -> rtc step d d' -> marked d sc ref -> marked d' sc ref.
Proof.
  intros Hd Hs (e & He & <- & <- & Hq). destruct (rows_kept d d' Teligibility e Hd Hs eq_refl He) as (e' & He' & E1 & E2 & E3).
  exists e'. auto.
Qed.

Lemma marked_not d t ref : db_ok d -> marked d (scope t) ref -> not_quarantined t d ref = false.
Proof.
  intros Hd (e & He & Es & Ei & Hq). unfold not_quarantined, quarantined.
  destruct (List.find _ (d Teligibility)) as [e'|] eqn:E; [|done]. apply find_Some_in in E as [He' Hp].
  unfold in_scope, scope_eqb in Hp. breflect. cbn.
  replace e' with e; [by rewrite Hq|]. eapply eligibility_inj; [done..|congruence|congruence].
Qed.

Lemma marked_compute d sc ref :
  existsb (fun e : row Teligibility => scope_eqb (e_scope e) sc && bool_decide (e_item e = ref) && e_quarantined e)
    (d Teligibility) = true -> marked d sc ref.
Proof.
  intros (e & He & Hp)%existsb_exists. apply list_elem_of_In in He. unfold scope_eqb in Hp. breflect. by exists e.
Qed.

Lemma small_marked : marked (db Small.quarantined) Demo.sc Demo.ref.
Proof. apply marked_compute. vm_compute. reflexivity. Qed.

Lemma ancestor_self t d ref : ancestor t d ref ref.
Proof. exists false. apply rtc_refl. Qed.

Lemma blocked d t ref r f :
  db_ok d -> marked d (scope t) r -> ancestor t d ref r ->
  (forall n, not_quarantined t d (fst n) = false -> f n = Some false) -> all_of (lineage t d ref) f <> inr true.
Proof.
  intros Hd Hm (b & Hp) Hf. destruct (existsb (item_at t ref) (d Titems)) eqn:E.
  - apply (all_of_false _ f (r, b)); [by apply lineage_spec|]. apply Hf. cbn. by apply marked_not.
  - assert (lineage t d ref = []) as -> by (unfold lineage; by rewrite E). done.
Qed.

Lemma Eligible_true_inv `{Env} t ref at_ w w' :
  Eligible t ref at_ w = (Ok true, w') ->
  all_of (lineage t (db w) ref) (node_eligible t (db w) (pgTime at_)) = inr true.
Proof. intros He. by apply Eligible_ok in He as [_ ?]. Qed.

Lemma update_one_incident `{Env} t id v state w x w' :
  UpdateIncident t id v state w = (Ok x, w') ->
  exists i : row Tincidents, i ∈ db w Tincidents /\ N_Scope i = scope t /\ N_ID i = id /\ N_Version i = v /\
    (mkIncident (N_Scope i) (N_ID i) (v + 1) state (N_OpenedAt i) : row Tincidents) ∈ db w' Tincidents.
Proof.
  unfold UpdateIncident. intros Hu. run. rename w0 into w'. apply update_ok in Hm as (En & Ed & _).
  apply Z.eqb_eq in Hg0. subst r. apply filter_one in Hg0 as [i Ei]. apply find_Some_in in Ei as [Hi Hp].
  rewrite Ed, upd_same. exists i. assert (Hk : N_Scope i = scope t /\ N_ID i = id /\ N_Version i = v) by
    (unfold incident_at, in_scope, scope_eqb in Hp; breflect; auto). destruct Hk as (Ks & Ki & Kv).
  repeat split; [done..|]. apply list_elem_of_fmap. exists i. split; [|done]. rewrite Hp. by subst.
Qed.

Lemma request_steps (E : Env) r w x w' : run_request r w = (x, w') -> rtc step (db w) (db w').
Proof. intros Hr. apply rtc_once. destruct w as [d k]. by eapply step_request. Qed.

Lemma single_tx `{Env} epoch sc o w w' :
  run_request (RTransaction epoch sc [o]) w = (Ok tt, w') ->
  exists t w0 w1, scope t = sc /\ authorityEpoch t = epoch /\ db w0 = db w /\
    run_tx_op t o w0 = (Ok tt, w1) /\ db w1 = db w'.
Proof.
  cbn [run_request]. intros (_ & w0 & w1 & E0 & Hr & E1)%Transact_ok. cbn [for_each] in Hr. run.
  eexists _, w0, _. split; [|split]; [..|split; [done|split; [exact Hm|done]]]; done.
Qed.

Lemma single_update `{Env} epoch sc id v state w w' :
  run_request (RTransaction epoch sc [TUpdateIncident id v state]) w = (Ok tt, w') ->
  exists i : row Tincidents, i ∈ db w Tincidents /\ N_Scope i = sc /\ N_ID i = id /\ N_Version i = v /\
    (mkIncident (N_Scope i) (N_ID i) (v + 1) state (N_OpenedAt i) : row Tincidents) ∈ db w' Tincidents.
Proof.
  intros (t & w0 & w1 & <- & _ & <- & Hr & <-)%single_tx. by apply update_one_incident in Hr.
Qed.

(** ** The theorems *)

(** C10: evidence is well founded.  In every database that the system builds,
    under any failures, an item is stored as a sealed item, in the columns and
    with the hash of its text; it has an edge to each item that its sealed text
    names as a parent, and to no other.  Every dependency, a parent or what a
    published case rests on, leads to an item of the scope that was stored
    before, a parent's within the incident.  So the ancestors that eligibility
    walks through are all stored, each before its descendants, and no item is
    its own ancestor. *)
Theorem evidence_is_well_founded d : system d ->
  (forall r : row Titems, r ∈ d Titems -> exists s, stored_as s r /\
     forall ref, ref ∈ I_Parents s <-> exists e : row Tparents,
       e ∈ d Tparents /\ p_scope e = i_scope r /\ p_child e = i_ref r /\ p_parent e = ref) /\
  (forall e : row Tparents, e ∈ d Tparents -> exists c p,
     stored_before d (p_scope e) (p_child e) (p_parent e) c p /\
     i_incident c = p_incident e /\ i_incident p = p_incident e) /\
  (forall e : row Thistory, e ∈ d Thistory -> exists c p, stored_before d (h_scope e) (h_child e) (h_parent e) c p) /\
  (forall t n n', tc (parent (edges t d)) n n' ->
     fst n <> fst n' /\ exists c p, stored_before d (scope t) (fst n) (fst n') c p).
Proof.
  intros Hs. pose proof (system_ok _ Hs) as Hd. pose proof (system_graph _ Hs) as Hg. split; [|split; [|split]].
  - intros r Hr. destruct (go_items _ Hg r Hr) as [s Ha]. exists s. split; [done|]. intros ref.
    by apply edges_named; try apply system_named.
  - intros e He. destruct (go_parents _ Hg e He) as (c & p & Hb & Hc & Hp & _). by exists c, p.
  - apply Hg.
  - intros t n n' Ht%(ancestors_older d); [|done..]. split; [|by apply older_before].
    intros E. rewrite E in Ht. by apply older_irrefl in Ht.
Qed.

(** A conclusion drawn from the item: stored after it, and not its own ancestor. *)
Lemma evidence_is_well_founded_witness :
  (exists c p, stored_before (db Small.family) Demo.sc Small.child_ref Demo.ref c p) /\
  tc (parent (edges Small.tx (db Small.family))) (Small.child_ref, false) (Demo.ref, false) /\
  forall b, ~ tc (parent (edges Small.tx (db Small.family))) (Demo.ref, b) (Demo.ref, b).
Proof.
  destruct (evidence_is_well_founded _ Small.family_system) as (_ & _ & _ & H4).
  assert (Hp : tc (parent (edges Small.tx (db Small.family))) (Small.child_ref, false) (Demo.ref, false)).
  { apply tc_once. exists (Small.child_ref, Demo.ref, false). split; [|done].
    rewrite Small.family_edges. by left. }
  split; [exact (proj2 (H4 _ _ _ Hp))|]. split; [exact Hp|]. intros b Hb. by destruct (H4 _ _ _ Hb).
Defined.

(** C11: audit records are immutable.  Items, their parents, feedback, action
    events, recovery profiles, samples and assessments, contexts,
    adjudications, revocations, golden cases, historical dependencies and
    routes are never changed and never deleted by any request. *)
Theorem audit_is_append_only d d' t (r : row t) :
  system d -> rtc step d d' -> t ∈ audit -> r ∈ d t -> r ∈ d' t.
Proof. intros Hd%system_ok Hs. by apply audit_kept. Qed.

Lemma audit_is_append_only_witness :
  exists r : row Titems, i_ref r = Demo.ref /\
  r ∈ db (snd (@run_request Demo.env (RTransaction Demo.epoch Demo.sc [TQuarantine Demo.ref; TRetain 30]) Small.world)) Titems.
Proof.
  destruct Small.world_item as (r & Hr & Er). exists r. split; [exact Er|].
  eapply (audit_is_append_only (db Small.world) _ Titems r Small.small_system); [|right; left|exact Hr].
  exact (Small.run_all_steps [RTransaction Demo.epoch Demo.sc [TQuarantine Demo.ref; TRetain 30]] Small.world).
Defined.

(** C12: a quarantine is permanent and covers every descendant.  Once an item is
    marked quarantined, in every later database no item whose lineage reaches it,
    through parents or historical guidance, is ever found eligible, at any
    instant and under any environment. *)
Theorem quarantine_is_forever d d' t ref r at_ `{Env} w w' :
  system d -> marked d (scope t) r -> ancestor t d ref r -> rtc step d d' -> db w = d' ->
  Eligible t ref at_ w <> (Ok true, w').
Proof.
  intros Hd%system_ok Hm Ha Hs <- He%Eligible_true_inv. revert He.
  apply (blocked (db w) t ref r).
  - by apply (steps_evolves _ _ Hs).
  - by eapply marked_kept.
  - by eapply ancestor_kept.
  - intros [x b] Hq. unfold node_eligible. cbn in Hq. by rewrite Hq.
Qed.

Lemma quarantine_is_forever_witness :
  fst (@Eligible Demo.env Small.tx Demo.ref Demo.T0 Small.quarantined) <> Ok true.
Proof.
  intros E. refine (quarantine_is_forever (db Small.quarantined) (db Small.quarantined) Small.tx Demo.ref Demo.ref Demo.T0
    Small.quarantined (snd (@Eligible Demo.env Small.tx Demo.ref Demo.T0 Small.quarantined)) Small.quarantined_system
    small_marked (ancestor_self _ _ _) (rtc_refl step _) eq_refl _).
  rewrite <- E. exact (surjective_pairing _).
Defined.

(** Optimistic concurrency.  Of the updates of an incident that expect the
    same version, at most one ever succeeds, and it makes the version one
    larger. *)
Theorem incident_update_once (E1 E2 : Env) epoch1 epoch2 sc id v s1 s2 w w1 w2 r w3 :
  system (db w) ->
  @run_request E1 (RTransaction epoch1 sc [TUpdateIncident id v s1]) w = (Ok tt, w1) -> rtc step (db w1) (db w2) ->
  @run_request E2 (RTransaction epoch2 sc [TUpdateIncident id v s2]) w2 = (r, w3) -> is_ok r = false.
Proof.
  intros Hd H1 Hs H2. destruct r as [[]|]; [exfalso|done].
  assert (Hd1 : system (db w1)) by exact (system_step _ _ Hd (request_steps _ _ _ _ _ H1)).
  apply single_update in H1 as (i & Hi & Es & Ei & Ev & Hi').
  apply single_update in H2 as (j & Hj & Fs & Fi & Fv & _).
  destruct (rows_kept _ _ Tincidents _ (system_ok _ Hd1) Hs eq_refl Hi') as (k & Hk & K1 & K2 & _ & K3). cbn in *.
  assert (k = j) as ->.
  { apply (incidents_inj (db w2) k j (system_ok _ (system_step _ _ Hd1 Hs)) Hk Hj). split; congruence. }
  destruct K3 as [->|K3]; cbn in *; lia.
Qed.

Lemma incident_update_once_witness :
  is_ok (fst (@run_request Demo.env (Small.update "CLOSED")
    (snd (@run_request Demo.env (Small.update "MITIGATED") Small.opened)))) = false.
Proof.
  exact (incident_update_once Demo.env Demo.env Demo.epoch Demo.epoch Demo.sc "incident" 1 "MITIGATED" "CLOSED"
    Small.opened _ _ _ _ Small.opened_system Small.updated (rtc_refl step _) (surjective_pairing _)).
Defined.
