(* ===== verification/FleetProps.v ===== *)
(** * Theorems on agents and their credentials

    What enrolment, renewal and revocation guarantee over the whole life of the
    system: a plan made for an earlier generation of an executor stays dead, a
    bootstrap token is spent by its first use, and the evidence of a revoked
    source never counts again. *)

From stdpp Require Import relations.
From S2P Require Import Prelude.
From S2P Require Import Sha256.
From S2P Require Import Md5.
From S2P Require Import Json.
From S2P Require Import JsonFacts.
From S2P Require Import GoTime.
From S2P Require Import Decode.
From S2P Require Import Identity.
From S2P Require Import Authorization.
From S2P Require Import Incident.
From S2P Require Import Db.
From S2P Require Import Sql.
From S2P Require Import Storage.
From S2P Require Import Lineage.
From S2P Require Import Records.
From S2P Require Import Queues.
From S2P Require Import Privacy.
From S2P Require Import Fleet.
From S2P Require Import Recovery.
From S2P Require Import Governance.
From S2P Require Import Investigation.
From S2P Require Import Knowledge.
From S2P Require Import Execution.
From S2P Require Import ExecutionFacts.
From S2P Require Import ExecutionSafety.
From S2P Require Import System.
From S2P Require Import Evolution.
From S2P Require Import Scenario.
From S2P Require Import ExecutionProps.
From S2P Require Import SystemProps.

(** ** The demonstration is a run of the system *)
Module DemoSystem.
Import Demo.
#[local] Existing Instance Demo.env.

(** A program that is a request is a step. *)
Lemma steps_of_request {A} (m : M A) r : run_request r = (m ;; ret tt) -> Steps (rtc step) m.
Proof.
  intros E w x w' Hm. apply rtc_once. destruct w as [d k].
  eapply (step_request _ _ env r k); [apply surjective_pairing|]. rewrite E. unfold bind. cbn [db]. rewrite Hm. by destruct x.
Qed.
Lemma steps_of_unit (m : M unit) r : run_request r = m -> Steps (rtc step) m.
Proof.
  intros E w x w' Hm. apply rtc_once. destruct w as [d k].
  eapply (step_request _ _ env r k); [apply surjective_pairing|]. cbn [db]. by rewrite E, Hm.
Qed.

Lemma steps_enroll agent role : Steps (rtc step) (enroll agent role).
Proof.
  unfold enroll. apply steps_bind; [exact _|apply (steps_of_request _ (RBootstrap svc admin sc agent "cluster-uid" role) eq_refl)|].
  intros b. apply steps_bind; [exact _|apply (steps_of_request _ (REnroll svc sc (C_Token b) "cluster-uid" role) eq_refl)|].
  intros c. apply steps_ret. exact _.
Qed.

Lemma bind_ret_tt (m : M unit) w : (m ;; ret tt) w = m w.
Proof. unfold bind. by destruct (m w) as [[[]|] ?]. Qed.

Lemma bind_ext {A B} (m : M A) (f g : A -> M B) w : (forall a w, f a w = g a w) -> bind m f w = bind m g w.
Proof. intros Hfg. unfold bind. by destruct (m w) as [[] ?]. Qed.

Lemma Transact_ext {A} e s (f g : Tx -> M A) w : (forall t w, f t w = g t w) -> Transact e s f w = Transact e s g w.
Proof.
  intros Hfg. unfold Transact. do 3 (apply bind_ext; intros). unfold in_transaction.
  match goal with |- match ?x with _ => _ end = match ?y with _ => _ end => assert (x = y) as ->; [|done] end.
  do 2 (apply bind_ext; intros). apply Hfg.
Qed.

Lemma steps_setup : Steps (rtc step) setup.
Proof.
  unfold setup. apply steps_bind; [exact _|apply steps_enroll|intros a].
  apply steps_bind; [exact _|apply steps_enroll|intros b].
  apply steps_bind; [exact _| |intros _; apply steps_ret; exact _].
  intros w x w' Ht. eapply (steps_of_unit _ (RTransaction epoch sc [TCreateIncident (mkIncident sc "incident" 1 "OPEN" T0);
    TPutItem item]) eq_refl). rewrite <- Ht. apply Transact_ext. intros t v. cbn [for_each run_tx_op].
  apply bind_ext. intros _ v'. apply bind_ret_tt.
Qed.

Lemma steps_exec_op op : Steps (rtc step) (run_op exec_svc sc op).
Proof. by apply (steps_of_unit _ (RExec exec_svc sc op)). Qed.

Lemma after_steps {A} (m : M A) w : Steps (rtc step) m -> rtc step (db w) (db (after m w)).
Proof. intros Hm. eapply Hm, run_pair. Qed.

Lemma world1_system : system (db world1).
Proof. apply (after_steps setup world0), steps_setup. Qed.
Lemma world2_system : system (db world2).
Proof.
  eapply system_step; [apply world1_system|]. apply (after_steps propose world1).
  apply (steps_of_request _ (RExec exec_svc sc (OpPropose owner request)) eq_refl).
Qed.
Lemma world3_system : system (db world3).
Proof.
  eapply system_step; [apply world2_system|]. apply (after_steps approve world2).
  apply (steps_of_request _ (RExec exec_svc sc (OpApprove owner id (A_Hash proposed))) eq_refl).
Qed.
End DemoSystem.

(** ** The effect of a revocation *)
Lemma filter_map_agent (t : Tx) i (l : list (row Tagents)) n :
  n = Z.of_nat (length (List.filter (fun r : row Tagents => in_scope t (g_scope r) && str_eqb (g_id r) i) l)) ->
  (n =? 1) = true -> exists g, g ∈ l /\ g_scope g = scope t /\ g_id g = i.
Proof.
  intros -> E%Z.eqb_eq%filter_one. destruct E as [g [Hg Hp]%find_Some_in]. exists g.
  unfold in_scope, scope_eqb in Hp. by breflect.
Qed.

Definition revoked_row (g : AgentRow) : AgentRow :=
  mkAgentRow (g_scope g) (g_id g) (g_role g) (g_audience g) (g_epoch g) (g_generation g + 1) (g_uid g) (g_token g)
    (g_expires g) true.

Lemma RevokeAgent_ok `{Env} t i w x w' :
  RevokeAgent t i w = (Ok x, w') ->
  exists g : row Tagents, g ∈ db w Tagents /\ g_scope g = scope t /\ g_id g = i /\
    (revoked_row g : row Tagents) ∈ db w' Tagents /\
    (mkRevocationRow (scope t) i (g_epoch g) (g_generation g) : row Trevocations) ∈ db w' Trevocations.
Proof.
  unfold RevokeAgent. intros Hr. run. apply exec_ok in Hm as (_ & Hst & _). apply store_ok in Hst as (_ & Ed & _).
  apply update_ok in Hm0 as (En & Ed' & _).
  assert (Ea : db w0 Tagents = db w Tagents) by (rewrite Ed; by apply upd_other).
  rewrite Ea in En. destruct (filter_map_agent _ _ _ _ En Hg0) as (g & Hin & Es & Ei). exists g.
  assert (Hp : in_scope t (g_scope g) && str_eqb (g_id g) i = true)
    by (unfold in_scope, scope_eqb; by rewrite Es, Ei, bool_decide_true, str_eqb_refl).
  do 3 (split; [done|]). rewrite Ed', upd_same, upd_other by done. rewrite Ea, Ed, upd_same. split.
  - apply list_elem_of_fmap. exists g. split; [by rewrite Hp|done].
  - set (v := mkRevocationRow (scope t) i (g_epoch g) (g_generation g)). apply elem_of_app.
    destruct (existsb (fun o : row Trevocations => scope_eqb (v_scope v) (v_scope o)
        && str_eqb (v_agent v) (v_agent o) && str_eqb (v_epoch v) (v_epoch o) && (v_through v =? v_through o))
        (db w Trevocations)) eqn:E.
    + left. apply existsb_exists in E as (o & Ho & E). apply list_elem_of_In in Ho. unfold scope_eqb in E. breflect.
      destruct o. cbn in *. by subst.
    + right. apply list_elem_of_In, filter_In. split; [|by rewrite E]. apply list_elem_of_In, list_elem_of_fmap.
      exists g. split; [by rewrite Es, Ei|]. apply list_elem_of_In, filter_In. split; [by apply list_elem_of_In|done].
Qed.

Lemma Revoke_ok `{Env} s p sc i w x w' :
  Revoke s p sc i w = (Ok x, w') ->
  Authorize (Some (Policy_ s)) (go_now (tick w)) p sc Setup = true /\
  exists g : row Tagents, g ∈ db w Tagents /\ g_scope g = sc /\ g_id g = i /\
    (revoked_row g : row Tagents) ∈ db w' Tagents /\
    (mkRevocationRow sc i (g_epoch g) (g_generation g) : row Trevocations) ∈ db w' Trevocations.
Proof.
  unfold Revoke, tx_of. intros Hr. run. apply authorize_ok in Hm as [Ha ->]. split; [done|].
  apply Transact_ok in Hr as (_ & w0 & w1 & E0 & Hr & E1). apply RevokeAgent_ok in Hr. cbn [scope] in Hr. cbn [db next] in E0.
  by rewrite E1, <- E0.
Qed.

(** What a granted claim found. *)
Lemma Claim_agent `{Env} s sc token i w c w' :
  Claim s sc token i w = (Ok c, w') -> exec_inv (db w) ->
  exists a (g : row Tagents), action_view (db w) sc i = Some a /\ g ∈ db w Tagents /\ g_scope g = sc /\
    g_id g = Pl_ExecutorID (A_Plan a) /\ g_generation g = Pl_ExecutorGeneration (A_Plan a).
Proof.
  intros Hc Hinv. destruct (Claim_result _ _ _ _ _ _ _ Hc Hinv) as (a & _ & _ & _ & Hm).
  destruct (Claim_effect _ _ _ _ _ _ _ Hc Hinv) as [[_ E]|(f & t & b & g & at_ & _ & _ & H1 & H2 & _ & _ & _ & _ & H3 & H4 & Hv & _)].
  - exfalso. pose proof (mv_log _ _ _ _ _ Hm) as El. unfold log in El. rewrite E in El.
    apply (f_equal length) in El. rewrite length_app in El. cbn in El. lia.
  - exists b, g. done.
Qed.

(** A bootstrap of the demonstration, used twice. *)
Module Twice.
#[local] Existing Instance Demo.env.
Definition boot : M Credential := Bootstrap Demo.svc Demo.admin Demo.sc "collector" "cluster-uid" Collector.
Definition issued : World := Demo.after boot Demo.world0.
Definition token : string :=
  C_Token (Demo.value (mkCredential "" (mkAgent Demo.sc "" "" "" "" 0 "" 0 false)) (Demo.result boot Demo.world0)).
Definition use : M Credential := Enroll Demo.svc Demo.sc token "cluster-uid" Collector.

Lemma issued_system : system (db issued).
Proof.
  exact (DemoSystem.after_steps boot Demo.world0
    (DemoSystem.steps_of_request boot (RBootstrap Demo.svc Demo.admin Demo.sc "collector" "cluster-uid" Collector) eq_refl)).
Qed.
Lemma used : exists c, use issued = (Ok c, Demo.after use issued).
Proof.
  assert (Hok : is_ok (Demo.result use issued) = true) by (vm_compute; reflexivity).
  revert Hok. unfold Demo.result, Demo.after. generalize (use issued). intros [[c|e] w] Hok; [exists c; reflexivity|].
  discriminate Hok.
Qed.
End Twice.

(** ** Evidence of a revoked source *)
Definition source_of (body agent epoch : string) (generation : Z) : Prop :=
  json_path body ["source"; "agent_id"] = Some agent /\ json_path body ["source"; "epoch"] = Some epoch /\
  exists g, json_path body ["source"; "generation"] = Some g /\ parse_int g = Some generation.

Lemma source_revoked t d body agent epoch z v strict at_ :
  source_of body agent epoch z -> (mkRevocationRow (scope t) agent epoch v : row Trevocations) ∈ d Trevocations ->
  z <= v -> source_current t d body strict at_ = Some false.
Proof.
  intros (Ea & Ee & g & Eg & Hz) Hv Hle. unfold source_current. rewrite Ea, Ee, Eg.
  destruct (List.find _ _) as [k|] eqn:Ek; [|done]. apply find_Some_in in Ek as [_ Hk]. breflect.
  case_if as Ec; [|done]. breflect. subst. unfold revoked_through.
  match goal with |- context [List.filter ?p (d Trevocations)] => set (rs := List.filter p (d Trevocations)) end.
  assert (Hin : In (mkRevocationRow (scope t) (g_id k) (g_epoch k) v : row Trevocations) rs).
  { apply filter_In. split; [by apply list_elem_of_In|]. unfold in_scope, scope_eqb. cbn.
    by rewrite bool_decide_true, !str_eqb_refl. }
  destruct rs as [|r0 rs0]; [done|]. rewrite Hz. cbn [mbind option_bind fmap option_fmap option_map].
  match goal with |- context [existsb ?p ?l] => assert (existsb p l = true) as -> end; [|done].
  apply existsb_exists. eexists. split; [exact Hin|]. cbn. by apply Z.leb_le.
Qed.

Lemma items_inj d (r r' : row Titems) :
  db_ok d -> r ∈ d Titems -> r' ∈ d Titems -> i_scope r = i_scope r' -> i_ref r = i_ref r' -> r = r'.
Proof.
  intros [Hd _] Hr Hr' Es Ei. destruct (Hd Titems) as [_ Hu].
  eapply (unique_inj Titems _ _ r r' (kscope (i_scope r') ++ kref (i_ref r'))); [done|by left|done|done|..]; cbn.
  - by rewrite Es, Ei.
  - done.
Qed.

Lemma item_row_found t d (i : row Titems) :
  db_ok d -> i ∈ d Titems -> i_scope i = scope t -> item_row t d (i_ref i) = Some i.
Proof.
  intros Hd Hi Es. unfold item_row.
  destruct (find_is_Some (item_at t (i_ref i)) (d Titems) i Hi) as [r Er].
  { unfold item_at, in_scope, scope_eqb. by rewrite Es, !bool_decide_true. }
  rewrite Er. apply find_Some_in in Er as [Hr Hp]. unfold item_at, in_scope, scope_eqb in Hp. breflect.
  f_equal. eapply items_inj; [done..|congruence|done].
Qed.

Lemma node_revoked t d (i : row Titems) agent epoch z v b at_ :
  db_ok d -> i ∈ d Titems -> i_scope i = scope t -> i_kind i = Evidence ->
  source_of (I_Body (i_envelope i)) agent epoch z ->
  (mkRevocationRow (scope t) agent epoch v : row Trevocations) ∈ d Trevocations -> z <= v ->
  node_eligible t d at_ (i_ref i, b) = Some false.
Proof.
  intros Hd Hi Hs Hk Hsrc Hv Hle. unfold node_eligible. rewrite (item_row_found _ _ _ Hd Hi Hs).
  case_if as E1; [done|]. case_if as E2; [done|]. rewrite Hk. cbn [negb]. rewrite bool_decide_true by done. cbn [negb].
  case_if as E; [|by eapply source_revoked].
  breflect. destruct Hsrc as (_ & E' & _). congruence.
Qed.

(** The demonstration's collector, revoked after its report was stored. *)
Module Sourced.
#[local] Existing Instance Demo.env.
Definition revoke : M unit := Revoke Demo.svc Demo.admin Demo.sc "collector".
Definition world : World := Demo.after revoke Demo.world1.
Definition tx : Tx := mkTx Demo.sc Demo.epoch Demo.T0.

Lemma sourced_system : system (db world).
Proof.
  exact (system_step _ _ DemoSystem.world1_system (DemoSystem.after_steps revoke Demo.world1
    (DemoSystem.steps_of_unit revoke (RRevoke Demo.svc Demo.admin Demo.sc "collector") eq_refl))).
Qed.

Definition item_facts (i : row Titems) :=
  let body := I_Body (i_envelope i) in
  (i_scope i, i_ref i, i_kind i, json_path body ["source"; "agent_id"], json_path body ["source"; "epoch"],
   json_path body ["source"; "generation"]).

Lemma facts :
  (let d := db world in (map item_facts (d Titems), d Trevocations)) =
  ([(Demo.sc, Demo.ref, Evidence, Some "collector", Some Demo.epoch, Some "1")],
   [mkRevocationRow Demo.sc "collector" Demo.epoch 1]).
Proof. vm_compute. reflexivity. Qed.

Lemma stored : exists i : row Titems, i ∈ db world Titems /\ i_scope i = Demo.sc /\ i_ref i = Demo.ref /\
  i_kind i = Evidence /\ source_of (I_Body (i_envelope i)) "collector" Demo.epoch 1.
Proof.
  pose proof (f_equal fst facts) as E. cbv zeta in E. cbn [fst] in E. destruct (db world Titems) as [|i l]; [discriminate E|].
  cbn [map] in E. injection E as E1 E2 E3 E4 E5 E6 _. exists i. split; [left|]. split; [exact E1|].
  split; [exact E2|]. split; [exact E3|]. split; [exact E4|]. split; [exact E5|]. exists "1". split; [exact E6|reflexivity].
Qed.

Lemma revoked : (mkRevocationRow Demo.sc "collector" Demo.epoch 1 : row Trevocations) ∈ db world Trevocations.
Proof. rewrite (f_equal snd facts : db world Trevocations = _). left. Qed.
End Sourced.

(** The revocation of the demonstration's executor. *)
Lemma demo_revoked : exists w, w = Demo.after Demo.revoke Demo.world3 /\
  @Revoke Demo.env Demo.svc Demo.admin Demo.sc "executor" Demo.world3 = (Ok tt, w).
Proof.
  destruct Demo.scenario_runs as (_ & _ & _ & _ & _ & Hr & _).
  unfold Demo.revoke in *. eexists. split; [reflexivity|]. revert Hr. unfold Demo.result, Demo.after.
  generalize (@Revoke Demo.env Demo.svc Demo.admin Demo.sc "executor" Demo.world3). intros [[[]|e] w] Hr; [reflexivity|].
  discriminate Hr.
Qed.

(** Its action names that executor, as it is enrolled. *)
Lemma demo_action : exists a (g : row Tagents), action_view (db Demo.world3) Demo.sc Demo.id = Some a /\
  g ∈ db Demo.world3 Tagents /\ g_scope g = Demo.sc /\ g_id g = "executor" /\
  Pl_ExecutorID (A_Plan a) = "executor" /\ Pl_ExecutorGeneration (A_Plan a) = g_generation g.
Proof.
  destruct DemoFacts.claimed_ok as [c Hc]. apply Claim_agent in Hc as (a & g & Ha & Hg & Hs & Hi & Hgen);
    [|exact (reachable_inv _ DemoFacts.reach3)].
  destruct Demo.scenario_runs as (_ & _ & _ & _ & _ & _ & _ & _ & _ & Hh). rewrite Ha in Hh. injection Hh as Hh.
  exists a, g. rewrite Hi. exact (conj Ha (conj Hg (conj Hs (conj Hh (conj Hh (eq_sym Hgen)))))).
Qed.

(** ** The effect of an enrolment *)
Definition spend (at_ : Time) (b : BootstrapRow) : BootstrapRow :=
  mkBootstrapRow (b_scope b) (b_token b) (b_agent b) (b_role b) (b_audience b) (b_epoch b) (b_uid b) (b_expires b)
    (Some at_).

(** The row inserted or updated by an upsert without a WHERE clause. *)
Lemma upsert_ok `{Env} t c s r w n w' :
  upsert t c (fun _ _ => true) s r w = (Ok n, w') ->
  (existsb (c r) (db w t) = false /\ db w' = upd (db w) t (db w t ++ [r])) \/
  (exists o, o ∈ db w t /\ c r o = true /\ s r o ∈ db w' t /\
    db w' = upd (db w) t (map (fun o => if c r o && true then s r o else o) (db w t))).
Proof.
  intros Hu. apply exec_ok in Hu as (_ & Hs & _). destruct (check t r); [|done]. cbn [negb] in Hs.
  destruct (existsb (c r) (db w t)) eqn:E; apply store_ok in Hs as (_ & Ed & _); [right|by left].
  apply existsb_exists in E as (o & Ho & Hc). apply list_elem_of_In in Ho. exists o. rewrite Ed, upd_same.
  repeat split; [done..|]. apply list_elem_of_fmap. exists o. by rewrite Hc.
Qed.

Definition bootstrap_row (s : Service) (sc : Scope) (token uid role : string) (b : BootstrapRow) : Prop :=
  b_scope b = sc /\ b_token b = TokenHash token /\ b_uid b = uid /\ b_role b = role /\
  b_audience b = audience role /\ b_epoch b = Epoch s.

Lemma ConsumeBootstrap_ok `{Env} t h uid role aud epoch credential expires w a w' :
  ConsumeBootstrap t h uid role aud epoch credential expires w = (Ok a, w') ->
  exists (b : row Tbootstraps) (g : row Tagents), b ∈ db w Tbootstraps /\
    bootstrap_matches t h uid role aud epoch b = true /\ (spend (tx_now t) b : row Tbootstraps) ∈ db w' Tbootstraps /\
    g ∈ db w' Tagents /\ g_scope g = scope t /\ g_token g = credential /\ a = agent_of g.
Proof.
  unfold ConsumeBootstrap. intros Hc. run. apply update_returning_ok in Hm as (-> & Ed & _).
  destruct (List.filter _ _) as [|b l] eqn:E; [done|]. apply filter_cons_in in E as [Hb Hp]. cbn [map] in Hc. run.
  apply upsert_ok in Hm as Hup. apply AgentByToken_ok in Hc as (-> & g & Hg & Gs & Gt & ->).
  exists b, g. do 2 (split; [done|]). split; [|done].
  assert (Eb : db w1 Tbootstraps = db w0 Tbootstraps).
  { destruct Hup as [[_ ->]|(o & _ & _ & _ & ->)]; by apply upd_other. }
  cbn [db next]. rewrite Eb, Ed, upd_same. apply list_elem_of_fmap. exists b. split; [by rewrite Hp|done].
Qed.

Lemma Enroll_ok `{Env} s sc token uid role w c w' :
  Enroll s sc token uid role w = (Ok c, w') ->
  let at_ := pg_now (S (tick w)) in
  exists (b : row Tbootstraps) (g : row Tagents), b ∈ db w Tbootstraps /\ bootstrap_row s sc token uid role b /\
    b_consumed b = None /\ at_ < b_expires b /\ (spend at_ b : row Tbootstraps) ∈ db w' Tbootstraps /\
    g ∈ db w' Tagents /\ g_scope g = sc /\ g_token g = TokenHash (C_Token c) /\ C_Agent c = agent_of g.
Proof.
  unfold Enroll. intros He. run. unfold newToken in Hm. run.
  apply catch_ok in Hm0 as [Ht|(e & w3 & _ & Ht)]; [|discriminate]. unfold tx_of in Ht.
  apply Transact_ok in Ht as (_ & wa & wb & Ea & Ht & Eb). run. apply time_now_ok in Hm as [-> ->].
  apply ConsumeBootstrap_ok in Ht as (b & g & Hb & Hp & Hsp & Hin & Gs & Gt & ->). cbn [db next scope tx_now] in *.
  unfold bootstrap_matches, in_scope, scope_eqb in Hp. breflect. cbn [scope tx_now] in *.
  unfold rand_read in Hm1. injection Hm1 as <- <-. cbn [db next tick] in *. exists b, g. rewrite <- Ea, Eb. done.
Qed.

Lemma bootstraps_inj d (r r' : row Tbootstraps) :
  db_ok d -> r ∈ d Tbootstraps -> r' ∈ d Tbootstraps -> b_scope r = b_scope r' -> b_token r = b_token r' -> r = r'.
Proof.
  intros [Hd _] Hr Hr' Es Ei. destruct (Hd Tbootstraps) as [_ Hu].
  eapply (unique_inj Tbootstraps _ _ r r' (kscope (b_scope r') ++ [KS (b_token r')])); [done|by left|done|done|..]; cbn.
  - by rewrite Es, Ei.
  - done.
Qed.

(** ** The theorems *)

(** C14: revocation disarms.  Once a policy administrator has revoked an
    executor, no action whose plan names that executor, at the generation it had
    or an earlier one, is ever claimed again: not with the old credential, not
    with one from a later enrolment, not by any sequence of later requests. *)
Theorem revocation_disarms (E1 E2 : Env) s1 p sc g w w1 id a s2 token w2 r w3 x :
  system (db w) -> g ∈ db w Tagents -> g_scope g = sc ->
  @Revoke E1 s1 p sc (g_id g) w = (Ok x, w1) ->
  action_view (db w) sc id = Some a ->
  Pl_ExecutorID (A_Plan a) = g_id g -> Pl_ExecutorGeneration (A_Plan a) <= g_generation g ->
  rtc step (db w1) (db w2) -> @Claim E2 s2 sc token id w2 = (r, w3) -> is_ok r = false.
Proof.
  intros Hs Hg Hsc Hrev Ha Hid Hgen Hsteps Hc. destruct r as [c|]; [exfalso|done].
  assert (Hw : rtc step (db w) (db w1)).
  { destruct x. exact (request_steps E1 (RRevoke s1 p sc (g_id g)) w (Ok tt) w1 Hrev). }
  pose proof (system_step _ _ Hs Hw) as Hs1. pose proof (system_step _ _ Hs1 Hsteps) as Hs2.
  apply Revoke_ok in Hrev as (_ & g' & Hg' & Es & Ei & Hrow & _).
  assert (g' = g) as -> by (apply (agents_inj (db w)); [by apply system_ok|done|done|congruence|done]).
  destruct (Claim_agent _ _ _ _ _ _ _ Hc) as (b & k & Hb & Hk & Ks & Ki & Kg); [by apply reachable_inv, system_reachable|].
  assert (Hplan : A_Plan a = A_Plan b).
  { destruct (log_grows (db w) (db w2) sc id) as (_ & _ & _ & Hv); [by apply reachable_inv, system_reachable| |].
    - apply steps_sys. by trans (db w1).
    - destruct (Hv _ Ha) as (a' & Ha' & (E & _)). congruence. }
  destruct (rows_kept (db w1) (db w2) Tagents (revoked_row g) (system_ok _ Hs1) Hsteps eq_refl Hrow)
    as (k' & Hk' & K1 & K2 & K3). cbn in K1, K2, K3.
  assert (k = k') as <- by (apply (agents_inj (db w2)); [by apply system_ok|done|done|congruence|congruence]).
  rewrite Hplan in Hgen. destruct K3 as [->|K3]; cbn in *; lia.
Qed.

Lemma revocation_disarms_witness :
  is_ok (fst (@Claim Demo.env Demo.exec_svc Demo.sc (snd Demo.tokens) Demo.id (Demo.after Demo.revoke Demo.world3))) = false.
Proof.
  destruct demo_action as (a & g & Ha & Hg & Hs & Hi & Hid & Hgen).
  destruct demo_revoked as (w & <- & Hr).
  refine (revocation_disarms Demo.env Demo.env Demo.svc Demo.admin Demo.sc g Demo.world3 w
    Demo.id a Demo.exec_svc (snd Demo.tokens) w _ _ tt
    DemoSystem.world3_system Hg Hs _ Ha _ _ (rtc_refl step _) (surjective_pairing _)).
  - rewrite Hi. exact Hr.
  - rewrite Hid. symmetry. exact Hi.
  - rewrite Hgen. exact (Z.le_refl _).
Defined.

(** C15: a bootstrap token is spent by its first use.  A successful enrolment
    found an unconsumed, unexpired bootstrap issued for this scope, cluster,
    role, audience and epoch, marked it consumed, and stored the new credential
    it returns; and no enrolment with the same token, by whatever replica, role
    or cluster, succeeds on a database with those bootstraps. *)
Theorem bootstrap_spent_once (E1 E2 : Env) s sc token uid role w c w1 s2 uid2 role2 w2 r w3 :
  system (db w) -> @Enroll E1 s sc token uid role w = (Ok c, w1) ->
  (exists (b : row Tbootstraps) (g : row Tagents), b ∈ db w Tbootstraps /\ bootstrap_row s sc token uid role b /\
     b_consumed b = None /\ @pg_now E1 (S (tick w)) < b_expires b /\
     (spend (@pg_now E1 (S (tick w))) b : row Tbootstraps) ∈ db w1 Tbootstraps /\
     g ∈ db w1 Tagents /\ g_scope g = sc /\ g_token g = TokenHash (C_Token c) /\ C_Agent c = agent_of g) /\
  (db w2 Tbootstraps = db w1 Tbootstraps -> @Enroll E2 s2 sc token uid2 role2 w2 = (r, w3) -> is_ok r = false).
Proof.
  intros Hs He. assert (Hs1 : system (db w1)).
  { eapply system_step; [exact Hs|]. apply (request_steps E1 (REnroll s sc token uid role) w (Ok tt) w1).
    cbn [run_request]. unfold bind. by rewrite He. }
  apply Enroll_ok in He as (b & g & Hb & Hrow & Hc & Hx & Hsp & Hrest). split; [by exists b, g|].
  intros E2b H2. destruct r as [c2|]; [exfalso|done].
  apply Enroll_ok in H2 as (b2 & g2 & Hb2 & (R1 & R2 & _) & Hc2 & _). rewrite E2b in Hb2.
  destruct Hrow as (S1 & S2 & _).
  assert (b2 = spend (@pg_now E1 (S (tick w))) b) as ->; [|done].
  apply (bootstraps_inj (db w1) b2 _ (system_ok _ Hs1) Hb2 Hsp); cbn; congruence.
Qed.

Lemma bootstrap_spent_once_witness :
  is_ok (fst (Twice.use (Demo.after Twice.use Twice.issued))) = false.
Proof.
  destruct Twice.used as [c Hc].
  destruct (bootstrap_spent_once Demo.env Demo.env Demo.svc Demo.sc Twice.token "cluster-uid" Collector Twice.issued c
    (Demo.after Twice.use Twice.issued) Demo.svc "cluster-uid" Collector (Demo.after Twice.use Twice.issued)
    (fst (Twice.use (Demo.after Twice.use Twice.issued))) (snd (Twice.use (Demo.after Twice.use Twice.issued)))
    Twice.issued_system Hc) as [_ H].
  exact (H eq_refl (surjective_pairing _)).
Defined.

(** C16: revocation reaches back.  Once an agent is revoked through a
    generation, evidence that it reported under that epoch, at that generation or
    an earlier one, and everything that rests on it, is never found eligible
    again: at any instant, under any environment, even historically, and even
    after the agent enrolled anew. *)
Theorem revoked_evidence_never_counts `{Env} d t ref (i : row Titems) agent epoch z v at_ w w' :
  system d -> i ∈ d Titems -> i_scope i = scope t -> i_kind i = Evidence ->
  source_of (I_Body (i_envelope i)) agent epoch z ->
  (mkRevocationRow (scope t) agent epoch v : row Trevocations) ∈ d Trevocations -> z <= v ->
  ancestor t d ref (i_ref i) -> rtc step d (db w) -> Eligible t ref at_ w <> (Ok true, w').
Proof.
  intros Hd%system_ok Hi Hs Hk Hsrc Hv Hle Ha Hst He%Eligible_true_inv. revert He.
  pose proof (proj1 (steps_evolves _ _ Hst Hd)) as Hw.
  assert (Hkept : forall tb (r : row tb), tb ∈ audit -> r ∈ d tb -> r ∈ db w tb) by (intros tb r; by apply audit_kept).
  apply (ancestor_kept _ _ _ _ _ Hd Hst) in Ha as (b & Hp).
  destruct (existsb (item_at t ref) (db w Titems)) eqn:E.
  - apply (all_of_false _ _ (i_ref i, b)); [by apply lineage_spec|].
    eapply node_revoked; [done| |done|done|done| |done]; (apply Hkept; [|done]);
      apply (bool_decide_eq_true_1 _); vm_compute; reflexivity.
  - assert (lineage t (db w) ref = []) as -> by (unfold lineage; by rewrite E). done.
Qed.

Lemma revoked_evidence_never_counts_witness :
  fst (@Eligible Demo.env Sourced.tx Demo.ref Demo.T0 Sourced.world) <> Ok true.
Proof.
  destruct Sourced.stored as (i & Hi & Hs & Hr & Hk & Hsrc). intros E.
  refine (@revoked_evidence_never_counts Demo.env (db Sourced.world) Sourced.tx Demo.ref i "collector" Demo.epoch 1 1 Demo.T0
    Sourced.world (snd (@Eligible Demo.env Sourced.tx Demo.ref Demo.T0 Sourced.world)) Sourced.sourced_system Hi Hs Hk Hsrc
    Sourced.revoked (Z.le_refl _) _ (rtc_refl step _) _).
  - rewrite Hr. exact (ancestor_self _ _ _).
  - rewrite <- E. exact (surjective_pairing _).
Defined.
