(* ===== verification/Deployment.v ===== *)
(** * The orchestrator and its executors as one system

    Any number of executors, each with its journal file and its process, poll one
    orchestrator, while other requests run and messages get lost.  A program of an
    executor writes to the cluster only with the claim it was granted last, once
    ([wp] over the credit it holds); the orchestrator grants a claim of an action
    at most once; so an action is written at most once, wherever processes die. *)

From stdpp Require Import relations.
From S2P Require Import Prelude.
From S2P Require Import Json.
From S2P Require Import JsonFacts.
From S2P Require Import GoTime.
From S2P Require Import Decode.
From S2P Require Import Identity.
From S2P Require Import Authorization.
From S2P Require Import Incident.
From S2P Require Import Db.
From S2P Require Import Sql.
From S2P Require Import Storage.
From S2P Require Import Records.
From S2P Require Import Fleet.
From S2P Require Import Execution.
From S2P Require Import ExecutionFacts.
From S2P Require Import ExecutionSafety.
From S2P Require Import System.
From S2P Require Import Evolution.
From S2P Require Import Scenario.
From S2P Require Import ExecutionProps.
From S2P Require Import SystemProps.
From S2P Require Import Assoc.
From S2P Require Import Registry.
From S2P Require Import RegistryFacts.
From S2P Require Import Executor.
From S2P Require Import ExecutorRun.
From S2P Require Import ExecutorCrash.
From S2P Require Import AgentApi.

Import Runtime.
#[local] Open Scope runtime_scope.

(** ** The credit of a program *)
Section Credit.
Context `{Kube}.
Variable config : RuntimeConfig.

(** A target is resolved for the commitment it was put with. *)
Definition commits (c : string) (t : LocalTarget) : Prop := snd (Registry.tokens (RC_IdentityKey config) t) = c.
#[local] Instance registry_answers : Honest := fun c =>
  match c with
  | Resolve h cm => fun x => match x with Ok t => commits cm t | Err _ => True end
  | _ => fun _ => True
  end.

(** The claim granted last, until it is used. *)
Definition credit : Type := option (string * ClaimResult).
Definition credit_step (cr : credit) (o : obs) : credit :=
  match o with
  | existT (PostClaim _ id) (Ok c) => Some (id, c)
  | existT (DeletePod _ _ false) _ => None
  | _ => cr
  end.
(** A write is done for the action of the credit, on a target validated for it. *)
Definition entitled (cr : credit) (c : call) : Prop :=
  match c with
  | DeletePod id t false => exists claim, cr = Some (id, claim) /\
      target_ok (CL_Action claim) t = true /\ namespace_allowed config (LT_Namespace t) = true /\
      commits (Pl_TargetCommitment (A_Plan (CL_Action claim))) t
  | _ => True
  end.
Definition spends {A} (p : prog A) (Q : A -> credit -> Prop) (cr : credit) : Prop :=
  wp (fun cr c x cr' => honest c x /\ cr' = credit_step cr (existT c x)) (fun _ => True) entitled p Q cr.
Definition spendsX {A} (m : X A) : Prop := forall r cr, spends (m r) (fun _ _ => True) cr.

Definition harmless (c : call) : bool := match c with DeletePod _ _ false => false | _ => true end.

Lemma within_spends {A} (p : prog A) R cr : within harmless p R -> spends p (fun _ _ => True) cr.
Proof.
  unfold spends. revert cr. induction p as [a|c k IH]; cbn; intros cr; [done|]. intros [Hc Hk].
  split; [done|]. split; [|by intros x s' [Hx _]; apply IH, Hk].
  destruct c as [| | | | | | | | | | | | | | | | | | | | |id t []]; done.
Qed.
Lemma quiet_spends {A} ok (m : X A) R : (forall c, ok c = true -> harmless c = true) -> quiet ok m R -> spendsX m.
Proof. intros Hok Hm r cr. eapply within_spends. by eapply (quiet_weaken ok). Qed.

Lemma spendsX_bind {A B} (m : X A) (f : A -> X B) : spendsX m -> (forall a, spendsX (f a)) -> spendsX (bindX m f).
Proof.
  intros Hm Hf r cr. unfold bindX. apply wp_bind. eapply wp_mono; [|apply Hm]. intros [[a|e] r'] cr' _; [apply Hf|done].
Qed.
Lemma spendsX_try {A} (m : X A) : spendsX m -> spendsX (try m).
Proof. intros Hm r cr. unfold try. apply wp_bind. eapply wp_mono; [|apply Hm]. done. Qed.
Lemma spendsX_call c : harmless c = true -> spendsX (do_call c).
Proof. intros Hc r cr. eapply (within_spends _ (fun _ => True)). cbn. done. Qed.
Lemma spendsX_each {A} (f : A -> X unit) l : (forall a, spendsX (f a)) -> spendsX (eachX f l).
Proof. intros Hf. induction l as [|a l IH]; cbn [eachX]; [done|]. by apply spendsX_bind. Qed.

Ltac spend_step :=
  match goal with
  | |- spendsX (bindX get _) => apply spendsX_bind; [done|intros ?]
  | |- spendsX (bindX _ _) => apply spendsX_bind; [|intros ?]
  | |- spendsX (do_call _) => by apply spendsX_call
  | |- spendsX (try _) => apply spendsX_try
  | |- spendsX (guardX ?b _) => destruct b; done
  | |- spendsX (of_resX ?x) => destruct x; done
  | |- spendsX (match ?x with _ => _ end) => destruct x
  | |- spendsX (check_credential _ _) => eapply quiet_spends; [|apply quiet_honest, check_credential_calm]; by intros [| | | | | | | | | | | | | | | | | | | | |? ? []]
  | |- spendsX (validate _ _) => eapply quiet_spends; [|by apply (validate_quiet config (fun _ _ => True))]; by intros []
  | |- spendsX (verifyCluster _) => eapply quiet_spends; [|apply quiet_honest, verifyCluster_quiet]; by intros []
  | |- spendsX (preload _) => eapply quiet_spends; [|apply quiet_honest, preload_calm]; by intros [| | | | | | | | | | | | | | | | | | | | |? ? []]
  | |- spendsX (authorize _) => eapply quiet_spends; [|apply quiet_honest, authorize_calm]; by intros [| | | | | | | | | | | | | | | | | | | | |? ? []]
  | |- spendsX persistJournal => unfold persistJournal
  | |- spendsX (set_journal _) => done
  | |- spendsX _ => done
  end.

Lemma persist_spends : spendsX persistJournal.
Proof. unfold persistJournal. repeat spend_step. Qed.
Lemma receipt_spends id a : spendsX (receipt id a).
Proof. unfold receipt. repeat spend_step. Qed.
Lemma flush_spends : spendsX (flush config).
Proof.
  unfold flush. do 2 spend_step; [by apply spendsX_call|]. apply spendsX_each. intros id. unfold flush_one.
  repeat first [apply receipt_spends|spend_step].
Qed.
Lemma compact_spends : spendsX compactJournal.
Proof. unfold compactJournal. cbv zeta. repeat spend_step. Qed.

(** A program that makes no claim and no write keeps the credit. *)
Lemma quiet_credit {A} ok (m : X A) R (Q : res A * Runtime -> credit -> Prop) r cr :
  (forall c, ok c = true -> harmless c = true /\ match c with PostClaim _ _ => False | _ => True end) ->
  quiet ok m R -> (forall x r', R x -> Q (x, r') cr) -> spends (m r) Q cr.
Proof.
  intros Hok Hm HQ.
  apply (wp_mono _ _ _ _ (fun x cr' => Q (fst x, snd x) cr')); [by intros [x r']|].
  apply (quiet_wp (fun cr c x cr' => honest c x /\ cr' = credit_step cr (existT c x)) (fun _ => True) entitled ok m R
    (fun x r' => Q (x, r')) r cr Hm); [done| | |].
  - intros c [Hc _]%Hok. destruct c as [| | | | | | | | | | | | | | | | | | | | |id t []]; done.
  - intros c x s' Hc [Hx ->]. apply Hok in Hc as [Hc Hn]. split; [done|]. clear Hx.
    destruct c as [| | | | | | | | | | | | | | | | | | | | |id t []]; done.
  - intros x r' HR _. by apply HQ.
Qed.

Lemma mutate_spends id a claim r :
  spends (mutate config id a claim r) (fun _ _ => True) (Some (id, claim)).
Proof.
  unfold mutate. case_if as Eg; [done|].
  apply wp_bind, wp_bind.
  apply (quiet_credit reads _ (fun x => match x with
    | Ok t => validated_target config (CL_Action claim) t /\ commits (Pl_TargetCommitment (A_Plan (CL_Action claim))) t
    | Err _ => True end)); [by intros []|by apply (validate_quiet config commits)|].
  intros [t|e] r1 Ht; cbn [bindX bindP fst snd]; [|done]. split; [done|]. split; [done|].
  intros x cr' [_ ->]. destruct x as [e|]; [done|]. cbn [bindP fst snd].
  apply wp_bind, wp_bind.
  apply (quiet_credit reads _ (fun _ => True)); [by intros []|by eapply quiet_mono; [by apply (validate_quiet config commits)|]|].
  intros [t'|e] r2 _; cbn [fst snd]; [|done]. split; [done|]. split; [|done].
  exists claim. destruct Ht as [(_ & _ & Ht & Hns) Hcm]. done.
Qed.

Lemma persist_quiet : quiet (hon := any_answer) (fun c => match c with SaveJournal _ => true | _ => false end) persistJournal (fun _ => True).
Proof. unfold persistJournal. apply quiet_get. intros r. cbv zeta. repeat quiet_step. Qed.

Lemma perform_spends a : spendsX (perform config a).
Proof.
  unfold perform. cbv zeta. apply spendsX_bind; [done|intros r0]. apply spendsX_bind; [by destruct (_ && _)|intros _].
  intros r cr. cbn [bindX do_call bindP fst snd]. split; [done|]. split; [done|].
  intros reply cr' [_ ->]. cbn [bindP fst snd]. set (id := Pl_ID (A_Plan a)).
  destruct reply as [claim|e]; [|done]. cbn [credit_step]. unfold bindX at 1. cbn [of_resX retX bindP fst snd].
  unfold bindX at 1. destruct (slen (CL_ReceiptToken claim) =? 64); [|done]. cbn [guardX retX bindP fst snd].
  unfold bindX at 1. cbn [get bindP fst snd]. unfold bindX at 1. cbn [set_journal bindP fst snd].
  unfold bindX at 1. apply wp_bind.
  eapply quiet_credit; [|apply quiet_honest, persist_quiet|]; [by intros []|].
  intros [[]|e] r1 _; [|done]. cbn [fst snd]. unfold bindX at 1. apply wp_bind. eapply wp_mono; [|apply mutate_spends].
  intros [[outcome|e] r2] cr2 _; [|done]. cbn [fst snd].
  revert r2 cr2. change (spendsX (
    let pending := mkAttempt (CL_ReceiptToken claim) outcome false in
    let! r := get in set_journal (assoc_set id pending (r_journal r)) ;;; persistJournal ;;; receipt id pending)).
  cbv zeta. apply spendsX_bind; [done|intros r2]. apply spendsX_bind; [done|intros _].
  apply spendsX_bind; [apply persist_spends|intros _]. apply receipt_spends.
Qed.

Lemma attend_spends a : spendsX (attend config a).
Proof. unfold attend. repeat first [apply perform_spends|spend_step]. Qed.

Lemma poll_spends r cr : spends (Poll config r) (fun _ _ => True) cr.
Proof.
  unfold Poll. case_if as E; [done|]. apply wp_bind. eapply wp_mono; [done|].
  assert (Hb : spendsX (poll_body config)); [|apply Hb].
  unfold poll_body. repeat first [apply flush_spends|apply compact_spends|apply spendsX_each; intros; apply attend_spends|spend_step].
Qed.

Lemma start_spends origin r cr : spends (newRuntime config origin r) (fun _ _ => True) cr.
Proof.
  revert r cr. change (spendsX (newRuntime config origin)). unfold newRuntime, openJournal.
  repeat first [apply persist_spends|spend_step].
Qed.
End Credit.

(** ** The joint system *)
Section Joint.
Context `{Kube} `{GCM}.
(** The orchestrator's execution and fleet services, and its executors. *)
Variable service : option ExecService.
Variable configs : nat -> RuntimeConfig.

Record Joint := mkJoint { j_db : DB; j_nodes : nat -> Node }.
Inductive event := ERequest | ENode (n : nat) (o : option obs).

(** A handler runs at some tick in some environment; the answer is its reply,
    or any error when the reply, or the request itself, is lost. *)
Definition answered {A} (status : GoErr -> Z) (handler : forall E : Env, M A) (d : DB) (x : res A) (d' : DB) : Prop :=
  (exists E k r w, handler E (mkWorld d k) = (r, w) /\ d' = db w /\
     (x = Api.reply status r \/ exists e, x = Err e)) \/
  (d' = d /\ exists e, x = Err e).

(** The orchestrator's answers, and those of the registry that [NewRuntime] opened
    with the configured key, on whatever file the collector left. *)
Definition db_reply (config : RuntimeConfig) (d : DB) (c : call) : answer c -> DB -> Prop :=
  let sc := RC_Scope config in
  match c with
  | PostClaim token id => fun x d' =>
      answered Api.agentError (fun E => Api.claimAction service sc token id) d x d'
  | PostReceipt token id receipt outcome => fun x d' =>
      answered Api.agentError (fun E => Api.actionReceipt service sc token id receipt outcome) d x d'
  | GetActions token => fun x d' =>
      answered Api.agentError (fun E => Api.executorActions service sc token "") d x d'
  | PostEnroll token uid => fun x d' =>
      answered Api.agentError (fun E => Api.enroll (service ≫= X_Fleet) sc token uid Executor) d x d'
  | PostRenew token => fun x d' =>
      answered Api.agentError (fun E => Api.renewAgent (service ≫= X_Fleet) sc token Executor) d x d'
  | Resolve h cm => fun x d' => d' = d /\
      match x with
      | Ok t => exists io r file r', keyed (RC_IdentityKey config) r /\
          Registry.Resolve io h cm r file = (Some t, r')
      | Err _ => True
      end
  | _ => fun _ d' => d' = d
  end.

Definition set_node (n : nat) (node : Node) (nodes : nat -> Node) : nat -> Node :=
  fun m => if (m =? n)%nat then node else nodes m.

Inductive joint_step : Joint -> event -> Joint -> Prop :=
| js_request d d' nodes : step d d' -> joint_step (mkJoint d nodes) ERequest (mkJoint d' nodes)
| js_node d d' nodes n o node :
    node_step (configs n) (nodes n) o node ->
    match o with Some (existT c x) => db_reply (configs n) d c x d' | None => d' = d end ->
    joint_step (mkJoint d nodes) (ENode n o) (mkJoint d' (set_node n node nodes)).

Definition initial : Joint := mkJoint empty_db (fun _ => mkNode None Down).
Inductive joint_run : list event -> Joint -> Prop :=
| jr_nil : joint_run [] initial
| jr_snoc tr j e j' : joint_run tr j -> joint_step j e j' -> joint_run (tr ++ [e]) j'.

(** The writes to the cluster done for an action: by which executor, on what. *)
Definition write_of (sc : Scope) (id : string) (e : event) : option (nat * LocalTarget) :=
  match e with
  | ENode n (Some (existT (DeletePod id' t false) _)) =>
      if str_eqb id' id && scope_eqb (RC_Scope (configs n)) sc then Some (n, t) else None
  | _ => None
  end.
Definition writes (sc : Scope) (id : string) (tr : list event) : list (nat * LocalTarget) := omap (write_of sc id) tr.

(** What entitles executor [n] to write on [t]: the action was approved by
    somebody and submitted, and [t] is a target of the plan in a namespace that is
    [n]'s to touch, with the commitment that was approved. *)
Definition warranted (d : DB) (sc : Scope) (id : string) (n : nat) (t : LocalTarget) : Prop :=
  exists a, a ∈ log d sc id /\ A_State a = "SUBMITTED" /\ A_ApprovedBy a <> "" /\
    target_ok a t = true /\ namespace_allowed (configs n) (LT_Namespace t) = true /\
    commits (configs n) (Pl_TargetCommitment (A_Plan a)) t.

(** ** The orchestrator's side of a call *)
Lemma answered_cases {A} status (handler : forall E : Env, M A) d x d' :
  answered status handler d x d' ->
  (exists E k r w, handler E (mkWorld d k) = (r, w) /\ d' = db w /\ forall a, x = Ok a -> r = Ok a) \/
  (d' = d /\ forall a, x <> Ok a).
Proof.
  intros [(E & k & r & w & Hr & -> & [->|(e & ->)])|(-> & e & ->)]; [left..|by right].
  - exists E, k, r, w. split; [done|]. split; [done|]. destruct r as [b|]; [|done]. by intros a [= ->].
  - by exists E, k, r, w.
Qed.

(** A handler that does what a request of the system does. *)
Definition handles {A} (handler : forall E : Env, M A) : Prop := forall E w y w',
  handler E w = (y, w') -> db w' = db w \/ exists r y', run_request r w = (y', w').

Lemma answered_step {A} status (handler : forall E : Env, M A) d x d' :
  handles handler -> answered status handler d x d' -> rtc step d d'.
Proof.
  intros Hreq [(E & k & y & w & Hr & -> & _)|[-> _]]%answered_cases; [|apply rtc_refl].
  destruct (Hreq E _ _ _ Hr) as [->|(r & y' & Hy)]; [apply rtc_refl|].
  apply rtc_once. by apply (step_request _ _ E r k y' w).
Qed.

Lemma run_ret {A} (m : M A) w y w' : m w = (y, w') -> exists y', bind m (fun _ => ret tt) w = (y', w').
Proof. unfold bind. intros ->. destruct y; eauto. Qed.

Lemma guarded_run {A} b e (m : M A) w y w' :
  bind (guard b e) (fun _ => m) w = (y, w') -> db w' = db w \/ m w = (y, w').
Proof. unfold bind, guard. destruct b; cbn; [by right|]. intros [= _ <-]. by left. Qed.

Lemma caught_run {A} (m : M A) e w y w' :
  catch m (fun _ => throw e) w = (y, w') -> exists y', m w = (y', w').
Proof. unfold catch. destruct (m w) as [[a|e'] w1]; intros [= _ <-]; eauto. Qed.

Lemma claim_handles sc token id : handles (fun E : Env => Api.claimAction service sc token id).
Proof.
  intros E w y w' [|Hr]%guarded_run; [by left|]. right. apply run_ret in Hr as [y' Hy].
  by exists (RExec service sc (OpClaim token id)), y'.
Qed.
Lemma receipt_handles sc token id receipt outcome :
  handles (fun E : Env => Api.actionReceipt service sc token id receipt outcome).
Proof.
  intros E w y w' [|Hr]%guarded_run; [by left|]. right. apply run_ret in Hr as [y' Hy].
  by exists (RExec service sc (OpReceipt token id receipt outcome)), y'.
Qed.
Lemma enroll_handles f sc token uid role : handles (fun E : Env => Api.enroll f sc token uid role).
Proof.
  intros E w y w'. unfold Api.enroll. destruct f as [f|]; [|intros [= _ <-]; by left].
  intros [|[y0 Hr]%caught_run]%guarded_run; [by left|]. right. apply run_ret in Hr as [y' Hy].
  by exists (REnroll f sc token uid role), y'.
Qed.
Lemma renew_handles f sc token role : handles (fun E : Env => Api.renewAgent f sc token role).
Proof.
  intros E w y w'. unfold Api.renewAgent. destruct f as [f|]; [|intros [= _ <-]; by left].
  intros [|[y0 Hr]%caught_run]%guarded_run; [by left|]. right. apply run_ret in Hr as [y' Hy].
  by exists (RRenew f sc token role), y'.
Qed.
Lemma pure_list (E : Env) f token after t :
  Steps eq (let* agent := AuthenticateTx f t token Executor in
            let* actions := ExecutorActions t agent after 100 in of_res (Api.fitting 2 agent actions)).
Proof. unfold ExecutorActions. steps; apply pure_AuthenticateTx. Qed.

Lemma list_handles sc token after : handles (fun E : Env => Api.executorActions service sc token after).
Proof.
  intros E w y w'. unfold Api.executorActions. destruct (available service) as [f|]; [|intros [= _ <-]; by left].
  intros [|Hr]%guarded_run; [by left|]. left. apply Transact_atomic in Hr as [|(_ & a & w0 & w1 & E0 & Hr & -> & _)]; [done|].
  rewrite <- E0. symmetry. revert Hr. apply (pure_list _ f).
Qed.

Lemma db_reply_steps config d c x d' : db_reply config d c x d' -> rtc step d d'.
Proof.
  destruct c; cbn [db_reply]; try (intros ->; apply rtc_refl).
  6: intros [-> _]; apply rtc_refl.
  all: apply answered_step; first [apply claim_handles|apply receipt_handles|apply enroll_handles|apply renew_handles|apply list_handles].
Qed.

(** A registry resolves a commitment to a target that has it. *)
Lemma Resolve_commits key io h c r file t r' :
  keyed key r -> Registry.Resolve io h c r file = (Some t, r') -> snd (Registry.tokens key t) = c.
Proof.
  intros Hk. unfold Registry.Resolve. destruct (Registry.R_closed r) eqn:Ec; [done|]. specialize (Hk Ec).
  case_if as E1; [done|]. destruct (Registry.reload io r file) as [r1|] eqn:Er; [|done].
  assert (Ek : Registry.R_key r1 = key).
  { unfold Registry.reload in Er. destruct (negb (Registry.io_readable io)); [done|]. destruct file as [b|]; [|done]. cbn in Er.
    destruct (Registry.unseal (Registry.R_key r) b); [|done]. by injection Er as <-. }
  rewrite Ek. destruct (assoc h (Registry.R_entries r1)) as [v|]; [|done].
  destruct (str_eqb (snd (Registry.tokens key v)) c) eqn:E; [|done]. intros [= <- _]. by apply str_eqb_eq in E.
Qed.

Lemma db_reply_honest config d c x d' : db_reply config d c x d' -> registry_answers config c x.
Proof.
  destruct c; try done. cbn. intros [_ Hx]. destruct x as [t|e]; [|done].
  destruct Hx as (io & r & file & r' & Hk & Hr). by apply (Resolve_commits _ _ _ _ _ _ _ _ Hk Hr).
Qed.

(** ** The credits of the executors *)
Definition claimed (d : DB) (sc : Scope) (id : string) : Prop := exists a, a ∈ log d sc id /\ A_State a = "SUBMITTED".

Lemma log_kept d d' sc id a : system d -> rtc step d d' -> a ∈ log d sc id -> a ∈ log d' sc id.
Proof.
  intros Hd Hs Ha. assert (Hi : exec_inv d) by by apply reachable_inv, system_reachable.
  destruct (log_grows d d' sc id Hi (steps_sys _ _ Hs)) as (l & -> & _). apply elem_of_app. by left.
Qed.

Lemma submitted_approved d sc id a :
  system d -> a ∈ log d sc id -> A_State a = "SUBMITTED" -> A_ApprovedBy a <> "".
Proof.
  intros Hd (l1 & l2 & E)%list_elem_of_split Hs.
  destruct (entry_stage d sc id l1 a l2 (reachable_inv _ (system_reachable _ Hd)) E) as (_ & _ & Hst).
  stage_cases Hst; try done; congruence.
Qed.

(** A claim is granted to an action that was not submitted before. *)
Lemma granted_fresh `{Env} sc token id w c w' :
  system (db w) -> Claim service sc token id w = (Ok c, w') ->
  ~ claimed (db w) sc id /\ CL_Action c ∈ log (db w') sc id /\ A_State (CL_Action c) = "SUBMITTED".
Proof.
  intros Hd Hc. assert (Hi : exec_inv (db w)) by by apply reachable_inv, system_reachable.
  destruct (Claim_result _ _ _ _ _ _ _ Hc Hi) as (a & Ha & Hst & Hsub & Hm).
  split; [|split; [|done]].
  - intros (b & Hb & Hbs). destruct (view_stage _ _ _ _ Hi Ha) as (Hv & Hg & _). apply approved_second in Hg; [|done].
    apply list_elem_of_split in Hb as (l1 & l2 & E). destruct (entry_stage _ _ _ _ _ _ Hi E) as (_ & Hv' & Hg').
    apply submitted_third in Hg'; [|done]. rewrite E, length_app in Hv. cbn [length] in Hv. lia.
  - rewrite (mv_log _ _ _ _ _ Hm). apply elem_of_app. right. by apply list_elem_of_singleton.
Qed.

Lemma writes_snoc sc id tr e : writes sc id (tr ++ [e]) = writes sc id tr ++ omap (write_of sc id) [e].
Proof. apply omap_app. Qed.

Record accounts (tr : list event) (j : Joint) (cr : nat -> credit) : Prop := {
  ac_system : system (j_db j);
  ac_spends : forall n b p, n_phase (j_nodes j n) = Busy b p -> spends (configs n) p (fun _ _ => True) (cr n);
  ac_credit : forall n id c, cr n = Some (id, c) ->
    CL_Action c ∈ log (j_db j) (RC_Scope (configs n)) id /\ A_State (CL_Action c) = "SUBMITTED" /\
    writes (RC_Scope (configs n)) id tr = [];
  ac_holder : forall n m id c c', cr n = Some (id, c) -> cr m = Some (id, c') ->
    RC_Scope (configs n) = RC_Scope (configs m) -> n = m;
  ac_writes : forall sc id, (length (writes sc id tr) <= 1)%nat /\
    forall n t, (n, t) ∈ writes sc id tr -> warranted (j_db j) sc id n t
}.

Lemma warranted_kept d d' sc id n t :
  system d -> rtc step d d' -> warranted d sc id n t -> warranted d' sc id n t.
Proof. intros Hd Hs (a & Ha & Hr). exists a. split; [by eapply log_kept|done]. Qed.

Lemma warranted_claimed d sc id n t : warranted d sc id n t -> claimed d sc id.
Proof. intros (a & Ha & Hs & _). by exists a. Qed.

Lemma unclaimed_unwritten tr j cr sc id : accounts tr j cr -> ~ claimed (j_db j) sc id -> writes sc id tr = [].
Proof.
  intros Ha Hn. destruct (ac_writes _ _ _ Ha sc id) as [_ Hw].
  destruct (writes sc id tr) as [|[n t] l]; [done|]. exfalso. eapply Hn, warranted_claimed, (Hw n t). by left.
Qed.

Lemma unclaimed_credit tr j cr n id c : accounts tr j cr -> cr n = Some (id, c) ->
  claimed (j_db j) (RC_Scope (configs n)) id.
Proof. intros Ha Hc. destruct (ac_credit _ _ _ Ha n id c Hc) as (? & ? & _). by eexists. Qed.

(** The database moves on, and a node changes without a claim or a write. *)
Lemma accounts_move tr j cr e d' nodes' :
  accounts tr j cr -> rtc step (j_db j) d' -> (forall sc id, write_of sc id e = None) ->
  (forall n b p, n_phase (nodes' n) = Busy b p -> spends (configs n) p (fun _ _ => True) (cr n)) ->
  accounts (tr ++ [e]) (mkJoint d' nodes') cr.
Proof.
  intros Ha Hs Hw Hp. pose proof (ac_system _ _ _ Ha) as Hd.
  assert (E : forall sc id, writes sc id (tr ++ [e]) = writes sc id tr).
  { intros sc id. rewrite writes_snoc. cbn. by rewrite Hw, app_nil_r. }
  constructor; cbn.
  - by eapply system_step.
  - done.
  - intros n id c Hc. destruct (ac_credit _ _ _ Ha n id c Hc) as (H1 & H2 & H3). rewrite E. split; [by eapply log_kept|done].
  - apply (ac_holder _ _ _ Ha).
  - intros sc id. rewrite E. destruct (ac_writes _ _ _ Ha sc id) as [Hl Hall]. split; [done|].
    intros n t Hin. by eapply warranted_kept, Hall.
Qed.

Definition set_credit (n : nat) (c : credit) (cr : nat -> credit) : nat -> credit :=
  fun m => if (m =? n)%nat then c else cr m.

Lemma accounts_claim tr d nodes cr n id c d' x node :
  accounts tr (mkJoint d nodes) cr -> rtc step d d' ->
  ~ claimed d (RC_Scope (configs n)) id ->
  CL_Action c ∈ log d' (RC_Scope (configs n)) id -> A_State (CL_Action c) = "SUBMITTED" ->
  (forall sc id, write_of sc id x = None) ->
  (forall b p, n_phase node = Busy b p -> spends (configs n) p (fun _ _ => True) (Some (id, c))) ->
  accounts (tr ++ [x]) (mkJoint d' (set_node n node nodes)) (set_credit n (Some (id, c)) cr).
Proof.
  intros Ha Hs Hn Hin Hsub Hx Hnode. pose proof (ac_system _ _ _ Ha) as Hd. cbn in Hd.
  assert (E : forall sc id, writes sc id (tr ++ [x]) = writes sc id tr).
  { intros sc id0. rewrite writes_snoc. cbn. by rewrite Hx, app_nil_r. }
  assert (Hfree : forall m c', cr m = Some (id, c') -> RC_Scope (configs n) = RC_Scope (configs m) -> False).
  { intros m c' Hm Es. apply Hn. rewrite Es. by eapply (unclaimed_credit tr (mkJoint d nodes)). }
  unfold set_node, set_credit. constructor; cbn.
  - by eapply system_step.
  - intros m b p. destruct (m =? n)%nat eqn:Em; [|by apply (ac_spends _ _ _ Ha)].
    apply Nat.eqb_eq in Em as ->. by apply Hnode.
  - intros m id' c'. rewrite E. destruct (m =? n)%nat eqn:Em.
    + apply Nat.eqb_eq in Em as ->. intros [= <- <-]. split; [done|]. split; [done|]. by eapply unclaimed_unwritten.
    + intros Hm. destruct (ac_credit _ _ _ Ha m id' c' Hm) as (H1 & H2 & H3). split; [by eapply log_kept|done].
  - intros m1 m2 id' c1 c2. destruct (m1 =? n)%nat eqn:E1, (m2 =? n)%nat eqn:E2;
      try apply Nat.eqb_eq in E1; try apply Nat.eqb_eq in E2; subst; [done| | |].
    + intros [= <- <-] Hm Es. by destruct (Hfree m2 c2).
    + intros Hm [= <- <-] Es. by destruct (Hfree m1 c1).
    + apply (ac_holder _ _ _ Ha).
  - intros sc id'. rewrite E. destruct (ac_writes _ _ _ Ha sc id') as [Hl Hall]. split; [done|].
    intros m t Hm. by eapply warranted_kept, Hall.
Qed.

Lemma accounts_write tr d nodes cr n id c t y node :
  accounts tr (mkJoint d nodes) cr -> cr n = Some (id, c) ->
  target_ok (CL_Action c) t = true -> namespace_allowed (configs n) (LT_Namespace t) = true ->
  commits (configs n) (Pl_TargetCommitment (A_Plan (CL_Action c))) t ->
  (forall b p, n_phase node = Busy b p -> spends (configs n) p (fun _ _ => True) None) ->
  accounts (tr ++ [ENode n (Some (existT (DeletePod id t false) y))])
    (mkJoint d (set_node n node nodes)) (set_credit n None cr).
Proof.
  intros Ha Hc Ht Hns Hcm Hnode. destruct (ac_credit _ _ _ Ha n id c Hc) as (Hin & Hsub & Hw).
  assert (E : forall sc id', writes sc id' (tr ++ [ENode n (Some (existT (DeletePod id t false) y))]) =
    writes sc id' tr ++ if str_eqb id id' && scope_eqb (RC_Scope (configs n)) sc then [(n, t)] else []).
  { intros sc id'. rewrite writes_snoc. cbn. by destruct (_ && _). }
  assert (Ho : forall m id' c', m <> n -> cr m = Some (id', c') ->
    str_eqb id id' && scope_eqb (RC_Scope (configs n)) (RC_Scope (configs m)) = false).
  { intros m id' c' Hm Hm'. destruct (_ && _) eqn:Eb; [|done]. unfold scope_eqb in Eb. breflect. subst id'.
    exfalso. by eapply Hm, (ac_holder _ _ _ Ha). }
  unfold set_node, set_credit. constructor; cbn.
  - apply (ac_system _ _ _ Ha).
  - intros m b p. destruct (m =? n)%nat eqn:Em; [|by apply (ac_spends _ _ _ Ha)].
    apply Nat.eqb_eq in Em as ->. by apply Hnode.
  - intros m id' c'. destruct (m =? n)%nat eqn:Em; [done|]. apply Nat.eqb_neq in Em. intros Hm.
    destruct (ac_credit _ _ _ Ha m id' c' Hm) as (H1 & H2 & H3). rewrite E, H3, (Ho m id' c' Em Hm). done.
  - intros m1 m2 id' c1 c2. destruct (m1 =? n)%nat eqn:E1, (m2 =? n)%nat eqn:E2; [done..|]. apply (ac_holder _ _ _ Ha).
  - intros sc id'. rewrite E. destruct (ac_writes _ _ _ Ha sc id') as [Hl Hall].
    destruct (str_eqb id id' && scope_eqb _ sc) eqn:Eb; [|by rewrite app_nil_r].
    unfold scope_eqb in Eb. breflect. subst id' sc. rewrite Hw. split; [done|].
    intros m t' [= -> ->]%list_elem_of_singleton. exists (CL_Action c). split_and!; try done.
    by eapply submitted_approved; [apply (ac_system _ _ _ Ha)| |].
Qed.

Lemma initial_accounts : accounts [] initial (fun _ => None).
Proof.
  constructor; cbn; [apply rtc_refl|done|done|done|]. intros sc id. split; [lia|]. intros n t Hin. by apply elem_of_nil in Hin.
Qed.

Lemma answered_claim config token id d x d' :
  system d -> db_reply config d (PostClaim token id) x d' ->
  rtc step d d' /\ forall c, x = Ok c ->
    ~ claimed d (RC_Scope config) id /\ CL_Action c ∈ log d' (RC_Scope config) id /\ A_State (CL_Action c) = "SUBMITTED".
Proof.
  intros Hd Hr. split; [by eapply db_reply_steps|]. intros c Hx.
  cbn [db_reply] in Hr. apply answered_cases in Hr as [(E & k & r & w & Hr & -> & Hc)|[_ Hn]]; [|by destruct (Hn c)].
  apply Hc in Hx as ->. unfold Api.claimAction in Hr. apply bind_ok in Hr as ([] & w1 & Hg & Hr).
  unfold guard in Hg. destruct (Scope_Validate (RC_Scope config)); [|done]. injection Hg as <-.
  by apply granted_fresh in Hr.
Qed.

(** Whatever a node does, the accounts can be carried on. *)
Lemma accounts_step tr j e j' cr :
  accounts tr j cr -> joint_step j e j' -> exists cr', accounts (tr ++ [e]) j' cr'.
Proof.
  intros Ha Hs. destruct Hs as [d d' nodes Hs|d d' nodes n o node Hn Hr].
  { exists cr. apply (accounts_move tr _ cr ERequest d' nodes Ha); [by apply rtc_once|done|apply (ac_spends _ _ _ Ha)]. }
  assert (Hsilent : forall e' d' node', rtc step d d' -> (forall sc id, write_of sc id e' = None) ->
    (forall b p, n_phase node' = Busy b p -> spends (configs n) p (fun _ _ => True) (cr n)) ->
    exists cr', accounts (tr ++ [e']) (mkJoint d' (set_node n node' nodes)) cr').
  { intros e' d1 node' H1 H2 H3. exists cr. apply (accounts_move tr (mkJoint d nodes) cr e' d1 _ Ha H1 H2).
    intros m b p. unfold set_node. destruct (m =? n)%nat eqn:Em; [|by apply (ac_spends _ _ _ Ha)].
    apply Nat.eqb_eq in Em as ->. apply H3. }
  remember (nodes n) as before eqn:Eb. destruct Hn as [disk origin|disk r|disk b x r|disk p|disk b c k x disk' Hd].
  - subst d'. apply Hsilent; [done|done|]. intros b' p' [= <- <-]. apply start_spends.
  - subst d'. apply Hsilent; [done|done|]. intros b' p' [= <- <-]. apply poll_spends.
  - subst d'. apply Hsilent; [done|done|]. cbn. by destruct (b && _).
  - subst d'. by apply Hsilent.
  - assert (Hw : spends (configs n) (Call c k) (fun _ _ => True) (cr n)).
    { eapply (ac_spends _ _ _ Ha). cbn. by rewrite <- Eb. }
    destruct Hw as (_ & Hpre & Hk). pose proof (db_reply_honest _ _ _ _ _ Hr) as Hhon.
    assert (Hkeep : credit_step (cr n) (existT c x) = cr n -> rtc step d d' ->
      (forall sc id, write_of sc id (ENode n (Some (existT c x))) = None) ->
      exists cr', accounts (tr ++ [ENode n (Some (existT c x))])
        (mkJoint d' (set_node n (mkNode disk' (Busy b (k x))) nodes)) cr').
    { intros Ec H1 H2. apply Hsilent; [done|done|]. intros b' p' [= <- <-]. rewrite <- Ec. by apply Hk. }
    pose proof (db_reply_steps _ _ _ _ _ Hr) as Hsteps.
    destruct c as [| | | | | | | | | | | | | |token id| | | | | | |id t dry]; try by apply Hkeep.
    + destruct x as [cl|er]; [|by apply Hkeep].
      destruct (answered_claim _ token id d _ d' (ac_system _ _ _ Ha) Hr) as (_ & Hg).
      destruct (Hg cl eq_refl) as (Hn & Hin & Hsub). exists (set_credit n (Some (id, cl)) cr).
      apply (accounts_claim tr d nodes cr n id cl d'); [done..|]. intros b' p' [= <- <-]. by apply Hk.
    + destruct dry; [by apply Hkeep|]. destruct Hpre as (cl & Hc & Ht & Hns & Hcm). cbn in Hr. subst d'.
      exists (set_credit n None cr). apply (accounts_write tr d nodes cr n id cl t x); [done..|].
      intros b' p' [= <- <-]. by apply Hk.
Qed.

Lemma joint_accounts tr j : joint_run tr j -> exists cr, accounts tr j cr.
Proof.
  induction 1 as [|tr j e j' Hr (cr & Ha) Hs]; [exists (fun _ => None); apply initial_accounts|].
  by eapply accounts_step.
Qed.

(** ** One node of the system *)
Definition seen_by (n : nat) (e : event) : option obs :=
  match e with ENode m o => if (m =? n)%nat then o else None | ERequest => None end.

Lemma joint_node tr j n : joint_run tr j -> node_run (configs n) (mkNode None Down) (omap (seen_by n) tr) (j_nodes j n).
Proof.
  induction 1 as [|tr j e j' _ IH Hs]; [constructor|]. rewrite omap_app.
  destruct Hs as [d d' nodes Hs|d d' nodes m o node Hn Hr]; cbn in *; [by rewrite app_nil_r|].
  unfold set_node. rewrite (Nat.eqb_sym m n). destruct (n =? m)%nat eqn:E; [|by rewrite app_nil_r].
  apply Nat.eqb_eq in E as ->. pose proof (nr_snoc _ _ _ _ _ _ IH Hn) as Hr'. by destruct o.
Qed.
End Joint.
