(* ===== verification/Plant.v ===== *)
(** * A deployment in small

    A cluster with one broken pod, one executor, and the orchestrator of the
    demonstration at the point where the pod's replacement is approved.  The
    executor is run against it. *)

From stdpp Require Import relations.
From S2P Require Import Prelude.
From S2P Require Import Json.
From S2P Require Import GoTime.
From S2P Require Import Decode.
From S2P Require Import JsonFacts.
From S2P Require Import Decode.
From S2P Require Import Identity.
From S2P Require Import Incident.
From S2P Require Import Db.
From S2P Require Import Sql.
From S2P Require Import Fleet.
From S2P Require Import Execution.
From S2P Require Import System.
From S2P Require Import Evolution.
From S2P Require Import Scenario.
From S2P Require Import FleetProps.
From S2P Require Import Assoc.
From S2P Require Import Registry.
From S2P Require Import RegistryFacts.
From S2P Require Import Toy.
From S2P Require Import Executor.
From S2P Require Import ExecutorRun.
From S2P Require Import ExecutorCrash.
From S2P Require Import ExecutorDrain.
From S2P Require Import AgentApi.
From S2P Require Import Deployment.

Import Runtime.

Module Plant.
#[local] Existing Instance Demo.env.
Definition ascii (s : string) : bool := str_forall (fun c => ord c <? 128) s.

#[export] Instance names : Names := {|
  IsDNS1123Label := ascii; IsDNS1123Subdomain := ascii; label_utf8 := ascii_utf8; subdomain_utf8 := ascii_utf8
|}.
#[export] Instance kube : Kube := {|
  Pod := unit; ContainerStatus := unit; OwnerReference := unit; ReplicaSet := unit; StatefulSet := unit;
  DaemonSet := unit; DeleteError := unit;
  pod_Namespace _ := "prod"; pod_Name _ := "web-0"; pod_UID _ := LT_UID Demo.target; pod_ResourceVersion _ := "42";
  pod_Phase _ := "Failed"; pod_RestartPolicy _ := "Always"; pod_Deleting _ := false;
  pod_Label _ _ := None; pod_Annotation _ _ := None; pod_Conditions _ := [];
  pod_InitContainerStatuses _ := []; pod_ContainerStatuses _ := [];
  cs_Waiting _ := None; cs_Terminated _ := None; cs_RestartCount _ := 0;
  pod_OwnerReferences _ := [tt]; or_Controller _ := Some true; or_UID _ := "uid-2"; or_APIVersion _ := "apps/v1";
  or_Kind _ := "ReplicaSet"; or_Name _ := "web";
  rs_UID _ := "uid-2"; rs_Deleting _ := false; rs_Replicas _ := Some 1;
  ss_UID _ := ""; ss_Deleting _ := false; ss_Replicas _ := None;
  ds_UID _ := ""; ds_Deleting _ := false; ds_DesiredNumberScheduled _ := 0;
  IsForbidden _ := false; IsUnauthorized _ := false; IsConflict _ := false; IsNotFound _ := false; IsInvalid _ := false;
  kube_names := names
|}.

Definition config : RuntimeConfig :=
  mkConfig Demo.sc "cluster-uid" ["prod"] [] Demo.registry_key "/registry" "/credential".
Definition credential : Credential :=
  mkCredential (snd Demo.tokens)
    (mkAgent Demo.sc "executor" Executor "sre-execution" Demo.epoch 1 "cluster-uid" (Demo.T0 + 30 * Minute) false).

(** The collector has put the pod's identity into the registry. *)
#[local] Existing Instance Toy.gcm.
Definition registry_io : Registry.Io :=
  Registry.mkIo true (fun l => l) (repeat 9 12) Registry.Saved (fun l => Permutation_refl l) eq_refl.
Definition opened := Registry.OpenRegistry registry_io Demo.registry_key false None.
Definition registry : Registry.Registry := default (Registry.mkRegistry [] false true []) (fst opened).
Definition stored := Registry.Put registry_io Demo.target registry (snd opened).
Definition reader : Registry.Registry := Registry.mkRegistry Demo.registry_key true false [].

(** What surrounds the process. *)
Record Site := mkSite { s_file : option string; s_world : World }.

Definition serve_call (s : Site) (c : call) : answer c * Site :=
  let at_db {A} (status : GoErr -> Z) (m : M A) : res A * Site :=
    let '(r, w) := m (s_world s) in (Api.reply status r, mkSite (s_file s) w) in
  match c with
  | Now => (Demo.T0 + Minute, s)
  | Order keys => (keys, s)
  | CheckPaths => (true, s) | Lock => (true, s)
  | ReadJournal => (match s_file s with None => JAbsent | Some t => JText t end, s)
  | SaveJournal text => (true, mkSite (Some text) (s_world s))
  | CredentialExists => (Some true, s)
  | LoadCredential => (Some credential, s)
  | SaveCredential _ => (true, s)
  | ReadBootstrap => (None, s)
  | ClusterUID => (Some "cluster-uid", s)
  | PostEnroll token uid => at_db Api.agentError (Api.enroll (Some Demo.svc) Demo.sc token uid Executor)
  | PostRenew token => at_db Api.agentError (Api.renewAgent (Some Demo.svc) Demo.sc token Executor)
  | GetActions token => at_db Api.agentError (Api.executorActions Demo.exec_svc Demo.sc token "")
  | PostClaim token id =>
      let '(r, s1) := at_db Api.agentError (Api.claimAction Demo.exec_svc Demo.sc token id) in
      (match r with Ok c => if ascii (CL_ReceiptToken c) then r else Err ErrRuntime | Err _ => r end, s1)
  | PostReceipt token id receipt outcome =>
      at_db Api.agentError (Api.actionReceipt Demo.exec_svc Demo.sc token id receipt outcome)
  | Resolve h cm => (match fst (Registry.Resolve registry_io h cm reader (snd stored)) with
                     | Some t => Ok t | None => Err ErrRuntime end, s)
  | GetPod _ _ => (Some tt, s) | GetReplicaSet _ _ => (Some tt, s)
  | GetStatefulSet _ _ => (None, s) | GetDaemonSet _ _ => (None, s)
  | DeletePod _ _ _ => (None, s)
  end.

Fixpoint play {A} (p : prog A) (s : Site) : list obs * (A * Site) :=
  match p with
  | Ret a => ([], (a, s))
  | Call c k => let '(x, s1) := serve_call s c in
                let '(tr, r) := play (k x) s1 in (existT c x :: tr, r)
  end.

Lemma answered_run {A} status (m : forall E : Env, M A) w :
  answered status m (db w) (Api.reply status (fst (m Demo.env w))) (db (snd (m Demo.env w))).
Proof.
  left. destruct w as [d k]. exists Demo.env, k, (fst (m Demo.env (mkWorld d k))), (snd (m Demo.env (mkWorld d k))).
  split; [apply surjective_pairing|]. split; [done|]. by left.
Qed.

Lemma resolve_reply key io h cm r file : keyed key r ->
  match match fst (Registry.Resolve io h cm r file) with Some t => Ok t | None => Err ErrRuntime end with
  | Ok t => exists io r file r', keyed key r /\ Registry.Resolve io h cm r file = (Some t, r')
  | Err _ => True
  end.
Proof.
  intros Hk. destruct (Registry.Resolve io h cm r file) as [[t|] r'] eqn:E; cbn [fst]; [|done].
  by exists io, r, file, r'.
Qed.
Lemma serve_sound s c x s1 : serve_call s c = (x, s1) ->
  disk_reply (s_file s) c x (s_file s1) /\ db_reply Demo.exec_svc config (db (s_world s)) c x (db (s_world s1)).
Proof.
  destruct c; cbn [serve_call disk_reply db_reply]; intros E.
  all: try (injection E as <- <-; cbn; auto; fail).
  - pose proof (answered_run Api.agentError (fun E : Env => Api.enroll (Some Demo.svc) Demo.sc token uid Executor) (s_world s)) as Ha.
    cbv beta in Ha. destruct (Api.enroll _ _ _ _ _ (s_world s)) as [r w]. injection E as <- <-. split; [done|exact Ha].
  - pose proof (answered_run Api.agentError (fun E : Env => Api.renewAgent (Some Demo.svc) Demo.sc token Executor) (s_world s)) as Ha.
    cbv beta in Ha. destruct (Api.renewAgent _ _ _ _ (s_world s)) as [r w]. injection E as <- <-. split; [done|exact Ha].
  - pose proof (answered_run Api.agentError (fun E : Env => Api.executorActions Demo.exec_svc Demo.sc token "") (s_world s)) as Ha.
    cbv beta in Ha. destruct (Api.executorActions _ _ _ _ (s_world s)) as [r w]. injection E as <- <-. split; [done|exact Ha].
  - pose proof (answered_run Api.agentError (fun E : Env => Api.claimAction Demo.exec_svc Demo.sc token id) (s_world s)) as Ha.
    cbv beta in Ha. destruct (Api.claimAction _ _ _ _ (s_world s)) as [r w]. cbn [fst snd] in Ha.
    destruct (Api.reply Api.agentError r) as [c|e]; [|by injection E as <- <-].
    destruct (ascii (CL_ReceiptToken c)) eqn:Ea; injection E as <- <-; cbn [s_file s_world].
    + refine (conj (conj eq_refl (ascii_utf8 _ Ea)) Ha).
    + split; [exact (conj eq_refl I)|]. destruct Ha as [(E & k & r' & w' & H1 & H2 & _)|[H1 (e & H2)]]; [|by right; split; [|exists ErrRuntime]].
      left. exists E, k, r', w'. split; [done|]. split; [done|]. right. by exists ErrRuntime.
  - pose proof (answered_run Api.agentError (fun E : Env => Api.actionReceipt Demo.exec_svc Demo.sc token id receipt0 outcome) (s_world s)) as Ha.
    cbv beta in Ha. destruct (Api.actionReceipt _ _ _ _ _ _ (s_world s)) as [r w]. injection E as <- <-. split; [done|exact Ha].
  - injection E as <- <-. split; [exact eq_refl|]. split; [exact eq_refl|]. apply resolve_reply. intros _. reflexivity.
Qed.

(** The executor starts on an empty disk and polls once. *)
Definition site : Site := mkSite None Demo.world3.
Definition started := play (newRuntime config true fresh) site.
Definition polled := play (Poll config (snd (fst (snd started)))) (snd (snd started)).


(** A played program is a run of the node. *)
Lemma play_runs (p : prog (res unit * Runtime)) : forall s tr j n b,
  joint_run Demo.exec_svc (fun _ => config) tr j -> j_db j = db (s_world s) ->
  j_nodes j n = mkNode (s_file s) (Busy b p) ->
  exists j', joint_run Demo.exec_svc (fun _ => config) (tr ++ map (fun o => ENode n (Some o)) (fst (play p s))) j' /\
    j_db j' = db (s_world (snd (snd (play p s)))) /\
    j_nodes j' n = mkNode (s_file (snd (snd (play p s)))) (Busy b (Ret (fst (snd (play p s))))).
Proof.
  induction p as [a|c k IH]; cbn [play]; intros s tr j n b Hr Hd Hn.
  { exists j. cbn. by rewrite app_nil_r. }
  destruct (serve_call s c) as [x s1] eqn:Es. destruct (serve_sound _ _ _ _ Es) as [H1 H2].
  specialize (IH x s1 (tr ++ [ENode n (Some (existT c x))])
    (mkJoint (db (s_world s1)) (set_node n (mkNode (s_file s1) (Busy b (k x))) (j_nodes j))) n b).
  destruct (play (k x) s1) as [tr' r]. cbn [fst snd map] in *.
  destruct IH as (j' & Hj' & Hd' & Hn').
  - eapply jr_snoc; [exact Hr|]. destruct j as [d nodes]. cbn in Hd, Hn. subst d. apply js_node; [|exact H2].
    cbn [j_nodes]. rewrite Hn. by apply ns_call.
  - done.
  - cbn. unfold set_node. by rewrite Nat.eqb_refl.
  - exists j'. rewrite <- app_assoc in Hj'. done.
Qed.

(** A step of node [n] that is not a call. *)
Lemma silent_step tr j n node :
  joint_run Demo.exec_svc (fun _ => config) tr j -> node_step config (j_nodes j n) None node ->
  joint_run Demo.exec_svc (fun _ => config) (tr ++ [ENode n None]) (mkJoint (j_db j) (set_node n node (j_nodes j))).
Proof. intros Hr Hs. eapply jr_snoc; [exact Hr|]. destruct j as [d nodes]. by apply js_node. Qed.

Lemma requests_run d : system d ->
  exists k, joint_run Demo.exec_svc (fun _ => config) (repeat ERequest k) (mkJoint d (fun _ => mkNode None Down)).
Proof.
  revert d. apply (rtc_ind_r (fun d => exists k, joint_run Demo.exec_svc (fun _ => config) (repeat ERequest k)
    (mkJoint d (fun _ => mkNode None Down))) empty_db).
  - exists 0%nat. apply jr_nil.
  - intros y z _ Hs (k & Hr). exists (S k). replace (repeat ERequest (S k)) with (repeat ERequest k ++ [ERequest]).
    + eapply jr_snoc; [exact Hr|]. by apply js_request.
    + symmetry. apply (repeat_cons k).
Qed.

Lemma polls_well : fst (fst (snd started)) = Ok tt /\ fst (fst (snd polled)) = Ok tt.
Proof. vm_compute. split; reflexivity. Qed.

Definition session : list event :=
  ENode 0 None :: map (fun o => ENode 0 (Some o)) (fst started)
  ++ ENode 0 None :: ENode 0 None :: map (fun o => ENode 0 (Some o)) (fst polled).

Lemma session_facts :
  length (writes (fun _ => config) Demo.sc Demo.id session) = 1%nat /\ owed (omap (seen_by 0) session) = [].
Proof. vm_compute. split; reflexivity. Qed.

Lemma writes_requests k tr sc id :
  writes (fun _ => config) sc id (repeat ERequest k ++ tr) = writes (fun _ => config) sc id tr.
Proof. induction k as [|k IH]; [done|exact IH]. Qed.
Lemma seen_requests k tr n : omap (seen_by n) (repeat ERequest k ++ tr) = omap (seen_by n) tr.
Proof. induction k as [|k IH]; [done|exact IH]. Qed.

Lemma return_step d (x : res unit * Runtime) :
  fst x = Ok tt -> node_step config (mkNode d (Busy true (Ret x))) None (mkNode d (Idle (snd x))).
Proof. destruct x as [y r]. cbn. intros ->. exact (ns_return config d true (Ok tt) r). Qed.
Lemma ok_pair (x : res unit * Runtime) : fst x = Ok tt -> x = (Ok tt, snd x).
Proof. destruct x as [y r]. cbn. by intros ->. Qed.

Lemma session_runs : exists k j, joint_run Demo.exec_svc (fun _ => config) (repeat ERequest k ++ session) j /\
  n_phase (j_nodes j 0) = Busy false (Ret (Ok tt, snd (fst (snd polled)))).
Proof.
  destruct (requests_run _ DemoSystem.world3_system) as (k & Hr). exists k.
  apply (silent_step _ _ 0 (mkNode None (Busy true (newRuntime config true fresh)))) in Hr; [|apply ns_start].
  destruct (play_runs _ site _ _ 0 true Hr eq_refl eq_refl) as (j1 & H1 & Hd1 & Hn1).
  destruct polls_well as [E1 E2].
  apply (silent_step _ _ 0 (mkNode (s_file (snd (snd started))) (Idle (snd (fst (snd started)))))) in H1.
  2:{ fold started in Hn1. rewrite Hn1. exact (return_step _ _ E1). }
  apply (silent_step _ _ 0 (mkNode (s_file (snd (snd started))) (Busy false (Poll config (snd (fst (snd started))))))) in H1.
  2:{ apply ns_poll. }
  destruct (play_runs _ (snd (snd started)) _ _ 0 false H1 Hd1 eq_refl) as (j2 & H2 & _ & Hn2).
  fold polled in H2, Hn2. exists j2. split.
  - fold started in H2. rewrite <- !app_assoc in H2. exact H2.
  - rewrite Hn2. cbn [n_phase]. exact (f_equal (fun x => Busy false (Ret x)) (ok_pair _ E2)).
Qed.

(** ** The process dies between the deletion and its receipt *)
Definition observed : list obs := omap (seen_by 0) session.
Fixpoint until_deleted (l : list obs) : nat :=
  match l with
  | [] => 0
  | existT (DeletePod _ _ false) _ :: _ => 1
  | _ :: l => S (until_deleted l)
  end.
Definition cut : nat := until_deleted observed.
Definition unreceipted : list obs := take cut observed.

Lemma cut_facts : (cut < length observed)%nat /\ owed unreceipted = [Demo.id].
Proof. vm_compute. split; [repeat constructor|reflexivity]. Qed.

Definition receipted (id outcome : string) : Action :=
  mkAction (mkPlan Demo.sc id "" "" Demo.ref "" "" "" "" 0 "" 0 "" "" 0) "" 0 "APPLIED" "" "" 0 0 0 0 outcome "".

(** A server that lets the executor work on disk [d]. *)
Definition helpful (d : option string) : server := fun _ c =>
  match c as c return answer c with
  | Now => Demo.T0 + Minute
  | Order keys => keys
  | CheckPaths => true | Lock => true
  | ReadJournal => match d with None => JAbsent | Some t => JText t end
  | SaveJournal text => true
  | CredentialExists => Some true
  | LoadCredential => Some credential
  | SaveCredential _ => true
  | ReadBootstrap => None
  | ClusterUID => Some "cluster-uid"
  | PostEnroll token uid => Err ErrRuntime
  | PostRenew token => Err ErrRuntime
  | GetActions token => Ok []
  | PostClaim token id => Err ErrRuntime
  | PostReceipt token id receipt outcome => Ok (receipted id outcome)
  | Resolve _ _ => Err ErrRuntime
  | GetPod _ _ => None | GetReplicaSet _ _ => None
  | GetStatefulSet _ _ => None | GetDaemonSet _ _ => None
  | DeletePod _ _ _ => None
  end.

Lemma credential_good : credential_valid config credential (Demo.T0 + Minute) = true.
Proof. vm_compute. reflexivity. Qed.

Lemma config_good : config_ok config true = true.
Proof. vm_compute. reflexivity. Qed.

Lemma helpful_cooperative d : cooperative config credential d (helpful d).
Proof.
  constructor; [reflexivity|reflexivity|reflexivity|reflexivity|reflexivity|reflexivity|reflexivity
    |intros; exact credential_good|]. intros tr token id receipt outcome. cbn [helpful].
  eexists. split; [reflexivity|]. unfold accepted. cbn. by rewrite !str_eqb_refl.
Qed.
End Plant.
