(* ===== verification/RegistryProps.v ===== *)
(** * What the registry of targets promises

    Over every run of [RegistryFacts]: any number of collectors and executors with
    one key, on one file, whatever their system calls do. *)

From S2P Require Import Prelude.
From S2P Require Import Sha256.
From S2P Require Import Json.
From S2P Require Import JsonFacts.
From S2P Require Import Decode.
From S2P Require Import Identity.
From S2P Require Import Authorization.
From S2P Require Import Incident.
From S2P Require Import Registry.
From S2P Require Import RegistryFacts.
From S2P Require Import Scenario.
From S2P Require Import Executor.
From S2P Require Import Toy.
From S2P Require Import Plant.

Import Registry.

(** ** A small registry *)
Module Cabinet.
#[export] Existing Instance Plant.names.
#[export] Existing Instance Toy.gcm.

Definition key : list Z := Demo.registry_key.
Abbreviation io := Plant.registry_io.
Definition other : LocalTarget := mkLocal Demo.sc "Pod" "prod" "web-1" "uid-9" "43" Demo.epoch 1.

Abbreviation opened := Plant.opened.
Abbreviation registry := Plant.registry.
Abbreviation stored := Plant.stored.
Definition names : string * string := default ("", "") (fst (fst stored)).
Definition second := Put io other registry (snd stored).
Definition found := Resolve io (fst names) (snd names) registry (snd second).
Definition target : LocalTarget := default zero_target (fst found).

Definition events : list event :=
  [Opened false true; PutDone Demo.target (Some names); PutDone other (fst (fst second));
   Resolved (fst names) (snd names) (Some target)].

Lemma four_calls :
  OpenRegistry io key false None = (Some registry, snd opened) /\
  Put io Demo.target registry (snd opened) = (Some names, snd (fst stored), snd stored) /\
  Put io other registry (snd stored) = (fst (fst second), snd (fst second), snd second) /\
  Resolve io (fst names) (snd names) registry (snd second) = (Some target, snd found) /\
  R_key registry = key /\ bool_decide (is_Some (fst (fst second))) = true.
Proof. vm_compute. repeat split. Qed.

Lemma four_steps v w r f1 n r2 f2 o r3 f3 u r4 :
  OpenRegistry io key false None = (Some r, f1) -> Put io v r f1 = (Some n, r2, f2) -> Put io w r f2 = (o, r3, f3) ->
  Resolve io (fst n) (snd n) r f3 = (Some u, r4) -> R_key r = key ->
  int64_ok (LT_Generation v) -> int64_ok (LT_Generation w) ->
  registry_run key [Opened false true; PutDone v (Some n); PutDone w o; Resolved (fst n) (snd n) (Some u)] f3.
Proof.
  intros H1 H2 H3 H4 Hk Hv Hw.
  pose proof (rr_snoc _ _ _ _ _ (rr_nil key) (fs_open _ _ _ _ _ _ H1)) as R1.
  pose proof (rr_snoc _ _ _ _ _ R1 (fs_put _ _ _ _ _ _ _ _ (fun _ => Hk) Hv H2)) as R2.
  pose proof (rr_snoc _ _ _ _ _ R2 (fs_put _ _ _ _ _ _ _ _ (fun _ => Hk) Hw H3)) as R3.
  exact (rr_snoc _ _ _ _ _ R3 (fs_resolve _ _ _ _ _ _ _ _ (fun _ => Hk) H4)).
Qed.

Lemma run : registry_run key events (snd second).
Proof.
  destruct four_calls as (H1 & H2 & H3 & H4 & H5 & _).
  refine (four_steps _ _ _ _ _ _ _ _ _ _ _ _ H1 H2 H3 H4 H5 _ _); vm_compute; (split; [discriminate|reflexivity]).
Qed.
End Cabinet.

(** C39: the registry is a map.  Whatever collectors and executors with the key do
    with the file, however their reads, saves and crashes fall, the file stands for a
    map that the answers they got describe: a put that succeeds adds its target under
    its handle, a reconciliation keeps what is live or of another scope, a method that
    fails changes nothing or does all it would have done, and nothing else changes the
    map.  A registry that can read the file resolves a handle to exactly the stored
    target, if the commitment is that target's. *)
Theorem registry_is_a_map `{Names} `{GCM} key tr file :
  registry_run key tr file ->
  exists m, map_run key tr m /\ stands_for key file m /\
    forall io h c r, io_readable io = true -> R_closed r = false -> R_key r = key ->
      slen h = 32 -> slen c = 64 -> file <> None ->
      fst (Resolve io h c r file) = (v ← m !! h; if str_eqb (snd (tokens key v)) c then Some v else None).
Proof.
  intros Hr. destruct (run_stands _ _ _ Hr) as (m & Hm & Hs). exists m. split; [done|]. split; [done|].
  intros io h c r Hio Hcl Hk Hh Hc Hf. destruct file as [b|]; [|done]. by apply resolve_complete.
Qed.

#[local] Existing Instances Plant.names Toy.gcm.

Lemma registry_is_a_map_witness :
  exists m, map_run Cabinet.key Cabinet.events m /\ stands_for Cabinet.key (snd Cabinet.second) m /\
    forall io h c r, io_readable io = true -> R_closed r = false -> R_key r = Cabinet.key ->
      slen h = 32 -> slen c = 64 -> snd Cabinet.second <> None ->
      fst (Resolve io h c r (snd Cabinet.second)) =
        (v ← m !! h; if str_eqb (snd (tokens Cabinet.key v)) c then Some v else None).
Proof. exact (registry_is_a_map Cabinet.key Cabinet.events (snd Cabinet.second) Cabinet.run). Defined.

#[local] Opaque tokens.

(** What a run says of the targets it names. *)
Lemma map_run_events `{Names} `{GCM} key tr m e :
  map_run key tr m -> e ∈ tr ->
  match e with
  | PutDone v (Some (h, c)) => storable v /\ (h, c) = tokens key v
  | Resolved h c (Some v) => storable v /\ snd (tokens key v) = c
  | _ => True
  end.
Proof.
  induction 1 as [|tr m e' m' Hr IH Hs]; [by intros ?%elem_of_nil|].
  intros [Hin| ->%list_elem_of_singleton]%elem_of_app; [by apply IH|].
  destruct Hs as [|v Hv| |h c v Hl Hc| | |]; try exact I.
  - destruct (tokens key v) as [h' c']. exact (conj Hv eq_refl).
  - split; [|done]. by eapply map_run_storable.
Qed.

(** C40: a commitment leads to the target it was made for.  Whoever resolves a
    commitment, under any handle, in any later state of the registry, gets the very
    target that was put when the commitment was handed out - object, version, epoch and
    generation - unless two texts with the same SHA-256 are at hand. *)
Theorem commitment_leads_to_its_target `{Names} `{GCM} key tr file h h' c v v' :
  registry_run key tr file -> PutDone v (Some (h, c)) ∈ tr -> Resolved h' c (Some v') ∈ tr ->
  v' = v \/ sha_collision.
Proof.
  intros Hr Hp Hv. destruct (run_stands _ _ _ Hr) as (m & Hm & _).
  destruct (map_run_events _ _ _ _ Hm Hp) as [Hs Et]. destruct (map_run_events _ _ _ _ Hm Hv) as [Hs' Ec].
  apply (commitment_names key); [by apply valid_clean; apply Hs'|by apply valid_clean; apply Hs|].
  by rewrite Ec, <- Et.
Qed.

Lemma commitment_leads_to_its_target_witness : Cabinet.target = Demo.target \/ sha_collision.
Proof.
  refine (commitment_leads_to_its_target Cabinet.key Cabinet.events (snd Cabinet.second) (fst Cabinet.names) (fst Cabinet.names)
    (snd Cabinet.names) Demo.target Cabinet.target Cabinet.run _ _).
  - rewrite <- surjective_pairing. right. left.
  - do 3 right. left.
Defined.
