(* ===== verification/ExecutorProps.v ===== *)
(** * What the executor promises

    Its writes, its journal and its receipts, over every run of [Deployment] and
    of [ExecutorCrash]. *)

From stdpp Require Import relations.
From S2P Require Import Prelude.
From S2P Require Import Json.
From S2P Require Import Decode.
From S2P Require Import Identity.
From S2P Require Import Incident.
From S2P Require Import Db.
From S2P Require Import Sql.
From S2P Require Import Fleet.
From S2P Require Import Execution.
From S2P Require Import ExecutionFacts.
From S2P Require Import System.
From S2P Require Import Evolution.
From S2P Require Import Scenario.
From S2P Require Import FleetProps.
From S2P Require Import Assoc.
From S2P Require Import Registry.
From S2P Require Import Toy.
From S2P Require Import Executor.
From S2P Require Import ExecutorRun.
From S2P Require Import ExecutorCrash.
From S2P Require Import ExecutorDrain.
From S2P Require Import Deployment.
From S2P Require Import Plant.

Import Runtime.

(** ** Runs *)
(** The node that made the first call after a prefix. *)
Lemma node_run_call `{Kube} config n tr n' tr1 o tr2 :
  node_run config n tr n' -> tr = tr1 ++ o :: tr2 ->
  exists n1 n2, node_run config n tr1 n1 /\ node_step config n1 (Some o) n2.
Proof.
  intros Hr. revert tr2. induction Hr as [|tr n1 o' n2 Hr IH Hs]; intros tr2 E.
  - by destruct tr1.
  - destruct o' as [o'|]; cbn in E; [|rewrite app_nil_r in E; by eapply IH].
    destruct tr2 as [|x tr2' _] using rev_ind.
    + apply app_inj_tail in E as [-> ->]. by exists n1, n2.
    + rewrite app_comm_cons, app_assoc in E. apply app_inj_tail in E as [E _]. by eapply IH.
Qed.

(** C5: an action is executed at most once.  Any number of executors poll one
    orchestrator; they crash and restart at any point, messages are lost on the way
    there or back, other requests run in between.  Over the whole run at most one
    deletion is sent for an action, by an executor in whose configured namespaces the
    target lies, on the target the action names, whose commitment under the
    executor's key is the approved one, and only after an approver approved the
    action and the orchestrator recorded it as submitted. *)
Theorem actions_execute_at_most_once `{Kube} `{GCM} service configs tr j :
  joint_run service configs tr j ->
  forall sc id, (length (writes configs sc id tr) <= 1)%nat /\
    forall n t, (n, t) ∈ writes configs sc id tr -> warranted configs (j_db j) sc id n t.
Proof. intros Hr sc id. destruct (joint_accounts _ _ _ _ Hr) as (cr & Ha). apply (ac_writes _ _ _ _ Ha). Qed.

#[local] Existing Instance Toy.gcm.
Lemma actions_execute_at_most_once_witness :
  exists k j, joint_run Demo.exec_svc (fun _ => Plant.config) (repeat ERequest k ++ Plant.session) j /\
    length (writes (fun _ => Plant.config) Demo.sc Demo.id (repeat ERequest k ++ Plant.session)) = 1%nat /\
    forall n t, (n, t) ∈ writes (fun _ => Plant.config) Demo.sc Demo.id (repeat ERequest k ++ Plant.session) ->
      warranted (fun _ => Plant.config) (j_db j) Demo.sc Demo.id n t.
Proof.
  destruct Plant.session_runs as (k & j & Hr & _). exists k, j. split; [exact Hr|]. split.
  - rewrite Plant.writes_requests. exact (proj1 Plant.session_facts).
  - exact (proj2 (actions_execute_at_most_once _ _ _ _ Hr Demo.sc Demo.id)).
Defined.

(** C6: the journal survives crashes.  Whatever the orchestrator, the cluster and
    the disk answer, and wherever the process dies, the journal file is one that a
    restarted executor accepts, and it holds, unacknowledged, every attempt whose
    deletion was sent and whose receipt was not yet accepted.  No deletion is sent
    again while its receipt is owed, and after a poll that reports success no receipt
    is owed. *)
Theorem journal_survives_crashes `{Kube} config tr n :
  node_run config (mkNode None Down) tr n ->
  (exists j, on_disk (n_disk n) j /\ forall id, id ∈ owed tr -> pending j id) /\ NoDup (owed tr) /\
  (forall tr1 id t x tr2, tr = tr1 ++ existT (DeletePod id t false) x :: tr2 -> id ∉ owed tr1) /\
  (forall r, n_phase n = Busy false (Ret (Ok tt, r)) -> settled (r_journal r) /\ owed tr = []).
Proof.
  intros Hr. pose proof (node_run_ok _ _ _ Hr) as [[Hn Hj] Hp]. split; [done|]. split; [done|]. split.
  - intros tr1 id t x tr2 E. destruct (node_run_call _ _ _ _ _ _ _ Hr E) as (n1 & n2 & H1 & Hs).
    by apply (node_step_ok _ _ _ _ _ Hs (node_run_ok _ _ _ H1)).
  - intros r E. rewrite E in Hp. destruct Hp as [Hl Hs]. cbn in Hl, Hs. specialize (Hs eq_refl).
    split; [done|]. by apply (settled_owed _ _ Hl).
Qed.

Lemma journal_survives_crashes_witness :
  exists n, node_run Plant.config (mkNode None Down) (omap (seen_by 0) Plant.session) n /\
    n_phase n = Busy false (Ret (Ok tt, snd (fst (snd Plant.polled)))) /\
    settled (r_journal (snd (fst (snd Plant.polled)))) /\ owed (omap (seen_by 0) Plant.session) = [].
Proof.
  destruct Plant.session_runs as (k & j & Hr & Hp). exists (j_nodes j 0).
  apply (joint_node _ _ _ _ 0) in Hr. rewrite Plant.seen_requests in Hr.
  split; [exact Hr|]. split; [exact Hp|].
  exact (proj2 (proj2 (proj2 (journal_survives_crashes _ _ _ Hr))) _ Hp).
Defined.

(** C38: owed receipts reach the orchestrator.  After any history, wherever the
    process died, an executor that restarts on a working disk with a valid credential
    on file, against an orchestrator that accepts its receipts, does start, and within
    its first poll there is a point where every receipt it owed has been accepted, in
    whatever order it sends them. *)
Theorem owed_receipts_drain `{Kube} config c0 h tr n :
  node_run config (mkNode None Down) tr n -> config_ok config true = true ->
  cooperative config c0 (n_disk n) h ->
  let '(tr1, (x, r)) := served h (newRuntime config true fresh) [] in
  let '(tr2, _) := served h (Poll config r) tr1 in
  x = Ok tt /\ exists tr', tr' `prefix_of` tr2 /\ owed (tr ++ tr') = [].
Proof.
  intros Hr Hc Hco. pose proof (node_run_ok _ _ _ Hr) as [Hi _]. rewrite <- (app_nil_r tr) in Hi.
  pose proof (served_wp _ _ _ _ (starts config c0 _ h Hco tr Hc Hi)) as Hs. cbv beta in Hs.
  destruct (served h (newRuntime config true fresh) []) as [tr1 [x r]]. cbn [fst snd] in Hs. destruct Hs as [-> Hup].
  pose proof (served_wp _ _ _ _ (polls config c0 _ h Hco tr r tr1 Hup)) as Hp. cbv beta in Hp.
  destruct (served h (Poll config r) tr1) as [tr2 y]. by split.
Qed.

(** The prefix of a run up to some call, after which the process dies. *)
Lemma killed_before `{Kube} config n tr n' k :
  node_run config n tr n' -> (k < length tr)%nat ->
  exists d, node_run config n (take k tr) (mkNode d Down).
Proof.
  intros Hr Hk. destruct (drop k tr) as [|o tr2] eqn:E.
  { apply (f_equal length) in E. rewrite length_drop in E. cbn in E. lia. }
  destruct (node_run_call config n tr n' (take k tr) o tr2 Hr) as (n1 & _ & H1 & _); [by rewrite <- E, take_drop|].
  exists (n_disk n1). rewrite <- (app_nil_r (take k tr)). apply (nr_snoc _ _ _ n1 None); [done|].
  destruct n1 as [d p]. apply ns_crash.
Qed.

Lemma owed_receipts_drain_witness :
  exists d, node_run Plant.config (mkNode None Down) Plant.unreceipted (mkNode d Down) /\
    owed Plant.unreceipted = [Demo.id] /\
    let '(tr1, (x, r)) := served (Plant.helpful d) (newRuntime Plant.config true fresh) [] in
    let '(tr2, _) := served (Plant.helpful d) (Poll Plant.config r) tr1 in
    x = Ok tt /\ exists tr', tr' `prefix_of` tr2 /\ owed (Plant.unreceipted ++ tr') = [].
Proof.
  destruct Plant.session_runs as (k & j & Hr & _). apply (joint_node _ _ _ _ 0) in Hr. rewrite Plant.seen_requests in Hr.
  destruct (killed_before _ _ _ _ Plant.cut Hr (proj1 Plant.cut_facts)) as (d & Hd).
  exists d. split; [exact Hd|]. split; [exact (proj2 Plant.cut_facts)|].
  exact (owed_receipts_drain Plant.config Plant.credential (Plant.helpful d) Plant.unreceipted (mkNode d Down) Hd
    Plant.config_good (Plant.helpful_cooperative d)).
Defined.

(** ** What an unresolved attempt does to enrolment *)

(** No credential is on file; nothing else is assumed. *)
Definition no_credential `{Kube} (_ : unit) (c : call) : answer c -> unit -> Prop :=
  match c with
  | LoadCredential => fun x _ => x = None
  | Order keys => fun x _ => Permutation x keys
  | _ => fun _ _ => True
  end.
Definition stays_local `{Kube} (_ : unit) (c : call) : Prop :=
  match c with ClusterUID | LoadCredential | Order _ | Now => True | _ => False end.

(** With no credential in memory or on file, a poll with an unresolved attempt in
    the journal fails before it reaches the orchestrator: the bootstrap token is
    never used, so the executor cannot be enrolled again while it keeps the record. *)
Theorem unresolved_attempt_blocks_enrollment `{Kube} config r :
  C_Token (r_credential r) = "" -> (exists id, pending (r_journal r) id) ->
  wp no_credential (fun _ => True) stays_local (Poll config r) (fun x _ => is_ok (fst x) = false) tt.
Proof.
  intros Htok (id & Hp). unfold Poll. case_if as E; [done|]. apply wp_bind.
  assert (Hb : wpX no_credential (fun _ => True) stays_local (poll_body config) (fun x _ _ => is_ok x = false) r tt).
  2:{ eapply wp_mono; [|exact Hb]. cbv beta. intros [[[]|e] r'] s1 Hx; [done|]. cbn in *. by destruct e. }
  unfold poll_body. apply wpX_bind, wpX_try. unfold verifyCluster. apply wpX_call_bind; [done|done|]. intros uid s1 _.
  apply wpX_guard; intros _; (apply wpX_guard_bind; [intros ?|done]); [|done].
  apply wpX_bind. unfold preload. apply wpX_get_bind. rewrite Htok. cbn [negb str_eqb].
  apply wpX_call_bind; [done|done|]. intros c s2 Hload. cbn in Hload. subst c. apply wpX_ret. apply wpX_bind. unfold flush.
  apply wpX_get_bind, wpX_call_bind; [done|done|]. intros keys s3 Hperm. cbn in Hperm.
  assert (Hin : id ∈ keys) by (rewrite Hperm; by apply pending_key). clear Hperm.
  induction keys as [|i keys IH]; [by apply elem_of_nil in Hin|]. cbn [eachX]. apply wpX_bind. unfold flush_one.
  apply wpX_get_bind. destruct (assoc i (r_journal r)) as [a|] eqn:Ea.
  - case_if as Ek.
    + apply wpX_ret, IH. apply elem_of_cons in Hin as [<-|?]; [|done]. destruct Hp as (b & Hb & Hk). congruence.
    + apply wpX_bind. unfold check_credential, validCredential. apply wpX_bind, wpX_call_bind; [done|done|]. intros now s4 _.
      apply wpX_ret. unfold credential_valid. rewrite Htok. by apply wpX_guard.
  - apply wpX_ret, IH. apply elem_of_cons in Hin as [<-|?]; [|done]. destruct Hp as (b & Hb & Hk). congruence.
Qed.
