(* ===== verification/Bounds.v ===== *)
(** * Bounds that every request keeps

    A notification is attempted at most eight times, and no more than a thousand
    login challenges or browser sessions are stored: [keeps_bounds] holds of every
    request, and [bounded] of every database of the system. *)

From stdpp Require Import relations.
From S2P Require Import Prelude.
From S2P Require Import Sha256.
From S2P Require Import Md5.
From S2P Require Import Json.
From S2P Require Import JsonFacts.
From S2P Require Import GoTime.
From S2P Require Import Decode.
From S2P Require Import Identity.
From S2P Require Import Authorization.
From S2P Require Import Incident.
From S2P Require Import Db.
From S2P Require Import Sql.
From S2P Require Import Storage.
From S2P Require Import Lineage.
From S2P Require Import Records.
From S2P Require Import Queues.
From S2P Require Import Privacy.
From S2P Require Import Fleet.
From S2P Require Import Recovery.
From S2P Require Import Governance.
From S2P Require Import Investigation.
From S2P Require Import Knowledge.
From S2P Require Import Execution.
From S2P Require Import ExecutionFacts.
From S2P Require Import ExecutionSafety.
From S2P Require Import System.
From S2P Require Import Evolution.
From S2P Require Import Scenario.
From S2P Require Import ExecutionProps.
From S2P Require Import SystemProps.
From S2P Require Import FleetProps.

(** ** Bounded tables *)
Record bounded (d : DB) : Prop := {
  bd_attempts : forall n : row Tnotifications, n ∈ d Tnotifications -> 0 <= n_attempts n <= 8;
  bd_challenges : (length (d Tchallenges) <= 1000)%nat;
  bd_sessions : (length (d Tsessions) <= 1000)%nat
}.
Definition keeps_bounds (d d' : DB) : Prop := db_ok d -> bounded d -> db_ok d' /\ bounded d'.

#[export] Instance keeps_bounds_refl : Reflexive keeps_bounds.
Proof. by intros d Hd Hb. Qed.
#[export] Instance keeps_bounds_trans : Transitive keeps_bounds.
Proof. intros a b c H1 H2 Ha Hb. destruct (H1 Ha Hb). by apply H2. Qed.

Definition bounded_table (t : tbl) : bool :=
  match t with Tnotifications | Tchallenges | Tsessions => true | _ => false end.

Lemma bounded_other d t l : bounded_table t = false -> bounded d -> bounded (upd d t l).
Proof. intros Ht [H1 H2 H3]. constructor; rewrite upd_other; try done; by intros ->. Qed.

Lemma store_bounds {A} (a : A) d t l a' d' :
  (db_ok d -> bounded d -> bounded (upd d t l)) -> store a d t l = inr (a', d') -> keeps_bounds d d'.
Proof.
  intros Hb Hs Hd Hbd. split; [by eapply store_keeps|]. apply store_ok in Hs as (_ & -> & _). by apply Hb.
Qed.

Lemma store_unbounded {A} (a : A) d t l a' d' :
  bounded_table t = false -> store a d t l = inr (a', d') -> keeps_bounds d d'.
Proof. intros Ht. apply store_bounds. intros _. by apply bounded_other. Qed.

Lemma bounded_notifications d l :
  bounded d -> (forall n : row Tnotifications, n ∈ l -> 0 <= n_attempts n <= 8) -> bounded (upd d Tnotifications l).
Proof. intros [H1 H2 H3] Hl. constructor; [by rewrite upd_same|by rewrite upd_other..]. Qed.

Lemma add_new_spec rs : forall (l : list (row Tnotifications)) n, n ∈ add_new l rs -> n ∈ l \/ n ∈ rs.
Proof.
  unfold add_new. induction rs as [|r rs IH]; intros l n Hn; [by left|]. cbn [fold_left] in Hn.
  apply IH in Hn as [Hn|Hn]; [|right; by right].
  destruct (existsb _ _); [by left|]. apply elem_of_app in Hn as [Hn| ->%list_elem_of_singleton]; [by left|right; by left].
Qed.

(** Fresh notifications have made no attempt. *)
Lemma add_fresh {A} (f : A -> NotificationRow) d (l : list A) :
  (forall x, n_attempts (f x) = 0) -> bounded d -> bounded (upd d Tnotifications (add_new (d Tnotifications) (map f l))).
Proof.
  intros Hf Hb. apply bounded_notifications; [done|]. intros n [Hn|Hn]%add_new_spec; [by apply Hb|].
  apply list_elem_of_fmap in Hn as (x & -> & _). rewrite Hf. lia.
Qed.

(** An update of notifications that stays within the bounds. *)
Lemma bounds_update_returning `{Env} c s :
  (forall now d n, db_ok d -> bounded d -> n ∈ d Tnotifications -> c now d n = true ->
     0 <= n_attempts (s now n) <= 8) ->
  Steps keeps_bounds (update_returning Tnotifications c s).
Proof.
  intros Hs. apply steps_exec; [exact _|]. intros now d a d'. apply store_bounds. intros Hd Hb.
  apply bounded_notifications; [done|]. intros n (m & -> & Hm)%list_elem_of_fmap.
  destruct (c now d m) eqn:E; [by eapply Hs|by apply Hb].
Qed.
Lemma bounds_update `{Env} c s :
  (forall now d n, db_ok d -> bounded d -> n ∈ d Tnotifications -> c now d n = true ->
     0 <= n_attempts (s now n) <= 8) ->
  Steps keeps_bounds (update Tnotifications c s).
Proof. intros Hs. apply steps_bind; [exact _|by apply bounds_update_returning|]. intros. apply steps_ret. exact _. Qed.

(** ** Authentication records *)
Lemma bounds_delete `{Env} t c : t = Tchallenges \/ t = Tsessions -> Steps keeps_bounds (delete_returning t c).
Proof.
  intros Ht. apply steps_exec; [exact _|]. intros now d a d'. apply store_bounds. intros _ [H1 H2 H3].
  assert (Hl : forall l : list (row t), (length (List.filter (fun r => negb (c now d r)) l) <= length l)%nat).
  { induction l as [|x l IH]; cbn; [done|]. destruct (negb _); cbn; lia. }
  destruct Ht as [-> | ->]; constructor; rewrite ?upd_same, ?upd_other by done; try done; specialize (Hl (d _)); cbn in *; lia.
Qed.

Lemma bounds_admit `{Env} t ins w x w' :
  t = Tchallenges \/ t = Tsessions ->
  (let* count := query (fun _ d => inr (Z.of_nat (length (d t)))) in
   guard (count <? 1000) ErrAuthCapacity ;; insert t ins) w = (x, w') -> keeps_bounds (db w) (db w').
Proof.
  intros Ht. unfold bind at 1. destruct (query _ w) as [[n|e] w0] eqn:E.
  - apply query_ok in E as [[= <-] ->]. unfold guard. destruct (Z.ltb_spec (Z.of_nat (length (db w t))) 1000) as [Hlt|];
      [|intros [= _ <-]; done].
    cbn. intros Hi Hd Hb. revert Hd Hb. change (db w) with (db (next w)) at 1 2. 
    assert (Hs : Steps (fun d d' => (length (d t) < 1000)%nat -> keeps_bounds d d') (insert t ins)).
    { intros v y v'. unfold insert, exec. destruct (fault _); [intros [= _ <-]; done|].
      destruct (store _ _ _ _) as [|[u d']] eqn:Es; intros [= _ <-]; [done|]. intros Hl. cbn [db].
      eapply store_bounds; [|exact Es]. intros _ [H1 H2 H3].
      destruct Ht as [-> | ->]; constructor; rewrite ?upd_same, ?upd_other by done; try done;
        rewrite length_app; cbn in *; lia. }
    apply (Hs _ _ _ Hi). cbn [db next]. lia.
  - intros [= _ <-]. intros Hd Hb. unfold query, exec in E. destruct (fault _); injection E as _ <-; done.
Qed.

Lemma bounds_auth `{Env} t expires ins :
  t = Tchallenges \/ t = Tsessions -> Steps keeps_bounds (createAuthRecord t expires (insert t ins)).
Proof.
  intros Ht. unfold createAuthRecord. apply steps_bind; [exact _|apply steps_control; exact _|intros _].
  apply steps_in_transaction; [exact _|]. apply steps_bind; [exact _|apply steps_control; exact _|intros _].
  apply steps_bind; [exact _| |intros n w x w'; by apply bounds_admit].
  unfold delete. apply steps_bind; [exact _|by apply bounds_delete|intros; apply steps_ret; exact _].
Qed.

(** ** Every request keeps the bounds *)
Ltac bounds_side :=
  intros; match goal with H : store _ _ _ _ = inr _ |- _ => eapply store_unbounded; [|exact H]; reflexivity end.
Ltac bounds_step :=
  first
  [ apply steps_pure; [exact _|solve [auto with pure nocore]]
  | progress cbv zeta
  | apply bounds_auth; tauto
  | apply bounds_delete; tauto
  | apply bounds_update_returning | apply bounds_update
  | apply steps_insert; [exact _|bounds_side]
  | apply steps_insert_or_skip; [exact _|bounds_side]
  | apply steps_upsert; [exact _|bounds_side]
  | apply steps_update_returning; [exact _|bounds_side]
  | apply steps_update; [exact _|exact _|bounds_side]
  | apply steps_delete_returning; [exact _|bounds_side]
  | apply steps_delete; [exact _|exact _|bounds_side]
  | apply steps_exec; [exact _|intros ? ? ? ?; cbv zeta; bounds_side]
  | apply steps_exec; [exact _|intros ? ? ? ?; apply store_bounds; intros _; by apply add_fresh]
  | steps_one ].

Section Bounds.
Context `{Env}.

Lemma bounds_tx_op t o : Steps keeps_bounds (run_tx_op t o).
Proof.
  destruct o; cbn [run_tx_op]; unfold_storage; repeat bounds_step.
  all: intros now d m Hd Hb Hn Hc; cbn; pose proof (bd_attempts _ Hb m Hn); try lia.
  breflect. destruct (due_row t d route m Hd Hn ltac:(assumption) ltac:(assumption)) as (_ & _ & _ & ?). lia.
Qed.

Lemma bounds_request r : Steps keeps_bounds (run_request r).
Proof.
  destruct r as [? ? []| | | | | | | | | | | | | | | | | | | | | | | | | | | | |epoch sc fn Hfn]; cbn [run_request]; [..|by apply steps_Transact; [exact _|]; intros t Ht; eapply composed_steps; [exact _|exact _|intros o; apply bounds_tx_op|apply Hfn]];
    unfold_services; unfold_storage;
    unfold CreateLoginChallenge, ConsumeLoginChallenge, CreateBrowserSession, DeleteBrowserSession;
    repeat bounds_step.
  all: apply bounds_tx_op.
Qed.
End Bounds.

Lemma steps_bounds d d' : rtc step d d' -> keeps_bounds d d'.
Proof.
  induction 1 as [|x y z [E r k res w' Hr ->] _ IH]; [done|]. etrans; [|exact IH]. by apply bounds_request in Hr.
Qed.

Lemma system_bounded d : system d -> bounded d.
Proof.
  intros Hs. apply (steps_bounds _ _ Hs); [apply empty_ok|]. constructor; cbn; [|lia|lia].
  intros n Hn. by apply elem_of_nil in Hn.
Qed.
