(* ===== verification/QueueProps.v ===== *)
(** * Theorems on queues, notifications, interactions and sessions

    Bounds and single-use guarantees of the records that requests consume. *)

From stdpp Require Import relations.
From S2P Require Import Prelude.
From S2P Require Import Sha256.
From S2P Require Import Md5.
From S2P Require Import Json.
From S2P Require Import JsonFacts.
From S2P Require Import GoTime.
From S2P Require Import Decode.
From S2P Require Import Identity.
From S2P Require Import Authorization.
From S2P Require Import Incident.
From S2P Require Import Db.
From S2P Require Import Sql.
From S2P Require Import Storage.
From S2P Require Import Lineage.
From S2P Require Import Records.
From S2P Require Import Queues.
From S2P Require Import Privacy.
From S2P Require Import Fleet.
From S2P Require Import Recovery.
From S2P Require Import Governance.
From S2P Require Import Investigation.
From S2P Require Import Knowledge.
From S2P Require Import Execution.
From S2P Require Import ExecutionFacts.
From S2P Require Import ExecutionSafety.
From S2P Require Import System.
From S2P Require Import Evolution.
From S2P Require Import Scenario.
From S2P Require Import ExecutionProps.
From S2P Require Import SystemProps.
From S2P Require Import FleetProps.
From S2P Require Import Bounds.

(** ** Interactions *)
Lemma interactions_inj d (r r' : row Tinteractions) :
  db_ok d -> r ∈ d Tinteractions -> r' ∈ d Tinteractions -> x_scope r = x_scope r' -> x_id r = x_id r' -> r = r'.
Proof.
  intros [Hd _] Hr Hr' Es Ei. destruct (Hd Tinteractions) as [_ Hu].
  eapply (unique_inj Tinteractions _ _ r r' (kscope (x_scope r') ++ [KS (x_id r')])); [done|by left|done|done|..]; cbn.
  - by rewrite Es, Ei.
  - done.
Qed.

Lemma Enqueue_other `{Env} t key kind payload w x w' tb :
  Enqueue t key kind payload w = (x, w') -> tb <> Toutbox -> db w' tb = db w tb.
Proof.
  intros He Hne. assert (Hs : Steps (touches [Toutbox]) (Enqueue t key kind payload)).
  { unfold Enqueue, EnqueueOnce, NewID. steps. }
  apply (Hs _ _ _ He). intros ->%list_elem_of_singleton. done.
Qed.

Lemma AnswerInteraction_ok `{Env} t id v answer actor w x w' :
  AnswerInteraction t id v answer actor w = (Ok x, w') ->
  exists q : row Tinteractions, q ∈ db w Tinteractions /\ x_scope q = scope t /\ x_id q = id /\ x_version q = v /\
    x_status q = "PENDING" /\
    exists q' : row Tinteractions, q' ∈ db w' Tinteractions /\ x_scope q' = scope t /\ x_id q' = id /\
      x_version q' = v + 1 /\ x_status q' = "ANSWERED" /\ x_answer q' = answer /\ x_actor q' = actor.
Proof.
  unfold AnswerInteraction. intros Ha. run. apply query_row_ok in Hm as [_ ->].
  apply update_ok in Hm0 as (En & Ed & _). cbn [db next tick] in *. apply Z.eqb_eq in Hg1. subst r0.
  apply filter_one in Hg1 as [q Hq]. apply find_Some_in in Hq as [Hin Hp].
  assert (Hk : x_scope q = scope t /\ x_id q = id /\ x_version q = v /\ x_status q = "PENDING")
    by (unfold interaction_at, in_scope, scope_eqb in Hp; breflect; auto).
  destruct Hk as (K1 & K2 & K3 & K4). exists q. do 5 (split; [done|]).
  eexists. split.
  - rewrite (Enqueue_other _ _ _ _ _ _ _ Tinteractions Ha) by done. rewrite Ed, upd_same.
    apply list_elem_of_fmap. exists q. rewrite Hp. split; [reflexivity|done].
  - cbn. by rewrite K3.
Qed.

Lemma single_answer `{Env} epoch sc id v answer actor w w' :
  run_request (RTransaction epoch sc [TAnswerInteraction id v answer actor]) w = (Ok tt, w') ->
  exists q : row Tinteractions, q ∈ db w Tinteractions /\ x_scope q = sc /\ x_id q = id /\ x_version q = v /\
    x_status q = "PENDING" /\
    exists q' : row Tinteractions, q' ∈ db w' Tinteractions /\ x_scope q' = sc /\ x_id q' = id /\
      x_version q' = v + 1 /\ x_status q' = "ANSWERED" /\ x_answer q' = answer /\ x_actor q' = actor.
Proof. intros (t & w0 & w1 & <- & _ & <- & Hr & <-)%single_tx. by apply AnswerInteraction_ok in Hr. Qed.

(** ** Pending work of the demonstration: an incident with a question *)
Module Asked.
#[local] Existing Instance Demo.env.
Definition question : Queues.Request :=
  mkRequest Demo.sc "question" "incident" "" "CLARIFICATION" "IMPACT" 1 "PENDING" (Demo.T0 + Hour) "" "" "" None.
Definition world : World :=
  Small.run_all [RTransaction Demo.epoch Demo.sc [TCreateIncident Small.incident; TCreateInteraction question "owner"]]
    Small.start.
Definition answer (s : string) : request :=
  RTransaction Demo.epoch Demo.sc [TAnswerInteraction "question" 1 s "owner"].
Definition answered : World := snd (run_request (answer "INTERNAL_ONLY") world).

Lemma asked_system : system (db world).
Proof. exact (Small.run_all_steps _ Small.start). Qed.
Lemma answer_ok : run_request (answer "INTERNAL_ONLY") world = (Ok tt, answered).
Proof.
  assert (Hok : is_ok (fst (run_request (answer "INTERNAL_ONLY") world)) = true) by (vm_compute; reflexivity).
  revert Hok. unfold answered. generalize (run_request (answer "INTERNAL_ONLY") world).
  intros [[[]|e] w] Hok; [reflexivity|discriminate Hok].
Qed.
End Asked.

(** A diagnostic job that was cancelled. *)
Module Cancelled.
#[local] Existing Instance Demo.env.
Definition put : tx_op :=
  TPutDiagnosticJob (mkJob Demo.sc "job" "incident" "profile" "owner" "QUEUED" Demo.T0 (Demo.T0 + Minute) None) "".
Definition world : World :=
  Small.run_all [RTransaction Demo.epoch Demo.sc
    [TCreateIncident Small.incident; put; TFinishDiagnosticJob "job" "CANCELLED" None]] Small.start.
Definition claim : request := RTransaction Demo.epoch Demo.sc [TClaimDiagnosticJob].
Lemma cancelled_system : system (db world).
Proof. exact (Small.run_all_steps _ Small.start). Qed.
Lemma job : exists j : row Tjobs, j ∈ db world Tjobs /\ d_state j = "CANCELLED".
Proof.
  assert (E : map d_state (db world Tjobs) = ["CANCELLED"]) by (vm_compute; reflexivity).
  destruct (db world Tjobs) as [|j l]; [discriminate E|]. exists j. split; [left|]. injection E as E _. exact E.
Qed.
End Cancelled.

(** An event on the outbox, and an update of an incident in a transaction. *)
Lemma run_ok {A} (m : M A) w a : fst (m w) = Ok a -> m w = (Ok a, snd (m w)).
Proof. destruct (m w) as [r w']. cbn. by intros ->. Qed.

Module Enqueued.
#[local] Existing Instance Demo.env.
Definition run : M bool := EnqueueOnce Small.tx "key" "KIND" "{}".
Lemma ok : run Small.opened = (Ok true, snd (run Small.opened)).
Proof. apply run_ok. vm_compute. reflexivity. Qed.
Definition body (t : Tx) : M unit := UpdateIncident t "incident" 1 "MITIGATED".
Definition transaction : M unit := Transact Demo.epoch Demo.sc body.
Lemma transaction_ok : transaction Small.opened = (Ok tt, snd (transaction Small.opened)).
Proof. apply run_ok. vm_compute. reflexivity. Qed.
Lemma eligible : @Eligible Demo.env Small.tx Demo.ref Demo.T0 Demo.world1 =
  (Ok true, snd (@Eligible Demo.env Small.tx Demo.ref Demo.T0 Demo.world1)).
Proof. apply run_ok. vm_compute. reflexivity. Qed.
End Enqueued.

(** ** The theorems *)

(** A question is answered once.  After an answer to an interaction has
    been accepted, no later answer to it is, whatever version it expects, and in
    every later database the interaction carries the accepted answer and the
    person who gave it. *)
Theorem interaction_answered_once (E1 E2 : Env) epoch1 epoch2 sc id v1 v2 a1 a2 actor1 actor2 w w1 w2 r w3 :
  system (db w) ->
  @run_request E1 (RTransaction epoch1 sc [TAnswerInteraction id v1 a1 actor1]) w = (Ok tt, w1) ->
  rtc step (db w1) (db w2) ->
  @run_request E2 (RTransaction epoch2 sc [TAnswerInteraction id v2 a2 actor2]) w2 = (r, w3) ->
  is_ok r = false /\
  exists q : row Tinteractions, q ∈ db w2 Tinteractions /\ x_scope q = sc /\ x_id q = id /\
    x_status q = "ANSWERED" /\ x_answer q = a1 /\ x_actor q = actor1.
Proof.
  intros Hs H1 Hst H2. pose proof (system_step _ _ Hs (request_steps _ _ _ _ _ H1)) as Hs1.
  pose proof (system_step _ _ Hs1 Hst) as Hs2.
  apply single_answer in H1 as (_ & _ & _ & _ & _ & _ & q & Hq & Qs & Qi & _ & Qst & Qa & Qb).
  destruct (rows_kept _ _ Tinteractions q (system_ok _ Hs1) Hst eq_refl Hq) as (q2 & Hq2 & _ & _ & _ & K).
  assert (q2 = q) as -> by (destruct K as [K|K]; [congruence|done]).
  split; [|by exists q]. destruct r as [[]|]; [exfalso|done].
  apply single_answer in H2 as (p & Hp & Ps & Pi & _ & Pst & _).
  assert (p = q) as -> by (apply (interactions_inj (db w2)); [by apply system_ok|done|done|congruence|congruence]).
  congruence.
Qed.

Lemma interaction_answered_once_witness :
  is_ok (fst (@run_request Demo.env (Asked.answer "UNKNOWN") Asked.answered)) = false /\
  exists q : row Tinteractions, q ∈ db Asked.answered Tinteractions /\ x_scope q = Demo.sc /\ x_id q = "question" /\
    x_status q = "ANSWERED" /\ x_answer q = "INTERNAL_ONLY" /\ x_actor q = "owner".
Proof.
  exact (interaction_answered_once Demo.env Demo.env Demo.epoch Demo.epoch Demo.sc "question" 1 1 "INTERNAL_ONLY" "UNKNOWN"
    "owner" "owner" Asked.world Asked.answered Asked.answered _ _ Asked.asked_system Asked.answer_ok (rtc_refl step _)
    (surjective_pairing _)).
Defined.

(** C18: finished work stays finished.  A diagnostic job that has completed,
    failed or been cancelled keeps its state and its result in every later
    database, and a finished investigation run is never changed at all. *)
Theorem finished_work_is_final d d' :
  system d -> rtc step d d' ->
  (forall j : row Tjobs, j ∈ d Tjobs -> is_active (d_state j) = false ->
     exists j' : row Tjobs, j' ∈ d' Tjobs /\ d_scope j' = d_scope j /\ d_id j' = d_id j /\
       d_state j' = d_state j /\ d_result j' = d_result j) /\
  (forall r : row Truns, r ∈ d Truns -> is_active (r_status r) = false -> r ∈ d' Truns).
Proof.
  intros Hs%system_ok Hst. split.
  - intros j Hj Ha. destruct (rows_kept d d' Tjobs j Hs Hst eq_refl Hj) as (j' & Hj' & K1 & K2 & _ & _ & _ & [K|[K3 K4]]).
    + congruence.
    + by exists j'.
  - intros r Hr Ha. destruct (rows_kept d d' Truns r Hs Hst eq_refl Hr) as (r' & Hr' & _ & _ & _ & [K|K]).
    + congruence.
    + by subst r'.
Qed.

Lemma finished_work_is_final_witness :
  exists j : row Tjobs, j ∈ db (Small.run_all [Cancelled.claim] Cancelled.world) Tjobs /\ d_state j = "CANCELLED".
Proof.
  destruct Cancelled.job as (j & Hj & Hst).
  destruct (finished_work_is_final (db Cancelled.world) (db (Small.run_all [Cancelled.claim] Cancelled.world))
    Cancelled.cancelled_system (Small.run_all_steps [Cancelled.claim] Cancelled.world)) as [H _].
  destruct (H j Hj (eq_trans (f_equal is_active Hst) eq_refl)) as (j' & Hj' & _ & _ & E & _).
  exists j'. exact (conj Hj' (eq_trans E Hst)).
Defined.

(** Bounds.  In every database of the system no notification has been
    attempted more than eight times, and there are at most a thousand login
    challenges and a thousand browser sessions, whatever was requested and
    whatever failed. *)
Theorem queues_are_bounded d : system d ->
  (forall n : row Tnotifications, n ∈ d Tnotifications -> 0 <= n_attempts n <= 8) /\
  (length (d Tchallenges) <= 1000)%nat /\ (length (d Tsessions) <= 1000)%nat.
Proof. intros Hs. pose proof (system_bounded d Hs) as [H1 H2 H3]. done. Qed.

Lemma queues_are_bounded_witness :
  (forall n : row Tnotifications, n ∈ db Asked.world Tnotifications -> 0 <= n_attempts n <= 8) /\
  (length (db Asked.world Tchallenges) <= 1000)%nat /\ (length (db Asked.world Tsessions) <= 1000)%nat.
Proof. exact (queues_are_bounded (db Asked.world) Asked.asked_system). Defined.

(** Idempotent events.  EnqueueOnce either stores an event under a key that
    was free, in canonical form, or finds that very event, same kind and same
    canonical payload, under the key and changes nothing; every other case is an
    error. *)
Theorem enqueue_once `{Env} t key kind payload w b w' :
  EnqueueOnce t key kind payload w = (Ok b, w') ->
  exists canonical, CanonicalObject payload = Ok canonical /\
  if b then
    (forall r : row Toutbox, r ∈ db w Toutbox -> ~ (o_scope r = scope t /\ o_key r = key)) /\
    exists r : row Toutbox, db w' = upd (db w) Toutbox (db w Toutbox ++ [r]) /\ o_scope r = scope t /\ o_key r = key /\
      o_kind r = kind /\ jsonb_text canonical = Some (o_payload r)
  else
    db w' = db w /\
    exists r : row Toutbox, r ∈ db w Toutbox /\ o_scope r = scope t /\ o_key r = key /\ o_kind r = kind /\
      CanonicalObject (o_payload r) = Ok canonical.
Proof.
  unfold EnqueueOnce. intros He. run. destruct (CanonicalObject payload) as [canonical|] eqn:Ec; [|done].
  exists canonical. split; [done|]. run. apply NewID_pure in Hm. destruct (jsonb_text canonical) as [stored|] eqn:Es; [|done].
  run. apply insert_or_skip_ok in Hm0 as [(-> & Ed & Hx)|(-> & Hx & Ed & _)]; [cbn [Z.eqb] in He; run|].
  - apply query_row_ok in Hm0 as [[l E] ->]. apply filter_cons_in in E as [Hin Hp].
    destruct (CanonicalObject (o_payload r0)) as [text|] eqn:Et; [|done]. run.
    cbn [db next] in *. rewrite Ed, Hm. split; [done|]. exists r0. rewrite Ed, Hm in Hin.
    unfold in_scope, scope_eqb in Hp. breflect. by subst.
  - change (if 1 =? 1 then _ else _) with (ret true) in He. unfold ret in He. injection He as <- <-.
    rewrite Hm in *. split; [|by eexists]. intros o Ho [Eo Ek].
    apply not_true_iff_false in Hx. apply Hx, existsb_exists. exists o. split; [by apply list_elem_of_In|].
    unfold scope_eqb. cbn. by rewrite Eo, Ek, bool_decide_true, str_eqb_refl.
Qed.

Lemma enqueue_once_witness :
  (forall r : row Toutbox, r ∈ db Small.opened Toutbox -> ~ (o_scope r = Demo.sc /\ o_key r = "key")) /\
  exists r : row Toutbox, db (snd (Enqueued.run Small.opened)) = upd (db Small.opened) Toutbox (db Small.opened Toutbox ++ [r]) /\
    o_scope r = Demo.sc /\ o_key r = "key" /\ o_kind r = "KIND".
Proof.
  destruct (@enqueue_once Demo.env Small.tx "key" "KIND" "{}" Small.opened true (snd (Enqueued.run Small.opened)) Enqueued.ok)
    as (canonical & _ & H1 & r & E1 & E2 & E3 & E4 & _).
  exact (conj H1 (ex_intro _ r (conj E1 (conj E2 (conj E3 E4))))).
Defined.

(** C21: atomicity.  A transaction that reports an error before its commit has
    left the database as it was; one that succeeds left exactly what its callback
    produced; and one whose commit reports an error left one or the other. *)
Theorem transaction_all_or_nothing `{Env} {A} epoch sc (fn : Tx -> M A) w r w' :
  Transact epoch sc fn w = (r, w') ->
  let t := mkTx sc epoch (pg_now (tick w)) in
  match r with
  | Ok a => exists w0 w1, db w0 = db w /\ fn t w0 = (Ok a, w1) /\ db w' = db w1
  | Err e => db w' = db w \/ exists a w0 w1, db w0 = db w /\ fn t w0 = (Ok a, w1) /\ db w' = db w1
  end.
Proof.
  intros Ht t. destruct r as [a|e].
  - apply Transact_ok in Ht as (_ & w0 & w1 & Hr). by exists w0, w1.
  - apply Transact_atomic in Ht as [E|(_ & a & w0 & w1 & E0 & Hr & E1 & _)]; [by left|right]. by exists a, w0, w1.
Qed.

Lemma transaction_all_or_nothing_witness : exists w0 w1,
  db w0 = db Small.opened /\
  Enqueued.body (mkTx Demo.sc Demo.epoch (@pg_now Demo.env (tick Small.opened))) w0 = (Ok tt, w1) /\
  db (snd (Enqueued.transaction Small.opened)) = db w1.
Proof.
  exact (@transaction_all_or_nothing Demo.env unit Demo.epoch Demo.sc Enqueued.body Small.opened (Ok tt) _
    Enqueued.transaction_ok).
Defined.

Lemma bool_and_true l : (forall x, x ∈ l -> x = Some true) -> bool_and l = Some true.
Proof.
  induction l as [|x l IH]; intros Hl; [done|]. cbn. rewrite (Hl x) by left. cbn.
  rewrite IH; [done|]. intros y Hy. apply Hl. by right.
Qed.

Lemma all_of_iff l f : l <> [] -> (all_of l f = inr true <-> forall n, n ∈ l -> f n = Some true).
Proof.
  intros Hl. split; [by intros [_ ?]%all_of_true|]. intros Hf. unfold all_of. destruct l as [|x l]; [done|].
  rewrite bool_and_true; [done|]. intros y (n & -> & Hn)%list_elem_of_fmap. by apply Hf.
Qed.

(** C22: eligibility is reachability.  The recursive query ends, with or
    without cycles in the stored edges, and finds an item eligible exactly when
    the item exists and every node that the parent and guidance edges reach from
    it is eligible. *)
Theorem eligible_iff_lineage `{Env} t ref at_ w b w' :
  Eligible t ref at_ w = (Ok b, w') ->
  (b = true <-> existsb (item_at t ref) (db w Titems) = true /\
     forall n, rtc (parent (edges t (db w))) (ref, false) n -> node_eligible t (db w) (pgTime at_) n = Some true).
Proof.
  intros [_ He]%Eligible_ok. destruct (existsb (item_at t ref) (db w Titems)) eqn:Ex.
  - assert (Hroot : (ref, false) ∈ lineage t (db w) ref) by (apply lineage_spec; split; [done|apply rtc_refl]).
    assert (Hne : lineage t (db w) ref <> []) by (intros E; rewrite E in Hroot; by apply elem_of_nil in Hroot).
    pose proof (all_of_iff _ (node_eligible t (db w) (pgTime at_)) Hne) as Hiff. split.
    + intros ->. split; [done|]. intros n Hn. apply (proj1 Hiff He). by apply lineage_spec.
    + intros [_ Hall]. assert (E : inr b = inr true :> PgErr + bool); [|by injection E].
      rewrite <- He. apply Hiff. intros n [_ Hn]%lineage_spec. by apply Hall.
  - assert (lineage t (db w) ref = []) as El by (unfold lineage; by rewrite Ex). rewrite El in He. injection He as <-.
    split; [done|by intros [? _]].
Qed.

Lemma eligible_iff_lineage_witness :
  true = true <-> existsb (item_at Small.tx Demo.ref) (db Demo.world1 Titems) = true /\
    forall n, rtc (parent (edges Small.tx (db Demo.world1))) (Demo.ref, false) n ->
      @node_eligible Small.tx (db Demo.world1) (pgTime Demo.T0) n = Some true.
Proof. exact (@eligible_iff_lineage Demo.env Small.tx Demo.ref Demo.T0 Demo.world1 true _ Enqueued.eligible). Defined.
