(* ===== verification/ItemProps.v ===== *)
(** * Theorems on items: canonical bodies, seals and what storage gives back *)

From stdpp Require Import relations.
From S2P Require Import Prelude.
From S2P Require Import Sha256.
From S2P Require Import Md5.
From S2P Require Import Json.
From S2P Require Import JsonFacts.
From S2P Require Import GoTime.
From S2P Require Import Decode.
From S2P Require Import Identity.
From S2P Require Import Authorization.
From S2P Require Import Incident.
From S2P Require Import Db.
From S2P Require Import Sql.
From S2P Require Import Storage.
From S2P Require Import Lineage.
From S2P Require Import Records.
From S2P Require Import Queues.
From S2P Require Import Privacy.
From S2P Require Import Fleet.
From S2P Require Import Recovery.
From S2P Require Import Governance.
From S2P Require Import Investigation.
From S2P Require Import Knowledge.
From S2P Require Import Execution.
From S2P Require Import ExecutionFacts.
From S2P Require Import ExecutionSafety.
From S2P Require Import System.
From S2P Require Import Evolution.
From S2P Require Import Scenario.
From S2P Require Import ExecutionProps.
From S2P Require Import SystemProps.
From S2P Require Import FleetProps.
From S2P Require Import Bounds.
From S2P Require Import QueueProps.

(** ** Helpers *)
Lemma read_json_encode_canonical raw c : CanonicalObject raw = Ok c -> exists j, read_json c = Some j /\ encode j = c.
Proof.
  intros (fs & _ & _ & _ & E & Er & _)%CanonicalObject_value. exists (JObj fs). split; [|done].
  unfold read_json. by rewrite Er.
Qed.

Lemma join_tail_cancel l1 : forall l2 x y,
  tail_text false (l1 ++ x :: l2) = tail_text false (l1 ++ y :: l2) -> x = y.
Proof.
  induction l1 as [|z l1 IH]; intros l2 x y E.
  - rewrite <- (app_nil_s (tail_text _ _)), <- (app_nil_s (tail_text false ([] ++ y :: l2))) in E. cbn [app] in E.
    rewrite !tail_text_cons, !app_nil_s in E. by apply app_cancel_l, app_cancel_r in E.
  - rewrite <- (app_nil_s (tail_text _ _)), <- (app_nil_s (tail_text false ((z :: l1) ++ y :: l2))) in E.
    cbn [app] in E. rewrite !tail_text_cons, !app_nil_s in E. apply app_cancel_l, app_cancel_l in E. by apply IH in E.
Qed.

(** Two objects that print alike and differ in one member's value have the same
    value there, up to its text. *)
Lemma encode_member_cancel fs1 fs2 k v v' x l :
  fs1 = x :: l -> encode (JObj (fs1 ++ (k, v) :: fs2)) = encode (JObj (fs1 ++ (k, v') :: fs2)) -> encode v = encode v'.
Proof.
  intros ->. cbn [encode app map]. intros E.
  apply app_cancel_l in E. rewrite !map_app in E. cbn [map fst snd] in E. rewrite !join_cons in E.
  apply app_cancel_r, app_cancel_l, join_tail_cancel in E. by apply app_cancel_l, app_cancel_l in E.
Qed.

Definition with_body (b : string) (i : Item) : Item :=
  mkItem (I_Scope i) (I_IncidentID i) (I_ID i) (I_Version i) (I_Kind i) b (I_ObservedAt i) (I_ValidUntil i)
    (I_Parents i) (I_Hash i).

(** The object whose text is hashed, with its body's value apart. *)
Definition members (i : Item) (oa vu body : json) : json :=
  JObj ([("scope", scope_json (I_Scope i)); ("incident_id", JStr (I_IncidentID i)); ("id", JStr (I_ID i));
         ("version", jint (I_Version i)); ("kind", JStr (kind_string (I_Kind i)))]
        ++ ("body", body) :: [("observed_at", oa); ("valid_until", vu); ("parents", JArr (map ref_json (I_Parents i)))]).

Definition seal_checks (i : Item) : bool :=
  negb (Scope_Validate (I_Scope i)) || negb (ValidID (I_IncidentID i)) || negb (ValidID (I_ID i))
  || (I_Version i <? 1) || negb (bool_decide (I_Kind i = Evidence) || bool_decide (I_Kind i = Incident.Claim))
  || IsZero (I_ObservedAt i) || negb (After (I_ValidUntil i) (I_ObservedAt i))
  || (64 <? Z.of_nat (length (I_Parents i))).

(** [Seal] with its pieces named. *)
Lemma Seal_unfold i : Seal i =
  if seal_checks i then Err ErrInvalidItem else
  match CanonicalObject (I_Body i) with
  | Err _ => Err ErrInvalidItem
  | Ok c =>
      let sealed := mkItem (I_Scope i) (I_IncidentID i) (I_ID i) (I_Version i) (I_Kind i) c
                      (I_ObservedAt i) (I_ValidUntil i) (isort ref_leb (I_Parents i)) "" in
      if negb (check_parents (self_ref i) None (isort ref_leb (I_Parents i))) then Err ErrInvalidItem else
      match (j ← read_json c; oa ← jtime (I_ObservedAt i); vu ← jtime (I_ValidUntil i); Some (members sealed oa vu j)) with
      | None => Err ErrInvalidItem
      | Some v => Ok (set_hash (sha256_hex (encode v)) sealed)
      end
  end.
Proof.
  unfold Seal, seal_checks. case_if as E; [done|]. destruct (CanonicalObject (I_Body i)) as [c|]; [|done]. cbv zeta.
  case_if as E0; [done|]. unfold item_json.
  cbn [I_Body I_ObservedAt I_ValidUntil I_Hash I_Scope I_IncidentID I_ID I_Version I_Kind I_Parents].
  destruct (read_json c) as [j|]; [|done]. destruct (jtime (I_ObservedAt i)) as [oa|]; [|done].
  by destruct (jtime (I_ValidUntil i)) as [vu|].
Qed.

Lemma Seal_inv i s : Seal i = Ok s -> exists j oa vu,
  jtime (I_ObservedAt s) = Some oa /\ jtime (I_ValidUntil s) = Some vu /\ read_json (I_Body s) = Some j /\
  I_Hash s = sha256_hex (encode (members s oa vu j)) /\ seal_checks s = false /\
  isort ref_leb (I_Parents s) = I_Parents s /\ check_parents (self_ref s) None (I_Parents s) = true /\
  CanonicalObject (I_Body s) = Ok (I_Body s).
Proof.
  rewrite Seal_unfold. intros Hs. case_if_in Hs. destruct (CanonicalObject (I_Body i)) as [c|] eqn:Ec; [|done].
  cbv zeta in Hs. case_if_in Hs. destruct (read_json c) as [j|] eqn:Ej; [|done].
  destruct (jtime (I_ObservedAt i)) as [oa|] eqn:Eo; [|done]. destruct (jtime (I_ValidUntil i)) as [vu|] eqn:Ev; [|done].
  injection Hs as <-. exists j, oa, vu. apply negb_false_iff in E0. apply CanonicalObject_idempotent in Ec.
  do 4 (split; [done|]). cbn [set_hash I_Parents I_Body]. split; [|by rewrite isort_refs_idem].
  unfold seal_checks in *. cbn [set_hash I_Parents I_Scope I_IncidentID I_ID I_Version I_Kind I_ObservedAt I_ValidUntil].
  by rewrite isort_length.
Qed.

(** Sealing an item again with another body that has the canonical form [c]. *)
Lemma Seal_with_body i s b :
  Seal i = Ok s ->
  match CanonicalObject b with
  | Ok c => exists s', Seal (with_body b s) = Ok s' /\
      (I_Hash s' = I_Hash s -> c = I_Body s \/ exists m1 m2, m1 <> m2 /\ sha256 m1 = sha256 m2)
  | Err e => Seal (with_body b s) = Err ErrInvalidItem
  end.
Proof.
  intros (j & oa & vu & Eo & Ev & Ej & Eh & Ec & Ep & Ek & Eb)%Seal_inv. rewrite Seal_unfold.
  change (seal_checks (with_body b s)) with (seal_checks s). rewrite Ec. cbn [I_Body with_body].
  destruct (CanonicalObject b) as [c|] eqn:Eq; [|done]. cbv zeta.
  change (self_ref (with_body b s)) with (self_ref s).
  change (I_Parents (with_body b s)) with (I_Parents s). rewrite Ep, Ek. cbn [negb].
  apply read_json_encode_canonical in Eq as (j' & Ej' & E'), Eb as (j0 & Ej0 & E0).
  rewrite Ej in Ej0. injection Ej0 as <-. rewrite Ej'.
  cbn [I_ObservedAt I_ValidUntil with_body]. rewrite Eo, Ev. cbn [mbind option_bind]. eexists. split; [done|].
  cbn [I_Hash set_hash]. rewrite Eh. unfold sha256_hex. intros Hh. apply hex_encode_inj in Hh; [|apply sha256_bound..].
  match type of Hh with sha256 ?m1 = sha256 ?m2 => destruct (decide (m1 = m2)) as [Em|Em]; [left|right; by exists m1, m2] end.
  rewrite <- E', <- E0. eapply encode_member_cancel; [reflexivity|exact Em].
Qed.

Lemma Seal_same i s b :
  Seal i = Ok s -> CanonicalObject b = Ok (I_Body s) -> Seal (with_body b s) = Ok s.
Proof.
  intros Hs%Seal_idempotent Hb. rewrite <- Hs. rewrite !Seal_unfold.
  change (seal_checks (with_body b s)) with (seal_checks s). cbn [I_Body with_body]. rewrite Hb.
  apply Seal_sealed in Hs. by rewrite (sealed_body _ Hs).
Qed.

(** What [PutItem] leaves behind: the row under the item's reference. *)
Lemma PutItem_row `{Env} t item w x w' :
  PutItem t item w = (Ok x, w') ->
  exists s b (r : row Titems), Seal item = Ok s /\ jsonb_text (I_Body s) = Some b /\ r ∈ db w' Titems /\
    i_scope r = scope t /\ i_ref r = self_ref s /\ i_envelope r = with_body b s /\ I_Scope s = scope t.
Proof.
  unfold PutItem. intros Hp. run. destruct (Seal item) as [s|] eqn:Es; [|done].
  apply bind_ok in Hp as ([] & w0 & _ & Hp). unfold jsonb_item in Hp.
  destruct (jsonb_text (I_Body s)) as [b|] eqn:Eb; [|done]. cbn [mbind option_bind] in Hp.
  apply bind_ok in Hp as ([] & w1 & Hi & Hp). apply insert_ok in Hi as (Ed & _ & _).
  exists s, b. eexists. split; [done|]. split; [done|]. split.
  - assert (Hs : Steps (touches [Teligibility; Tparents; Thistory]) (insert Teligibility (fun _ => mkEligibilityRow (scope t) (self_ref s) false) ;;
      for_each (fun ref => insert Tparents (fun _ => mkParentRow (scope t) (I_IncidentID s) (self_ref s) ref))
        (I_Parents s) ;; linkGuidance t s)).
    { unfold linkGuidance, GetGoldenCase, GetRecoveryAssessment, GetItem, check_item_scope. steps. }
    rewrite (Hs _ _ _ Hp Titems) by (intros [[=]|[[=]|[[=]|[]%elem_of_nil]%elem_of_cons]%elem_of_cons]%elem_of_cons).
    rewrite Ed, upd_same. apply elem_of_app. right. by left.
  - cbn. unfold scope_eqb in *. breflect. apply Seal_fields in Es as (Es & _). repeat split. by rewrite Es.
Qed.

(** What a read finds when the row is there: the driver's fault, or the decoded
    envelope. *)
Lemma GetItem_row `{Env} t ref w (r : row Titems) :
  db_ok (db w) -> r ∈ db w Titems -> i_scope r = scope t -> i_ref r = ref -> validRef ref = true ->
  GetItem t ref w =
    (match fault (tick w) with
     | Some e => Err (safeError e)
     | None => match decodeItem (i_envelope r) with
               | Ok i => if scope_eqb (I_Scope i) (scope t) then Ok i else Err ErrUnavailable
               | Err e => Err e
               end
     end, next w).
Proof.
  intros Hd Hr Es Er Hv. unfold GetItem, guard. rewrite Hv. unfold bind, ret, query_row, query, exec.
  destruct (fault (tick w)); [done|].
  assert (E : exists l, List.filter (item_at t ref) (db w Titems) = r :: l).
  { destruct (List.filter (item_at t ref) (db w Titems)) as [|r' l] eqn:E.
    - exfalso. apply (elem_of_nil r). rewrite <- E. apply list_elem_of_In, filter_In.
      split; [by apply list_elem_of_In|]. unfold item_at, in_scope, scope_eqb. by rewrite !bool_decide_true.
    - exists l. f_equal. apply filter_cons_in in E as [Hr' Hp]. unfold item_at, in_scope, scope_eqb in Hp. breflect.
      by apply (items_inj (db w)); try congruence. }
  destruct E as [l ->]. cbn [map]. unfold of_res, check_item_scope, guard, next. cbn [db tick].
  destruct (decodeItem (i_envelope r)) as [i|]; [|done]. destruct (scope_eqb (I_Scope i) (scope t)); done.
Qed.

(** After a successful [PutItem] and any number of later requests. *)
Lemma item_read_later (E1 E2 : Env) epoch sc item w w1 w2 t :
  system (db w) -> @run_request E1 (RTransaction epoch sc [TPutItem item]) w = (Ok tt, w1) ->
  rtc step (db w1) (db w2) -> scope t = sc ->
  exists s b, Seal item = Ok s /\ jsonb_text (I_Body s) = Some b /\ I_Scope s = sc /\
  @GetItem E2 t (self_ref s) w2 =
    (match @fault E2 (tick w2) with
     | Some e => Err (safeError e)
     | None => match decodeItem (with_body b s) with
               | Ok i => if scope_eqb (I_Scope i) sc then Ok i else Err ErrUnavailable
               | Err e => Err e
               end
     end, next w2).
Proof.
  intros Hs H1 Hst <-. pose proof (system_step _ _ Hs (request_steps _ _ _ _ _ H1)) as Hs1.
  apply single_tx in H1 as (t1 & u & u1 & Et & _ & _ & Hr & Eu). cbn [run_tx_op] in Hr.
  apply PutItem_row in Hr as (s & b & r & Hseal & Hb & Hr & Rs & Ri & Re & Hsc). rewrite Eu in Hr.
  exists s, b. split; [done|]. split; [done|]. split; [congruence|]. rewrite <- Re. apply GetItem_row; [| |congruence|done|].
  - apply system_ok. by apply (system_step (db w1)).
  - eapply audit_kept; [by apply system_ok|done|right; left|done].
  - apply Seal_sealed in Hseal. apply sealed_ref. done.
Qed.

(** The body that storage gives back is the one that was sealed. *)
Definition kept_by_jsonb (body : string) : Prop :=
  exists b, jsonb_text body = Some b /\ CanonicalObject b = Ok body.

(** ** The demonstration items: a healthy observation, and one with a small metric *)
Module Tiny.
#[local] Existing Instance Demo.env.
(** What [json.Marshal] prints for a map with the metric 0.0000001. *)
Definition body : string := encode (JObj [("metrics", JObj [("error_ratio", JNum "1e-7")])]).
Definition item : Item := mkItem Demo.sc "incident" "tiny" 1 Evidence body Demo.T0 (Demo.T0 + 30 * Minute) [] "".
Definition ref : ItemRef := mkRef "tiny" 1.
Definition put (i : Item) : request := RTransaction Demo.epoch Demo.sc [TPutItem i].
Definition stored : World := snd (run_request (put item) Small.opened).
Lemma put_ok : run_request (put item) Small.opened = (Ok tt, stored).
Proof. apply run_ok. vm_compute. reflexivity. Qed.
Definition stored_plain : World := snd (run_request (put Demo.item) Small.opened).
Lemma put_plain_ok : run_request (put Demo.item) Small.opened = (Ok tt, stored_plain).
Proof. apply run_ok. vm_compute. reflexivity. Qed.
Definition sealed (i : Item) : Item := match Seal i with Ok s => s | Err _ => i end.
Lemma sealed_ok i : is_ok (Seal i) = true -> Seal i = Ok (sealed i).
Proof. unfold sealed. by destruct (Seal i). Qed.
Lemma item_seals : is_ok (Seal item) = true /\ is_ok (Seal Demo.item) = true.
Proof. vm_compute. split; reflexivity. Qed.
Lemma plain_kept : kept_by_jsonb (I_Body (sealed Demo.item)).
Proof. exists (I_Body (sealed Demo.item)). split; vm_compute; reflexivity. Qed.
Lemma tiny_rewritten : jsonb_text (I_Body (sealed item)) = 
  Some (encode (JObj [("metrics", JObj [("error_ratio", JNum "0.0000001")])])).
Proof. vm_compute. reflexivity. Qed.
End Tiny.

(** ** The theorems *)

(** C23: items are read back as they were sealed.  Once an item has been stored,
    every later read of its reference in its scope that the driver does not fail
    returns exactly the sealed item, hash included, after any further requests of
    anyone, provided its canonical body is a text that jsonb gives back. *)
Theorem item_read_back (E1 E2 : Env) epoch sc item s w w1 w2 t :
  system (db w) -> @run_request E1 (RTransaction epoch sc [TPutItem item]) w = (Ok tt, w1) ->
  rtc step (db w1) (db w2) -> scope t = sc -> Seal item = Ok s -> kept_by_jsonb (I_Body s) ->
  @GetItem E2 t (self_ref s) w2 =
    (match @fault E2 (tick w2) with Some e => Err (safeError e) | None => Ok s end, next w2).
Proof.
  intros Hs H1 Hst Et Es (b & Hb & Hc).
  destruct (item_read_later E1 E2 epoch sc item w w1 w2 t Hs H1 Hst Et) as (s' & b' & Es' & Hb' & Hsc & Hget).
  assert (s' = s) as -> by congruence. assert (b' = b) as -> by congruence. rewrite Hget.
  destruct (fault (tick w2)); [done|]. unfold decodeItem. rewrite (Seal_same _ _ _ Es Hc).
  change (I_Hash (with_body b s)) with (I_Hash s). rewrite str_eqb_refl, Hsc.
  unfold scope_eqb. by rewrite bool_decide_true.
Qed.

Lemma item_read_back_witness :
  fst (@GetItem Demo.env Small.tx (self_ref (Tiny.sealed Demo.item)) Tiny.stored_plain) = Ok (Tiny.sealed Demo.item).
Proof.
  rewrite (item_read_back Demo.env Demo.env Demo.epoch Demo.sc Demo.item (Tiny.sealed Demo.item) Small.opened
    Tiny.stored_plain Tiny.stored_plain Small.tx Small.opened_system Tiny.put_plain_ok (rtc_refl step _) eq_refl
    (Tiny.sealed_ok Demo.item (proj2 Tiny.item_seals)) Tiny.plain_kept).
  exact eq_refl.
Defined.

(** C24: what jsonb rewrites is lost.  When the number normalisation of jsonb
    changes the canonical form of an item's body, the item is stored without an
    error, yet no later read of it ever succeeds: each fails, or exhibits two
    texts with the same SHA-256. *)
Theorem rewritten_item_is_lost (E1 E2 : Env) epoch sc item s w w1 w2 t r w3 :
  system (db w) -> @run_request E1 (RTransaction epoch sc [TPutItem item]) w = (Ok tt, w1) ->
  rtc step (db w1) (db w2) -> scope t = sc -> Seal item = Ok s -> ~ kept_by_jsonb (I_Body s) ->
  @GetItem E2 t (self_ref s) w2 = (r, w3) ->
  is_ok r = false \/ exists m1 m2, m1 <> m2 /\ sha256 m1 = sha256 m2.
Proof.
  intros Hs H1 Hst Et Es Hlost.
  destruct (item_read_later E1 E2 epoch sc item w w1 w2 t Hs H1 Hst Et) as (s' & b & Es' & Hb & Hsc & Hget).
  assert (s' = s) as -> by congruence. rewrite Hget. intros [= <- _]. destruct (fault (tick w2)); [by left|].
  unfold decodeItem. pose proof (Seal_with_body item s b Es) as Hw. destruct (CanonicalObject b) as [c|] eqn:Ec.
  - destruct Hw as (i' & -> & Hh). change (I_Hash (with_body b s)) with (I_Hash s).
    destruct (str_eqb (I_Hash i') (I_Hash s)) eqn:E; [|by left]. breflect.
    destruct (Hh E) as [->|Hcol]; [|by right]. exfalso. apply Hlost. by exists b.
  - rewrite Hw. by left.
Qed.

Lemma rewritten_item_is_lost_witness :
  is_ok (fst (@GetItem Demo.env Small.tx (self_ref (Tiny.sealed Tiny.item)) Tiny.stored)) = false \/
  exists m1 m2, m1 <> m2 /\ sha256 m1 = sha256 m2.
Proof.
  refine (rewritten_item_is_lost Demo.env Demo.env Demo.epoch Demo.sc Tiny.item (Tiny.sealed Tiny.item) Small.opened
    Tiny.stored Tiny.stored Small.tx _ _ Small.opened_system Tiny.put_ok (rtc_refl step _) eq_refl
    (Tiny.sealed_ok Tiny.item (proj1 Tiny.item_seals)) _ (surjective_pairing _)).
  intros (b & Hb & Hc). rewrite Tiny.tiny_rewritten in Hb. injection Hb as <-. vm_compute in Hc. discriminate Hc.
Defined.

(** C25: canonical objects.  The canonical form is a fixed point, and two texts
    have the same canonical form exactly when they denote the same value up to
    the order of the members of its objects. *)
Theorem canonical_form raw1 raw2 c1 c2 :
  CanonicalObject raw1 = Ok c1 -> CanonicalObject raw2 = Ok c2 ->
  CanonicalObject c1 = Ok c1 /\
  (c1 = c2 <-> exists v1 v2, read_json raw1 = Some v1 /\ read_json raw2 = Some v2 /\ norm v1 = norm v2).
Proof.
  intros H1 H2. split; [by eapply CanonicalObject_idempotent|].
  apply CanonicalObject_value in H1 as (f1 & _ & G1 & _ & E1 & _ & v1 & r1 & R1 & S1 & N1).
  apply CanonicalObject_value in H2 as (f2 & _ & G2 & _ & E2 & _ & v2 & r2 & R2 & S2 & N2).
  assert (read_json raw1 = Some v1) as J1 by (unfold read_json; by rewrite R1, S1).
  assert (read_json raw2 = Some v2) as J2 by (unfold read_json; by rewrite R2, S2). split.
  - intros E. exists v1, v2. split; [done|]. split; [done|]. rewrite N1, N2. apply encode_inj; [done|done|congruence].
  - intros (u1 & u2 & K1 & K2 & E). rewrite J1 in K1. rewrite J2 in K2. injection K1 as <-. injection K2 as <-. congruence.
Qed.

Lemma canonical_form_witness :
  CanonicalObject (encode (JObj [("b", JNum "1"); ("a", JNull)])) = Ok (encode (JObj [("a", JNull); ("b", JNum "1")])) /\
  (encode (JObj [("a", JNull); ("b", JNum "1")]) = encode (JObj [("a", JNull); ("b", JNum "1")]) <->
   exists v1 v2, read_json (encode (JObj [("b", JNum "1"); ("a", JNull)])) = Some v1 /\
     read_json (encode (JObj [("a", JNull); ("b", JNum "1")])) = Some v2 /\ norm v1 = norm v2).
Proof.
  assert (E : CanonicalObject (encode (JObj [("b", JNum "1"); ("a", JNull)])) = Ok (encode (JObj [("a", JNull); ("b", JNum "1")])))
    by (vm_compute; reflexivity).
  assert (F : CanonicalObject (encode (JObj [("a", JNull); ("b", JNum "1")])) = Ok (encode (JObj [("a", JNull); ("b", JNum "1")])))
    by (vm_compute; reflexivity).
  split; [exact E|]. exact (proj2 (canonical_form _ _ _ _ E F)).
Defined.

(** C26: an approval names one plan.  Plans with the same hash are the same
    plan, field by field, unless they exhibit two texts with the same SHA-256. *)
Theorem plan_hash_names_the_plan p1 p2 :
  plan_ok p1 -> plan_ok p2 -> is_Some (plan_json p1) -> is_Some (plan_json p2) -> Hash p1 = Hash p2 ->
  p1 = p2 \/ exists m1 m2, m1 <> m2 /\ sha256 m1 = sha256 m2.
Proof.
  intros O1 O2 [j1 J1] [j2 J2] E.
  destruct (decide (encode j1 = encode j2)) as [Ee|Ee]; [left|right; exists (encode j1), (encode j2)].
  - apply encode_inj in Ee as ->; [|by eapply good_plan..]. by eapply plan_json_inj.
  - split; [done|]. unfold Hash in E. rewrite J1, J2 in E. by apply hex_encode_inj in E; [|apply sha256_bound..].
Qed.

Module Plans.
Definition plan (handle : string) : ActionPlan :=
  mkPlan Demo.sc "id" "incident" "REPLACE_POD" Demo.ref "hash" handle "commitment" "collector" 1 "executor" 1 "epoch" "v1"
    Demo.T0.
Lemma same_plan : plan_ok (plan "aa").
Proof.
  assert (Hi : int64_ok 1) by (unfold int64_ok; lia).
  split; [|split]; repeat (first [exact Hi | apply Forall_nil; exact I | apply Forall_cons; split | split]);
    apply ascii_utf8; vm_compute; reflexivity.
Qed.
End Plans.

Lemma plan_hash_names_the_plan_witness :
  Plans.plan "aa" = Plans.plan ("a" +:+ "a") \/ exists m1 m2, m1 <> m2 /\ sha256 m1 = sha256 m2.
Proof.
  exact (plan_hash_names_the_plan (Plans.plan "aa") (Plans.plan ("a" +:+ "a")) Plans.same_plan Plans.same_plan
    (ex_intro _ _ eq_refl) (ex_intro _ _ eq_refl) eq_refl).
Defined.
