(* ===== verification/AuthProps.v ===== *)
(** * Theorems on identity and authority *)

From stdpp Require Import relations.
From S2P Require Import Prelude.
From S2P Require Import Sha256.
From S2P Require Import Md5.
From S2P Require Import Json.
From S2P Require Import JsonFacts.
From S2P Require Import GoTime.
From S2P Require Import Decode.
From S2P Require Import Identity.
From S2P Require Import Authorization.
From S2P Require Import Incident.
From S2P Require Import Db.
From S2P Require Import Sql.
From S2P Require Import Storage.
From S2P Require Import Lineage.
From S2P Require Import Records.
From S2P Require Import Queues.
From S2P Require Import Privacy.
From S2P Require Import Fleet.
From S2P Require Import Recovery.
From S2P Require Import Governance.
From S2P Require Import Investigation.
From S2P Require Import Knowledge.
From S2P Require Import Execution.
From S2P Require Import ExecutionFacts.
From S2P Require Import ExecutionSafety.
From S2P Require Import System.
From S2P Require Import Evolution.
From S2P Require Import Scenario.
From S2P Require Import ExecutionProps.
From S2P Require Import SystemProps.
From S2P Require Import FleetProps.
From S2P Require Import Bounds.
From S2P Require Import Toy.

#[local] Existing Instance Toy.cipher.

(** ** Helpers *)
Lemma NewPolicy_bindings l k p : NewPolicy l k = Ok p -> Permutation (bindings p) l /\ grantKey p = k.
Proof.
  unfold NewPolicy. intros H. case_if_in H. case_if_in H. injection H as <-. split; [apply isort_perm|done].
Qed.

Lemma Authorize_bindings l k p now principal sc perm :
  NewPolicy l k = Ok p ->
  Authorize (Some p) now principal sc perm = true <->
  Scope_Validate sc = true /\ Principal_Valid principal now = true /\
  exists b, b ∈ l /\ B_Scope b = sc /\ B_Group b ∈ Groups principal /\ perm ∈ permissions (B_Role b).
Proof.
  intros [Hp _]%NewPolicy_bindings. rewrite Authorize_spec. by setoid_rewrite Hp.
Qed.

(** ** A configured policy and a sealed grant *)
Module Granted.
Definition configured : list Binding :=
  [mkBinding Demo.sc "owners" Investigator; mkBinding Demo.sc "admins" Administrator].
Definition reordered : list Binding := rev configured.
Definition built (l : list Binding) : Policy := match NewPolicy l [] with Ok p => p | Err _ => Demo.policy end.
Lemma built_ok : NewPolicy configured [] = Ok (built configured) /\ NewPolicy reordered [] = Ok (built reordered).
Proof. vm_compute. split; reflexivity. Qed.
Definition nonce : list Z := replicate 12 7.
Definition token : string :=
  match SealPrincipal (built configured) Demo.T0 nonce Demo.owner Demo.sc Investigate with Ok t => t | Err _ => "" end.
Lemma token_ok : SealPrincipal (built configured) Demo.T0 nonce Demo.owner Demo.sc Investigate = Ok token /\ slen token <= 65536.
Proof. vm_compute. split; [reflexivity|discriminate]. Qed.
Lemma nonce_ok : length nonce = 12%nat /\ Forall (fun b => 0 <= b < 256) nonce.
Proof. split; [done|]. apply Forall_forall. intros x ->%elem_of_replicate_inv. lia. Qed.
Lemma owner_utf8 : principal_utf8 Demo.owner.
Proof. repeat split; try (apply Forall_cons; split; [|by apply Forall_nil]); apply ascii_utf8; vm_compute; reflexivity. Qed.
Lemma owner_json : is_Some (queued_json Demo.owner).
Proof. eexists. vm_compute. reflexivity. Qed.
End Granted.

(** A login through an issuer whose verifier accepts one token. *)
Module Login.
Definition issued : IDToken :=
  mkIDToken "subject" ["sre"] "nonce" Demo.T0 (Demo.T0 + Hour) ["oncall"; "admins"] "" 0 "" "" "engineer".
Definition accepts (raw : string) : option IDToken := if str_eqb raw "a.b.c" then Some issued else None.
Definition issuer : OIDCVerifier := mkOIDCVerifier "https://issuer" "sre".
Definition nobody : Principal := mkPrincipal "" "" "" "" "" [] 0 0.
Definition principal : Principal :=
  match VerifyNonce accepts issuer Demo.T0 "a.b.c" "nonce" with Ok p => p | Err _ => nobody end.
Lemma logged_in : VerifyNonce accepts issuer Demo.T0 "a.b.c" "nonce" = Ok principal.
Proof. vm_compute. reflexivity. Qed.
End Login.

(** ** The theorems *)

(** C27: a policy is its set of bindings.  Authority under a configured policy
    is exactly a binding of that very scope, for one of the principal's groups,
    whose role lists the permission, for a principal whose identity is valid at
    that instant; two configurations that differ in the order of their bindings
    decide alike and have the same version. *)
Theorem policy_is_its_bindings l1 l2 k1 k2 p1 p2 now principal sc perm :
  NewPolicy l1 k1 = Ok p1 -> NewPolicy l2 k2 = Ok p2 -> Permutation l1 l2 ->
  Authorization.Version (Some p1) = Authorization.Version (Some p2) /\
  Authorize (Some p1) now principal sc perm = Authorize (Some p2) now principal sc perm /\
  (Authorize (Some p1) now principal sc perm = true <->
   Scope_Validate sc = true /\
   (ValidID (P_ID principal) = true /\ Issuer principal <> "" /\ IssuedAt principal <> zeroTime /\
    IssuedAt principal <= now + 30 * Second /\ now < P_ExpiresAt principal /\
    now <= IssuedAt principal + MaxIdentityAge) /\
   exists b, b ∈ l1 /\ B_Scope b = sc /\ B_Group b ∈ Groups principal /\ perm ∈ permissions (B_Role b)).
Proof.
  intros H1 H2 Hp. split.
  { destruct (NewPolicy_perm l1 l2 k1 k2 Hp) as [_ Hv]. by apply Hv. }
  split; [|rewrite (Authorize_bindings l1 k1) by done; by rewrite Principal_Valid_spec].
  apply eq_true_iff_eq. rewrite (Authorize_bindings l1 k1), (Authorize_bindings l2 k2) by done. by setoid_rewrite Hp.
Qed.

Lemma policy_is_its_bindings_witness :
  Authorization.Version (Some (Granted.built Granted.configured)) =
    Authorization.Version (Some (Granted.built Granted.reordered)) /\
  Authorize (Some (Granted.built Granted.configured)) Demo.T0 Demo.owner Demo.sc Investigate =
    Authorize (Some (Granted.built Granted.reordered)) Demo.T0 Demo.owner Demo.sc Investigate.
Proof.
  destruct (policy_is_its_bindings Granted.configured Granted.reordered [] [] (Granted.built Granted.configured)
    (Granted.built Granted.reordered) Demo.T0 Demo.owner Demo.sc Investigate (proj1 Granted.built_ok)
    (proj2 Granted.built_ok) (Permutation_rev _)) as (H1 & H2 & _).
  exact (conj H1 H2).
Defined.

(** C28: a queued grant carries one authority.  What [SealPrincipal] sealed opens
    to exactly that principal, groups included, as long as the principal still
    holds the permission, and to nothing in another scope, for another
    permission or under another version of the policy with the same key. *)
Theorem grant_carries_one_authority `{AEAD} p now nonce principal sc perm token :
  length nonce = 12%nat -> Forall (fun b => 0 <= b < 256) nonce -> principal_utf8 principal ->
  is_Some (queued_json principal) -> SealPrincipal p now nonce principal sc perm = Ok token -> slen token <= 65536 ->
  Authorize (Some p) now principal sc perm = true /\
  (forall now', OpenPrincipal (Some p) now' token sc perm =
     if Authorize (Some p) now' principal sc perm then Ok principal else Err ErrForbidden) /\
  (forall p' now' sc' perm', grantKey p' = grantKey p -> (sc', perm', version p') <> (sc, perm, version p) ->
     OpenPrincipal (Some p') now' token sc' perm' = Err ErrForbidden).
Proof.
  intros Hl Hb Hu Hj Hs Ht. split; [|split].
  - unfold SealPrincipal in Hs. by destruct (Authorize (Some p) now principal sc perm).
  - intros now'. destruct (Authorize (Some p) now' principal sc perm) eqn:Ea.
    + by eapply OpenPrincipal_Seal.
    + by eapply OpenPrincipal_denied.
  - intros p' now' sc' perm' Hk Hne. by eapply (OpenPrincipal_other p).
Qed.

Lemma grant_carries_one_authority_witness :
  OpenPrincipal (Some (Granted.built Granted.configured)) Demo.T0 Granted.token Demo.sc Investigate = Ok Demo.owner /\
  OpenPrincipal (Some (Granted.built Granted.configured)) Demo.T0 Granted.token Demo.sc Read = Err ErrForbidden.
Proof.
  destruct (grant_carries_one_authority (Granted.built Granted.configured) Demo.T0 Granted.nonce Demo.owner Demo.sc
    Investigate Granted.token (proj1 Granted.nonce_ok) (proj2 Granted.nonce_ok) Granted.owner_utf8 Granted.owner_json
    (proj1 Granted.token_ok) (proj2 Granted.token_ok)) as (Ha & Ho & Hn).
  split; [rewrite Ho, Ha; exact eq_refl|]. apply Hn; [exact eq_refl|discriminate].
Defined.

(** C29: identity is what the issuer vouched for.  A principal that a token
    yields comes from a token the OIDC library accepted for this raw text, with
    the nonce the login was started with, carries the digest of issuer and
    subject as its identity and the token's groups, each well formed, is valid
    at that instant, and ends with the token and fifteen minutes after its
    issue. *)
Theorem login_identity verifier v now raw nonce p :
  VerifyNonce verifier v now raw nonce = Ok p ->
  exists token, verifier raw = Some token /\ nonce <> "" /\ T_Nonce token = nonce /\
    P_ID p = sha256_hex (V_issuer v +:+ String (chr 0) (T_Subject token)) /\ Issuer p = V_issuer v /\
    Permutation (Groups p) (C_Groups token) /\ (forall g, g ∈ Groups p -> valid_group g = true) /\
    Principal_Valid p now = true /\
    (forall later, Principal_Valid p later = true -> later < T_Expiry token /\ later <= T_IssuedAt token + MaxIdentityAge).
Proof.
  unfold VerifyNonce. intros Hv. case_if_in Hv. destruct (verifier raw) as [token|] eqn:Et; [|done]. case_if_in Hv.
  pose proof (Verify_sound _ _ _ _ _ Hv) as (token' & Et' & Hval & Hid & Hg & Hgs & Hx1 & Hx2).
  assert (token' = token) as -> by congruence. exists token. breflect.
  assert (Hi : Issuer p = V_issuer v).
  { unfold Verify in Hv. rewrite Et in Hv. repeat case_if_in Hv; injection Hv as <-; reflexivity. }
  assert (Hn : nonce <> "" /\ T_Nonce token = nonce) by (split; [|done]; intros ->; done).
  destruct Hn as [Hn1 Hn2]. do 8 (apply conj; [done|]).
  intros later Hl. rewrite Principal_Valid_spec in Hl. lia.
Qed.

Lemma login_identity_witness :
  Principal_Valid Login.principal (Demo.T0 + Hour) = false /\
  exists token, Login.accepts "a.b.c" = Some token /\ Permutation (Groups Login.principal) (C_Groups token).
Proof.
  destruct (login_identity Login.accepts Login.issuer Demo.T0 "a.b.c" "nonce" Login.principal Login.logged_in)
    as (token & Ht & _ & _ & _ & _ & Hg & _ & _ & Hx).
  split; [|exists token; split; [exact Ht|exact Hg]].
  destruct (Principal_Valid Login.principal (Demo.T0 + Hour)) eqn:E; [|reflexivity]. exfalso.
  destruct (Hx _ E) as [_ Hle]. revert Hle. injection Ht as <-. vm_compute. intros Hle. apply Hle. reflexivity.
Defined.
