(* ===== verification/Attempt.v ===== *)
(** * A diagnostic attempt, run on the model

    A collector is enrolled and two of its observations are stored; an engineer
    queues a diagnosis, the collector claims it, reports a hypothesis, and a
    steward corroborates it.  The theorems on the diagnostic protocol are
    instantiated here. *)

From S2P Require Import Prelude.
From S2P Require Import Json.
From S2P Require Import GoTime.
From S2P Require Import Decode.
From S2P Require Import Identity.
From S2P Require Import Authorization.
From S2P Require Import Incident.
From S2P Require Import Db.
From S2P Require Import Sql.
From S2P Require Import Storage.
From S2P Require Import Records.
From S2P Require Import Queues.
From S2P Require Import Privacy.
From S2P Require Import Fleet.
From S2P Require Import Governance.
From S2P Require Import Investigation.
From S2P Require Import Knowledge.
From S2P Require Import Snapshot.
From S2P Require Import Rounds.
From S2P Require Import Diagnosis.
From S2P Require Import RunText.
From S2P Require Import Execution.
From S2P Require Import System.
From S2P Require Import Scenario.
From S2P Require Import Toy.

Module Attempt.
Import Rubric Queue Snapshot Rounds Agents Corroboration.
#[export] Existing Instance Demo.env.
#[export] Existing Instance Toy.cipher.

Definition sc : Scope := Demo.sc.
Definition T0 : Time := Demo.T0.
Definition backend : Backend := mkBackend Demo.epoch Demo.policy.
Definition meta : ProviderMetadata := mkProvider "rule" "" "" "" "" "" "".
Definition profile : Profile := mkProfileOf "profile" "v1" meta [sc].
Definition service : Queue.Service := Queue.mkService Demo.epoch Demo.policy [profile] Demo.epoch.

Definition other_handle : string := "fedcba9876543210fedcba9876543210".
Definition source : Provenance := mkProv "collector" 1 Demo.epoch Demo.handle.
Definition blocked : Observation :=
  mkObs (Some source) None NetworkBlocked Demo.handle [] [("error_ratio", FFin 1 (-1))] T0 (T0 + 30 * Minute).
Definition dependent : Observation :=
  mkObs (Some source) None DependencyUnavailable other_handle [Demo.handle] [] T0 (T0 + 30 * Minute).
Definition text (o : Observation) : string := default "" (Marshal (obs_json o)).
Definition observed (id : string) (o : Observation) : Item :=
  mkItem sc "incident" id 1 Evidence (text o) T0 (T0 + 30 * Minute) [] "".
Definition ref1 : ItemRef := mkRef "e1" 1.
Definition ref2 : ItemRef := mkRef "e2" 1.

Definition setup : M string :=
  let* token := Demo.enroll "collector" Collector in
  run_request (RTransaction Demo.epoch sc [TCreateIncident (mkIncident sc "incident" 1 "OPEN" T0);
    TPutItem (observed "e1" blocked); TPutItem (observed "e2" dependent)]) ;;
  ret token.
Definition world0 : World := mkWorld empty_db 0.
Definition token : string := Demo.value "" (Demo.result setup world0).
Definition world1 : World := Demo.after setup world0.
Definition auth : Tx -> M Agent := collector Demo.svc token.
Definition nobody : M unit := ret tt.
Definition guidance : option (Principal -> Scope -> M (list GoldenCase)) := Some (Knowledge.Retrieve backend).

Definition enqueue : M DiagnosticJob := Queue.Enqueue service Demo.owner sc "incident" "profile".
Definition zero_job : DiagnosticJob := mkJob sc "" "" "" "" "" 0 0 None.
Definition job : DiagnosticJob := Demo.value zero_job (Demo.result enqueue world1).
Definition world2 : World := Demo.after enqueue world1.

Definition claim : M (option AgentClaim) := ClaimAgent guidance validated auth nobody service sc ["profile"].
Definition zero_claim : AgentClaim := mkAgentClaim zero_input "" 0.
Definition claimed : AgentClaim := default zero_claim (Demo.value None (Demo.result claim world2)).
Definition world3 : World := Demo.after claim world2.

Definition conclusion : Conclusion :=
  mkConclusion None NetworkBlocked Demo.handle (Some [ref1]) None None.
Definition submitted : RunResult :=
  mkRun [mkRound 10 None 1 "" "" 2 0] [] 0 (D_ID job) "profile" "v1" PrivacyVersion PromptVersion RubricVersion
    (mkAssessment Hypothesis_ "" conclusion).
Definition complete : M Item := CompleteAgent validated auth service sc (D_ID job) (AC_AttemptID claimed) submitted.
Definition zero_item : Item := mkItem sc "" "" 0 Evidence "" 0 0 [] "".
Definition recorded : Item := Demo.value zero_item (Demo.result complete world3).
Definition world4 : World := Demo.after complete world3.

Definition review : CorroborateRequest :=
  mkCorroborate (self_ref recorded) (I_Hash recorded) [ref1; ref2] true true true.
Definition corroborate : M Item := Corroborate backend Demo.owner sc review.
Definition corroborated : Item := Demo.value zero_item (Demo.result corroborate world4).
Definition world5 : World := Demo.after corroborate world4.

(** A run of the engine: the provider wants the dependent resource looked at
    again, is given the same evidence, and asks once more. *)
Definition state : Snapshot :=
  mkSnapshot [mkEvidence ref1 blocked; mkEvidence ref2 dependent] [ref1; ref2] (T0 + 5 * Minute) None [].
Definition curious : Conclusion :=
  mkConclusion (Some [Rubric.mkCheck "REFRESH_RESOURCE_STATE" other_handle]) NetworkBlocked Demo.handle (Some [ref1]) None None.
Definition answering (c : Conclusion) : Runner := fun task => ret (mkAnswer (encode (conclusion_json c)) (mkUsage 10 5 15), true).
Definition engine (c : Conclusion) : M (Assessment * list Round * Snapshot) :=
  ExecuteRounds (Some (answering c)) state [] (Some (fun _ current => ret (current, true))).
Definition diagnosed (c : Conclusion) : Assessment * list Round * Snapshot :=
  Demo.value (zero_assessment, [], state) (Demo.result (engine c) world0).
Lemma engine_runs :
  is_ok (Demo.result (engine curious) world0) = true /\ is_ok (Demo.result (engine conclusion) world0) = true /\
  AS_ReasonCode (fst (fst (diagnosed curious))) = "REPEATED_CHECK_WITHOUT_PROGRESS" /\
  length (snd (fst (diagnosed curious))) = 2%nat /\
  AS_Status (fst (fst (diagnosed conclusion))) = Hypothesis_ /\ length (snd (fst (diagnosed conclusion))) = 3%nat.
Proof. vm_compute. repeat split. Qed.

(** The input stored in the job row that the claimed attempt works under. *)
Definition input_of (id : string) (l : list (row Tjobs)) : option AgentInput :=
  match l with
  | [j] => if scope_eqb (d_scope j) sc && str_eqb (d_id j) id
           then decode_input (default "" (d_input j)) else None
  | _ => None
  end.
Definition input_clear (i : AgentInput) : bool :=
  clear (IN_ProfileID i) && clear (IN_ProfileVersion i) && bool_decide (SN_Environment (IN_Snapshot i) = None)
  && bool_decide (IN_Guidance i = []).
Definition stored_clear : bool := match input_of (D_ID job) (db world3 Tjobs) with Some i => input_clear i | None => false end.

Lemma attempt_runs :
  is_ok (Demo.result setup world0) = true /\ is_ok (Demo.result enqueue world1) = true /\
  bool_decide (is_Some (Demo.value None (Demo.result claim world2))) = true /\
  is_ok (Demo.result complete world3) = true /\ is_ok (Demo.result corroborate world4) = true /\
  stored_clear = true.
Proof. vm_compute. repeat split. Qed.
End Attempt.
