(* ===== verification/DiagnosisSteps.v ===== *)
(** * The conversations of an agent, as requests of the system

    Claiming a job, refreshing its evidence and completing it take several
    transactions, with other replicas at work between them.  Each is shown to be a
    sequence of requests of [System], so that every fact about reachable
    databases holds in the middle of them; the worlds of [Attempt] are therefore
    databases of the system. *)

From stdpp Require Import relations.
From S2P Require Import Prelude.
From S2P Require Import Sha256.
From S2P Require Import Md5.
From S2P Require Import Json.
From S2P Require Import JsonFacts.
From S2P Require Import GoTime.
From S2P Require Import Decode.
From S2P Require Import Identity.
From S2P Require Import Authorization.
From S2P Require Import Incident.
From S2P Require Import Db.
From S2P Require Import Sql.
From S2P Require Import Storage.
From S2P Require Import Lineage.
From S2P Require Import Records.
From S2P Require Import Queues.
From S2P Require Import Privacy.
From S2P Require Import Fleet.
From S2P Require Import Recovery.
From S2P Require Import Governance.
From S2P Require Import Investigation.
From S2P Require Import Knowledge.
From S2P Require Import Execution.
From S2P Require Import ExecutionFacts.
From S2P Require Import ExecutionSafety.
From S2P Require Import System.
From S2P Require Import Evolution.
From S2P Require Import Scenario.
From S2P Require Import ExecutionProps.
From S2P Require Import SystemProps.
From S2P Require Import FleetProps.
From S2P Require Import Toy.
From S2P Require Import Snapshot.
From S2P Require Import Rounds.
From S2P Require Import Diagnosis.
From S2P Require Import RunText.
From S2P Require Import Attempt.

Import Rubric Snapshot Rounds Agents Corroboration.

Section Requests.
Context `{Env}.

Lemma requests_step r : Steps (rtc step) (run_request r).
Proof.
  intros [d k] x w' Hr. apply rtc_once. by eapply step_request.
Qed.

(** A part of a handler that is the whole effect of a request. *)
Lemma part_keeps R r {A} (m : M A) : Steps R (run_request r) -> run_request r = (m ;; ret tt) -> Steps R m.
Proof. intros Hr E. apply steps_part. by rewrite <- E. Qed.
Lemma part_steps {A} r (m : M A) : run_request r = (m ;; ret tt) -> Steps (rtc step) m.
Proof. apply part_keeps, requests_step. Qed.
End Requests.

Ltac req r := apply (part_steps r); reflexivity.

(** The requests that the conversations of the agent with [token] are made of, in
    [sc], through the services [f] and [s]: checks are requested for a refresh
    that the agent has reserved, and guidance is looked up for the person whose
    sealed grant the leased job carries. *)
Definition reserved `{Env} `{AEAD} (f : Fleet.Service) (token : string) (s : Queue.Service) (sc : Scope)
  (incident : string) (checks : list DiagnosticCheck) : Prop :=
  exists w i w' id attempt,
    Transact (Queue.Q_Epoch s) sc (reserveTx validated (collector f token) s sc id attempt checks) w = (Ok i, w') /\
    incident = IN_IncidentID i.
Definition sealed_for `{AEAD} (s : Queue.Service) (sc : Scope) (p : Principal) : Prop :=
  exists now grant, OpenPrincipal (Some (Queue.Q_Policy s)) now grant sc Investigate = Ok p.
Definition agent_job `{Env} `{AEAD} (f : Fleet.Service) (token : string) (s : Queue.Service) (sc : Scope)
  (q : request) : Prop :=
  match q with
  | RHeartbeat _ s' f' sc' t _ _ | RLease s' f' sc' t _ | RStart _ s' f' sc' t _ _ _ | RComplete _ s' f' sc' t _ _ _
  | RReserve _ s' f' sc' t _ _ _ | RReplace _ s' f' sc' t _ _ _ _ => (s', f', sc', t) = (s, f, sc, token)
  | RRequestChecks epoch sc' incident _ checks _ =>
      (epoch, sc') = (Queue.Q_Epoch s, sc) /\ reserved f token s sc incident checks
  | _ => False
  end.

Section Conversations.
Context `{Env} `{AEAD} (R : DB -> DB -> Prop) `{!Reflexive R, !Transitive R} (f : Fleet.Service) (token : string)
  (s : Queue.Service) (sc : Scope) (others : M unit) (HR : forall q, agent_job f token s sc q -> Steps R (run_request q))
  (Hothers : Steps R others).
#[local] Hint Resolve Hothers : steps.

Lemma pure_steps {A} (m : M A) : Steps eq m -> Steps R m.
Proof. apply steps_pure. exact _. Qed.
Lemma job_keeps q {A} (m : M A) : agent_job f token s sc q -> run_request q = (m ;; ret tt) -> Steps R m.
Proof. intros Hq. by apply part_keeps, HR. Qed.
Ltac job q := apply (job_keeps q); [reflexivity|reflexivity].
Ltac req_step := first [ apply pure_steps; solve [auto with pure nocore] | steps_one ].

Lemma lease_steps profiles : Steps R (Transact (Queue.Q_Epoch s) sc (leaseTx (collector f token) profiles)).
Proof. job (RLease s f sc token profiles). Qed.
Lemma start_steps i attempt raw :
  Steps R (Transact (Queue.Q_Epoch s) sc (startTx validated (collector f token) s sc i attempt raw)).
Proof. exact (HR (RStart _ s f sc token i attempt raw) eq_refl). Qed.
Lemma reserve_steps id attempt checks :
  Steps R (Transact (Queue.Q_Epoch s) sc (reserveTx validated (collector f token) s sc id attempt checks)).
Proof. job (RReserve _ s f sc token id attempt checks). Qed.
Lemma replace_steps id attempt i raw :
  Steps R (Transact (Queue.Q_Epoch s) sc (replaceTx validated (collector f token) s sc id attempt i raw)).
Proof. exact (HR (RReplace _ s f sc token id attempt i raw) eq_refl). Qed.
Lemma heartbeat_steps id attempt : Steps R (Queue.HeartbeatAgent s f sc token id attempt).
Proof. job (RHeartbeat _ s f sc token id attempt). Qed.
Lemma complete_steps id attempt r : Steps R (CompleteAgent validated (collector f token) s sc id attempt r).
Proof. job (RComplete _ s f sc token id attempt r). Qed.
Lemma request_checks_steps incident at_ checks evidence : reserved f token s sc incident checks ->
  Steps R (Transact (Queue.Q_Epoch s) sc (requestChecksTx sc incident at_ checks evidence)).
Proof.
  intros Hr. apply (job_keeps (RRequestChecks (Queue.Q_Epoch s) sc incident at_ checks evidence)); [|reflexivity].
  by split.
Qed.
Lemma read_steps incident now : Steps R (readSnapshot s sc incident now).
Proof. unfold readSnapshot. repeat req_step. Qed.
#[local] Hint Resolve lease_steps start_steps reserve_steps replace_steps request_checks_steps read_steps : steps.

Lemma wait_steps ids n : Steps R (wait others (Queue.Q_Epoch s) sc ids n).
Proof.
  induction n as [|n IH]; cbn [wait]; [steps|].
  repeat first [apply IH | req_step].
Qed.
#[local] Hint Resolve wait_steps : steps.
Lemma collect_steps ticks incident checks evidence : reserved f token s sc incident checks ->
  Steps R (collectChecks others ticks s sc incident checks evidence).
Proof. intros Hr. unfold collectChecks. repeat req_step. Qed.

Lemma ClaimAgent_steps guidance profiles :
  (forall g p, guidance = Some g -> sealed_for s sc p -> Steps R (g p sc)) ->
  Steps R (ClaimAgent guidance validated (collector f token) others s sc profiles).
Proof.
  intros Hg. unfold ClaimAgent, guidance_for.
  apply steps_bind; [exact _|repeat req_step|]. intros [lease|]; [|req_step]. destruct (Queue.profile s _) as [pf|]; [|req_step].
  apply steps_bind; [exact _|req_step|]. intros _. apply steps_bind; [exact _|req_step|]. intros opened.
  apply steps_bind_ok; [exact _..|req_step|]. intros w p w' Hp.
  assert (Hs : sealed_for s sc p).
  { unfold of_res in Hp. destruct (OpenPrincipal _ opened (L_Authority lease) sc Investigate) as [p'|] eqn:E; [|done].
    injection Hp as <- _. by exists opened, (L_Authority lease). }
  destruct guidance as [g|]; repeat first [by apply Hg | req_step].
Qed.
Lemma RefreshAgent_steps ticks id attempt checks :
  Steps R (RefreshAgent validated (collector f token) others ticks s sc id attempt checks).
Proof.
  unfold RefreshAgent. apply steps_bind_ok; [exact _..|req_step|]. intros w i w' Hi.
  assert (Hr : reserved f token s sc (IN_IncidentID i) checks) by (by exists w, i, w', id, attempt).
  apply steps_bind; [exact _|req_step|]. intros _. apply steps_bind; [exact _|by apply collect_steps|]. intros ready.
  repeat req_step.
Qed.
End Conversations.

(** ** The worlds of the demonstration *)
Module AttemptFacts.
Import Attempt.

Lemma run_steps {A} (m : M A) w : Steps (rtc step) m -> rtc step (db w) (db (Demo.after m w)).
Proof. intros Hm. exact (Hm _ _ _ (Demo.run_pair m w)). Qed.

Lemma attempt_setup_steps : Steps (rtc step) setup.
Proof.
  unfold setup, Demo.enroll.
  apply steps_bind; [exact _| |intros tok].
  - apply steps_bind; [exact _| |intros b].
    + req (RBootstrap Demo.svc Demo.admin Demo.sc "collector" "cluster-uid" Collector).
    + apply steps_bind; [exact _| |intros c; steps].
      req (REnroll Demo.svc Demo.sc (C_Token b) "cluster-uid" Collector).
  - apply steps_bind; [exact _|apply requests_step|intros; steps].
Qed.
Lemma enqueue_steps : Steps (rtc step) enqueue.
Proof. unfold enqueue. req (REnqueueJob _ service Demo.owner sc "incident" "profile"). Qed.
Lemma claim_steps : Steps (rtc step) claim.
Proof.
  apply ClaimAgent_steps; [exact _|exact _|intros q _; apply requests_step|apply steps_ret; exact _|]. intros g p [= <-] _.
  req (RRetrieve backend p sc).
Qed.

Lemma system1 : system (db world1).
Proof. exact (run_steps setup world0 attempt_setup_steps). Qed.
Lemma system2 : system (db world2).
Proof. exact (system_step _ _ system1 (run_steps enqueue world1 enqueue_steps)). Qed.
Lemma system3 : system (db world3).
Proof. exact (system_step _ _ system2 (run_steps claim world2 claim_steps)). Qed.

Lemma complete_eq : complete =
  CompleteAgent validated (collector Demo.svc token) service sc (D_ID job) (AC_AttemptID claimed) submitted.
Proof. reflexivity. Qed.
Lemma completed :
  CompleteAgent validated (collector Demo.svc token) service sc (D_ID job) (AC_AttemptID claimed) submitted world3
  = (Ok recorded, world4).
Proof.
  destruct attempt_runs as (_ & _ & _ & Hok & _). rewrite <- complete_eq.
  exact (Demo.run_value complete world3 zero_item Hok).
Qed.
Lemma corroborate_eq : corroborate = Corroborate backend Demo.owner sc review.
Proof. reflexivity. Qed.
Lemma reviewed : Corroborate backend Demo.owner sc review world4 = (Ok corroborated, world5).
Proof.
  destruct attempt_runs as (_ & _ & _ & _ & Hok & _). rewrite <- corroborate_eq.
  exact (Demo.run_value corroborate world4 zero_item Hok).
Qed.

Lemma input_of_some id l i : input_of id l = Some i -> exists j : row Tjobs, j ∈ l /\ d_scope j = sc /\ d_id j = id /\
  decode_input (default "" (d_input j)) = Some i.
Proof.
  unfold input_of. destruct l as [|j [|]]; [done| |done]. case_if as E; [|done]. intros Hd. exists j.
  apply andb_true_iff in E as [Hs%scope_eqb_eq Hi%bool_decide_eq_true]. split; [left|done].
Qed.
Lemma input_clear_ok i : input_clear i = true -> input_ok i.
Proof.
  unfold input_clear. intros [[[H1 H2]%andb_true_iff H3]%andb_true_iff H4]%andb_true_iff.
  apply bool_decide_eq_true in H3, H4. unfold input_ok. rewrite H3, H4.
  split; [by apply clear_text|]. split; [by apply clear_text|]. split; [done|]. by intros g Hg%elem_of_nil.
Qed.
Lemma input_stored : exists (j : row Tjobs) i, j ∈ db world3 Tjobs /\ d_scope j = sc /\ d_id j = D_ID job /\
  decode_input (default "" (d_input j)) = Some i /\ input_ok i.
Proof.
  destruct attempt_runs as (_ & _ & _ & _ & _ & Hj). revert Hj. unfold stored_clear.
  generalize (input_of_some (D_ID job) (db world3 Tjobs)). destruct (input_of (D_ID job) (db world3 Tjobs)) as [i|];
    intros Hs Hj; [|discriminate Hj]. destruct (Hs i eq_refl) as (j & H1 & H2 & H3 & H4).
  exists j, i. exact (conj H1 (conj H2 (conj H3 (conj H4 (input_clear_ok i Hj))))).
Qed.
Lemma conclusion_fits : conclusion_ok (AS_Conclusion (RR_Assessment submitted)).
Proof.
  unfold conclusion_ok, refs_ok. cbn. split_and!; try done; try (apply clear_text; vm_compute; reflexivity);
    try (intros x Hx; by apply elem_of_nil in Hx).
  intros x ->%list_elem_of_singleton. split; [by apply clear_text|done].
Qed.
End AttemptFacts.

(** The conversations of an agent are requests of the system.  Whatever an
    agent's claim or refresh does over its several transactions, with other
    replicas at work between them and whatever fails, it takes the database
    through a sequence of requests: every invariant of the system holds at each
    point of them. *)
Theorem conversations_are_requests `{Env} `{AEAD} f token s others guidance sc profiles ticks id attempt checks :
  Steps (rtc step) others -> (forall g p, guidance = Some g -> Steps (rtc step) (g p sc)) ->
  Steps (rtc step) (ClaimAgent guidance validated (collector f token) others s sc profiles) /\
  Steps (rtc step) (RefreshAgent validated (collector f token) others ticks s sc id attempt checks).
Proof. intros Ho Hg. split; [apply ClaimAgent_steps|apply RefreshAgent_steps]; try exact _; try done; try (intros q _; apply requests_step).
  intros g p E _. by apply Hg.
Qed.

#[local] Existing Instance Demo.env.
#[local] Existing Instance Toy.cipher.

Lemma conversations_are_requests_witness : rtc step (db Attempt.world2) (db Attempt.world3).
Proof.
  assert (Hg : forall g p, Attempt.guidance = Some g -> Steps (rtc step) (g p Attempt.sc)).
  { intros g p [= <-]. req (RRetrieve Attempt.backend p Attempt.sc). }
  exact (AttemptFacts.run_steps Attempt.claim Attempt.world2 (proj1 (conversations_are_requests Demo.svc Attempt.token
    Attempt.service Attempt.nobody Attempt.guidance Attempt.sc ["profile"] 0 "" "" [] (steps_ret _ _) Hg))).
Defined.
