(* ===== verification/OrchestratorSteps.v ===== *)
(** * Every HTTP request is a sequence of requests of the system

    Handler by handler: what a handler does to the database is nothing, or the
    requests and transactions of [System]; hence so is all of [ServeHTTP]. *)

From stdpp Require Import relations.
From S2P Require Import Prelude.
From S2P Require Import Json.
From S2P Require Import GoTime.
From S2P Require Import Decode.
From S2P Require Import Identity.
From S2P Require Import Authorization.
From S2P Require Import Incident.
From S2P Require Import Db.
From S2P Require Import Sql.
From S2P Require Import Url.
From S2P Require Import Http.
From S2P Require Import Messaging.
From S2P Require Import Storage.
From S2P Require Import Records.
From S2P Require Import Queues.
From S2P Require Import Privacy.
From S2P Require Import Fleet.
From S2P Require Import Recovery.
From S2P Require Import Governance.
From S2P Require Import Investigation.
From S2P Require Import Knowledge.
From S2P Require Import Snapshot.
From S2P Require Import Report.
From S2P Require Import Rounds.
From S2P Require Import Diagnosis.
From S2P Require Import Execution.
From S2P Require Import ExecutionSafety.
From S2P Require Import Executor.
From S2P Require Import AgentApi.
From S2P Require Import Falco.
From S2P Require Import Quality.
From S2P Require Import Bodies.
From S2P Require Import Orchestrator.
From S2P Require Import System.
From S2P Require Import DiagnosisSteps.

Import Messaging Bodies Orchestrator.

(** ** Control flow *)
Section Flow.
Context `{Env} (R : DB -> DB -> Prop) `{!Reflexive R, !Transitive R}.

Lemma steps_respond {A} fail status (show : A -> option json) m : Steps R m -> Steps R (respond fail status show m).
Proof.
  intros Hm w x w'. unfold respond. destruct (m w) as [[a|e] w1] eqn:E; intros [= <- <-]; exact (Hm _ _ _ E).
Qed.
(** A computation whose result or error decides how to go on. *)
Lemma steps_cases {A B} (m : M A) (g : res A -> M B) :
  Steps R m -> (forall x, Steps R (g x)) -> Steps R (fun w => let '(x, w1) := m w in g x w1).
Proof.
  intros Hm Hg w x w'. destruct (m w) as [y w1] eqn:Em. intros Hx.
  etrans; [exact (Hm _ _ _ Em)|exact (Hg _ _ _ _ Hx)].
Qed.
End Flow.


(** ** Transactions composed in handlers *)
Create HintDb composed.
Section Composed.
Context `{Env}.

Lemma co_ret t {A} (a : A) : composed t (ret a).
Proof. apply co_read, steps_ret. exact _. Qed.
Lemma co_throw t {A} e : composed t (@throw A e).
Proof. apply co_read, steps_throw. exact _. Qed.
Lemma co_PutRecoveryAssessment t a : composed t (PutRecoveryAssessment t a).
Proof. exact (co_op t (TPutRecoveryAssessment a)). Qed.
Lemma co_UpdateIncident t id v state : composed t (UpdateIncident t id v state).
Proof. exact (co_op t (TUpdateIncident id v state)). Qed.
Lemma co_CreateIncident t i : composed t (CreateIncident t i).
Proof. exact (co_op t (TCreateIncident i)). Qed.
Lemma co_PutItem t i : composed t (PutItem t i).
Proof. exact (co_op t (TPutItem i)). Qed.
Lemma co_PutHealthSample t s : composed t (PutHealthSample t s).
Proof. exact (co_op t (TPutHealthSample s)). Qed.
Lemma co_PutCoverage t a c at_ : composed t (PutCoverage t a c at_).
Proof. exact (co_op t (TPutCoverage a c at_)). Qed.
Lemma co_Fulfill t a h at_ : composed t (FulfillCollectionChecks t a h at_).
Proof. exact (co_op t (TFulfillCollectionChecks a h at_)). Qed.
Lemma co_EnqueueOnce t key kind payload : composed t (EnqueueOnce t key kind payload).
Proof. exact (co_part t _ _ (TEnqueueOnce key kind payload) eq_refl). Qed.
Lemma co_Enqueue t key kind payload : composed t (Enqueue t key kind payload).
Proof. exact (co_op t (TEnqueueOnce key kind payload)). Qed.
Lemma co_for_each t {A} (f : A -> M unit) l : (forall a, composed t (f a)) -> composed t (for_each f l).
Proof.
  intros Hf. induction l as [|a l IH]; cbn [for_each]; [apply co_ret|].
  apply co_bind; [apply Hf|]. intros _. exact IH.
Qed.
End Composed.

Ltac comp_one :=
  lazymatch goal with
  | |- composed _ (bind _ _) => apply co_bind; [|intros ?]
  | |- composed _ (catch _ _) => apply co_catch; [solve [auto with pure nocore | steps]|intros ?]
  | |- composed _ (for_each _ _) => apply co_for_each; intros ?
  | |- composed _ (if ?b then _ else _) => destruct b
  | |- composed _ (match ?x with _ => _ end) => destruct x
  | |- composed _ (let x := _ in _) => cbv zeta
  | |- _ => solve [auto with composed nocore | apply co_read; solve [auto with pure nocore | steps]]
  end.
Ltac comp := repeat comp_one.
#[local] Hint Resolve co_PutRecoveryAssessment co_UpdateIncident co_CreateIncident co_PutItem co_PutHealthSample
  co_PutCoverage co_Fulfill co_EnqueueOnce co_Enqueue : composed.

Section Parts.
Context `{Env}.

Lemma co_AssessTx t sc incident profile at_ : composed t (Recovery.AssessTx t sc incident profile at_).
Proof. unfold Recovery.AssessTx, GetRecoveryProfile. comp. Qed.
#[local] Hint Resolve co_AssessTx : composed.
Lemma co_closeTx t sc id : composed t (closeTx sc id t).
Proof. unfold closeTx, Incident_. comp. Qed.
Lemma co_open_incident sc incident at_ t : composed t (Collection.open_incident sc incident at_ t).
Proof. unfold Collection.open_incident, Incident_. comp. Qed.
#[local] Hint Resolve co_open_incident : composed.
Lemma co_store_observation sc incident a r o t : composed t (Collection.store_observation sc incident a r o t).
Proof. unfold Collection.store_observation, CurrentItem, check_item_scope. comp. Qed.
#[local] Hint Resolve co_store_observation : composed.
Lemma co_follow_recovery sc incident t : composed t (Collection.follow_recovery sc incident t).
Proof.
  unfold Collection.follow_recovery, Collection.recovery_changed, GetRecoveryProfile, Incident_.
  comp.
Qed.
#[local] Hint Resolve co_follow_recovery : composed.
Lemma co_ingestTx f sc token r t : composed t (Collection.ingestTx f sc token r t).
Proof.
  unfold Collection.ingestTx, ActiveIncident.
  comp.
Qed.
Lemma co_recordTx sc at_ body t : composed t (recordTx sc at_ body t).
Proof. unfold recordTx, receiving_incident, ActiveIncident. comp. Qed.
End Parts.

(** ** What a caller can bring about *)

(** The orchestrator's policy lets [p] do it in the scope. *)
Definition permitted (s : Server) (p : Principal) (sc : Scope) (permission : Permission) : Prop :=
  exists now, Authorize (Some (SV_Policy s)) now p sc permission = true.

(** The transactions that handlers run for a person, and with what permission. *)
Definition transacts (s : Server) (p : Principal) (sc : Scope) (epoch : string) (fn : forall E : Env, Tx -> M unit) : Prop :=
  (epoch = SV_Epoch s /\
   ((permitted s p sc Authorization.Approve /\ exists id, fn = (fun E => @closeTx E sc id)) \/
    (permitted s p sc Authorization.Investigate /\ exists q, Q_Scope q = sc /\
       fn = (fun E tx => @CreateInteraction E tx q (P_ID p))) \/
    (permitted s p sc Authorization.Investigate /\ exists id v answer,
       fn = (fun E tx => @AnswerInteraction E tx id v answer (P_ID p))))) \/
  (permitted s p sc Authorization.Approve /\ exists b id, (b = backend s \/ SV_Notifications s = Some b) /\
     epoch = BE_Epoch b /\ fn = (fun E tx => @AcknowledgeNotification E tx id (P_ID p))).

(** The requests that the person [p] may lead to in [sc]: in the name of [p], with
    the orchestrator's services, and with the permission that each takes; an
    approval only as [p] [asks] for one. *)
Definition performs `{AEAD} (s : Server) (p : Principal) (sc : Scope) (asks : string -> string -> Prop) (q : request) : Prop :=
  match q with
  | RExec x sc' (OpApprove p' id hash) =>
      (x, sc', p') = (SV_Execution s, sc, p) /\ permitted s p sc Authorization.Approve /\ asks id hash
  | RExec x sc' (OpPropose p' _) => (x, sc', p') = (SV_Execution s, sc, p) /\ permitted s p sc Authorization.Investigate
  | RExec x sc' (OpCancel p' _) | RExec x sc' (OpReconcile p' _ _) =>
      (x, sc', p') = (SV_Execution s, sc, p) /\ permitted s p sc Authorization.Approve
  | RBootstrap f p' sc' _ _ _ | RRevoke f p' sc' _ =>
      (Some f, p', sc') = (SV_Fleet s, p, sc) /\ permitted s p sc Authorization.Setup
  | RSetProfile v p' profile =>
      (v, p', RP_Scope profile) = (Recovery.mkService (SV_Epoch s) (SV_Policy s), p, sc) /\ permitted s p sc Authorization.Setup
  | RAssess v p' sc' _ _ =>
      (v, p', sc') = (Recovery.mkService (SV_Epoch s) (SV_Policy s), p, sc) /\ permitted s p sc Authorization.Read
  | RSetEnvironment v p' c => (v, p', EC_Scope c) = (backend s, p, sc) /\ permitted s p sc Authorization.Setup
  | RFeedback v p' sc' _ => (v, p', sc') = (backend s, p, sc) /\ permitted s p sc Authorization.Feedback
  | RAdjudicate v p' sc' _ _ | RCorroborate v p' sc' _ =>
      (v, p', sc') = (backend s, p, sc) /\ permitted s p sc Authorization.Adjudicate
  | RCandidate v p' sc' _ | RPublish v p' sc' _ _ | RRetire v p' sc' _ _ =>
      (v, p', sc') = (backend s, p, sc) /\ permitted s p sc Authorization.ReviewKnowledge
  | REnqueueJob A v p' sc' _ _ =>
      (A, Some v, p', sc') = (_, SV_Queue s, p, sc) /\ permitted s p sc Authorization.Investigate
  | RCancelJob v p' sc' _ => (Some v, p', sc') = (SV_Queue s, p, sc) /\ permitted s p sc Authorization.Investigate
  | RHandler epoch sc' fn _ => sc' = sc /\ transacts s p sc epoch fn
  | _ => False
  end.

(** The requests of an agent that presents [token] in [sc]: each checks the token,
    or spends a bootstrap; guidance is looked up for the person of the leased job. *)
Definition reports `{Env} `{AEAD} (s : Server) (token : string) (sc : Scope) (q : request) : Prop :=
  match q with
  | RExec x sc' (OpClaim t _) | RExec x sc' (OpReceipt t _ _ _) => (x, sc', t) = (SV_Execution s, sc, token)
  | REnroll f sc' _ _ _ => (Some f, sc') = (SV_Fleet s, sc)
  | RRenew f sc' t _ => (Some f, sc', t) = (SV_Fleet s, sc, token)
  | RHandler epoch sc' fn _ => sc' = sc /\ exists f report,
      SV_Fleet s = Some f /\ epoch = StoreEpoch f /\ fn = (fun E => @Collection.ingestTx E f sc token report)
  | RRetrieve v p sc' => (v, sc') = (backend s, sc) /\ exists x, SV_Queue s = Some x /\ sealed_for x sc p
  | q => exists f v, SV_Fleet s = Some f /\ SV_Queue s = Some v /\ agent_job f token v sc q
  end.

(** What signing in and out writes: a session only for a verified identity. *)
Definition browses `{Provider} (s : Server) (r : HttpRequest) (q : request) : Prop :=
  match q with
  | RLogin _ _ => SV_OAuth s = true
  | RConsumeLogin key => Query r "state" = key /\ Cookie r "__Secure-sre-login" = Some key
  | RSession _ b => exists now raw nonce, VerifyNonce idp_check (SV_Verifier s) now raw nonce = Ok (S_Principal b)
  | RLogout key => Cookie r "__Host-sre-session" = Some key
  | _ => False
  end.

(** What the webhook of Falco records: one of the events of a body that comes with
    the webhook's secret, in the scope of the event. *)
Definition webhooks (s : Server) (r : HttpRequest) (q : request) : Prop :=
  match q with
  | RHandler epoch sc fn _ => exists order events e at_ body,
      Falco.ParseWebhookPayload order r (SV_Falco s) = inr events /\ e ∈ events /\ sc = falco_scope r e /\
      event_body e = Ok body /\ epoch = SV_Epoch s /\ fn = (fun E => @recordTx E sc at_ body)
  | _ => False
  end.

Section Services.
Context `{Env} `{AEAD} (R : DB -> DB -> Prop) `{!Reflexive R, !Transitive R} (s : Server) (p : Principal) (sc : Scope)
  (asks : string -> string -> Prop) (HR : forall q, performs s p sc asks q -> Steps R (run_request q)).

Lemma request_keeps q {A} (m : M A) : performs s p sc asks q -> run_request q = (m ;; ret tt) -> Steps R m.
Proof. intros Hq. by apply part_keeps, HR. Qed.
Lemma transaction_keeps epoch (fn : forall E : Env, Tx -> M unit) :
  (forall E t, scope t = sc -> composed t (fn E t)) -> transacts s p sc epoch fn -> Steps R (Transact epoch sc (fn _)).
Proof. intros Hfn Ht. exact (HR (RHandler epoch sc fn Hfn) (conj eq_refl Ht)). Qed.
Ltac performed q := apply (request_keeps q); [cbn; by auto with congruence|reflexivity].

Lemma Approve_keeps id hash : permitted s p sc Authorization.Approve -> asks id hash ->
  Steps R (Execution.Approve (SV_Execution s) p sc id hash).
Proof. intros Hp Ha. performed (RExec (SV_Execution s) sc (OpApprove p id hash)). Qed.
Lemma Propose_keeps b : permitted s p sc Authorization.Investigate -> Steps R (Propose (SV_Execution s) p sc b).
Proof. intros Hp. performed (RExec (SV_Execution s) sc (OpPropose p b)). Qed.
Lemma Cancel_keeps id : permitted s p sc Authorization.Approve -> Steps R (Cancel (SV_Execution s) p sc id).
Proof. intros Hp. performed (RExec (SV_Execution s) sc (OpCancel p id)). Qed.
Lemma Reconcile_keeps id hash : permitted s p sc Authorization.Approve -> Steps R (Reconcile (SV_Execution s) p sc id hash).
Proof. intros Hp. performed (RExec (SV_Execution s) sc (OpReconcile p id hash)). Qed.
Lemma Bootstrap_keeps f id uid role : SV_Fleet s = Some f -> permitted s p sc Authorization.Setup ->
  Steps R (Bootstrap f p sc id uid role).
Proof. intros Hf Hp. performed (RBootstrap f p sc id uid role). Qed.
Lemma Revoke_keeps f id : SV_Fleet s = Some f -> permitted s p sc Authorization.Setup -> Steps R (Revoke f p sc id).
Proof. intros Hf Hp. apply (HR (RRevoke f p sc id)). cbn. rewrite Hf. auto. Qed.
Lemma SetProfile_keeps profile : scope_eqb (RP_Scope profile) sc = true -> permitted s p sc Authorization.Setup ->
  Steps R (Recovery.SetProfile (Recovery.mkService (SV_Epoch s) (SV_Policy s)) p profile).
Proof. intros Hs%scope_eqb_eq Hp. performed (RSetProfile (Recovery.mkService (SV_Epoch s) (SV_Policy s)) p profile). Qed.
Lemma Assess_keeps incident profile : permitted s p sc Authorization.Read ->
  Steps R (Recovery.Assess (Recovery.mkService (SV_Epoch s) (SV_Policy s)) p sc incident profile).
Proof. intros Hp. performed (RAssess (Recovery.mkService (SV_Epoch s) (SV_Policy s)) p sc incident profile). Qed.
Lemma SetEnvironment_keeps c : scope_eqb (EC_Scope c) sc = true -> permitted s p sc Authorization.Setup ->
  Steps R (Environment.Set_ (backend s) p c).
Proof. intros Hs%scope_eqb_eq Hp. apply (HR (RSetEnvironment (backend s) p c)). cbn. rewrite Hs. auto. Qed.
Lemma Submit_keeps b : permitted s p sc Authorization.Feedback -> Steps R (Feedback.Submit (backend s) p sc b).
Proof. intros Hp. performed (RFeedback (backend s) p sc b). Qed.
Lemma Adjudicate_keeps b is_nil : permitted s p sc Authorization.Adjudicate ->
  Steps R (Stewardship.Adjudicate (backend s) p sc b is_nil).
Proof. intros Hp. performed (RAdjudicate (backend s) p sc b is_nil). Qed.
Lemma Corroborate_keeps b : permitted s p sc Authorization.Adjudicate -> Steps R (Corroboration.Corroborate (backend s) p sc b).
Proof. intros Hp. performed (RCorroborate (backend s) p sc b). Qed.
Lemma Candidate_keeps b : permitted s p sc Authorization.ReviewKnowledge -> Steps R (Knowledge.Candidate (backend s) p sc b).
Proof. intros Hp. performed (RCandidate (backend s) p sc b). Qed.
Lemma Publish_keeps id n : permitted s p sc Authorization.ReviewKnowledge -> Steps R (Knowledge.Publish (backend s) p sc id n).
Proof. intros Hp. performed (RPublish (backend s) p sc id n). Qed.
Lemma Retire_keeps id n : permitted s p sc Authorization.ReviewKnowledge -> Steps R (Knowledge.Retire (backend s) p sc id n).
Proof. intros Hp. performed (RRetire (backend s) p sc id n). Qed.
Lemma Enqueue_keeps v incident profile : SV_Queue s = Some v -> permitted s p sc Authorization.Investigate ->
  Steps R (Queue.Enqueue v p sc incident profile).
Proof. intros Hv Hp. performed (REnqueueJob _ v p sc incident profile). Qed.
Lemma CancelJob_keeps v id : SV_Queue s = Some v -> permitted s p sc Authorization.Investigate ->
  Steps R (Queue.Cancel v p sc id).
Proof. intros Hv Hp. apply (HR (RCancelJob v p sc id)). cbn. rewrite Hv. auto. Qed.

Lemma close_keeps id : permitted s p sc Authorization.Approve -> Steps R (Transact (SV_Epoch s) sc (closeTx sc id)).
Proof.
  intros Hp. apply (transaction_keeps _ (fun E => @closeTx E sc id)); [intros E t _; apply co_closeTx|].
  left. split; [done|]. left. split; [done|]. by exists id.
Qed.
Lemma interaction_keeps q : scope_eqb (Q_Scope q) sc = true -> permitted s p sc Authorization.Investigate ->
  Steps R (Transact (SV_Epoch s) sc (fun tx => CreateInteraction tx q (P_ID p))).
Proof.
  intros Hs%scope_eqb_eq Hp. apply (transaction_keeps _ (fun E tx => @CreateInteraction E tx q (P_ID p))).
  - intros E t _. exact (co_op t (TCreateInteraction q (P_ID p))).
  - left. split; [done|]. right. left. split; [done|]. by exists q.
Qed.
Lemma answer_keeps id v a : permitted s p sc Authorization.Investigate ->
  Steps R (Transact (SV_Epoch s) sc (fun tx => AnswerInteraction tx id v a (P_ID p))).
Proof.
  intros Hp. apply (transaction_keeps _ (fun E tx => @AnswerInteraction E tx id v a (P_ID p))).
  - intros E t _. exact (co_op t (TAnswerInteraction id v a (P_ID p))).
  - left. split; [done|]. right. right. split; [done|]. by exists id, v, a.
Qed.
Lemma acknowledge_keeps n id : (n = Some (backend s) \/ n = SV_Notifications s) -> permitted s p sc Authorization.Approve ->
  Steps R (acknowledge n p sc id).
Proof.
  intros Hn Hp. unfold acknowledge. destruct n as [b|]; [|steps]. apply steps_bind; [exact _|unfold authorize; steps|]. intros _.
  apply (transaction_keeps _ (fun E tx => @AcknowledgeNotification E tx id (P_ID p))).
  - intros E t _. exact (co_op t (TAcknowledgeNotification id (P_ID p))).
  - right. split; [done|]. exists b, id. split; [|done]. destruct Hn as [[= ->]|Hn]; auto.
Qed.
End Services.

(** The lemma for the service that a handler calls. *)
Ltac service HR :=
  lazymatch goal with
  | |- Steps _ (Propose _ _ _ _) => apply (Propose_keeps _ _ _ _ _ HR)
  | |- Steps _ (Cancel _ _ _ _) => apply (Cancel_keeps _ _ _ _ _ HR)
  | |- Steps _ (Reconcile _ _ _ _ _) => apply (Reconcile_keeps _ _ _ _ _ HR)
  | |- Steps _ (Bootstrap _ _ _ _ _ _) => apply (Bootstrap_keeps _ _ _ _ _ HR)
  | |- Steps _ (Revoke _ _ _ _) => apply (Revoke_keeps _ _ _ _ _ HR)
  | |- Steps _ (Recovery.SetProfile _ _ _) => apply (SetProfile_keeps _ _ _ _ _ HR)
  | |- Steps _ (Recovery.Assess _ _ _ _ _) => apply (Assess_keeps _ _ _ _ _ HR)
  | |- Steps _ (Environment.Set_ _ _ _) => apply (SetEnvironment_keeps _ _ _ _ _ HR)
  | |- Steps _ (Feedback.Submit _ _ _ _) => apply (Submit_keeps _ _ _ _ _ HR)
  | |- Steps _ (Stewardship.Adjudicate _ _ _ _ _) => apply (Adjudicate_keeps _ _ _ _ _ HR)
  | |- Steps _ (Corroboration.Corroborate _ _ _ _) => apply (Corroborate_keeps _ _ _ _ _ HR)
  | |- Steps _ (Knowledge.Candidate _ _ _ _) => apply (Candidate_keeps _ _ _ _ _ HR)
  | |- Steps _ (Knowledge.Publish _ _ _ _ _) => apply (Publish_keeps _ _ _ _ _ HR)
  | |- Steps _ (Knowledge.Retire _ _ _ _ _) => apply (Retire_keeps _ _ _ _ _ HR)
  | |- Steps _ (Queue.Enqueue _ _ _ _ _) => apply (Enqueue_keeps _ _ _ _ _ HR)
  | |- Steps _ (Queue.Cancel _ _ _ _) => apply (CancelJob_keeps _ _ _ _ _ HR)
  | |- Steps _ (acknowledge _ _ _ _) => apply (acknowledge_keeps _ _ _ _ _ HR)
  | |- Steps _ (Transact _ _ (closeTx _ _)) => apply (close_keeps _ _ _ _ _ HR)
  | |- Steps _ (Transact _ _ (fun tx => CreateInteraction tx _ _)) => apply (interaction_keeps _ _ _ _ _ HR)
  | |- Steps _ (Transact _ _ (fun tx => AnswerInteraction tx _ _ _ _)) => apply (answer_keeps _ _ _ _ _ HR)
  end.

Lemma ingest_steps `{Env} R `{!Reflexive R, !Transitive R} f sc token r :
  (forall Hc, Steps R (run_request (RHandler (StoreEpoch f) sc (fun E => @Collection.ingestTx E f sc token r) Hc))) ->
  Steps R (Collection.Ingest f sc token r).
Proof.
  intros Hs. unfold Collection.Ingest, tx_of.
  apply steps_bind; [exact _|apply steps_pure; [exact _|]; repeat first [apply Collection.pure_validate_report | steps_one]|]. intros _.
  assert (Hc : forall E t, scope t = sc -> composed t (@Collection.ingestTx E f sc token r t)) by (intros E t _; apply co_ingestTx).
  exact (Hs Hc).
Qed.

Section AgentServices.
Context `{Env} `{AEAD} (R : DB -> DB -> Prop) `{!Reflexive R, !Transitive R} (s : Server) (token : string) (sc : Scope)
  (HR : forall q, reports s token sc q -> Steps R (run_request q)).

Lemma report_keeps q {A} (m : M A) : reports s token sc q -> run_request q = (m ;; ret tt) -> Steps R m.
Proof. intros Hq. by apply part_keeps, HR. Qed.
Ltac reported q := apply (report_keeps q); [cbn; by auto with congruence|reflexivity].

Lemma Claim_keeps id : Steps R (Claim (SV_Execution s) sc token id).
Proof. reported (RExec (SV_Execution s) sc (OpClaim token id)). Qed.
Lemma Receipt_keeps id receipt outcome : Steps R (Receipt (SV_Execution s) sc token id receipt outcome).
Proof. reported (RExec (SV_Execution s) sc (OpReceipt token id receipt outcome)). Qed.
Lemma Enroll_keeps f t uid role : SV_Fleet s = Some f -> Steps R (Enroll f sc t uid role).
Proof. intros Hf. reported (REnroll f sc t uid role). Qed.
Lemma Renew_keeps f role : SV_Fleet s = Some f -> Steps R (Renew f sc token role).
Proof. intros Hf. reported (RRenew f sc token role). Qed.
Lemma Retrieve_keeps x p : SV_Queue s = Some x -> sealed_for x sc p -> Steps R (Knowledge.Retrieve (backend s) p sc).
Proof. intros Hx Hp. apply (report_keeps (RRetrieve (backend s) p sc)); [|reflexivity]. cbn. eauto. Qed.
Lemma ingest_keeps f r : SV_Fleet s = Some f -> Steps R (Collection.Ingest f sc token r).
Proof. intros Hf. apply ingest_steps; [exact _..|]. intros Hc. apply HR. split; [done|]. by exists f, r. Qed.
Lemma agent_jobs f v q : SV_Fleet s = Some f -> SV_Queue s = Some v -> agent_job f token v sc q -> Steps R (run_request q).
Proof. intros Hf Hv Hq. apply HR. destruct q; try done; by exists f, v. Qed.
End AgentServices.
Ltac agent_service HR :=
  lazymatch goal with
  | |- Steps _ (Claim _ _ _ _) => apply (Claim_keeps _ _ _ _ HR)
  | |- Steps _ (Receipt _ _ _ _ _ _) => apply (Receipt_keeps _ _ _ _ HR)
  | |- Steps _ (Enroll _ _ _ _ _) => apply (Enroll_keeps _ _ _ _ HR)
  | |- Steps _ (Renew _ _ _ _) => apply (Renew_keeps _ _ _ _ HR)
  | |- Steps _ (Collection.Ingest _ _ _ _) => apply (ingest_keeps _ _ _ _ HR)
  end.

Ltac read_one :=
  first
  [ lazymatch goal with
    | |- Steps _ (fun w => let '(x, w') := _ in _) => apply steps_cases; [exact _| |intros ?]
    | |- Steps _ (fun w => match ?x with _ => _ end) => destruct x
    | |- Steps _ (respond _ _ _ _) => apply steps_respond
    | |- Steps _ (reading _ _ _ _) => unfold reading
    end
  | apply steps_pure; [exact _|]; solve [auto with pure nocore]
  | steps_one
  | solve [apply steps_pure; [exact _|]; intros w x w' [= <- <-]; reflexivity] ].
Ltac read_flow := repeat read_one.

Section Reads.
Context `{Env} `{Ed25519}.
Lemma pure_view_item t i : Steps eq (view_item t i).
Proof. unfold view_item, FeedbackHistory. repeat first [apply pure_Eligible | steps_one]. Qed.
Lemma pure_cases_tx after t : Steps eq (cases_tx after t).
Proof. unfold cases_tx, GoldenCases. repeat first [apply pure_EligibleTx | steps_one]. Qed.
Lemma pure_items_tx incident after t : Steps eq (items_tx incident after t).
Proof. unfold items_tx, Incident_, Items. repeat first [apply pure_view_item | steps_one]. Qed.
Lemma pure_feedback_tx incident ref t : Steps eq (feedback_tx incident ref t).
Proof. unfold feedback_tx, FeedbackHistory. repeat first [apply pure_GetItem | steps_one]. Qed.
Lemma pure_decode_update e r body : Steps eq (decode_update e r body).
Proof.
  unfold decode_update, decode_slack, decode_discord, decode_telegram, fresh.
  repeat first [steps_one | progress cbv zeta].
Qed.
Lemma pure_authenticator f r tx : Steps eq (authenticator f r tx).
Proof. apply pure_AuthenticateTx. Qed.
Lemma pure_executorActions e sc token after : Steps eq (Api.executorActions e sc token after).
Proof. unfold Api.executorActions, ExecutorActions, tx_of. repeat first [apply pure_AuthenticateTx | steps_one]. Qed.
Lemma pure_report b p sc days : Steps eq (Quality.report b p sc days).
Proof. unfold Quality.report, Quality.reportTx, Quality.QualityRuns, Quality.RecoveryCounts, authorize. steps. Qed.
Lemma pure_scope_of s p r permission : Steps eq (scope_of s p r permission).
Proof. unfold scope_of, authorize. steps. Qed.
Lemma pure_authenticate `{Provider} s r : Steps eq (authenticate s r).
Proof.
  unfold authenticate, GetBrowserSession. read_flow.
Qed.
End Reads.
#[export] Hint Resolve pure_items_tx pure_feedback_tx pure_cases_tx pure_decode_update pure_authenticator pure_executorActions
  Collection.pure_DecodeReport pure_scope_of pure_authenticate pure_report : pure.

(** ** Handlers *)

(** What an authentic chat message of a configured user asks for. *)
Definition sent `{Env} `{Ed25519} (h : handler) (r : HttpRequest) (p : Principal) (sc : Scope) (c : Command) : Prop :=
  exists first id e body user text u now w w',
    split slash (URLPath r) = [first; "channels"; id; "events"] /\ assoc id h = Some e /\ Body r = Some body /\
    decode_update e r body w = (Ok (Message user text false), w') /\ assoc user (E_users e) = Some u /\
    parseCommand text = Some c /\ p = principal_of e u now /\ sc = MC_Scope (E_config e).
(** What a request to the approval route asks for. *)
Definition posted (r : HttpRequest) (id hash : string) : Prop :=
  exists values, target_of r = Handler ApproveAction values /\ id = nth 0 values "" /\
    Http.decode (one "hash") "" r = Ok hash.
(** What a chat command asks for. *)
Definition commanded (c : Command) (id hash : string) : Prop :=
  CM_Verb c = "approve" /\ CM_ID c = id /\ CM_Value c = hash.

Section Parts2.
Context `{Env} (R : DB -> DB -> Prop) `{!Reflexive R, !Transitive R}.

(** What follows a check of the policy runs with the permission. *)
Lemma authorized_keeps {A} s p sc permission (m : M A) :
  (permitted s p sc permission -> Steps R m) -> Steps R (authorize (SV_Policy s) p sc permission ;; m).
Proof.
  intros Hm. apply steps_bind_ok; [exact _..|unfold authorize; steps|]. intros w u w' [Ha _]%authorize_ok. apply Hm. by eexists.
Qed.
Lemma scoped_keeps {A} s p r permission (k : Scope -> M A) :
  (permitted s p (query_scope r) permission -> Steps R (k (query_scope r))) -> Steps R (scoped s p r permission k).
Proof.
  intros Hk. unfold scoped. apply steps_bind_ok; [exact _..|apply steps_pure, pure_scope_of; exact _|]. intros w sc w' Hsc.
  unfold scope_of in Hsc. run. apply authorize_ok in Hm as [Ha _]. apply Hk. by eexists.
Qed.
Lemma needs_keeps {S A} (o : option S) (k : S -> M A) : (forall x, o = Some x -> Steps R (k x)) -> Steps R (needs o k).
Proof. intros Hk. destruct o as [x|]; [by apply Hk|apply steps_throw; exact _]. Qed.
End Parts2.

Ltac flow_one :=
  first
  [ lazymatch goal with
    | |- Steps _ (fun w => let '(x, w') := _ in _) => apply steps_cases; [exact _| |intros ?]
    | |- Steps _ (fun w => match ?x with _ => _ end) => destruct x
    | |- Steps _ (respond _ _ _ _) => apply steps_respond
    | |- Steps _ (reading _ _ _ _) => unfold reading
    | |- Steps _ (scoped _ _ _ _ _) => apply scoped_keeps; [exact _..|intros ?]
    | |- Steps _ (needs _ _) => apply needs_keeps; [exact _|intros ? ?]
    | |- Steps _ (bind (guard _ _) _) =>
        apply steps_guarded; [exact _..|]; let Hg := fresh "Hg" in intros Hg; try (apply andb_true_iff in Hg as [? ?])
    | |- Steps _ (match SV_Fleet ?s with _ => _ end) => destruct (SV_Fleet s) eqn:?
    end
  | apply steps_pure; [exact _|]; solve [auto with pure nocore]
  | steps_one
  | solve [apply steps_pure; [exact _|]; intros w x w' [= <- <-]; reflexivity] ].
Ltac flow := repeat flow_one.

Section Commands.
Context `{Env} `{AEAD} `{Ed25519} (R : DB -> DB -> Prop) `{!Reflexive R, !Transitive R} (s : Server).

Lemma command_keeps p sc c :
  (forall q, performs s p sc (commanded c) q -> Steps R (run_request q)) -> Steps R (execute s p sc c).
Proof.
  intros HR. unfold execute. apply steps_cases; [exact _| |intros x; flow].
  unfold messagingCommand. flow_one. rename Hg into Hverb. apply authorized_keeps; [exact _..|]. intros Hp.
  destruct (str_eqb (CM_Verb c) "approve") eqn:Ev; breflect; cbn [orb].
  - rewrite Ev in Hp. cbn in Hp. destruct (SV_Execution s ≫= X_Fleet); [|steps]. apply steps_bind; [exact _| |intros ?; steps].
    by apply (Approve_keeps _ _ _ _ _ HR).
  - destruct (str_eqb (CM_Verb c) "reject") eqn:Ej; breflect; cbn [orb].
    + rewrite Ej in Hp. cbn in Hp. destruct (SV_Execution s ≫= X_Fleet); [|steps].
      apply steps_bind; [exact _| |intros ?; steps]. by service HR.
    + destruct (str_eqb (CM_Verb c) "answer"); service HR; auto.
Qed.

Lemma channels_keeps h r :
  (forall p sc c, sent h r p sc c -> Steps R (execute s p sc c)) -> Steps R (Messaging.ServeHTTP (execute s) h r).
Proof.
  intros Hs. unfold Messaging.ServeHTTP. case_if as Em; [flow|].
  destruct (split slash (URLPath r)) as [|first [|channels [|id [|events [|]]]]] eqn:Ep; [flow..| |flow].
  case_if as E1; [flow|]. destruct (assoc id h) as [e|] eqn:Ee; [|flow]. destruct (Body r) as [body|] eqn:Eb; [|flow].
  apply negb_false_iff, andb_true_iff in E1 as [Ec Ev]. breflect. subst channels events.
  intros w x w' Hw. destruct (decode_update e r body w) as [d w1] eqn:Ed.
  etrans; [apply (steps_pure R _ (pure_decode_update e r body) _ _ _ Ed)|]. revert x w' Hw.
  destruct d as [[|user text [|]]|err]; [by intros x w' [= <- <-]..| |by intros x w' [= <- <-]].
  destruct (assoc user (E_users e)) as [u|] eqn:Eu; [|by intros x w' [= <- <-]].
  destruct (parseCommand text) as [c|] eqn:Et; [|by intros x w' [= <- <-]].
  intros x w' Hw. assert (Hx : forall now, Steps R (execute s (principal_of e u now) (MC_Scope (E_config e)) c)).
  { intros now. apply Hs. exists first, id, e, body, user, text, u, now, w, w1. done. }
  match type of Hw with ?m _ = _ => assert (Steps R m) as Hm by flow; exact (Hm _ _ _ Hw) end.
Qed.
End Commands.

(** Only an agent's claim and refresh wait for other replicas. *)
Definition waits (r : HttpRequest) : Prop :=
  exists route values, target_of r = Handler route values /\ (route = DiagnosticClaim \/ route = DiagnosticRefresh).

Ltac people_handlers := unfold
  Orchestrator.interactions, Orchestrator.createInteraction, Orchestrator.answerInteraction,
  Orchestrator.diagnosticJobs, Orchestrator.cancelDiagnosticJob, Orchestrator.notifications,
  Orchestrator.acknowledgeNotification, Orchestrator.adjudicate, Orchestrator.adjudications,
  Orchestrator.corroborate, Orchestrator.goldenCases, Orchestrator.candidate, Orchestrator.reviewGolden,
  Orchestrator.operations, Orchestrator.getEnvironment, Orchestrator.setEnvironment,
  Orchestrator.setRecoveryProfile, Orchestrator.getRecoveryProfile, Orchestrator.assessRecovery,
  Orchestrator.closeIncident, Orchestrator.listActions, Orchestrator.proposeAction,
  Orchestrator.cancelAction, Orchestrator.reconcileAction,
  Orchestrator.capabilities, Orchestrator.setupScopes, Orchestrator.scopes, Orchestrator.session,
  Orchestrator.listAgents, Orchestrator.bootstrap, Orchestrator.revokeAgent, Orchestrator.incidents,
  Orchestrator.items, Orchestrator.profiles, Orchestrator.investigate, Orchestrator.submitFeedback,
  Orchestrator.feedbackHistory, Orchestrator.qualityMetrics.
Ltac people_reads := unfold read_or_setup, on_body, review,
  Interactions, DiagnosticJobs, Notifications, Adjudications, GetOperationalSnapshot, GetRecoveryProfile.

Section Handlers.
Context `{Env} `{AEAD} `{Ed25519} `{Provider} `{Runtime} (R : DB -> DB -> Prop) `{!Reflexive R, !Transitive R} (s : Server)
  (others : M unit) (polls : nat) (r : HttpRequest) (p : Principal)
  (HP : forall q, performs s p (query_scope r) (posted r) q -> Steps R (run_request q))
  (HA : forall q, reports s (agentToken r) (query_scope r) q -> Steps R (run_request q))
  (HB : forall q, browses s r q -> Steps R (run_request q))
  (Hguided : SV_Guidance s = Some (backend s)).

(** *** Signing in and out *)
Lemma login_keeps : Steps R (login s).
Proof.
  unfold login. destruct (SV_OAuth s) eqn:Eo; cbn [negb]; [|flow].
  assert (Hl : forall key c, Steps R (CreateLoginChallenge key c)) by (intros key c; by apply (HB (RLogin key c))).
  repeat first [apply Hl | flow_one].
Qed.
Lemma open_session_keeps q now raw nonce : VerifyNonce idp_check (SV_Verifier s) now raw nonce = Ok q -> Steps R (open_session q).
Proof.
  intros Hq. unfold open_session.
  assert (Hl : forall key csrf, Steps R (CreateBrowserSession key (mkSession q csrf))).
  { intros key csrf. apply (HB (RSession key (mkSession q csrf))). by exists now, raw, nonce. }
  repeat first [apply Hl | flow_one].
Qed.
Lemma callback_keeps : Steps R (callback s r).
Proof.
  unfold callback. case_if as Eo; [flow|]. destruct (Cookie r "__Secure-sre-login") as [cookie|] eqn:Ec; [|flow].
  case_if as E1; [flow|]. apply orb_false_iff in E1 as [_ E1%negb_false_iff]. apply str_eqb_eq in E1. subst cookie.
  assert (Hl : Steps R (ConsumeLoginChallenge (Query r "state"))).
  { eapply part_keeps; [apply (HB (RConsumeLogin (Query r "state"))); by split|reflexivity]. }
  repeat first [apply Hl
    | lazymatch goal with |- Steps _ (match VerifyNonce ?a ?b ?c ?d ?e with _ => _ end) =>
        let Ev := fresh "Ev" in destruct (VerifyNonce a b c d e) eqn:Ev; [exact (open_session_keeps _ _ _ _ Ev)|] end
    | flow_one].
Qed.
Lemma logout_keeps : Steps R (logout r).
Proof.
  unfold logout. destruct (Cookie r "__Host-sre-session") as [key|] eqn:Ek; [|flow].
  assert (Hl : Steps R (DeleteBrowserSession key)) by (by apply (HB (RLogout key))).
  repeat first [apply Hl | flow_one].
Qed.
#[local] Hint Resolve login_keeps callback_keeps logout_keeps : steps.

(** *** People *)
Section People.
#[local] Hint Extern 1 (Steps R _) => service HP : steps.
Lemma approve_keeps values : target_of r = Handler ApproveAction values -> Steps R (approveAction s p r (nth 0 values "")).
Proof.
  intros Ht. unfold approveAction, on_body. apply steps_respond, scoped_keeps; [exact _..|]. intros Hp.
  apply steps_bind_ok; [exact _..|flow|]. intros w hash w' Hh. apply (Approve_keeps _ _ _ _ _ HP); [done|].
  exists values. split; [done|]. split; [done|].
  unfold of_res in Hh. by destruct (Http.decode (one "hash") "" r); injection Hh as <- <-.
Qed.
End People.

(** *** The kinds of routes *)
Inductive kind := Person | Agents_ | Public | Webhook.
Definition kind_of (route : Route) : kind :=
  match route with
  | DiagnosticClaim | DiagnosticHeartbeat | DiagnosticRefresh | DiagnosticComplete | ExecutorActions_ | ClaimAction
  | ActionReceipt | Enroll_ | RenewAgent | CollectionChecks | CollectReport => Agents_
  | Login | Callback | Readyz | Healthz => Public
  | FalcoWebhook => Webhook
  | _ => Person
  end.

Section PeopleRoutes.
#[local] Hint Extern 1 (Steps R _) => service HP : steps.
#[local] Hint Extern 1 (_ = _ \/ _) => left; reflexivity : steps.
Lemma people_keeps route csrf values :
  kind_of route = Person -> target_of r = Handler route values ->
  Steps R (serve_route s others polls route p csrf r (nth 0 values "") (nth 1 values "")).
Proof.
  intros Hk Ht. destruct route; try discriminate Hk; cbn [serve_route]; people_handlers.
  all: try (apply approve_keeps; exact Ht).
  all: people_reads; flow.
Qed.
End PeopleRoutes.

(** *** The handlers of agents, of an orchestrator with a guidance service *)
Section AgentRoutes.
Context (Hothers : waits r -> Steps R others).
#[local] Hint Extern 1 (Steps R _) => agent_service HA : steps.

Lemma guided_validated : guided s = validated.
Proof. unfold guided. by rewrite Hguided. Qed.
Lemma claim_handler_keeps f v profiles : waits r ->
  SV_Fleet s = Some f -> SV_Queue s = Some v ->
  Steps R (Agents.ClaimAgent (retrieve s) (guided s) (authenticator f r) others v (query_scope r) profiles).
Proof.
  intros Ht Hf Hv. rewrite guided_validated. apply (ClaimAgent_steps R f (agentToken r)).
  - intros q. by apply (agent_jobs R s (agentToken r) (query_scope r) HA).
  - by apply Hothers.
  - intros g x. unfold retrieve. rewrite Hguided. intros [= <-] Hx. by apply (Retrieve_keeps R s (agentToken r) (query_scope r) HA v).
Qed.
Lemma refresh_handler_keeps f v id attempt checks : waits r ->
  SV_Fleet s = Some f -> SV_Queue s = Some v ->
  Steps R (Agents.RefreshAgent (guided s) (authenticator f r) others polls v (query_scope r) id attempt checks).
Proof.
  intros Ht Hf Hv. rewrite guided_validated. apply (RefreshAgent_steps R f (agentToken r)).
  - intros q. by apply (agent_jobs R s (agentToken r) (query_scope r) HA).
  - by apply Hothers.
Qed.
Lemma complete_handler_keeps f v id attempt result : SV_Fleet s = Some f -> SV_Queue s = Some v ->
  Steps R (Agents.CompleteAgent (guided s) (authenticator f r) v (query_scope r) id attempt result).
Proof.
  intros Hf Hv. rewrite guided_validated. apply (complete_steps R f (agentToken r)).
  intros q. by apply (agent_jobs R s (agentToken r) (query_scope r) HA).
Qed.
Lemma heartbeat_handler_keeps f v id attempt : SV_Fleet s = Some f -> SV_Queue s = Some v ->
  Steps R (Queue.HeartbeatAgent v f (query_scope r) (agentToken r) id attempt).
Proof. intros Hf Hv. apply (heartbeat_steps R). intros q. by apply (agent_jobs R s (agentToken r) (query_scope r) HA). Qed.
#[local] Hint Resolve claim_handler_keeps refresh_handler_keeps complete_handler_keeps heartbeat_handler_keeps : steps.

Ltac agent_handlers := unfold
  Orchestrator.agentDiagnosticClaim, Orchestrator.agentDiagnosticHeartbeat,
  Orchestrator.agentDiagnosticRefresh, Orchestrator.agentDiagnosticComplete, Orchestrator.executorActions,
  Orchestrator.claimAction, Orchestrator.actionReceipt, Orchestrator.enroll, Orchestrator.renewAgent,
  Orchestrator.collectionChecks, Orchestrator.collectReport.
Lemma agents_keep route csrf values id item :
  kind_of route = Agents_ -> target_of r = Handler route values ->
  Steps R (serve_route s others polls route p csrf r id item).
Proof.
  intros Hk Ht. assert (Hw : route = DiagnosticClaim \/ route = DiagnosticRefresh -> waits r) by (intros Hr; by exists route, values).
  destruct route; try discriminate Hk; cbn [serve_route]; agent_handlers; specialize (Hw ltac:(auto)) || clear Hw;
    unfold diagnostic, agent_scope, on_body, credential, collect, Api.claimAction, CollectionRequested.
  all: flow.
Qed.
End AgentRoutes.

Lemma public_keeps route csrf id item : kind_of route = Public -> Steps R (serve_route s others polls route p csrf r id item).
Proof. intros Hk. destruct route; try discriminate Hk; cbn [serve_route]; unfold Orchestrator.readyz; flow. Qed.

(** *** The webhook *)
Lemma steps_map_each_in {A B} (f : A -> M B) l : (forall a, a ∈ l -> Steps R (f a)) -> Steps R (map_each f l).
Proof.
  induction l as [|a l IH]; intros Hf; cbn; [by apply steps_ret|]. apply steps_bind; [exact _|apply Hf; left|]. intros b.
  apply steps_bind; [exact _|apply IH; intros x Hx; apply Hf; by right|]. intros bs. by apply steps_ret.
Qed.
Lemma webhook_keeps : (forall q, webhooks s r q -> Steps R (run_request q)) -> Steps R (falcoWebhook s r).
Proof.
  intros HF. unfold falcoWebhook. apply steps_bind; [exact _|flow|]. intros tick.
  destruct (Falco.ParseWebhookPayload _ r (SV_Falco s)) as [e|events] eqn:Ep; [flow|].
  apply steps_bind; [exact _|flow|]. intros now. apply steps_bind; [exact _| |intros recorded; flow].
  apply steps_map_each_in. intros e He. unfold record_event. case_if as Es; [flow|].
  destruct (event_body e) as [body|] eqn:Eb; [|flow]. unfold succeeded.
  set (sc := falco_scope r e).
  assert (Hc : forall E t, scope t = sc -> composed t (@recordTx E sc now body t)) by (intros E t _; apply co_recordTx).
  assert (Hs : Steps R (Transact (SV_Epoch s) sc (recordTx sc now body))).
  { apply (HF (RHandler (SV_Epoch s) sc (fun E => @recordTx E sc now body) Hc)). exists (range_order tick), events, e, now, body. done. }
  intros w x w'. destruct (Transact _ _ _ w) as [[u|err] w1] eqn:Et; intros [= _ <-]; exact (Hs _ _ _ Et).
Qed.

Lemma dispatch_keeps csrf :
  (waits r -> Steps R others) ->
  ((exists values, target_of r = Handler FalcoWebhook values) -> forall q, webhooks s r q -> Steps R (run_request q)) ->
  (forall p sc c, sent (SV_Channels s) r p sc c -> Steps R (execute s p sc c)) ->
  Steps R (dispatch s others polls p csrf r).
Proof.
  intros Ho HF Hchat. pose proof (channels_keeps R s (SV_Channels s) r Hchat).
  unfold dispatch. destruct (target_of r) as [route values| | |] eqn:Et; [|flow..].
  destruct (kind_of route) eqn:Ek.
  - by apply people_keeps.
  - by apply (agents_keep Ho _ _ values).
  - by apply public_keeps.
  - destruct route; try discriminate Ek. apply webhook_keeps, HF. by exists values.
Qed.
End Handlers.

(** ** Who a request to /api/ speaks for

    Somebody the identity provider vouches for, or the owner of a browser
    session; a session alone only reads, unless the request comes from the
    orchestrator's own pages. *)
Definition session_principal (b : row Tsessions) : Principal :=
  mkPrincipal (bs_principal b) (bs_issuer b) "" "" "" (bs_groups b) (bs_issued b) (bs_expires b).
Definition vouched `{Provider} (s : Server) (r : HttpRequest) (p : Principal) : Prop :=
  exists value token now, Header_Values r "Authorization" = [value] /\ bearer value = Some token /\
    Verify idp_check (SV_Verifier s) now token = Ok p.
Definition in_session (s : Server) (r : HttpRequest) (d : DB) (p : Principal) : Prop :=
  exists key (b : row Tsessions) now, Header_Values r "Authorization" = [] /\ Cookie r "__Host-sre-session" = Some key /\
    b ∈ d Tsessions /\ bs_key b = authKey key /\ p = session_principal b /\ Principal_Valid p now = true /\
    (mem_str (H_Method r) ["GET"; "HEAD"] = true \/
     (Header_Get r "Origin" = origin s /\ Header_Get r "X-Sre-Csrf" = bs_csrf b)).
Definition signed_in `{Provider} (s : Server) (r : HttpRequest) (d : DB) (p : Principal) : Prop :=
  vouched s r p \/ in_session s r d p.

(** ** Where a route is *)
Definition area_of (route : Route) : string :=
  match kind_of route with
  | Person | Webhook => "api"
  | Agents_ => "agent"
  | Public => match route with Login | Callback => "auth" | _ => "" end
  end.
(** The routes that only read. *)
Definition read_only (route : Route) : bool :=
  match route with
  | ListInteractions | DiagnosticJobs_ | Notifications_ | Adjudications_ | GoldenCases_ | QualityMetrics | Operations_
  | GetEnvironment | GetRecoveryProfile_ | ListActions | Capabilities | SetupScopes | ListAgents | Scopes_ | Session
  | Incidents_ | Items_ | Profiles_ | FeedbackHistory_ | ExecutorActions_ | Readyz | Healthz => true
  | _ => false
  end.
Definition pattern_method (pattern : string) : string := fst (cut (chr 32) pattern).
Definition pattern_segments (pattern : string) : list string := tail (split slash (snd (cut (chr 32) pattern))).
(** What the table of routes says of each. *)
Definition placed (pr : string * Route) : bool :=
  mem_str (pattern_method (fst pr)) ["GET"; "POST"]
  && implb (str_eqb (pattern_method (fst pr)) "GET") (read_only (snd pr) || str_eqb (area_of (snd pr)) "auth")
  && match pattern_segments (fst pr) with
     | first :: _ :: _ => str_eqb first (area_of (snd pr))
     | _ => str_eqb (area_of (snd pr)) ""
     end.
Lemma routes_placed : forallb placed routes = true.
Proof. vm_compute. reflexivity. Qed.

Lemma find_route_in method path l route values :
  find_route method path l = Some (route, values) ->
  exists pattern, (pattern, route) ∈ l /\ match_route method path pattern = Some values.
Proof.
  induction l as [|[pattern route'] l IH]; cbn [find_route]; [done|].
  destruct (match_route method path pattern) as [v|] eqn:Em.
  - intros [= <- <-]. exists pattern. split; [left|done].
  - intros Hf. destruct (IH Hf) as (pattern' & Hin & Hm). exists pattern'. split; [by right|done].
Qed.

Lemma unescape_slash n : forall a b u, (String.length a < n)%nat -> unescape false (a +:+ String slash b) = Some u ->
  exists ua ub, unescape false a = Some ua /\ u = ua +:+ String slash ub.
Proof.
  induction n as [|n IH]; intros a b u Hlen Hu; [lia|]. destruct a as [|c a].
  - change (unescape false (String slash b) = Some u) in Hu. cbn [unescape] in Hu.
    change (is_char 37 slash) with false in Hu. cbn [andb] in Hu.
    destruct (unescape false b) as [ub|]; [|done]. injection Hu as <-. by exists "", ub.
  - rewrite app_cons_s in Hu. cbn [unescape] in *. destruct (is_char 37 c) eqn:Ec.
    + destruct a as [|x [|y a]].
      * rewrite app_empty_s in Hu. destruct b; [done|]. by change (hex_value slash) with (@None Z) in Hu.
      * rewrite app_cons_s, app_empty_s in Hu. change (hex_value slash) with (@None Z) in Hu. by destruct (hex_value x).
      * rewrite !app_cons_s in Hu. destruct (hex_value x) as [h|]; [|done]. destruct (hex_value y) as [l|]; [|done].
        cbn [mbind option_bind] in *. destruct (unescape false (a +:+ String slash b)) as [u'|] eqn:E; [|done].
        cbn in Hlen. apply IH in E as (ua & ub & -> & ->); [|lia]. injection Hu as <-. by eexists _, ub.
    + destruct (unescape false (a +:+ String slash b)) as [u'|] eqn:E; [|done].
      cbn in Hlen. apply IH in E as (ua & ub & -> & ->); [|lia]. injection Hu as <-. by eexists _, ub.
Qed.
Lemma split_cons sep x y l : forall s, split sep s = x :: y :: l -> exists t, s = x +:+ String sep t /\ split sep t = y :: l.
Proof.
  intros s. revert x. induction s as [|c s IH]; intros x; cbn [split]; [done|]. destruct (bool_decide (c = sep)) eqn:E.
  - apply bool_decide_eq_true in E as ->. intros [= <- Hs]. by exists s.
  - destruct (split sep s) as [|z l'] eqn:Es; [done|]. intros [= <- ->]. destruct (IH z) as (t & -> & Ht); [done|]. by exists t.
Qed.

Lemma target_placed r route values : target_of r = Handler route values ->
  exists pattern, (pattern, route) ∈ routes /\ placed (pattern, route) = true /\
    match_route (H_Method r) (map (fun s => default s (unescape false s)) (tail (split slash (H_Path r)))) pattern = Some values /\
    (H_Method r = pattern_method pattern \/ (H_Method r = "HEAD" /\ pattern_method pattern = "GET")) /\
    (H_Method r = "CONNECT" \/ clean (H_Path r) = true).
Proof.
  unfold target_of. intros Ht. match type of Ht with context [if ?b then Moved else _] => destruct b eqn:Ec; [discriminate Ht|] end.
  assert (Hc : H_Method r = "CONNECT" \/ clean (H_Path r) = true).
  { destruct (str_eqb (H_Method r) "CONNECT") eqn:Em; [left; by apply str_eqb_eq|right]. by destruct (clean (H_Path r)). }
  destruct (find_route _ _ _) as [[route' values']|] eqn:Ef.
  - injection Ht as <- <-. apply find_route_in in Ef as (pattern & Hin & Hm). exists pattern. split; [done|].
    split; [pose proof routes_placed as Hp; rewrite forallb_forall in Hp; by apply Hp, list_elem_of_In|]. split; [done|].
    split; [|done].
    unfold match_route in Hm. unfold pattern_method. destruct (cut (chr 32) pattern) as [m q]. cbn [fst].
    destruct (str_eqb m (H_Method r) || (str_eqb m "GET" && str_eqb (H_Method r) "HEAD")) eqn:E; [|discriminate Hm].
    breflect. destruct E as [E|E]; breflect; auto.
  - exfalso. revert Ht. repeat match goal with
      | |- match ?l with [] => _ | _ :: _ => _ end = _ -> _ => destruct l
      | |- (if ?b then _ else _) = _ -> _ => destruct b
      end; discriminate.
Qed.
(** The path of a request to a route begins with the route's area.  [H_Path] is
    an escaped path, which net/url unescapes. *)
Lemma route_path r route values : is_Some (unescape false (H_Path r)) -> target_of r = Handler route values ->
  area_of route <> "" -> exists rest, URLPath r = "/" +:+ area_of route +:+ "/" +:+ rest.
Proof.
  intros [u Hu] (pattern & _ & Hp & Hm & Hmeth & Hc)%target_placed Ha. unfold placed in Hp. cbn [fst snd] in Hp.
  apply andb_true_iff in Hp as [[Hget _]%andb_true_iff Hp].
  destruct Hc as [Hc|Hc].
  { exfalso. unfold mem_str in Hget. apply bool_decide_eq_true in Hget. destruct Hmeth as [E|[E _]]; rewrite E in Hc; [|done].
    rewrite Hc in Hget. listed Hget. }
  unfold match_route in Hm. unfold pattern_segments in Hp.
  destruct (cut (chr 32) pattern) as [m q]. cbn [snd fst] in Hp.
  destruct (str_eqb m (H_Method r) || _); [|discriminate Hm].
  destruct (tail (split slash q)) as [|first [|second segments]]; [by apply str_eqb_eq in Hp..|].
  apply str_eqb_eq in Hp as ->. unfold clean in Hc.
  destruct (split slash (H_Path r)) as [|s0 [|s1 [|s2 l]]] eqn:Es; [done|by cbn in Hc| |].
  - cbn [tail map match_segments] in Hm. destruct (has_prefix "{" (area_of route)); [|by case_if_in Hm].
    by case_if_in Hm.
  - breflect. apply split_cons in Es as (t & Et & Es). apply split_cons in Es as (t2 & -> & _).
    match goal with E : s0 = "" |- _ => rewrite E, app_empty_s in Et end.
    unfold URLPath. rewrite Hu. cbn [default from_option id].
    assert (Hu' : unescape false (String slash (s1 +:+ String slash t2)) = Some u) by (by rewrite <- Et).
    cbn [unescape] in Hu'. change (is_char 37 slash) with false in Hu'. cbn [andb] in Hu'.
    destruct (unescape false (s1 +:+ String slash t2)) as [v|] eqn:Ev; [|discriminate Hu']. injection Hu' as <-.
    apply (unescape_slash (S (String.length s1))) in Ev as (ua & ub & E1 & ->); [|lia].
    exists ub. cbn [tail map match_segments] in Hm. rewrite E1 in Hm. cbn [default from_option id] in Hm.
    assert (Hb : has_prefix "{" (area_of route) = false) by (clear; by destruct route).
    rewrite Hb in Hm. destruct (str_eqb (area_of route) ua) eqn:Eq; [|discriminate Hm]. apply str_eqb_eq in Eq as <-. done.
Qed.

(** Nobody signed in has no permission, and performs nothing. *)
Lemma nobody_permitted s sc permission : ~ permitted s zero_principal sc permission.
Proof. intros [now Ha]. apply Authorize_spec in Ha as (_ & Hv & _). discriminate Hv. Qed.
Lemma nobody_performs `{AEAD} s sc asks q : ~ performs s zero_principal sc asks q.
Proof.
  pose proof (nobody_permitted s sc) as Hn. intros Hq. destruct q as [x sc' []| | | | | | | | | | | | | | | | | | | | | | | | | | | | |];
    cbn in Hq; try done; try (destruct Hq as [_ Hq]; first [by apply Hn in Hq|destruct Hq as [Hq _]; by apply Hn in Hq|idtac]).
  destruct Hq as [[_ [[Hq _]|[[Hq _]|[Hq _]]]]|[Hq _]]; by apply Hn in Hq.
Qed.

Section Serve.
Context `{Env} `{AEAD} `{Ed25519} `{Provider} `{Runtime} (s : Server).

Lemma reads_keep others polls route p csrf r id item :
  read_only route = true -> Steps eq (serve_route s others polls route p csrf r id item).
Proof.
  intros Hr. destruct route; try discriminate Hr; cbn [serve_route]; people_handlers; people_reads;
    unfold Orchestrator.executorActions, Orchestrator.readyz; flow.
Qed.

Lemma session_ok key w b w' : GetBrowserSession key w = (Ok b, w') ->
  exists (x : row Tsessions) now, x ∈ db w Tsessions /\ bs_key x = authKey key /\ b = mkSession (session_principal x) (bs_csrf x) /\
    Principal_Valid (session_principal x) now = true.
Proof.
  unfold GetBrowserSession. intros Hb. run. apply query_row_ok in Hm as [[l Hl] _]. apply time_now_ok in Hm0 as [-> _].
  exists r, (go_now (tick w0)). assert (Hr : r ∈ r :: l) by left. rewrite <- Hl in Hr.
  apply list_elem_of_In, filter_In in Hr as [Hin%list_elem_of_In Hk]. apply andb_true_iff in Hk as [Hk _]. breflect. done.
Qed.
Lemma authenticate_ok r w p csrf w' : authenticate s r w = (Ok (p, csrf), w') -> signed_in s r (db w) p.
Proof.
  unfold authenticate. intros Ha. destruct (Header_Values r "Authorization") as [|value [|]] eqn:Ev; [| |discriminate].
  - right. destruct (Cookie r "__Host-sre-session") as [key|] eqn:Ek; [|discriminate]. run.
    apply catch_ok in Hm as [Hm|(e & w2 & _ & Hm)]; [|discriminate]. apply session_ok in Hm as (b & _ & Hb & Hkey & -> & _).
    exists key, b, r1. do 5 (split; [done|]). split; [done|]. unfold constant_time_eq in Hg0.
    apply orb_true_iff in Hg0 as [Hm|[Ho Hc]%andb_true_iff]; [by left|right]. breflect. done.
  - left. destruct (bearer value) as [token|] eqn:Eb; [|discriminate]. run. exists value, token, r0.
    unfold of_res in Hm0. destruct (Verify idp_check (SV_Verifier s) r0 token) as [q|]; [|discriminate].
    by injection Hm0 as -> _.
Qed.

Lemma ServeHTTP_keeps R `{!Reflexive R, !Transitive R} others polls admitted r w x w' :
  SV_Guidance s = Some (backend s) -> (waits r -> Steps R others) ->
  (forall p, signed_in s r (db w) p -> forall q, performs s p (query_scope r) (posted r) q -> Steps R (run_request q)) ->
  (forall q, reports s (agentToken r) (query_scope r) q -> Steps R (run_request q)) ->
  (forall q, browses s r q -> Steps R (run_request q)) ->
  ((is_Some (unescape false (H_Path r)) -> exists p, signed_in s r (db w) p) ->
     forall q, webhooks s r q -> Steps R (run_request q)) ->
  (forall p sc c, sent (SV_Channels s) r p sc c -> Steps R (execute s p sc c)) ->
  ServeHTTP s others polls admitted r w = (x, w') -> R (db w) (db w').
Proof.
  intros Hg Ho Hp Ha Hb Hf Hchat. unfold ServeHTTP. case_if as E1; [by intros [= _ <-]|]. case_if as E2; [by intros [= _ <-]|].
  case_if as E3; [by intros [= _ <-]|]. case_if as E4.
  - destruct (authenticate s r w) as [[[p csrf]|e] w1] eqn:Ea; pose proof (pure_authenticate s r _ _ _ Ea) as Ed.
    + apply authenticate_ok in Ea. intros Hd. rewrite Ed. revert Hd. apply dispatch_keeps; try done; [by apply Hp|].
      intros _. apply Hf. intros _. by exists p.
    + intros [= _ <-]. by rewrite Ed.
  - apply dispatch_keeps; try done; [intros q Hq; by apply nobody_performs in Hq|].
    intros [values Ht]. apply Hf. intros Hu. exfalso. destruct (route_path r _ _ Hu Ht) as [rest Hrest]; [done|].
    rewrite Hrest in E4. discriminate E4.
Qed.

(** A GET, or a HEAD, to /api/ changes nothing. *)
Lemma reading_keeps others polls admitted r w x w' :
  is_Some (unescape false (H_Path r)) -> mem_str (H_Method r) ["GET"; "HEAD"] = true -> has_prefix "/api/" (URLPath r) = true ->
  ServeHTTP s others polls admitted r w = (x, w') -> db w' = db w.
Proof.
  intros Hu Hm Hapi. assert (Hd : forall p csrf w1 x1 w2, dispatch s others polls p csrf r w1 = (x1, w2) -> db w2 = db w1).
  { intros p csrf w1 x1 w2 Hd. symmetry. revert Hd. apply (fun m (Hs : Steps eq m) => Hs w1 x1 w2). unfold dispatch.
    destruct (target_of r) as [route values| | |] eqn:Et; [|unfold Messaging.ServeHTTP|flow..].
    - destruct (target_placed r route values Et) as (pattern & _ & Hpl & _ & Hmeth & _). apply reads_keep.
      unfold placed in Hpl. cbn [fst snd] in Hpl. apply andb_true_iff in Hpl as [[Hpm Hro]%andb_true_iff _].
      assert (Eg : pattern_method pattern = "GET").
      { unfold mem_str in Hm. apply bool_decide_eq_true in Hm. destruct Hmeth as [E|[_ E]]; [|done].
        rewrite E in Hm. apply elem_of_cons in Hm as [Hm|Hm]; [done|]. apply list_elem_of_singleton in Hm.
        rewrite Hm in Hpm. discriminate Hpm. }
      rewrite Eg in Hro. cbn in Hro. destruct (read_only route); [done|]. exfalso. apply str_eqb_eq in Hro.
      destruct (route_path r _ _ Hu Et) as [rest Hrest]; [by rewrite Hro|]. rewrite Hrest, Hro in Hapi. discriminate Hapi.
    - case_if as Ec; [flow|]. exfalso. apply negb_false_iff, str_eqb_eq in Ec. rewrite Ec in Hm. discriminate Hm. }
  unfold ServeHTTP. case_if as E1; [by intros [= _ <-]|]. case_if as E2; [by intros [= _ <-]|].
  case_if as E3; [by intros [= _ <-]|]. rewrite Hapi.
  destruct (authenticate s r w) as [[[p csrf]|e] w1] eqn:Ea; pose proof (pure_authenticate s r _ _ _ Ea) as Ed.
  - intros Hx. rewrite Ed. by eapply Hd.
  - intros [= _ <-]. done.
Qed.
End Serve.
