(* ===== verification/Frontdoor.v ===== *)
(** * A front door to try the theorems on

    The demonstration of [Scenario] behind an orchestrator: a toy identity
    provider that vouches for one token, one Slack channel with one user, and
    requests to it. *)

From S2P Require Import Prelude.
From S2P Require Import Json.
From S2P Require Import GoTime.
From S2P Require Import Decode.
From S2P Require Import Identity.
From S2P Require Import Authorization.
From S2P Require Import Incident.
From S2P Require Import Db.
From S2P Require Import Sql.
From S2P Require Import Url.
From S2P Require Import Http.
From S2P Require Import Messaging.
From S2P Require Import Storage.
From S2P Require Import Records.
From S2P Require Import Privacy.
From S2P Require Import Fleet.
From S2P Require Import Governance.
From S2P Require Import Execution.
From S2P Require Import ExecutionFacts.
From S2P Require Import Scenario.
From S2P Require Import Falco.
From S2P Require Import Toy.
From S2P Require Import Orchestrator.

Import Messaging Orchestrator.

Module Front.
#[export] Existing Instance Demo.env.
#[export] Existing Instance Toy.cipher.
#[export] Instance signer : Ed25519 := {| ed25519_verify key text sig := bool_decide (sig = key) |}.

Definition verifier : OIDCVerifier := mkOIDCVerifier "https://issuer" "sre".
Definition owner_token : IDToken :=
  mkIDToken "owner" ["sre"] "" Demo.T0 (Demo.T0 + 10 * Minute) ["owners"] "" 0 "" "" "".
#[export] Instance provider : Provider := {|
  idp_check raw := if str_eqb raw "owner-token" then Some owner_token else None;
  idp_exchange _ _ _ := None;
  idp_verifier _ := "verifier";
  idp_location _ _ _ := "https://issuer/authorize" |}.

#[export] Instance runtime : Runtime := {| range_order _ _ l := l; read_error _ := "unexpected EOF" |}.

Definition channel : Config :=
  mkConfig "ops" "slack" "SLACK_SECRET" "" "T1" "C1" Demo.sc [mkUser "U1" "owner" ["owners"]].
Definition getenv (name : string) : string := if str_eqb name "SLACK_SECRET" then "shh" else "".
Definition channels : handler := match New getenv [channel] with Ok h => h | Err _ => [] end.

Definition server : Server :=
  mkServer Demo.epoch Demo.policy verifier true Demo.exec_svc (Some Demo.svc) None None
    (Some (mkBackend Demo.epoch Demo.policy)) (Some (mkBackend Demo.epoch Demo.policy)) "https://sre.example/" channels "falco-secret".
Definition nobody : M unit := ret tt.
Definition serve (r : HttpRequest) : M Response := ServeHTTP server nobody 0 true r.

Definition scope_query : string := "organization_id=org&cluster_id=cluster&application_id=app".
Definition bearer_header (token : string) : string * string := ("Authorization", "Bearer " +:+ token).
Definition hash_body : string := print (JObj [("hash", JStr (A_Hash Demo.proposed))]).

(** The owner approves the proposed action over HTTP. *)
Definition approve_request : HttpRequest :=
  mkHttp "POST" ("/api/actions/" +:+ Demo.id +:+ "/approve") scope_query [bearer_header "owner-token"] (Some hash_body).
(** The same approval in the chat. *)
Definition command_text : string := "approve+" +:+ Demo.id +:+ "+" +:+ A_Hash Demo.proposed.
Definition slack_body : string := "team_id=T1&channel_id=C1&user_id=U1&command=%2Fsre&text=" +:+ command_text.
Definition slack_time : string := show (Demo.T0 / Second).
Definition slack_request (signature : string) : HttpRequest :=
  mkHttp "POST" "/channels/ops/events" ""
    [("X-Slack-Request-Timestamp", slack_time); ("X-Slack-Signature", signature)] (Some slack_body).
Definition signed_request : HttpRequest := slack_request (slack_signature "shh" slack_time slack_body).
(** A sidecar that posts an event with the webhook's own secret. *)
Definition falco_request : HttpRequest :=
  mkHttp "POST" "/api/webhooks/falco" scope_query [bearer_header "falco-secret"] (Some "{}").

(** The owner posts one, with the secret in the webhook's own header. *)
Definition event_request : HttpRequest :=
  mkHttp "POST" "/api/webhooks/falco" scope_query [bearer_header "owner-token"; ("X-Falco-Token", "falco-secret")]
    (Some Falco.shell_text).
Definition recorded (w : World) : list string := map (fun i : row Titems => i_incident i) (db w Titems).

Definition approved (w : World) : bool :=
  existsb (fun a => str_eqb (A_State a) "APPROVED") (log (db w) Demo.sc Demo.id).
Definition status (x : res Response) : Z :=
  match x with Ok (Reply status _ _) => status | _ => 0 end.

(** Each request is served as it should be. *)
Lemma front_runs :
  approved Demo.world2 = false /\
  approved (Demo.after (serve approve_request) Demo.world2) = true /\
  approved (Demo.after (serve signed_request) Demo.world2) = true /\
  approved (Demo.after (serve (slack_request "v0=00")) Demo.world2) = false /\
  status (Demo.result (serve approve_request) Demo.world2) = 200 /\
  status (Demo.result (serve signed_request) Demo.world2) = 200 /\
  status (Demo.result (serve (slack_request "v0=00")) Demo.world2) = 401 /\
  status (Demo.result (serve falco_request) Demo.world2) = 401.
Proof. vm_compute. repeat split; reflexivity. Qed.

Lemma event_path : is_Some (unescape false (H_Path event_request)).
Proof. vm_compute. eauto. Qed.

(** The event becomes evidence of the incident that is open in the scope. *)
Lemma event_runs :
  recorded Demo.world2 = ["incident"] /\
  recorded (Demo.after (serve event_request) Demo.world2) = ["incident"; "incident"] /\
  Demo.result (serve event_request) Demo.world2 = Ok (writeJSON 200 (Some (processed [true]))).
Proof. vm_compute. repeat split; reflexivity. Qed.

Definition ops : endpoint := default (mkEndpoint channel "" [] []) (assoc "ops" channels).
Definition chat_text : string := "approve " +:+ Demo.id +:+ " " +:+ A_Hash Demo.proposed.
Lemma chat_decodes :
  Demo.result (decode_update ops signed_request slack_body) Demo.world2 = Ok (Message "U1" chat_text false).
Proof. vm_compute. reflexivity. Qed.
Lemma approve_path : is_Some (unescape false (H_Path approve_request)).
Proof. vm_compute. eauto. Qed.
#[global] Opaque approve_request signed_request event_request.
End Front.
