(* ===== verification/MessagingProps.v ===== *)
(** * Properties of the chat channels

    A message that is acted upon carries the proof its platform gives of its
    origin and is fresh; the grammar of commands, which reads back what it
    writes. *)

From S2P Require Import Prelude.
From S2P Require Import Sha256.
From S2P Require Import Json.
From S2P Require Import GoTime.
From S2P Require Import Decode.
From S2P Require Import Text.
From S2P Require Import Identity.
From S2P Require Import Authorization.
From S2P Require Import Incident.
From S2P Require Import Db.
From S2P Require Import Sql.
From S2P Require Import Url.
From S2P Require Import Http.
From S2P Require Import Messaging.
From S2P Require Import Scenario.
From S2P Require Import Toy.
From S2P Require Import Frontdoor.

Import Messaging.

(** ** Words *)

(** A byte of an identifier starts no space. *)
Lemma id_char_no_space c s : id_char c = true -> strip_prefixes spaces (String c s) = None.
Proof.
  intros Hc. destruct c as [[] [] [] [] [] [] [] []]; try (exfalso; revert Hc; vm_compute; discriminate); reflexivity.
Qed.
Lemma space_stripped s : strip_prefixes spaces (String " " s) = Some s.
Proof. reflexivity. Qed.

Fixpoint rev_onto (s acc : string) : string :=
  match s with EmptyString => acc | String c s => rev_onto s (String c acc) end.
Lemma srev_rev_onto s : forall acc, srev acc s = rev_onto s acc.
Proof. induction s as [|c s IH]; intros acc; [done|]. cbn. apply IH. Qed.
Lemma rev_onto_app w : forall a b, rev_onto w (a +:+ b) = rev_onto w a +:+ b.
Proof. induction w as [|c w IH]; intros a b; [done|]. cbn [rev_onto]. rewrite <- IH, app_cons_s. done. Qed.
Lemma reversed_onto w : forall acc, reversed (rev_onto w acc) = rev_onto acc "" +:+ w.
Proof.
  unfold reversed. induction w as [|c w IH]; intros acc; cbn [rev_onto].
  - rewrite srev_rev_onto. by rewrite app_nil_s.
  - rewrite IH. cbn [rev_onto]. change (String c "") with ("" +:+ String c "").
    rewrite rev_onto_app, app_assoc_s. done.
Qed.
Lemma reversed_word w : reversed (rev_onto w "") = w.
Proof. by rewrite reversed_onto. Qed.

Lemma fields_word w : forall fuel acc rest,
  str_forall id_char w = true ->
  fields_loop (String.length w + fuel) acc (w +:+ rest) = fields_loop fuel (rev_onto w acc) rest.
Proof.
  induction w as [|c w IH]; intros fuel acc rest Hw; [done|]. cbn [str_forall] in Hw. apply andb_true_iff in Hw as [Hc Hw].
  rewrite app_cons_s. cbn [String.length Nat.add fields_loop]. rewrite id_char_no_space by done. by apply IH.
Qed.

(** Words with a space between them. *)
Fixpoint spaced (ws : list string) : string :=
  match ws with
  | [] => ""
  | [w] => w
  | w :: ws => w +:+ String " " (spaced ws)
  end.
Definition word (w : string) : bool := negb (str_eqb w "") && str_forall id_char w.

Lemma flush_word w l : word w = true -> flush (rev_onto w "") l = w :: l.
Proof.
  unfold word, flush. intros Hw. destruct (str_eqb (rev_onto w "") "") eqn:E; [|by rewrite reversed_word].
  apply str_eqb_eq in E. pose proof (reversed_word w) as Hr. rewrite E in Hr. subst w. discriminate Hw.
Qed.
Lemma fields_spaced ws : forall fuel,
  forallb word ws = true -> (String.length (spaced ws) <= fuel)%nat -> fields_loop fuel "" (spaced ws) = ws.
Proof.
  induction ws as [|w ws IH]; intros fuel Hws Hf; [by destruct fuel|]. cbn [forallb] in Hws. apply andb_true_iff in Hws as [Hw Hws].
  pose proof Hw as Hc. unfold word in Hc. apply andb_true_iff in Hc as [_ Hc].
  destruct ws as [|w' ws].
  - cbn [spaced] in *. replace fuel with (String.length w + (fuel - String.length w))%nat by lia.
    pose proof (fields_word w (fuel - String.length w) "" "" Hc) as Hl. rewrite app_nil_s in Hl. rewrite Hl.
    destruct (fuel - String.length w)%nat; cbn [fields_loop]; by apply flush_word.
  - change (spaced (w :: w' :: ws)) with (w +:+ String " " (spaced (w' :: ws))) in *.
    rewrite length_app_s in Hf. cbn [String.length] in Hf.
    replace fuel with (String.length w + S (fuel - String.length w - 1))%nat by lia. rewrite fields_word by done.
    cbn [fields_loop]. rewrite space_stripped, IH by (done || lia). by apply flush_word.
Qed.
Lemma Fields_spaced ws : forallb word ws = true -> Fields (spaced ws) = ws.
Proof. intros Hws. by apply fields_spaced. Qed.

(** ** Commands *)
Definition hex_text (s : string) : bool := str_eqb (lower s) s && bool_decide (is_Some (hex_decode s)).
Definition command_ok (c : Command) : bool :=
  ValidID (CM_ID c) &&
  (if str_eqb (CM_Verb c) "ack" || str_eqb (CM_Verb c) "reject" then str_eqb (CM_Value c) "" && (CM_Version c =? 0)
   else if str_eqb (CM_Verb c) "approve" then (slen (CM_Value c) =? 64) && hex_text (CM_Value c) && (CM_Version c =? 0)
   else if str_eqb (CM_Verb c) "answer" then ValidID (CM_Value c) && (1 <=? CM_Version c) && (CM_Version c <? 2 ^ 63)
   else false).
Definition command_words (c : Command) : list string :=
  CM_Verb c :: CM_ID c ::
  (if str_eqb (CM_Verb c) "approve" then [CM_Value c]
   else if str_eqb (CM_Verb c) "answer" then [show (CM_Version c); CM_Value c] else []).
Definition command_text (c : Command) : string := spaced (command_words c).

Lemma ValidID_word id : ValidID id = true -> word id = true.
Proof.
  unfold ValidID, word. intros [Hn Hc]%andb_true_iff. rewrite Hc, andb_true_r. apply negb_true_iff in Hn.
  apply orb_false_iff in Hn as [Hn _]. apply negb_true_iff. destruct (str_eqb id "") eqn:E; [|done].
  apply str_eqb_eq in E. by subst id.
Qed.
Lemma hex_char c : is_Some (hex_value c) -> id_char c = true.
Proof.
  destruct c as [[] [] [] [] [] [] [] []]; vm_compute; try reflexivity; intros [x Hx]; discriminate.
Qed.
Lemma hex_word n : forall s, (String.length s <= n)%nat -> is_Some (hex_decode s) -> str_forall id_char s = true.
Proof.
  induction n as [|n IH]; intros [|a [|b s]] Hn [l Hl]; try done; cbn [String.length] in Hn; try lia.
  cbn [hex_decode] in Hl. destruct (hex_value a) as [x|] eqn:Ea; [|discriminate].
  destruct (hex_value b) as [y|] eqn:Eb; [|discriminate]. destruct (hex_decode s) as [t|] eqn:Es; [|discriminate].
  cbn [str_forall]. rewrite (hex_char a), (hex_char b) by eauto. apply IH; [lia|by eexists].
Qed.
Lemma digits_id n z : str_forall id_char (digits n z) = true.
Proof.
  induction n as [|n IH]; [done|]. cbn [digits str_forall]. rewrite IH, andb_true_r.
  pose proof (Z.mod_pos_bound (z / 10 ^ Z.of_nat n) 10 ltac:(lia)) as Hb.
  unfold id_char, in_range. rewrite digit_ord by lia. rewrite !orb_true_iff. left. left. right. lia.
Qed.
Lemma show_digit z : 0 <= z -> exists d n, 0 <= d < 10 /\ show z = String (digit d) (digits n z).
Proof.
  intros Hz. unfold show. destruct (Z.ltb_spec z 0); [lia|]. destruct (show_pos_spec z Hz) as (n & -> & _).
  cbn [digits]. eexists _, n. split; [|reflexivity]. apply Z.mod_pos_bound. lia.
Qed.
Lemma show_word z : 0 <= z -> word (show z) = true.
Proof.
  intros Hz. destruct (show_digit z Hz) as (d & n & Hd & E). unfold word. rewrite E.
  replace (str_eqb _ "") with false by (symmetry; by apply str_eqb_neq). cbn [negb andb]. rewrite <- E. clear E. unfold show. destruct (Z.ltb_spec z 0); [lia|]. destruct (show_pos_spec z Hz) as (m & -> & _). apply digits_id.
Qed.
Lemma ParseInt_show z : 0 <= z < 2 ^ 63 -> ParseInt (show z) = Some z.
Proof.
  intros Hz. destruct (show_digit z) as (d & n & Hd & E); [lia|]. unfold ParseInt. rewrite E.
  assert (is_char 43 (digit d) = false) as ->.
  { unfold is_char. rewrite digit_ord by lia. apply Z.eqb_neq. lia. }
  rewrite <- E. apply parse_int_show. unfold int64_ok. lia.
Qed.

Lemma hex_text_word s : slen s = 64 -> hex_text s = true -> word s = true.
Proof.
  unfold hex_text, word. intros Hl [_ Hh]%andb_true_iff. apply bool_decide_eq_true in Hh.
  rewrite (hex_word _ s (le_n _) Hh), andb_true_r. by destruct s.
Qed.
Lemma command_words_ok c : command_ok c = true -> forallb word (command_words c) = true.
Proof.
  unfold command_ok, command_words. intros [Hid Hc]%andb_true_iff. cbn [forallb]. rewrite (ValidID_word _ Hid).
  destruct (str_eqb (CM_Verb c) "ack") eqn:Ea; [by apply str_eqb_eq in Ea; rewrite Ea|].
  destruct (str_eqb (CM_Verb c) "reject") eqn:Er; [by apply str_eqb_eq in Er; rewrite Er|]. cbn [orb] in Hc.
  destruct (str_eqb (CM_Verb c) "approve") eqn:Ep.
  { apply str_eqb_eq in Ep as ->. rewrite !andb_true_iff, Z.eqb_eq in Hc. destruct Hc as [[Hl Hh] _].
    cbn [forallb]. rewrite (hex_text_word _ Hl Hh). reflexivity. }
  destruct (str_eqb (CM_Verb c) "answer") eqn:En; [|done]. apply str_eqb_eq in En as ->.
  rewrite !andb_true_iff, Z.leb_le, Z.ltb_lt in Hc. destruct Hc as [[Hv H1] H2].
  cbn [forallb]. rewrite show_word by lia. rewrite (ValidID_word _ Hv). reflexivity.
Qed.
Lemma parse_words c text :
  parseCommand text = Some c <-> command_ok c = true /\ Fields text = command_words c.
Proof.
  unfold parseCommand, command_ok, command_words, hex_text. split.
  - destruct (Fields text) as [|verb [|id rest]]; [done..|].
    destruct (ValidID id) eqn:Hid; cbn [negb]; [|done].
    destruct (str_eqb verb "ack" || str_eqb verb "reject") eqn:E1.
    { destruct rest; [|done]. intros [= <-]. cbn [CM_Verb CM_ID CM_Value CM_Version]. rewrite Hid, E1.
      by apply orb_true_iff in E1 as [->%str_eqb_eq| ->%str_eqb_eq]. }
    destruct (str_eqb verb "approve") eqn:E2.
    { destruct rest as [|hash [|]]; [done| |done]. destruct (slen hash =? 64) eqn:El; cbn [negb orb]; [|done].
      destruct (str_eqb (lower hash) hash) eqn:Eh; cbn [negb]; [|done].
      destruct (hex_decode hash) as [l|] eqn:Ex; [|done]. intros [= <-]. cbn [CM_Verb CM_ID CM_Value CM_Version].
      rewrite Hid, E1, E2, El, Eh. split; [|done]. cbn [andb]. rewrite andb_true_r. apply bool_decide_eq_true. by eexists. }
    destruct (str_eqb verb "answer") eqn:E3; [|done].
    destruct rest as [|v [|value [|]]]; [done..| |done]. destruct (ValidID value) eqn:Ev; cbn [negb]; [|done].
    destruct (ParseInt v) as [z|] eqn:Ez; [|done]. destruct (Z.ltb_spec z 1); cbn [orb]; [done|].
    destruct (str_eqb (show z) v) eqn:Es; cbn [negb]; [|done]. apply str_eqb_eq in Es as <-. intros [= <-].
    cbn [CM_Verb CM_ID CM_Value CM_Version]. rewrite Hid, E1, E2, E3, Ev. split; [|done]. cbn [andb].
    apply andb_true_iff. split; [by apply Z.leb_le|].
    destruct (show_digit z) as (d & n & Hd & E); [lia|]. revert Ez. unfold ParseInt. rewrite E.
    assert (is_char 43 (digit d) = false) as ->.
    { unfold is_char. rewrite digit_ord by lia. apply Z.eqb_neq. lia. }
    unfold parse_int. destruct (is_char 45 (digit d)); [destruct (dec_digits 0 0 (digits n z)) as [[? ?] ?]|
      destruct (dec_digits 0 0 (String (digit d) (digits n z))) as [[? ?] ?]];
      (case_if as Ei; [|done]); intros [= <-]; by apply andb_true_iff in Ei as [_ Ei].
  - intros [[Hid Hc]%andb_true_iff ->]. destruct c as [verb id value v]. cbn [CM_Verb CM_ID CM_Value CM_Version] in *.
    destruct (str_eqb verb "ack" || str_eqb verb "reject") eqn:E1.
    { apply andb_true_iff in Hc as [->%str_eqb_eq ->%Z.eqb_eq]. rewrite Hid.
      apply orb_true_iff in E1 as [->%str_eqb_eq| ->%str_eqb_eq]; done. }
    destruct (str_eqb verb "approve") eqn:E2.
    { rewrite Hid. rewrite !andb_true_iff, bool_decide_eq_true in Hc. destruct Hc as [[Hl [Hh [x Hx]]] ->%Z.eqb_eq].
      by rewrite Hl, Hh, Hx. }
    destruct (str_eqb verb "answer") eqn:E3; [|done]. rewrite Hid. cbn [negb].
    rewrite !andb_true_iff, Z.leb_le, Z.ltb_lt in Hc. destruct Hc as [[Hv H1] H2].
    rewrite Hv, ParseInt_show by lia. cbn [negb]. destruct (Z.ltb_spec v 1); [lia|]. by rewrite str_eqb_refl.
Qed.

(** C32: chat commands.  The parser accepts exactly the well-formed commands, each
    as its words separated by any white space; what a command is written as
    reads back as that command. *)
Theorem commands_read_back c :
  (forall text, parseCommand text = Some c <-> command_ok c = true /\ Fields text = command_words c) /\
  (command_ok c = true -> parseCommand (command_text c) = Some c).
Proof.
  split; [intros text; apply parse_words|]. intros Hc. apply parse_words. split; [done|].
  by apply Fields_spaced, command_words_ok.
Qed.
Lemma commands_read_back_witness :
  command_text (mkCommand "answer" "request" "yes" 2) = "answer request 2 yes" /\
  parseCommand (command_text (mkCommand "answer" "request" "yes" 2)) = Some (mkCommand "answer" "request" "yes" 2).
Proof. split; [reflexivity|]. exact (proj2 (commands_read_back (mkCommand "answer" "request" "yes" 2)) eq_refl). Defined.

(** ** Authenticity *)
Section Authentic.
Context `{Env} `{Ed25519}.

(** A time stamp within five minutes before and half a minute after [now]. *)
Definition stamped (raw : string) (now : Time) : Prop :=
  exists n, ParseInt raw = Some n /\ now / Second - 300 <= n <= now / Second + 30.
Lemma fresh_ok raw w b w' : fresh raw w = (Ok b, w') -> b = true -> stamped raw (go_now (tick w)).
Proof.
  unfold fresh. intros Hf Hb. run. apply time_now_ok in Hm as [-> _]. unfold stamped.
  destruct (ParseInt raw) as [n|]; [|discriminate]. exists n. split; [done|].
  apply andb_true_iff in Hb as [H1%Z.leb_le H2%Z.leb_le]. lia.
Qed.

(** The proof of its origin that an update of a platform carries. *)
Definition from_slack (e : endpoint) (r : HttpRequest) (body user text : string) (now : Time) : Prop :=
  exists ts form, ts = Header_Get r "X-Slack-Request-Timestamp" /\ stamped ts now /\
    Header_Get r "X-Slack-Signature" = slack_signature (E_secret e) ts body /\ ParseQuery body = (form, true) /\
    Get form "team_id" = MC_AccountID (E_config e) /\ Get form "channel_id" = MC_ConversationID (E_config e) /\
    Get form "command" = "/sre" /\ Get form "user_id" = user /\ Get form "text" = text.
Definition from_discord (e : endpoint) (r : HttpRequest) (body user text : string) (now : Time) : Prop :=
  exists ts sig d name, ts = Header_Get r "X-Signature-Timestamp" /\ stamped ts now /\
    hex_decode (Header_Get r "X-Signature-Ed25519") = Some sig /\ ed25519_verify (E_key e) (ts +:+ body) sig = true /\
    unmarshal discord_fields (mkDiscord 0 "" "" "" false "" []) body = Some d /\
    DC_GuildID d = MC_AccountID (E_config e) /\ DC_ChannelID d = MC_ConversationID (E_config e) /\
    DC_UserID d = user /\ DC_Options d = [(name, 3, text)].
Definition from_telegram (e : endpoint) (r : HttpRequest) (body user : string) (now : Time) : Prop :=
  Header_Get r "X-Telegram-Bot-Api-Secret-Token" = E_secret e /\
  exists m sender bot, unmarshal update_fields None body = Some (Some m) /\ stamped (show (TM_Date m)) now /\
    TM_From m = Some (sender, bot) /\ show sender = user /\ show (TM_Chat m) = MC_ConversationID (E_config e).
Definition authentic (e : endpoint) (r : HttpRequest) (body user text : string) (now : Time) : Prop :=
  (MC_Provider (E_config e) = "slack" /\ from_slack e r body user text now) \/
  (MC_Provider (E_config e) = "discord" /\ from_discord e r body user text now) \/
  (MC_Provider (E_config e) = "telegram" /\ from_telegram e r body user now).

Lemma slack_ok e r body user text ignored w w' :
  decode_slack e r body w = (Ok (Message user text ignored), w') -> from_slack e r body user text (go_now (tick w)).
Proof.
  unfold decode_slack, from_slack. intros Hd. run. destruct (ParseQuery body) as [form parsed]. run.
  eexists _, form. split; [reflexivity|]. split; [by eapply fresh_ok|].
  apply str_eqb_eq in Hg0. rewrite !andb_true_iff, ?str_eqb_eq in *. 
  repeat match goal with H : _ /\ _ |- _ => destruct H end. by subst parsed.
Qed.
Lemma discord_ok e r body user text ignored w w' :
  decode_discord e r body w = (Ok (Message user text ignored), w') -> from_discord e r body user text (go_now (tick w)).
Proof.
  unfold decode_discord, from_discord. intros Hd. destruct (hex_decode _) as [sig|]; [|discriminate]. run.
  apply andb_true_iff in Hg as [Hb Hv]. destruct (unmarshal _ _ _) as [d|] eqn:Eu; [|discriminate].
  case_if_in Hd. destruct (DC_Options d) as [|[[name type] value] [|]] eqn:Eo; [discriminate| |discriminate].
  run. rewrite !andb_true_iff, ?str_eqb_eq, ?Z.eqb_eq in *. repeat match goal with H : _ /\ _ |- _ => destruct H end. subst type.
  eexists _, sig, d, name. split; [reflexivity|]. split; [by eapply fresh_ok|]. done.
Qed.
Lemma telegram_ok e r body user text ignored w w' :
  decode_telegram e r body w = (Ok (Message user text ignored), w') -> from_telegram e r body user (go_now (tick w)).
Proof.
  unfold decode_telegram, from_telegram. intros Hd. run. apply str_eqb_eq in Hg.
  destruct (unmarshal _ _ _) as [[m|]|] eqn:Eu; [|discriminate..].
  destruct (TM_From m) as [[sender bot]|] eqn:Ef; [|discriminate]. run. destruct (cut _ _) as [first rest]. run.
  rewrite !andb_true_iff, ?str_eqb_eq in *. repeat match goal with H : _ /\ _ |- _ => destruct H end.
  split; [done|]. exists m, sender, bot. split; [done|]. split; [by eapply fresh_ok|]. done.
Qed.

(** C17: chat messages are authentic.  A request to a channel is taken for a
    message of a user only if it carries what the channel's platform signs with:
    the keyed hash of the very body under the channel's secret (Slack), a valid
    signature of the body under the application's key (Discord), or the secret of
    the webhook (Telegram); it is at most five minutes old and comes from the
    configured conversation (and, but for Telegram, the configured account). *)
Theorem chat_messages_are_authentic e r body user text ignored w w' :
  decode_update e r body w = (Ok (Message user text ignored), w') ->
  authentic e r body user text (go_now (tick w)).
Proof.
  unfold decode_update, authentic. intros Hd.
  destruct (str_eqb _ "slack") eqn:E1; [apply str_eqb_eq in E1; left; split; [done|by eapply slack_ok]|].
  destruct (str_eqb _ "discord") eqn:E2; [apply str_eqb_eq in E2; right; left; split; [done|by eapply discord_ok]|].
  destruct (str_eqb _ "telegram") eqn:E3; [|discriminate].
  apply str_eqb_eq in E3. right. right. split; [done|by eapply telegram_ok].
Qed.
End Authentic.

#[local] Existing Instance Demo.env.
#[local] Existing Instance Front.signer.
Lemma chat_messages_are_authentic_witness :
  authentic Front.ops Front.signed_request Front.slack_body "U1" Front.chat_text (go_now (tick Demo.world2)).
Proof.
  apply (chat_messages_are_authentic Front.ops Front.signed_request Front.slack_body "U1" Front.chat_text false
    Demo.world2 (Demo.after (decode_update Front.ops Front.signed_request Front.slack_body) Demo.world2)).
  rewrite <- Front.chat_decodes. apply Demo.run_pair.
Defined.
