(* ===== verification/OrchestratorProps.v ===== *)
(** * Properties of the HTTP front door

    Every request served is a sequence of requests of the system; an approval is
    recorded only for a caller who is signed in, or who sent an authentic chat
    message, who asked for it and may give it; strangers change nothing; chat
    commands; and the intake of reports. *)

From stdpp Require Import relations.
From S2P Require Import Prelude.
From S2P Require Import Json.
From S2P Require Import GoTime.
From S2P Require Import Decode.
From S2P Require Import Identity.
From S2P Require Import Authorization.
From S2P Require Import Incident.
From S2P Require Import Db.
From S2P Require Import Sql.
From S2P Require Import Url.
From S2P Require Import Http.
From S2P Require Import Messaging.
From S2P Require Import Storage.
From S2P Require Import Records.
From S2P Require Import Queues.
From S2P Require Import Privacy.
From S2P Require Import Fleet.
From S2P Require Import Recovery.
From S2P Require Import Governance.
From S2P Require Import Investigation.
From S2P Require Import Knowledge.
From S2P Require Import Snapshot.
From S2P Require Import Report.
From S2P Require Import Rounds.
From S2P Require Import Diagnosis.
From S2P Require Import Execution.
From S2P Require Import ExecutionSafety.
From S2P Require Import Executor.
From S2P Require Import Falco.
From S2P Require Import AgentApi.
From S2P Require Import Bodies.
From S2P Require Import Orchestrator.
From S2P Require Import ExecutionFacts.
From S2P Require Import System.
From S2P Require Import Evolution.
From S2P Require Import Scenario.
From S2P Require Import ExecutionProps.
From S2P Require Import SystemProps.
From S2P Require Import DiagnosisSteps.
From S2P Require Import Toy.
From S2P Require Import OrchestratorSteps.
From S2P Require Import Frontdoor.

Import Messaging Bodies Orchestrator.

(** ** Approvals *)

(** Every approval that is new in the log is one of [G]; the invariant of the
    action tables is kept. *)
Definition approving (G : Scope -> string -> Action -> Prop) (d d' : DB) : Prop :=
  exec_inv d -> exec_inv d' /\
  forall sc id a, a ∈ log d' sc id -> A_State a = "APPROVED" -> a ∈ log d sc id \/ G sc id a.

#[export] Instance approving_refl G : Reflexive (approving G).
Proof. intros d Hd. split; [done|]. auto. Qed.
#[export] Instance approving_trans G : Transitive (approving G).
Proof.
  intros a b c H1 H2 Ha. destruct (H1 Ha) as [Hb N1]. destruct (H2 Hb) as [Hc N2]. split; [done|].
  intros sc id x Hx Hs. destruct (N2 _ _ _ Hx Hs) as [Hy|]; auto.
Qed.
Lemma approving_mono (G G' : Scope -> string -> Action -> Prop) d d' :
  (forall sc id a, G sc id a -> G' sc id a) -> approving G d d' -> approving G' d d'.
Proof.
  intros Hg Ha Hd. destruct (Ha Hd) as [Hd' N]. split; [done|]. intros sc id a H1 H2. destruct (N _ _ _ H1 H2); auto.
Qed.
Lemma still_approving G d d' : still d d' -> approving G d d'.
Proof.
  intros [E1 E2] Hd. split; [by eapply exec_inv_same|]. intros sc id a. unfold log. rewrite E2. auto.
Qed.
Lemma moves_approving (G : Scope -> string -> Action -> Prop) d d' sc id a :
  (A_State a = "APPROVED" -> G sc id a) -> moves d d' sc id a -> approving G d d'.
Proof.
  intros Hg Hm Hd. split; [by eapply exec_inv_moves|]. intros sc' id' b Hb Hs.
  destruct (decide ((sc', id') = (sc, id))) as [[= -> ->]|Hne].
  - rewrite (mv_log _ _ _ _ _ Hm) in Hb. apply elem_of_app in Hb as [Hb| ->%list_elem_of_singleton]; auto.
  - destruct (mv_other _ _ _ _ _ Hm _ _ Hne) as [E _]. rewrite E in Hb. by left.
Qed.

(** The approvals that [p] may give through [ex] in [sc0], for what it [asks]. *)
Definition given (ex : option ExecService) (p : Principal) (sc0 : Scope) (asks : string -> string -> Prop)
  (sc : Scope) (id : string) (a : Action) : Prop :=
  sc = sc0 /\ asks id (A_Hash a) /\ A_ApprovedBy a = P_ID p /\
  exists f now, available ex = Some f /\ Authorize (Some (Policy_ f)) now p sc Authorization.Approve = true.

Section Approvals.
Context `{Env} (G : Scope -> string -> Action -> Prop).

Lemma approving_tx {A} f sc (fn : Tx -> M A) :
  (forall t w a w', scope t = sc -> fn t w = (Ok a, w') -> exec_inv (db w) ->
     still (db w) (db w') \/ exists id x, moves (db w) (db w') sc id x /\ (A_State x = "APPROVED" -> G sc id x)) ->
  Steps (approving G) (tx_of f sc fn).
Proof.
  intros Hf w r w' Ht Hinv. apply Transact_atomic in Ht as [->|(_ & a & w0 & w1 & E & Hr & -> & _)].
  - split; [done|]. auto.
  - rewrite <- E in *. edestruct Hf as [Hs|(id & x & Hm & Hg)]; [|exact Hr|exact Hinv|..]; [done|..].
    + by apply still_approving.
    + by eapply moves_approving.
Qed.
Lemma approving_pure {A B} (m : M A) (f : A -> M B) :
  Steps eq m -> (forall w a w', m w = (Ok a, w') -> Steps (approving G) (f a)) -> Steps (approving G) (bind m f).
Proof. intros Hm. apply steps_bind_ok; [exact _..|]. apply steps_pure; [exact _|done]. Qed.

Lemma CancelTx_state id t w a w' : CancelTx id t w = (Ok a, w') -> A_State a = "CANCELLED".
Proof. unfold CancelTx. intros Hc. run. destruct r as [b rc]. by run. Qed.
Lemma ProposeTx_state f p sc r t w a w' : ProposeTx f p sc r t w = (Ok a, w') -> A_State a = "PROPOSED".
Proof. unfold ProposeTx. intros Hp. run. by apply propose_action_ok in Hm as (_ & Hs & _). Qed.

Lemma op_approving ex sc op :
  (forall p id hash f now a, op = OpApprove p id hash -> available ex = Some f ->
     Authorize (Some (Policy_ f)) now p sc Authorization.Approve = true -> A_ApprovedBy a = P_ID p -> A_Hash a = hash ->
     G sc id a) ->
  Steps (approving G) (run_op ex sc op).
Proof.
  intros HG. destruct op; cbn [run_op]; (apply steps_bind; [exact _| |intros ?; steps]);
    unfold Propose, Execution.Approve, Claim, Receipt, Cancel, Reconcile;
    (destruct (available ex) as [f|] eqn:Ef; [|steps]).
  1: apply approving_pure; [apply authorize_pure|intros _ [] _ _]; apply approving_pure; [apply guard_pure|intros _ [] _ _].
  2: apply approving_pure; [apply authorize_pure|intros wa [] wa' Hau].
  4: apply approving_pure; [apply guard_pure|intros wg [] wg' Hgu].
  5-6: apply approving_pure; [apply authorize_pure|intros _ [] _ _].
  6: apply approving_pure; [apply guard_pure|intros _ [] _ _].
  all: apply approving_tx; intros t wt a wt' <- Ht Hinv.
  - right. eexists _, _. split; [by eapply ProposeTx_ok|]. by rewrite (ProposeTx_state _ _ _ _ _ _ _ _ Ht).
  - right. pose proof (authorize_principal _ _ _ _ _ _ _ Hau) as Hp. apply authorize_ok in Hau as [Hau _].
    apply ApproveTx_ok in Ht as (a0 & _ & _ & Hh & -> & _ & Hm); [|done|done]. eexists _, _. split; [exact Hm|]. intros _.
    by eapply HG.
  - right. apply ClaimTx_ok in Ht as (? & ? & _ & _ & _ & _ & _ & _ & _ & _ & [at_ E] & Hm); [|done].
    eexists _, _. split; [exact Hm|]. rewrite E. discriminate.
  - apply guard_ok in Hgu as [Hgu _]. unfold mem_str in Hgu. breflect.
    apply ReceiptTx_ok in Ht as (? & ? & _ & _ & _ & _ & [(_ & _ & -> & _)|(_ & E & Hm)]); [by left| |done|done].
    right. eexists _, _. split; [exact Hm|]. rewrite E. intros Hs.
    match type of E with _ = receipt_state ?o => pose proof (receipt_state_cases o) as Hc end. rewrite Hs in Hc. listed Hc.
  - right. eexists _, _. split; [by eapply CancelTx_ok|]. by rewrite (CancelTx_state _ _ _ _ _ Ht).
  - right. apply ReconcileTx_ok in Ht as [E Hm]; [|done]. eexists _, _. split; [exact Hm|]. by rewrite E.
Qed.

Lemma others_approving q : (forall x sc o, q <> RExec x sc o) -> Steps (approving G) (run_request q).
Proof. intros Hne w x w' Hr. apply still_approving. by refine (still_request _ _ _ _ _ Hr). Qed.
Lemma performs_approving `{AEAD} s p sc0 asks q :
  (forall sc id a, given (SV_Execution s) p sc0 asks sc id a -> G sc id a) -> performs s p sc0 asks q ->
  Steps (approving G) (run_request q).
Proof.
  intros HG Hq. destruct q as [x sc o| | | | | | | | | | | | | | | | | | | | | | | | | | | | |];
    [|apply others_approving; intros; discriminate..].
  cbn [run_request]. apply op_approving. intros p' id hash f now a -> Hav Hau Hby <-.
  destruct Hq as ([= -> -> ->] & _ & Hasks). apply HG. split; [done|]. split; [done|]. split; [done|]. eauto.
Qed.
Lemma reports_approving `{AEAD} s token sc q : reports s token sc q -> Steps (approving G) (run_request q).
Proof.
  intros Hq. destruct q as [x sc' o| | | | | | | | | | | | | | | | | | | | | | | | | | | | |];
    [|apply others_approving; intros; discriminate..].
  cbn [run_request]. apply op_approving. intros p' id hash f now a -> _ _ _ _. destruct Hq as (? & ? & _ & _ & []).
Qed.
Lemma browses_approving `{Provider} s r q : browses s r q -> Steps (approving G) (run_request q).
Proof. intros Hq. apply others_approving. intros x sc o ->. done. Qed.
Lemma webhooks_approving s r q : webhooks s r q -> Steps (approving G) (run_request q).
Proof. intros Hq. apply others_approving. intros x sc o ->. done. Qed.
End Approvals.

(** What the request [r] may approve: what a signed-in caller posts to the
    approval route, or what an authentic chat message commands. *)
Definition granted `{Env} `{Ed25519} `{Provider} (s : Server) (r : HttpRequest) (d : DB)
  (sc : Scope) (id : string) (a : Action) : Prop :=
  (exists p, signed_in s r d p /\ given (SV_Execution s) p (query_scope r) (posted r) sc id a) \/
  (exists p sc' c, sent (SV_Channels s) r p sc' c /\ given (SV_Execution s) p sc' (commanded c) sc id a).

(** C7: approvals come from those who may give them.  While one HTTP request is
    served, whatever other replicas do short of approving, an approval appears in
    the log of an action only if the request asked for it: the caller is signed
    in (a token the identity provider vouches for, or a browser session together
    with the page's origin and secret) and posted that very plan hash to the
    approval route of that action and scope, or an authentic message of a
    configured chat user commanded it; and the policy lets that principal, under
    whose name it is recorded, approve in the scope. *)
Theorem approvals_are_asked_for `{Env} `{AEAD} `{Ed25519} `{Provider} `{Runtime} s others polls admitted r w x w' :
  SV_Guidance s = Some (backend s) -> Steps (approving (fun _ _ _ => False)) others -> reachable (db w) ->
  ServeHTTP s others polls admitted r w = (x, w') ->
  forall sc id a, a ∈ log (db w') sc id -> A_State a = "APPROVED" ->
    a ∈ log (db w) sc id \/ granted s r (db w) sc id a.
Proof.
  intros Hg Ho Hr Hs sc id a. apply reachable_inv in Hr.
  refine (proj2 (ServeHTTP_keeps s (approving (granted s r (db w))) others polls admitted r w x w' Hg _ _ _ _ _ _ Hs Hr) sc id a).
  - intros _ w1 y w2 Hy. eapply approving_mono; [|exact (Ho _ _ _ Hy)]. done.
  - intros p Hp q. apply performs_approving. intros sc' id' b Hb. left. by exists p.
  - intros q. apply reports_approving.
  - intros q. apply browses_approving.
  - intros _ q. apply webhooks_approving.
  - intros p sc' c Hc. apply command_keeps; [exact _..|]. intros q. apply performs_approving. intros sc1 id' b Hb. right. eauto.
Qed.

#[local] Existing Instance Demo.env.
#[local] Existing Instance Toy.cipher.
#[local] Existing Instance Front.signer.
#[local] Existing Instance Front.provider.
#[local] Existing Instance Front.runtime.

Lemma approved_in w : Front.approved w = true ->
  exists a, a ∈ log (db w) Demo.sc Demo.id /\ A_State a = "APPROVED".
Proof.
  unfold Front.approved. intros (a & Ha & Hs)%existsb_exists. exists a. split; [by apply list_elem_of_In|].
  by apply str_eqb_eq in Hs.
Qed.
Lemma not_approved_in w a : Front.approved w = false -> a ∈ log (db w) Demo.sc Demo.id -> A_State a = "APPROVED" -> False.
Proof.
  unfold Front.approved. intros Hf Ha Hs. assert (Ht : existsb (fun a => str_eqb (A_State a) "APPROVED") (log (db w) Demo.sc Demo.id) = true).
  { apply existsb_exists. exists a. split; [by apply list_elem_of_In|by rewrite Hs]. }
  rewrite Ht in Hf. discriminate.
Qed.
Lemma reach2 : reachable (db Demo.world2).
Proof. exact (DemoFacts.reach_step _ _ DemoFacts.reach1 Demo.propose_step). Qed.

(** What is approved while the front door serves [r] on the proposed action. *)
Definition approves (r : HttpRequest) : Prop :=
  exists a, A_State a = "APPROVED" /\ granted Front.server r (db Demo.world2) Demo.sc Demo.id a.
Lemma newly_approved r (Hnew : forall a, a ∈ log (db (Demo.after (Front.serve r) Demo.world2)) Demo.sc Demo.id ->
    A_State a = "APPROVED" ->
    a ∈ log (db Demo.world2) Demo.sc Demo.id \/ granted Front.server r (db Demo.world2) Demo.sc Demo.id a) :
  Front.approved Demo.world2 = false -> Front.approved (Demo.after (Front.serve r) Demo.world2) = true -> approves r.
Proof.
  intros H0 H1. destruct (approved_in _ H1) as (a & Ha & Hs). exists a. split; [exact Hs|].
  destruct (Hnew a Ha Hs) as [Hb|Hg]; [destruct (not_approved_in _ _ H0 Hb Hs)|exact Hg].
Qed.

Lemma serve_pair r : ServeHTTP Front.server Front.nobody 0 true r Demo.world2
  = (Demo.result (Front.serve r) Demo.world2, Demo.after (Front.serve r) Demo.world2).
Proof. unfold Front.serve. apply Demo.run_pair. Qed.

Lemma approvals_are_asked_for_witness : approves Front.approve_request /\ approves Front.signed_request.
Proof.
  exact (conj
    (newly_approved Front.approve_request
      (approvals_are_asked_for Front.server Front.nobody 0 true Front.approve_request Demo.world2
        (Demo.result (Front.serve Front.approve_request) Demo.world2)
        (Demo.after (Front.serve Front.approve_request) Demo.world2)
        eq_refl (steps_ret (approving (fun _ _ _ => False)) tt) reach2
        (serve_pair Front.approve_request) Demo.sc Demo.id)
      (proj1 Front.front_runs) (proj1 (proj2 Front.front_runs)))
    (newly_approved Front.signed_request
      (approvals_are_asked_for Front.server Front.nobody 0 true Front.signed_request Demo.world2
        (Demo.result (Front.serve Front.signed_request) Demo.world2)
        (Demo.after (Front.serve Front.signed_request) Demo.world2)
        eq_refl (steps_ret (approving (fun _ _ _ => False)) tt) reach2
        (serve_pair Front.signed_request) Demo.sc Demo.id)
      (proj1 Front.front_runs) (proj1 (proj2 (proj2 Front.front_runs))))).
Defined.

(** ** Refinement *)

(** The request [q] takes the database from [d] to [d']. *)
Definition ran `{Env} (q : request) (d d' : DB) : Prop :=
  exists k x w', run_request q (mkWorld d k) = (x, w') /\ d' = db w'.

(** The changes that serving [r] may make, on whose authority: a signed-in
    caller's, in the scope of the query and with the permission that the change
    takes; an agent's, by its token; a browser's that signs in or out; a signed-in
    caller's that has the webhook's secret; a chat user's, by an authentic message;
    and, while an agent's claim or refresh waits, those of other replicas.  [d0] is
    the database when the request arrives. *)
Inductive serving `{Env} `{AEAD} `{Ed25519} `{Provider} (s : Server) (r : HttpRequest) (d0 d d' : DB) : Prop :=
| by_person p q : signed_in s r d0 p -> performs s p (query_scope r) (posted r) q -> ran q d d' -> serving s r d0 d d'
| by_agent q : reports s (agentToken r) (query_scope r) q -> ran q d d' -> serving s r d0 d d'
| by_browser q : browses s r q -> ran q d d' -> serving s r d0 d d'
| by_webhook p q : signed_in s r d0 p -> webhooks s r q -> ran q d d' -> serving s r d0 d d'
| by_chat p sc c q : sent (SV_Channels s) r p sc c -> performs s p sc (commanded c) q -> ran q d d' -> serving s r d0 d d'
| by_others : waits r -> step d d' -> serving s r d0 d d'.

Lemma ran_steps `{Env} (R : DB -> DB -> Prop) q : (forall d d', ran q d d' -> R d d') -> Steps (rtc R) (run_request q).
Proof. intros HR [d k] x w' Hr. apply rtc_once, HR. by exists k, x, w'. Qed.
Lemma serving_step `{Env} `{AEAD} `{Ed25519} `{Provider} s r d0 d d' : serving s r d0 d d' -> step d d'.
Proof. intros [p q _ _ Hr|q _ Hr|q _ Hr|p q _ _ Hr|p sc c q _ _ Hr|_ Hs]; [..|exact Hs]; destruct Hr as (k & x & w' & Hr & ->); by eapply step_request. Qed.

(** C33: HTTP requests are requests of the system, on their callers' authority.
    Whatever is sent to the orchestrator (on a path that net/url escapes) and
    whatever fails, serving it takes the database through a sequence of requests
    of the system, so that every invariant of the system holds before, between and
    after them; and each is made on the authority that [serving] says: a person's
    by the signed-in caller, as itself, in the scope it named, where the policy
    gave it the permission for that change; an agent's with the token it
    presented; a session only for an identity that was verified; Falco's only by a
    signed-in caller with the webhook's secret, where one is configured, and
    nothing but the record of an event; a chat's only by an authentic message.  Other replicas
    work in between only while an agent's claim or refresh waits.  And a GET or
    HEAD to /api/, which a session alone may send, changes nothing. *)
Theorem http_requests_refine_system `{Env} `{AEAD} `{Ed25519} `{Provider} `{Runtime} s others polls admitted r w x w' :
  SV_Guidance s = Some (backend s) -> is_Some (unescape false (H_Path r)) -> Steps (rtc step) others ->
  ServeHTTP s others polls admitted r w = (x, w') ->
  rtc (serving s r (db w)) (db w) (db w') /\ rtc step (db w) (db w') /\
  (mem_str (H_Method r) ["GET"; "HEAD"] = true -> has_prefix "/api/" (URLPath r) = true -> db w' = db w).
Proof.
  intros Hg Hu Ho Hs. assert (Hr : rtc (serving s r (db w)) (db w) (db w')).
  { refine (ServeHTTP_keeps s (rtc (serving s r (db w))) others polls admitted r w x w' Hg _ _ _ _ _ _ Hs).
    - intros Hw w1 y w2 Hy. eapply (rtc_subrel step _); [|exact (Ho _ _ _ Hy)]. intros a b. by apply by_others.
    - intros p Hp q Hq. apply ran_steps. intros d d'. by eapply by_person.
    - intros q Hq. apply ran_steps. intros d d'. by apply by_agent.
    - intros q Hq. apply ran_steps. intros d d'. by apply by_browser.
    - intros [p Hp]%(fun f => f Hu) q Hq. apply ran_steps. intros d d'. by eapply by_webhook.
    - intros p sc c Hc. apply command_keeps; [exact _..|]. intros q Hq. apply ran_steps. intros d d'.
      by eapply by_chat. }
  split; [exact Hr|]. split; [eapply (rtc_subrel _ step); [apply serving_step|exact Hr]|].
  intros Hm Hapi. by eapply reading_keeps.
Qed.

Lemma http_requests_refine_system_witness :
  rtc (serving Front.server Front.approve_request (db Demo.world2)) (db Demo.world2)
    (db (Demo.after (Front.serve Front.approve_request) Demo.world2)) /\
  Front.approved (Demo.after (Front.serve Front.approve_request) Demo.world2) = true /\
  rtc (serving Front.server Front.event_request (db Demo.world2)) (db Demo.world2)
    (db (Demo.after (Front.serve Front.event_request) Demo.world2)) /\
  Front.recorded (Demo.after (Front.serve Front.event_request) Demo.world2) = ["incident"; "incident"].
Proof.
  split; [|split; [exact (proj1 (proj2 Front.front_runs))|split; [|exact (proj1 (proj2 Front.event_runs))]]].
  - exact (proj1 (http_requests_refine_system Front.server Front.nobody 0 true Front.approve_request Demo.world2 _ _ eq_refl
      Front.approve_path (steps_ret _ _) (serve_pair Front.approve_request))).
  - exact (proj1 (http_requests_refine_system Front.server Front.nobody 0 true Front.event_request Demo.world2 _ _ eq_refl
      Front.event_path (steps_ret _ _) (serve_pair Front.event_request))).
Defined.

(** ** Strangers *)

(** C13: strangers change nothing.  A request of a foreign origin, one that
    asserts an identity in a header, and one to /api/ whose caller is not signed
    in (so also one that has a session but neither the origin nor the secret of
    the orchestrator's pages, unless it only reads) is answered with an error and
    leaves the database as it was. *)
Theorem strangers_change_nothing `{Env} `{AEAD} `{Ed25519} `{Provider} `{Runtime} s others polls admitted r w x w' :
  ((Header_Get r "Origin" <> "" /\ Header_Get r "Origin" <> origin s) \/
   (exists header, header ∈ asserted /\ Header_Get r header <> "") \/
   (has_prefix "/api/" (URLPath r) = true /\ forall p, ~ signed_in s r (db w) p)) ->
  ServeHTTP s others polls admitted r w = (x, w') ->
  db w' = db w /\ exists status message, x = Ok (writeError status message) /\ status ∈ [503; 403; 400; 401].
Proof.
  intros Hstranger. unfold ServeHTTP. case_if as E1; [intros [= <- <-]; split; [done|]; eexists _, _; split; [done|left]|].
  case_if as E2; [intros [= <- <-]; split; [done|]; eexists _, _; split; [done|right; left]|].
  case_if as E3; [intros [= <- <-]; split; [done|]; eexists _, _; split; [done|right; right; left]|].
  destruct Hstranger as [[Ho1 Ho2]|[(header & Hin & Hh)|[Hapi Hno]]].
  - exfalso. apply andb_false_iff in E2 as [E2|E2]; apply negb_false_iff in E2; breflect; done.
  - exfalso. assert (Ht : existsb (fun header => negb (str_eqb (Header_Get r header) "")) asserted = true); [|congruence].
    apply existsb_exists. exists header. split; [by apply list_elem_of_In|].
    destruct (str_eqb (Header_Get r header) "") eqn:Ee; [by apply str_eqb_eq in Ee|done].
  - rewrite Hapi. destruct (authenticate s r w) as [[[p csrf]|e] w1] eqn:Ea.
    + exfalso. exact (Hno p (authenticate_ok _ _ _ _ _ _ Ea)).
    + intros [= <- <-]. rewrite <- (pure_authenticate s r _ _ _ Ea). split; [done|].
      eexists _, _. split; [done|]. do 3 right. left.
Qed.

(** The sidecar's secret is not an identity. *)
Lemma falco_not_signed_in p : ~ signed_in Front.server Front.falco_request (db Demo.world2) p.
Proof.
  intros [(value & token & now & Hv & Hb & Hver)|(key & b & now & Hv & _)]; vm_compute in Hv; [|discriminate].
  injection Hv as <-. vm_compute in Hb. injection Hb as <-. vm_compute in Hver. discriminate.
Qed.
Lemma strangers_change_nothing_witness :
  db (Demo.after (Front.serve Front.falco_request) Demo.world2) = db Demo.world2 /\
  Front.status (Demo.result (Front.serve Front.falco_request) Demo.world2) = 401.
Proof.
  split; [|exact (proj2 (proj2 (proj2 (proj2 (proj2 (proj2 (proj2 Front.front_runs)))))))].
  exact (proj1 (strangers_change_nothing Front.server Front.nobody 0 true Front.falco_request Demo.world2 _ _
    (or_intror (or_intror (conj eq_refl falco_not_signed_in)))
    (serve_pair Front.falco_request))).
Defined.
