(* ===== verification/ReportProps.v ===== *)
(** * Properties of the intake of reports

    A report is taken in once: whatever is sent again under its identifier
    changes nothing, and is acknowledged only if it is the same report. *)

From S2P Require Import Prelude.
From S2P Require Import Json.
From S2P Require Import GoTime.
From S2P Require Import Decode.
From S2P Require Import Identity.
From S2P Require Import Authorization.
From S2P Require Import Incident.
From S2P Require Import Db.
From S2P Require Import Sql.
From S2P Require Import Url.
From S2P Require Import Http.
From S2P Require Import Messaging.
From S2P Require Import Storage.
From S2P Require Import Records.
From S2P Require Import Queues.
From S2P Require Import Privacy.
From S2P Require Import Fleet.
From S2P Require Import Recovery.
From S2P Require Import Governance.
From S2P Require Import Investigation.
From S2P Require Import Knowledge.
From S2P Require Import Snapshot.
From S2P Require Import Report.
From S2P Require Import Execution.
From S2P Require Import ExecutionFacts.
From S2P Require Import System.
From S2P Require Import Lineage.
From S2P Require Import RunText.
From S2P Require Import Evolution.
From S2P Require Import Scenario.
From S2P Require Import ExecutionProps.
From S2P Require Import SystemProps.
From S2P Require Import FleetProps.
From S2P Require Import Toy.
From S2P Require Import DiagnosisSteps.
From S2P Require Import OrchestratorSteps.
From S2P Require Import JsonFacts.
From S2P Require Import Sha256.

(** ** The outbox only grows while a report is taken in *)
Definition grows (d d' : DB) : Prop := forall o : row Toutbox, o ∈ d Toutbox -> o ∈ d' Toutbox.
#[export] Instance grows_refl : Reflexive grows.
Proof. by intros d o. Qed.
#[export] Instance grows_trans : Transitive grows.
Proof. intros a b c H1 H2 o Ho. auto. Qed.

Lemma store_grows {A} (a : A) d t l a' d' : t <> Toutbox -> store a d t l = inr (a', d') -> grows d d'.
Proof. intros Ht (_ & -> & _)%store_ok o Ho. by rewrite upd_other. Qed.
Ltac grows_side :=
  intros; match goal with H : store _ _ _ _ = inr _ |- _ => eapply store_grows; [|exact H]; discriminate end.
Ltac grows_step :=
  first
  [ apply steps_pure; [exact _|solve [auto with pure nocore]]
  | progress cbv zeta
  | apply steps_insert; [exact _|grows_side]
  | apply steps_insert_or_skip; [exact _|grows_side]
  | apply steps_upsert; [exact _|grows_side]
  | apply steps_update_returning; [exact _|grows_side]
  | apply steps_update; [exact _|exact _|grows_side]
  | apply steps_exec; [exact _|intros ? ? ? ?; cbv zeta; grows_side]
  | steps_one ].

Section Grows.
Context `{Env}.

Lemma outbox_grows c r : Steps grows (insert_or_skip Toutbox c r).
Proof.
  apply steps_exec; [exact _|]. intros now d a d'. case_if as E1; [done|]. case_if as E2; [by intros [= _ <-]|].
  intros (_ & -> & _)%store_ok o Ho. rewrite upd_same. apply elem_of_app. by left.
Qed.
Lemma EnqueueOnce_grows t key kind payload : Steps grows (EnqueueOnce t key kind payload).
Proof. unfold EnqueueOnce, NewID. repeat first [apply outbox_grows | grows_step]. Qed.
#[local] Hint Resolve EnqueueOnce_grows : steps.
Lemma AssessTx_grows t sc incident profile at_ : Steps grows (Recovery.AssessTx t sc incident profile at_).
Proof. unfold Recovery.AssessTx, GetRecoveryProfile, Enqueue, PutRecoveryAssessment, NewID. repeat grows_step. Qed.
Lemma store_observation_grows sc incident a r o t : Steps grows (Collection.store_observation sc incident a r o t).
Proof.
  unfold Collection.store_observation, Collection.open_incident, CurrentItem, check_item_scope, Incident_, CreateIncident,
    Enqueue, FulfillCollectionChecks, PutItem, linkGuidance, PutHealthSample, ensure_scope.
  repeat grows_step.
Qed.
Lemma follow_recovery_grows sc incident t : Steps grows (Collection.follow_recovery sc incident t).
Proof.
  unfold Collection.follow_recovery, Collection.recovery_changed, GetRecoveryProfile, Incident_, UpdateIncident, Enqueue, NewID.
  repeat first [apply AssessTx_grows | grows_step].
Qed.
End Grows.

(** ** The event that a report leaves *)
Definition report_event (r : Collection.Report) : list (string * json) := [("report_hash", JStr (Collection.report_hash r))].
Lemma id_text s : str_forall id_char s = true -> text_ok s.
Proof.
  intros Hs. split; [apply ascii_utf8|unfold no_nul]; (eapply str_forall_impl; [|exact Hs]);
    intros c; unfold id_char, in_range, is_char; lia.
Qed.
Lemma event_ok h (v := JObj [("report_hash", JStr h)]) : text_ok h -> good 0 v /\ plain v /\ print v = encode v.
Proof.
  intros Hh. assert (Hk : text_ok "report_hash") by by apply id_text. split; [|split; [|done]].
  - apply good_object; [lia|apply NoDup_singleton|]. apply Forall_singleton. split; [apply Hk|]. constructor; [lia|apply Hh].
  - apply plain_object, Forall_singleton. split; [apply Hk|]. constructor. apply Hh.
Qed.
Lemma sha_text s : text_ok (sha256_hex s).
Proof.
  pose proof (sha256_hex_ValidID s) as Hv. revert Hv. generalize (sha256_hex s). intros h. unfold ValidID.
  intros [_ Hv]%andb_true_iff. by apply id_text.
Qed.
Lemma report_event_ok r : good 0 (JObj (report_event r)) /\ plain (JObj (report_event r)) /\
  print (JObj (report_event r)) = encode (JObj (report_event r)).
Proof. exact (event_ok _ (sha_text (default "" (Marshal (Collection.report_json r))))). Qed.
(** The payload is the text of the event, as jsonb keeps it. *)
Lemma report_payload r c : CanonicalObject (print (JObj (report_event r))) = Ok c ->
  c = encode (JObj (report_event r)) /\ jsonb_text c = Some c /\ CanonicalObject c = Ok c.
Proof.
  destruct (report_event_ok r) as (Hg & Hp & E). rewrite E. intros Hc.
  destruct (plain_text _ _ Hg Hp Hc) as (-> & Hj & Hi & _). by rewrite E in *.
Qed.
Lemma report_payload_inj r r' :
  encode (JObj (report_event r)) = encode (JObj (report_event r')) -> Collection.report_hash r = Collection.report_hash r'.
Proof.
  intros E. destruct (report_event_ok r) as (Hg & _), (report_event_ok r') as (Hg' & _).
  apply encode_inj in E; [|done..]. unfold report_event in E. congruence.
Qed.

Lemma outbox_inj d (o o' : row Toutbox) :
  db_ok d -> o ∈ d Toutbox -> o' ∈ d Toutbox -> o_scope o = o_scope o' -> o_key o = o_key o' -> o = o'.
Proof.
  intros [Hd _] Ho Ho' Es Ei. destruct (Hd Toutbox) as [_ Hu].
  eapply (unique_inj Toutbox _ _ o o' (kscope (o_scope o') ++ [KS (o_key o')])); [done|right; by left|done|done|..]; cbn.
  - by rewrite Es, Ei.
  - done.
Qed.

Section Intake.
Context `{Env}.

(** The event under the identifier of a report. *)
Definition taken (d : DB) (sc : Scope) (r : Collection.Report) : Prop :=
  exists o : row Toutbox, o ∈ d Toutbox /\ o_scope o = sc /\ o_key o = Collection.RT_ID r /\
    CanonicalObject (o_payload o) = Ok (encode (JObj (report_event r))).

Lemma enqueue_taken t r w b w' :
  EnqueueOnce t (Collection.RT_ID r) "COLLECTOR_REPORT" (print (JObj (report_event r))) w = (Ok b, w') ->
  (b = true /\ (forall o : row Toutbox, o ∈ db w Toutbox -> o_scope o = scope t -> o_key o <> Collection.RT_ID r) /\
   taken (db w') (scope t) r) \/
  (b = false /\ db w' = db w /\ taken (db w) (scope t) r).
Proof.
  unfold EnqueueOnce. intros He. run. destruct (CanonicalObject _) as [c|] eqn:Ec; [|discriminate].
  apply report_payload in Ec as (-> & Hj & Hi). run. apply NewID_pure in Hm. rewrite Hj in He. run.
  apply insert_or_skip_ok in Hm0 as [(-> & Ed & Hx)|(-> & Hx & Ed & _)].
  - right. cbn [Z.eqb] in He. run. apply query_row_ok in Hm0 as [[l E] ->].
    assert (Hin : r1 ∈ r1 :: l) by left. rewrite <- E in Hin. apply list_elem_of_In, filter_In in Hin as [Hin%list_elem_of_In Hp].
    destruct (CanonicalObject (o_payload r1)) as [text|] eqn:Et; [|discriminate]. run.
    apply andb_true_iff in Hp as [Hs Hk], Hg0 as [_ Hc]. apply str_eqb_eq in Hc as <-, Hk.
    unfold in_scope in Hs. apply scope_eqb_eq in Hs. rewrite Ed, Hm in Hin. cbn [db next]. rewrite Ed, Hm.
    split; [done|]. split; [done|]. by exists r1.
  - left. change (if 1 =? 1 then _ else _) with (ret true) in He. run. split; [done|]. split.
    + intros o Ho Hs Hk. rewrite Hm in Hx.
      apply not_true_iff_false in Hx. apply Hx, existsb_exists. exists o. split; [by apply list_elem_of_In|].
      cbn [o_scope o_key]. by rewrite Hs, Hk, scope_eqb_refl, str_eqb_refl.
    + eexists. split; [rewrite Ed, upd_same; apply elem_of_app; right; apply list_elem_of_singleton; reflexivity|]. done.
Qed.

Lemma ingest_taken f sc token r t w w' :
  Collection.ingestTx f sc token r t w = (Ok tt, w') -> taken (db w') (scope t) r.
Proof.
  unfold Collection.ingestTx. intros Hi. run. apply AuthenticateTx_ok in Hm as [Ea _].
  change [("report_hash", JStr (Collection.report_hash r))] with (report_event r) in *.
  assert (Hgrow : taken (db w1) (scope t) r -> forall (m : M unit), Steps grows m -> m w1 = (Ok tt, w') -> taken (db w') (scope t) r).
  { intros (o & Ho & Hrest) m Hm Hw. exists o. split; [exact (Hm _ _ _ Hw _ Ho)|done]. }
  apply enqueue_taken in Hm0 as [(-> & _ & Ht)|(-> & Ed & Ht)]; cbn [negb] in Hi.
  - revert Hi. apply (Hgrow Ht). unfold PutCoverage, ActiveIncident.
    repeat first [apply store_observation_grows | apply follow_recovery_grows | grows_step].
  - run. by rewrite Ed.
Qed.

Lemma validate_pure r : Steps eq (catch (Collection.validate_report r) (fun _ => throw ErrInvalid)).
Proof. repeat first [apply Collection.pure_validate_report | steps_one]. Qed.
End Intake.

(** C20: a report is taken in once.  A report that was accepted has left its event
    under its identifier; while that event is there, whatever is sent under that
    identifier, by anyone with any credential, changes nothing, and is accepted
    only if it has the digest of the first. *)
Theorem reports_are_taken_once `{Env} f sc token r w w1 :
  Collection.Ingest f sc token r w = (Ok tt, w1) ->
  taken (db w1) sc r /\
  forall f' token' r' w2 y w3, db_ok (db w2) -> taken (db w2) sc r -> Collection.RT_ID r' = Collection.RT_ID r ->
    Collection.Ingest f' sc token' r' w2 = (y, w3) ->
    db w3 = db w2 /\ (y = Ok tt -> Collection.report_hash r' = Collection.report_hash r).
Proof.
  intros Hi. split.
  - unfold Collection.Ingest, tx_of in Hi. run. apply Transact_ok in Hi as (_ & wa & wb & _ & Ht & ->).
    exact (ingest_taken _ _ _ _ _ _ _ Ht).
  - clear Hi. intros f' token' r' w2 y w3 Hok (o & Ho & Hs & Hk & Hp) Hid Hi.
    assert (Hagain : forall t wa wb, scope t = sc -> db wa = db w2 -> Collection.ingestTx f' sc token' r' t wa = (Ok tt, wb) ->
      db wb = db w2 /\ Collection.report_hash r' = Collection.report_hash r).
    { intros t wa wb Hsc Ea Ht. unfold Collection.ingestTx in Ht. run. apply AuthenticateTx_ok in Hm as [Eau _].
      change [("report_hash", JStr (Collection.report_hash r'))] with (report_event r') in *.
      apply enqueue_taken in Hm0 as [(-> & Hno & _)|(-> & Ed & o' & Ho' & Hs' & Hk' & Hp')]; cbn [negb] in Ht.
      - exfalso. rewrite Eau, Ea in Hno. apply (Hno o Ho); congruence.
      - run. rewrite Eau, Ea in *. split; [done|]. assert (o' = o) as ->.
        { eapply outbox_inj; [exact Hok|done|done|congruence..]. }
        apply report_payload_inj. congruence. }
    unfold Collection.Ingest, tx_of in Hi. unfold bind at 1 in Hi.
    destruct (catch _ _ w2) as [[[]|e] w4] eqn:Ev; pose proof (validate_pure _ _ _ _ Ev) as Ed; [|injection Hi as <- <-; by rewrite Ed].
    rewrite Ed in *. split.
    + apply Transact_atomic in Hi as [E|(_ & [] & wa & wb & Ea & Ht & -> & _)]; [done|]. eapply Hagain in Ht as [E _]; done.
    + intros ->. apply Transact_ok in Hi as (_ & wa & wb & Ea & Ht & _). eapply Hagain in Ht as [_ E]; done.
Qed.

(** ** The demonstration's collector reports *)
Module Reported.
Import Demo.
#[export] Existing Instance Demo.env.
Definition report : Collection.Report :=
  Collection.mkReport Demo.handle "cluster-uid" T0 "COMPLETE"
    (Some [mkObs None None NetworkBlocked Demo.handle [] [("error_ratio", FFin 1 (-1))] T0 (T0 + 30 * Minute)]).
Definition other : Collection.Report := Collection.mkReport Demo.handle "cluster-uid" T0 "PARTIAL" None.
Definition send (r : Collection.Report) : M unit := Collection.Ingest svc sc (fst tokens) r.
Definition world : World := after (send report) world1.
Lemma send_runs :
  result (send report) world1 = Ok tt /\ result (send report) world = Ok tt /\ result (send other) world = Err ErrConflict.
Proof. vm_compute. repeat split; reflexivity. Qed.
#[local] Existing Instance Toy.cipher.
Lemma sent_system : system (db world).
Proof.
  refine (system_step _ _ DemoSystem.world1_system _).
  exact (ingest_steps (rtc step) svc sc (fst tokens) report (fun Hc => requests_step _)
    _ _ _ (Demo.run_pair (send report) world1)).
Qed.
Lemma first_run : Collection.Ingest svc sc (fst tokens) report world1 = (Ok tt, world).
Proof.
  destruct send_runs as [H _]. unfold world. change (send report world1 = (Ok tt, after (send report) world1)).
  by rewrite (Demo.run_pair (send report) world1), H.
Qed.
#[global] Opaque world.
End Reported.

#[local] Existing Instance Demo.env.
Lemma reports_are_taken_once_witness :
  db (Demo.after (Reported.send Reported.other) Reported.world) = db Reported.world.
Proof.
  destruct (reports_are_taken_once Demo.svc Demo.sc (fst Demo.tokens) Reported.report Demo.world1 Reported.world
    Reported.first_run) as [Ht Hagain].
  exact (proj1 (Hagain Demo.svc (fst Demo.tokens) Reported.other Reported.world _ _ (system_ok _ Reported.sent_system) Ht eq_refl
    (Demo.run_pair (Reported.send Reported.other) Reported.world))).
Defined.
