(* ===== verification/SchedulerProps.v ===== *)
(** * What the trigger scheduler guarantees *)

From S2P Require Import Prelude.
From S2P Require Import Json.
From S2P Require Import GoTime.
From S2P Require Import Decode.
From S2P Require Import Assoc.
From S2P Require Import Text.
From S2P Require Import Scheduler.

Import Scheduler.

#[export] Instance trigger_eq_dec : EqDecision Trigger.
Proof. solve_decision. Defined.

Section Scheduling.
Context `{Unicode}.

(** The last trigger accepted under a key, with whether a job was started for it
    since. *)
Definition react (k : string) (o : option (Trigger * bool)) (h : Happened) : option (Trigger * bool) :=
  match h, o with
  | Accepted t, _ => if str_eqb (Key t) k then Some (t, false) else o
  | Started t, Some (t', _) => if bool_decide (t = t') then Some (t', true) else o
  | Started _, None => None
  end.
Definition latest (k : string) (h : list Happened) : option (Trigger * bool) := fold_left (react k) h None.

Lemma latest_snoc k h x : latest k (h ++ [x]) = react k (latest k h) x.
Proof. unfold latest. by rewrite fold_left_app. Qed.

(** What the consumer has drained and not started yet. *)
Definition todo (c : Consumer) : list Trigger :=
  match c with Batch l => l | Attempting t l | Backoff t l => t :: l | Working _ l => l | _ => [] end.
Definition works (r : Runner) : bool := match R_consumer r with Working _ _ => true | _ => false end.
Definition scans (r : Runner) : bool := match R_periodic r with Scanning _ => true | _ => false end.

Record queue_ok (q : TriggerQueue) : Prop := {
  qo_keys : NoDup (map fst (Q_pending q));
  qo_entries : forall k t, (k, t) ∈ Q_pending q -> k = Key t;
  qo_bound : Z.of_nat (length (Q_pending q)) <= Q_capacity q }.

(** While nobody has cancelled: a pending trigger has a wake-up under way, and an
    accepted one that no job was started for is pending or drained. *)
Record awake (r : Runner) : Prop := {
  aw_live : R_consumer r <> Ended;
  aw_wake : Q_pending (R_queue r) <> [] ->
    Q_notify (R_queue r) = true \/ R_offering r <> 0%nat \/ R_consumer r = Debouncing;
  aw_todo : forall k t, latest k (R_history r) = Some (t, false) ->
    assoc k (Q_pending (R_queue r)) = Some t \/ t ∈ todo (R_consumer r) }.

Record runner_ok (r : Runner) : Prop := {
  ro_queue : queue_ok (R_queue r);
  ro_gate : R_running r = works r || scans r;
  ro_apart : works r && scans r = false;
  ro_awake : R_cancelled r = false -> awake r }.

Lemma accepted_ok q t accepted q' : queue_ok q -> put q t = (accepted, q') ->
  queue_ok q' /\ Q_capacity q' = Q_capacity q /\ Q_notify q' = Q_notify q /\
  (accepted = false -> Q_pending q' = Q_pending q) /\
  (accepted = true -> Q_pending q' = assoc_set (Key (normalized t)) (normalized t) (Q_pending q)).
Proof.
  intros [Hk He Hb]. unfold put. case_if as E1; [intros [= <- <-]; done|].
  case_if as E2; intros [= <- <-]; (split; [|done]); constructor; cbn; [done..| | |].
  - by apply assoc_set_NoDup.
  - assert (Hf : Forall (fun kv => fst kv = Key (snd kv)) (assoc_set (Key (normalized t)) (normalized t) (Q_pending q))).
    { apply assoc_set_Forall; [|done]. apply Forall_forall. intros [k x] Hin. by apply He. }
    intros k x Hin. rewrite Forall_forall in Hf. exact (Hf _ Hin).
  - pose proof (assoc_set_length (Key (normalized t)) (normalized t) (Q_pending q)) as Hl.
    apply andb_false_iff in E2 as [E2|E2]; [|apply Z.leb_gt in E2; lia].
    apply bool_decide_eq_false in E2.
    rewrite assoc_set_length_in; [lia|].
    destruct (decide (Key (normalized t) ∈ map fst (Q_pending q))) as [|Hn]; [done|]. by apply assoc_None in Hn.
Qed.

Lemma drained q t : t ∈ fst (drain q) <-> exists k, (k, t) ∈ Q_pending q.
Proof.
  unfold drain. cbn. rewrite isort_elem, list_elem_of_fmap. split.
  - intros ([k x] & -> & Hin). by exists k.
  - intros [k Hin]. by exists (k, t).
Qed.

Lemma announced b q : queue_ok q -> queue_ok (notify b q).
Proof. by intros [Hk He Hb]. Qed.

Lemma drained_ok q : queue_ok q -> queue_ok (snd (drain q)).
Proof.
  intros [_ _ Hb]. split; cbn; [constructor|by intros ? ? ?%elem_of_nil|lia].
Qed.

Lemma start_ok capacity debounce q : NewTriggerQueue capacity debounce = inr q -> runner_ok (start q).
Proof.
  unfold NewTriggerQueue. case_if as E; [done|]. intros [= <-]. apply orb_false_iff in E as [E _]. apply Z.leb_gt in E.
  split; [split; cbn; [constructor|by intros k t ?%elem_of_nil|lia]|done|done|].
  intros _. split; [done|done|]. intros k t Hl. discriminate Hl.
Qed.

(** Cases on what an event found. *)
Ltac fired Hf :=
  cbn in Hf; try unfold runOnceJob in Hf; cbn in Hf;
  repeat match type of Hf with
  | context [match ?x with _ => _ end] =>
      lazymatch x with context [match _ with _ => _ end] => fail | _ => idtac end;
      let E := fresh "E" in destruct x eqn:E; cbn in Hf; try discriminate Hf
  end;
  injection Hf as <-.

Definition woken (r : Runner) : Prop :=
  Q_notify (R_queue r) = true \/ R_offering r <> 0%nat \/ R_consumer r = Debouncing.
Lemma awake_mono r r' : awake r -> R_consumer r' <> Ended -> Q_pending (R_queue r') = Q_pending (R_queue r) ->
  R_history r' = R_history r -> (woken r -> woken r') -> (forall t, t ∈ todo (R_consumer r) -> t ∈ todo (R_consumer r')) ->
  awake r'.
Proof.
  intros [Hl Hw Ht] Hl' Hp Hh Hw' Ht'. split; [done| |].
  - rewrite Hp. intros Hne. by apply Hw', Hw.
  - rewrite Hp, Hh. intros k t Hk. destruct (Ht k t Hk); auto.
Qed.
Lemma offer_awake t r q : runner_ok r -> awake r -> put (R_queue r) t = (true, q) ->
  awake (mkRunner q (R_consumer r) (R_periodic r) (R_running r) (R_cancelled r) (S (R_offering r))
           (R_history r ++ [Accepted (normalized t)])).
Proof.
  intros Hr [Hl Hw Ht] Hp. apply accepted_ok in Hp as (_ & _ & _ & _ & Hp); [|apply Hr]. specialize (Hp eq_refl).
  split; cbn [R_queue R_consumer R_offering R_history]; [done|by right; left|]. rewrite Hp. intros k t'.
  rewrite latest_snoc. cbn. case_if as E.
  - apply str_eqb_eq in E as <-. intros [= <-]. left. apply assoc_set_same.
  - apply str_eqb_neq in E. intros Hk. rewrite assoc_set_other by done. by apply Ht.
Qed.
Lemma drain_awake r : runner_ok r -> awake r -> R_consumer r = Debouncing ->
  awake (with_queue (snd (drain (R_queue r))) (Batch (fst (drain (R_queue r)))) r).
Proof.
  intros Hr [Hl Hw Ht] Hc. split; cbn -[drain]; [done|by cbn|]. intros k t Hk. right. apply drained.
  destruct (Ht k t Hk) as [Ha|Hin]; [|rewrite Hc in Hin; by apply elem_of_nil in Hin].
  exists k. apply assoc_Some in Ha; [done|]. apply Hr.
Qed.
Lemma begin_awake t l c r : awake r -> R_consumer r = Attempting t l ->
  awake (mkRunner (R_queue r) (Working t l) (R_periodic r) true c (R_offering r) (R_history r ++ [Started t])).
Proof.
  intros [Hl Hw Ht] Hc. split; cbn [R_queue R_consumer R_offering R_history]; [done| |].
  - rewrite Hc in Hw. intros Hne. destruct (Hw Hne) as [?|[?|?]]; [by left|by right; left|done].
  - intros k t'. rewrite latest_snoc. cbn. destruct (latest k (R_history r)) as [[t1 b]|] eqn:El; [|done].
    case_if as E; [done|]. intros [= -> ->]. destruct (Ht k t' El) as [|Hin]; [by left|right].
    rewrite Hc in Hin. apply bool_decide_eq_false in E. cbn in Hin. apply elem_of_cons in Hin as [->|]; done.
Qed.

Lemma fire_awake e r r' : runner_ok r -> fire e r = Some r' -> R_cancelled r' = false -> awake r'.
Proof.
  intros Hr Hf Hc. assert (Hc0 : R_cancelled r = false) by (destruct e; fired Hf; cbn in *; congruence).
  pose proof (ro_awake _ Hr Hc0) as Haw. pose proof (aw_live _ Haw) as Hl.
  destruct e; fired Hf; cbn in Hc; try congruence.
  all: try solve [by apply offer_awake|by apply drain_awake|by apply begin_awake].
  all: try solve [breflect; congruence].
  1: { apply accepted_ok in E as (_ & _ & En & Ep & _); [|apply Hr]. apply (awake_mono r); unfold woken; cbn; rewrite ?En; auto. }
  all: apply (awake_mono r); unfold woken; cbn; try done;
    try match goal with E : R_consumer _ = _ |- _ => rewrite E end; cbn; try tauto;
    try (intros [?|[?|?]]; solve [auto|discriminate]).
Qed.

Lemma fire_ok e r r' : runner_ok r -> fire e r = Some r' -> runner_ok r'.
Proof.
  intros Hr Hf. pose proof (fire_awake _ _ _ Hr Hf) as Hawake. destruct Hr as [Hq Hg Ha _].
  destruct e; fired Hf; split; try exact Hawake; clear Hawake; unfold works, scans in *; cbn in *; try done;
    repeat match goal with
    | E : R_consumer _ = _ |- _ => rewrite E in *; clear E
    | E : R_periodic _ = _ |- _ => rewrite E in *; clear E
    end; cbn in *; try done; try congruence.
  all: try (by apply announced).
  all: try (match goal with E : put _ _ = _ |- _ => by apply accepted_ok in E as (? & _); [|done] end).
  all: try (by apply (drained_ok (R_queue r))).
  all: rewrite ?orb_true_r, ?orb_false_r, ?andb_true_r, ?andb_false_r in *; try congruence.
Qed.
Lemma fire_all_ok es : forall r r', runner_ok r -> fire_all es r = Some r' -> runner_ok r'.
Proof.
  induction es as [|e es IH]; intros r r' Hr Hf; cbn in Hf; [by injection Hf as <-|].
  destruct (fire e r) as [r1|] eqn:E; [|done]. eapply IH; [|exact Hf]. by eapply fire_ok.
Qed.

(** ** Coming to rest

    What the queue's goroutine and the callers that have offered a trigger do by
    themselves: all but new offers, cancellation and the periodic scan. *)
Definition housekeeping (e : event) : bool :=
  match e with Announce | Wake | Debounced | Next | Attempt | Retry | GiveUp | Done | Quit => true | _ => false end.
(** How many such steps are left. *)
Definition phase (c : Consumer) : nat :=
  match c with
  | Selecting | Ended => 0
  | Debouncing => 2
  | Batch l => 1 + 5 * length l
  | Attempting _ l => 4 + 5 * length l
  | Backoff _ l => 5 + 5 * length l
  | Working _ l => 3 + 5 * length l
  end.
Definition work (r : Runner) : nat :=
  4 * R_offering r + (if Q_notify (R_queue r) then 3 else 0) + 5 * length (Q_pending (R_queue r)) + phase (R_consumer r).

Lemma fire_works e r r' : runner_ok r -> R_cancelled r = false -> scans r = false -> housekeeping e = true ->
  fire e r = Some r' -> (work r' < work r)%nat /\ R_cancelled r' = false /\ scans r' = false.
Proof.
  intros [Hq Hg _ _] Hc Hs He Hf. unfold scans, works, work in *.
  destruct e; try done; fired Hf; cbn in *; try congruence;
    repeat match goal with E : R_consumer _ = _ |- _ => rewrite E in *; clear E end; cbn in *; try congruence.
  all: try match goal with E : Q_notify _ = _ |- _ => rewrite E end.
  all: try (destruct (Q_notify (R_queue r))); rewrite ?isort_length, ?length_map; (split; [lia|done]).
Qed.
Lemma housekeeping_ends es : forall r r', runner_ok r -> R_cancelled r = false -> scans r = false ->
  forallb housekeeping es = true -> fire_all es r = Some r' ->
  (length es + work r' <= work r)%nat /\ R_cancelled r' = false /\ scans r' = false.
Proof.
  induction es as [|e es IH]; intros r r' Hr Hc Hs He Hf; cbn in He, Hf; [injection Hf as <-; cbn [length]; split; [lia|done]|].
  apply andb_true_iff in He as [He Hes]. destruct (fire e r) as [r1|] eqn:E; [|done].
  destruct (fire_works _ _ _ Hr Hc Hs He E) as (Hw & Hc1 & Hs1).
  destruct (IH r1 r' (fire_ok _ _ _ Hr E) Hc1 Hs1 Hes Hf) as (Hw' & ? & ?). cbn [length]. split; [lia|done].
Qed.

(** Nothing is left to do by themselves only when everything has been started. *)
Lemma stuck_rests r : runner_ok r -> R_cancelled r = false ->
  (forall e, housekeeping e = true -> fire e r = None) ->
  R_consumer r = Selecting /\ Q_pending (R_queue r) = [] /\
  forall k t b, latest k (R_history r) = Some (t, b) -> b = true.
Proof.
  intros Hr Hc Hstuck. destruct (ro_awake _ Hr Hc) as [Hl Hw Ht].
  pose proof (Hstuck Announce eq_refl) as H1. pose proof (Hstuck Wake eq_refl) as H2.
  pose proof (Hstuck Debounced eq_refl) as H3. pose proof (Hstuck Next eq_refl) as H4.
  pose proof (Hstuck Attempt eq_refl) as H5. pose proof (Hstuck Retry eq_refl) as H6.
  pose proof (Hstuck Done eq_refl) as H7. cbn in *.
  destruct (R_consumer r) as [| |[|t0 l]|t0 l|t0 l|t0 l|] eqn:Er; try discriminate; [|done]. split; [done|].
  assert (Hp : Q_pending (R_queue r) = []).
  { destruct (Q_pending (R_queue r)) as [|x l] eqn:Ep; [done|]. exfalso.
    destruct Hw as [Hn|[Hn|Hn]]; [done|by rewrite Hn in H2|by destruct (R_offering r)|done]. }
  split; [done|]. intros k t [] Hk; [done|]. destruct (Ht k t Hk) as [Ha|Hin]; [|by apply elem_of_nil in Hin].
  by rewrite Hp in Ha.
Qed.

Lemma fire_capacity e r r' : fire e r = Some r' -> Q_capacity (R_queue r') = Q_capacity (R_queue r).
Proof.
  intros Hf. destruct e; cbn [fire] in Hf; [|by fired Hf..].
  unfold put in Hf. repeat case_if_in Hf; by injection Hf as <-.
Qed.
Lemma fire_all_capacity es : forall r r', fire_all es r = Some r' -> Q_capacity (R_queue r') = Q_capacity (R_queue r).
Proof.
  induction es as [|e es IH]; intros r r' Hf; cbn in Hf; [by injection Hf as <-|].
  destruct (fire e r) as [r1|] eqn:E; [|done]. rewrite (IH _ _ Hf). by eapply fire_capacity.
Qed.

(** C37: every accepted trigger is acted on.  Whatever interleaving of callers
    that enqueue, wake-ups, periodic scans and jobs leads to a state, the queue
    holds at most its capacity and no two scans overlap.  If nobody has cancelled
    and no periodic scan is in progress, the queue comes to rest by itself: any
    schedule of its own steps has at most [work] of them, and where none is left
    nothing is pending and, for the latest accepted state of every object, a job
    has been started since. *)
Theorem triggers_are_acted_on capacity debounce q es r :
  NewTriggerQueue capacity debounce = inr q -> fire_all es (start q) = Some r ->
  Pending (R_queue r) <= capacity /\ works r && scans r = false /\
  (R_cancelled r = false -> scans r = false ->
   forall es' r', forallb housekeeping es' = true -> fire_all es' r = Some r' ->
     (length es' <= work r)%nat /\
     ((forall e, housekeeping e = true -> fire e r' = None) ->
      R_consumer r' = Selecting /\ Q_pending (R_queue r') = [] /\
      forall k t started, latest k (R_history r') = Some (t, started) -> started = true)).
Proof.
  intros Hq Hr. pose proof (fire_all_ok es _ _ (start_ok _ _ _ Hq) Hr) as Hok.
  split; [|split; [apply Hok|]].
  - apply fire_all_capacity in Hr. pose proof (qo_bound _ (ro_queue _ Hok)) as Hb. unfold Pending. rewrite Hr in Hb.
    unfold NewTriggerQueue in Hq. case_if_in Hq. by injection Hq as <-.
  - intros Hc Hs es' r' He Hf. destruct (housekeeping_ends _ _ _ Hok Hc Hs He Hf) as (Hw & Hc' & _).
    split; [lia|]. apply stuck_rests; [|done]. by eapply fire_all_ok.
Qed.

(** ** A targeted scan stays inside the scope of the periodic one *)
Lemma distinct_spec values : forall seen v, v ∈ Scanplan.distinct seen values -> exists x, x ∈ values /\ v = TrimSpace x.
Proof.
  induction values as [|x values IH]; intros seen v; cbn; [by intros ?%elem_of_nil|].
  assert (Hin : forall seen, v ∈ Scanplan.distinct seen values -> exists y, y ∈ x :: values /\ v = TrimSpace y).
  { intros s Hv. destruct (IH s v Hv) as (y & Hy & ->). exists y. split; [by right|done]. }
  case_if as E; [apply Hin|]. rewrite elem_of_cons. intros [->|Hv]; [exists x; split; [by left|done]|by eapply Hin].
Qed.
Lemma normalized_trimmed t : TrimSpace (T_Resource (normalized t)) = T_Resource (normalized t) /\
  TrimSpace (T_TargetResource (normalized t)) = T_TargetResource (normalized t).
Proof. split; apply TrimSpace_idempotent. Qed.

(** A scan for a trigger covers only namespaces that the base plan covers, only
    kinds it allows (by their own name or as a workload or storage), and is made
    only when the base plan's names, if any, name the object or its subject. *)
Theorem targeted_scan_stays_in_scope base t p : PlanForTrigger base t = Some p ->
  (forall ns, Scanplan.IncludesNamespace p ns = true -> Scanplan.IncludesNamespace base ns = true) /\
  (forall kind, kind ∈ Scanplan.Kinds p ->
     Scanplan.Kinds base = [] \/ triggerKindAllowed (Scanplan.Kinds base) kind = true) /\
  triggerNameAllowed base (normalized t) = true /\
  Scanplan.LabelSelector p = Scanplan.LabelSelector base /\ Scanplan.Analyzers p = Scanplan.Analyzers base.
Proof.
  unfold PlanForTrigger. case_if as E; [done|]. intros [= <-]. breflect. split; [|split; [|done]].
  - intros ns. unfold Scanplan.IncludesNamespace, Scanplan.normalized.
    cbn [Scanplan.IncludeNamespaces Scanplan.ExcludeNamespaces].
    destruct (Scanplan.containsFold _ _); [done|]. destruct (_ && bool_decide (Scanplan.IncludeNamespaces base = [])) eqn:E2; [|done].
    apply andb_true_iff in E2 as [_ E2]. apply bool_decide_eq_true in E2 as ->. done.
  - cbn [Scanplan.Kinds]. intros kind Hk. unfold uniqueCaseInsensitive in Hk. apply isort_elem, distinct_spec in Hk as (x & Hx & ->).
    unfold trigger_kinds in Hx. apply list_elem_of_In, filter_In in Hx as [Hx Ha].
    assert (TrimSpace x = x) as ->.
    { destruct (normalized_trimmed t) as [Hr Ht]. destruct Hx as [<-|Hx].
      - unfold target_resource. case_if as E'; done.
      - case_if_in Hx; [|done]. destruct Hx as [<-|[]]. vm_compute. done. }
    apply orb_true_iff in Ha as [Ha|Ha]; [left; by apply bool_decide_eq_true in Ha|by right].
Qed.
End Scheduling.

(** ** A schedule, with letters of ASCII only *)
Module Rested.
#[export] Instance ascii : Unicode := {| unicode_lower := id; unicode_upper := id; unicode_fold := id |}.
Definition pod (name event : string) : Trigger := mkTrigger "Pod" "shop" name event "" "" "".
Definition queue : TriggerQueue := mkQueue [] 8 0 false 0.
(** A scan is in progress while two pods change, one of them twice. *)
Definition changes : list event :=
  [Scan; Offer (pod "cart" "ADDED"); Announce; Offer (pod "pay" "ADDED"); Wake; Announce; Debounced; Next; Attempt;
   Offer (pod "cart" "MODIFIED"); Announce; Scanned false].
Definition jobs : list event :=
  [Retry; Attempt; Done; Next; Attempt; Done; Next; Wake; Debounced; Next; Attempt; Done; Next].
Definition race : list event := [Offer (pod "cart" "ADDED"); Announce; Wake; Debounced; Next; Attempt; Scan].
Definition changed : Runner := default (start queue) (fire_all changes (start queue)).
Definition rested : Runner := default (start queue) (fire_all jobs changed).
Lemma stuck e : housekeeping e = true -> fire e rested = None.
Proof. destruct e; intros He; try discriminate He; vm_compute; reflexivity. Qed.
End Rested.

Import Rested.
Lemma triggers_are_acted_on_witness :
  (length jobs <= work changed)%nat /\ Q_pending (R_queue rested) = [] /\
  latest (Key (pod "cart" "")) (R_history rested) = Some (pod "cart" "MODIFIED", true).
Proof.
  assert (Hq : NewTriggerQueue 8 0 = inr queue) by reflexivity.
  assert (Hc : fire_all changes (start queue) = Some changed) by (vm_compute; reflexivity).
  assert (Hj : fire_all jobs changed = Some rested) by (vm_compute; reflexivity).
  destruct (triggers_are_acted_on 8 0 queue changes changed Hq Hc) as (_ & _ & Hrest).
  destruct (Hrest ltac:(vm_compute; reflexivity) ltac:(vm_compute; reflexivity) jobs rested eq_refl Hj) as [Hw Hstuck].
  destruct (Hstuck stuck) as (_ & Hp & Hl).
  split; [exact Hw|]. split; [exact Hp|].
  destruct (latest (Key (pod "cart" "")) (R_history rested)) as [[t b]|] eqn:E; [|vm_compute in E; discriminate].
  rewrite (Hl _ _ _ E) in *. vm_compute in E. injection E as <-. reflexivity.
Defined.

(** A trigger that is there before the first periodic scan may take the gate from
    it, and [RunWithTriggers] then returns: without a debounce, informers that list
    their objects can end the scheduler. *)
Lemma startup_race :
  let r := default (start queue) (fire_all race (start queue)) in
  fire_all race (start queue) = Some r /\ R_periodic r = Returned AlreadyRunning /\ R_cancelled r = true.
Proof. vm_compute. auto. Qed.

(** Where the base plan names several namespaces, the scan for a change in one of
    them covers them all. *)
Lemma targeted_scan_keeps_namespaces :
  let base := Scanplan.mkPlan "" ["shop"; "bank"] [] "" [] [] [] 0 0 in
  (p ← PlanForTrigger base (pod "cart" "ADDED"); Some (Scanplan.IncludesNamespace p "bank")) = Some true.
Proof. vm_compute. reflexivity. Qed.
