(* ===== verification/DeliveryProps.v ===== *)
(** * What the delivery of notifications guarantees *)

From stdpp Require Import relations.
From S2P Require Import Prelude.
From S2P Require Import GoTime.
From S2P Require Import Identity.
From S2P Require Import Authorization.
From S2P Require Import Incident.
From S2P Require Import Db.
From S2P Require Import Sql.
From S2P Require Import Storage.
From S2P Require Import Records.
From S2P Require Import Queues.
From S2P Require Import Fleet.
From S2P Require Import Delivery.
From S2P Require Import System.
From S2P Require Import Evolution.
From S2P Require Import Scenario.
From S2P Require Import SystemProps.
From S2P Require Import Bounds.
From S2P Require Import QueueProps.

Import Delivery.

(** A policy lets the people of a route read its scope. *)
Definition readable (p : Policy) (r : Route) : Prop :=
  exists b, b ∈ bindings p /\ B_Scope b = R_Scope r /\ B_Group b = R_RecipientGroup r /\ Read ∈ permissions (B_Role b).

(** The notification [id] of a scope has been attempted [k] times or more. *)
Definition attempted (k : Z) (sc : Scope) (id : string) (d : DB) : Prop :=
  exists n : row Tnotifications, n ∈ d Tnotifications /\ n_scope n = sc /\ n_id n = id /\ k <= n_attempts n.
(** It has been delivered, or somebody acknowledged it. *)
Definition settled (sc : Scope) (id : string) (d : DB) : Prop :=
  exists n : row Tnotifications, n ∈ d Tnotifications /\ n_scope n = sc /\ n_id n = id /\
    (n_state n = "DELIVERED" \/ n_acknowledged n <> "").

Lemma attempted_kept k sc id d d' : db_ok d -> evolves d d' -> attempted k sc id d -> attempted k sc id d'.
Proof.
  intros Hd He (n & Hn & Es & Ei & Ek). destruct (He Hd) as [_ Hr].
  destruct (Hr Tnotifications n eq_refl Hn) as (n' & Hn' & K1 & K2 & K3 & _).
  exists n'. repeat split; [done|congruence|congruence|lia].
Qed.
Lemma settled_kept sc id d d' : db_ok d -> evolves d d' -> settled sc id d -> settled sc id d'.
Proof.
  intros Hd He (n & Hn & Es & Ei & Ed). destruct (He Hd) as [_ Hr].
  destruct (Hr Tnotifications n eq_refl Hn) as (n' & Hn' & K1 & K2 & _ & K4 & K5).
  exists n'. repeat split; [done|congruence|congruence|]. destruct Ed as [Ed|Ed]; [left; auto|right].
  destruct K4; congruence.
Qed.

(** ** Every part of a dispatch is made of the storage's methods *)
Section Dispatching.
Context `{Env}.

Lemma steps_may_read R `{!Reflexive R, !Transitive R} s r : Steps R (may_read s r).
Proof. unfold may_read, recipient, authorize. repeat steps_one. Qed.
Lemma steps_prepare R `{!Reflexive R, !Transitive R} s r t :
  (forall o, Steps R (run_tx_op t o)) -> Steps R (prepare s r t).
Proof.
  intros Ho. unfold prepare. apply steps_bind; [exact _| |intros _]; case_if as E;
    [by apply steps_ret|apply (Ho (TMaterializeNotifications _))
    |by apply steps_ret|apply (Ho (TEscalateNotifications _ _ _))].
Qed.
Lemma steps_dispatch R `{!Reflexive R, !Transitive R} s r t :
  (forall o, Steps R (run_tx_op t o)) -> Steps R (dispatchTx s r t).
Proof.
  intros Ho. unfold dispatchTx. apply steps_bind; [exact _|by apply steps_prepare|intros _].
  apply steps_catch; [exact _| |intros e; case_if as E; [by apply steps_ret|by apply steps_throw]].
  apply steps_bind; [exact _| |intros; by apply steps_ret]. apply steps_part, (Ho (TLeaseNotification _)).
Qed.
Lemma steps_lease_for R `{!Reflexive R, !Transitive R} s r :
  (forall t o, Steps R (run_tx_op t o)) -> Steps R (lease_for s r).
Proof.
  intros Ho. unfold lease_for. apply steps_bind; [exact _|by apply steps_may_read|intros _].
  apply steps_bind; [exact _| |].
  - apply steps_Transact; [exact _|]. intros t _. by apply steps_dispatch.
  - intros [n|]; [|by apply steps_ret]. case_if as E; [by apply steps_ret|].
    apply steps_bind; [exact _|by apply steps_may_read|intros; by apply steps_ret].
Qed.

Lemma may_read_ok s r w x w' : may_read s r w = (Ok x, w') -> readable (DS_Policy s) r /\ db w' = db w.
Proof.
  unfold may_read, recipient. intros Hm. run. apply time_now_ok in Hm1 as [-> ->], Hm2 as [-> ->].
  apply authorize_ok in Hm as [Ha ->]. split; [|done].
  apply Authorize_spec in Ha as (_ & _ & b & Hb & Hs & Hg & Hp). exists b.
  repeat split; [done..| |done]. by apply list_elem_of_singleton in Hg.
Qed.

(** Giving up leases that have expired after the last attempt. *)
Lemma expire_evolves t route : Steps evolves (update Tnotifications
    (fun _ _ n => in_scope t (n_scope n) && str_eqb (n_route n) route && lease_expired t n && (8 <=? n_attempts n))
    (fun _ n => set_notification n "FAILED" (n_attempts n) (n_delivered n) "" None (n_next n))).
Proof. apply evolves_update. intros _ now d r _ _ Hc. unfold lease_expired in Hc. cbn. breflect. repeat split; auto; [lia|congruence]. Qed.

(** What a lease takes, and what it leaves. *)
Lemma LeaseNotification_ok t route w n w' : db_ok (db w) ->
  LeaseNotification t route w = (Ok n, w') ->
  NT_RouteID n = route /\ NT_Scope n = scope t /\ ~ settled (scope t) (NT_ID n) (db w) /\
  (exists m : row Tnotifications, m ∈ db w Tnotifications /\ n_scope m = scope t /\ n_id m = NT_ID n /\
    NT_Attempts n = n_attempts m + 1 /\ n_attempts m < 8) /\
  attempted (NT_Attempts n) (scope t) (NT_ID n) (db w').
Proof.
  intros Hd. unfold LeaseNotification. intros Hl. run.
  pose proof (expire_evolves t route _ _ _ Hm) as He. destruct (He Hd) as [Hd0 _].
  apply update_ok in Hm as (_ & Ed & _). apply NewID_ok in Hm0 as [_ ->].
  apply update_returning_ok in Hm1 as (-> & Ed' & _). cbn [db next] in *.
  destruct (List.filter _ _) as [|m l] eqn:Ef; [done|]. cbn [map] in Hl. injection Hl as <- <-.
  apply filter_cons_in in Ef as [Hin Hp]. apply andb_true_iff in Hp as [Hs Hdue].
  apply bool_decide_eq_true in Hdue. destruct (due_row _ _ _ _ Hd0 Hin Hs Hdue) as (Er & Est & Ea & Ek).
  assert (n_scope m = scope t) as Es by (by apply scope_eqb_eq in Hs).
  split; [done|]. split; [done|]. split; [|split].
  - intros Hset. apply (settled_kept _ _ _ _ Hd He) in Hset as (q & Hq & Qs & Qi & Hset). cbn in Qi.
    assert (q = m) as -> by (eapply notifications_inj; [done..|congruence|done]). by destruct Hset.
  - rewrite Ed, upd_same in Hin. apply list_elem_of_fmap in Hin as (m0 & -> & Hm0). exists m0.
    split; [done|]. destruct (_ && _); done.
  - eexists. split; [rewrite Ed', upd_same; apply list_elem_of_fmap; exists m; split; [reflexivity|done]|].
    rewrite Hs, (bool_decide_true _ Hdue). cbn. split; [done|]. split; [done|]. lia.
Qed.

Lemma lease_for_ok s r w n w' : db_ok (db w) -> lease_for s r w = (Ok (Some n), w') ->
  readable (DS_Policy s) r /\ NT_RouteID n = R_ID r /\ NT_Scope n = R_Scope r /\
  ~ settled (NT_Scope n) (NT_ID n) (db w) /\ NT_Attempts n <= 8 /\
  (bounded (db w) -> 1 <= NT_Attempts n) /\
  (forall k, attempted k (NT_Scope n) (NT_ID n) (db w) -> k < NT_Attempts n) /\
  attempted (NT_Attempts n) (NT_Scope n) (NT_ID n) (db w').
Proof.
  intros Hd. unfold lease_for. intros Hl. run. apply may_read_ok in Hm as [Hread Ew]. rewrite <- Ew in *.
  destruct r0 as [n'|]; [|done]. case_if_in Hl. run. apply may_read_ok in Hm as [_ Ew'].
  split; [done|]. rewrite Ew'. clear Ew Ew' Hread.
  apply Transact_ok in Hm0 as (_ & v0 & v1 & E0 & Hm & ->). rewrite <- E0 in *. clear E0.
  unfold dispatchTx in Hm. run.
  assert (db_ok (db w3) /\ evolves (db v0) (db w3)) as [Hd3 He].
  { pose proof (steps_prepare evolves _ _ _ (fun o => evolves_tx_op _ o) _ _ _ Hm0) as He. split; [by apply He|done]. }
  pose proof (steps_prepare keeps_bounds _ _ _ (fun o => bounds_tx_op _ o) _ _ _ Hm0) as Hb.
  apply catch_ok in Hm as [Hm|(e & u & _ & Hm)]; [run|by case_if_in Hm].
  apply LeaseNotification_ok in Hm1 as (Er & Es & Hset & (m & Hin & Ms & Mi & Ek & Hlt) & Hatt); [|done].
  cbn [scope] in *. rewrite Es. do 2 (split; [done|]). split; [|split; [lia|split; [|split; [|done]]]].
  - contradict Hset. exact (settled_kept _ _ _ _ Hd He Hset).
  - intros Hbd. destruct (Hb Hd Hbd) as [_ Hb3]. pose proof (bd_attempts _ Hb3 m Hin). lia.
  - intros k Hk. apply (attempted_kept _ _ _ _ _ Hd He) in Hk as (q & Hq & Qs & Qi & Hk).
    assert (q = m) as -> by (eapply notifications_inj; [done..|congruence|congruence]). lia.
Qed.

Lemma steps_finish s r n b : Steps evolves (finish s r n b).
Proof. apply steps_Transact; [exact _|]. intros t _. apply (evolves_tx_op t (TFinishNotification n b)). Qed.
Lemma steps_acknowledge s p sc id : Steps evolves (Acknowledge s p sc id).
Proof.
  unfold Acknowledge, authorize. apply steps_bind; [exact _|repeat steps_one|intros _].
  apply steps_Transact; [exact _|]. intros t _. apply (evolves_tx_op t (TAcknowledgeNotification id _)).
Qed.

(** A delivery on record, and an acknowledgement, settle a notification. *)
Lemma finish_settles s r n w x w' : finish s r n true w = (Ok x, w') -> settled (NT_Scope n) (NT_ID n) (db w').
Proof.
  unfold finish. intros (_ & v0 & v1 & _ & Hf & ->)%Transact_ok. unfold FinishNotification in Hf. run.
  apply update_ok in Hm1 as (-> & Ed & _). apply Z.eqb_eq, filter_one in Hg0 as [q Hq].
  apply find_Some_in in Hq as [Hin Hp]. rewrite Ed.
  eexists. split; [rewrite upd_same; apply list_elem_of_fmap; exists q; rewrite Hp; split; [reflexivity|done]|].
  unfold in_scope, scope_eqb in *. breflect. cbn in *. repeat split; [congruence|congruence|by left].
Qed.

Lemma acknowledged t id actor (l : list (row Tnotifications)) m : ValidID actor = true ->
  m ∈ l -> n_scope m = scope t -> n_id m = id ->
  exists n : row Tnotifications,
    n ∈ map (fun n => if in_scope t (n_scope n) && str_eqb (n_id n) id && str_eqb (n_acknowledged n) ""
      then mkNotificationRow (n_scope n) (n_id n) (n_event n) (n_route n) (n_kind n) (n_incident n)
             (n_state n) (n_attempts n) (n_created n) (n_delivered n) actor (n_lease n) (n_lease_until n) (n_next n)
      else n) l /\ n_scope n = scope t /\ n_id n = id /\ (n_state n = "DELIVERED" \/ n_acknowledged n <> "").
Proof.
  intros Hv Hin Hs Hi. eexists. split; [apply list_elem_of_fmap; exists m; split; [reflexivity|done]|].
  case_if as E; cbn; (split; [done|split; [done|right]]); [by intros ->|].
  intros Ha. unfold in_scope in E. by rewrite Hs, Hi, Ha, scope_eqb_refl, !str_eqb_refl in E.
Qed.

Lemma Acknowledge_settles s p sc id w x w' :
  Acknowledge s p sc id w = (Ok x, w') -> settled sc id (db w').
Proof.
  unfold Acknowledge. intros Ha. run. apply Transact_ok in Ha as (_ & v0 & v1 & _ & Ha & ->).
  unfold AcknowledgeNotification in Ha. run. apply andb_true_iff in Hg as [_ Hv].
  apply update_ok in Hm0 as (-> & Ed & _). unfold settled. case_if_in Ha.
  - run. apply query_row_ok in Hm0 as [[l El] ->]. apply filter_cons_in in El as [Hin Hp]. cbn [db next].
    rewrite Ed, upd_same in Hin |- *. unfold in_scope in Hp. apply andb_true_iff in Hp as [Hs Hi].
    apply list_elem_of_fmap in Hin as (m & Em & Hm0). apply scope_eqb_eq in Hs. apply str_eqb_eq in Hi.
    eapply acknowledged; [done|done|..]; subst; revert Hs Hi; case_if as E'; done.
  - rewrite (Enqueue_other _ _ _ _ _ _ _ Tnotifications Ha), Ed, upd_same by done.
    destruct (List.filter _ _) as [|m l] eqn:Ef; [done|]. apply filter_cons_in in Ef as [Hin Hp].
    unfold in_scope in Hp. breflect. eapply acknowledged; [done|done| |done]. by apply scope_eqb_eq.
Qed.
End Dispatching.

(** C19: people are told, and told sparingly.  What is about to be sent on a route
    is of the route's scope, whose people may read it by the policy.  Sending the
    same notification again, whatever requests came between, is a later attempt of
    at most eight, and does not happen once an attempt is recorded as delivered or
    somebody has acknowledged the notification. *)
Theorem notifications_are_sent_sparingly (E1 E2 : Env) s1 r1 w1 n1 w1' s2 r2 w2 n2 w2' :
  system (db w1) -> @lease_for E1 s1 r1 w1 = (Ok (Some n1), w1') ->
  rtc step (db w1') (db w2) -> @lease_for E2 s2 r2 w2 = (Ok (Some n2), w2') ->
  NT_Scope n2 = NT_Scope n1 -> NT_ID n2 = NT_ID n1 ->
  NT_Scope n1 = R_Scope r1 /\ NT_RouteID n1 = R_ID r1 /\ readable (DS_Policy s1) r1 /\
  1 <= NT_Attempts n1 < NT_Attempts n2 /\ NT_Attempts n2 <= 8 /\
  (forall E s r w w', rtc step (db w1') (db w) -> @finish E s r n1 true w = (Ok tt, w') ->
     ~ rtc step (db w') (db w2)) /\
  (forall E s p w w', rtc step (db w1') (db w) -> @Acknowledge E s p (NT_Scope n1) (NT_ID n1) w = (Ok tt, w') ->
     ~ rtc step (db w') (db w2)).
Proof.
  intros Hs H1 Hst H2 Es Ei.
  assert (Hd1 : db_ok (db w1')).
  { apply (steps_lease_for evolves _ _ (fun t o => evolves_tx_op t o) _ _ _ H1). by apply system_ok. }
  pose proof (steps_evolves _ _ Hst) as He. destruct (He Hd1) as [Hd2 _].
  apply lease_for_ok in H1 as (Hr & Er & Esc & _ & _ & Hlow & _ & Hatt); [|by apply system_ok].
  apply lease_for_ok in H2 as (_ & _ & _ & Hset & Hle & _ & Hgt & _); [|done]. rewrite Es, Ei in *.
  assert (Hno : forall d, db_ok d -> settled (NT_Scope n1) (NT_ID n1) d -> ~ rtc step d (db w2)).
  { intros d Hd Hsd Hsteps. apply Hset, (settled_kept _ _ d); [done|by apply steps_evolves|done]. }
  do 3 (split; [done|]). split; [split; [by apply Hlow, system_bounded|]|split; [done|split]].
  - apply Hgt. exact (attempted_kept _ _ _ _ _ Hd1 He Hatt).
  - intros E s r w w' Hw Hf. apply Hno; [|by eapply finish_settles].
    apply (steps_finish _ _ _ _ _ _ _ Hf), (steps_evolves _ _ Hw), Hd1.
  - intros E s p w w' Hw Ha. apply Hno; [|by eapply Acknowledge_settles].
    apply (steps_acknowledge _ _ _ _ _ _ _ Ha), (steps_evolves _ _ Hw), Hd1.
Qed.

(** ** A notification that is sent twice *)
Module Told.
#[local] Existing Instance Demo.env.
Definition route : Route := mkRoute "oncall" Demo.sc "owners" "ENDPOINT" None "" 0.
Definition svc : Service := mkService Demo.epoch Demo.policy [route] [].
(** A question was asked about an incident. *)
Definition world : World := Asked.world.
Definition none : Notification := mkNotification Demo.sc "" "" "" "" "" "" 0 0 None "" "".
Definition leased (w : World) : Notification :=
  match Demo.result (lease_for svc route) w with Ok (Some n) => n | _ => none end.
Definition fail (n : Notification) : request :=
  RTransaction Demo.epoch Demo.sc [TFinishNotification n false].
Definition first : Notification := leased world.
Definition sending : World := Demo.after (lease_for svc route) world.
Definition failed : World := Small.run_all [fail first] sending.
(** Three seconds later. *)
Definition later : World := mkWorld (db failed) (3000 + tick failed).
Definition second : Notification := leased later.
End Told.

Lemma notifications_are_sent_sparingly_witness :
  NT_Scope Told.first = Demo.sc /\ readable Demo.policy Told.route /\ 1 <= NT_Attempts Told.first < NT_Attempts Told.second.
Proof.
  assert (H1 : @lease_for Demo.env Told.svc Told.route Told.world = (Ok (Some Told.first), Told.sending)).
  { apply (run_ok (@lease_for Demo.env Told.svc Told.route) Told.world). vm_compute. reflexivity. }
  assert (H2 : @lease_for Demo.env Told.svc Told.route Told.later =
    (Ok (Some Told.second), snd (@lease_for Demo.env Told.svc Told.route Told.later))).
  { apply (run_ok (@lease_for Demo.env Told.svc Told.route) Told.later). vm_compute. reflexivity. }
  destruct (notifications_are_sent_sparingly Demo.env Demo.env Told.svc Told.route Told.world Told.first Told.sending
    Told.svc Told.route Told.later Told.second _ Asked.asked_system H1 (Small.run_all_steps [Told.fail Told.first] Told.sending)
    H2 ltac:(vm_compute; reflexivity) ltac:(vm_compute; reflexivity)) as (Es & _ & Hr & Hk & _).
  exact (conj Es (conj Hr Hk)).
Defined.
