(* ===== verification/DiagnosisProps.v ===== *)
(** * Theorems on diagnosis: the engine, the attempts and the review *)

From stdpp Require Import relations.
From S2P Require Import Prelude.
From S2P Require Import Sha256.
From S2P Require Import Md5.
From S2P Require Import Json.
From S2P Require Import JsonFacts.
From S2P Require Import GoTime.
From S2P Require Import Decode.
From S2P Require Import Identity.
From S2P Require Import Authorization.
From S2P Require Import Incident.
From S2P Require Import Db.
From S2P Require Import Sql.
From S2P Require Import Storage.
From S2P Require Import Lineage.
From S2P Require Import EvidenceFacts.
From S2P Require Import Records.
From S2P Require Import Queues.
From S2P Require Import Privacy.
From S2P Require Import Fleet.
From S2P Require Import Recovery.
From S2P Require Import Governance.
From S2P Require Import Investigation.
From S2P Require Import Knowledge.
From S2P Require Import Execution.
From S2P Require Import ExecutionFacts.
From S2P Require Import ExecutionSafety.
From S2P Require Import System.
From S2P Require Import Evolution.
From S2P Require Import Scenario.
From S2P Require Import ExecutionProps.
From S2P Require Import SystemProps.
From S2P Require Import FleetProps.
From S2P Require Import Bounds.
From S2P Require Import QueueProps.
From S2P Require Import ItemProps.
From S2P Require Import Toy.
From S2P Require Import Snapshot.
From S2P Require Import Rounds.
From S2P Require Import Diagnosis.
From S2P Require Import RunText.
From S2P Require Import Attempt.
From S2P Require Import DiagnosisSteps.

Import Rubric Snapshot Rounds Agents Corroboration.

(** ** The rubric *)
Lemma AssessCandidate_status c evidence at_ a :
  AssessCandidate c evidence at_ = Ok a ->
  AS_Conclusion a = c /\ well_cited c evidence at_ = true /\ AS_Status a ∈ [Hypothesis_; Inconclusive; NeedsEvidence].
Proof.
  unfold AssessCandidate. destruct (well_cited c evidence at_); [|done]. cbn [negb].
  repeat match goal with |- context [if ?b then _ else _] => destruct b end; intros [= <-]; (split; [done|]; split; [done|]);
    apply (bool_decide_eq_true_1 _); vm_compute; reflexivity.
Qed.

Lemma well_cited_nonzero c evidence at_ : well_cited c evidence at_ = true -> c <> zero_conclusion.
Proof. intros Hw ->. unfold well_cited, Validate, probe in Hw. cbn in Hw. by rewrite !andb_false_r in Hw. Qed.

Lemma well_cited_checks c evidence at_ :
  well_cited c evidence at_ = true -> 0 <= Z.of_nat (length (elems (CN_RequestedChecks c))) <= 2.
Proof. unfold well_cited. intros Hw. breflect. lia. Qed.

(** ** The lease of an agent *)

(** The job row that an attempt works under. *)
Record attempt_row (t : Tx) (id attempt : string) (g : row Tagents) (now : Time) (j : row Tjobs) : Prop := {
  at_scope : d_scope j = scope t;
  at_id : d_id j = id;
  at_attempt : d_attempt j = Some attempt;
  at_agent : d_agent j = Some (g_id g);
  at_generation : d_agent_generation j = Some (g_generation g);
  at_state : d_state j = "RUNNING";
  at_expiry : now < d_expires j;
  at_lease : exists until, d_lease_until j = Some until /\ now < until
}.

Lemma fenced_row t id attempt g now (j : row Tjobs) :
  fenced t id attempt (agent_of g) now j = true -> attempt_row t id attempt g now j.
Proof.
  unfold fenced, job_at, in_scope, scope_eqb, agent_of. destruct (d_lease_until j) as [u|] eqn:Eu;
    [|by rewrite andb_false_r]. cbn. intros Hf. breflect. constructor; try done. by exists u.
Qed.

(** A live collector credential: stored, unrevoked and unexpired. *)
Definition live_collector (f : Fleet.Service) (sc : Scope) (token : string) (at_ : Time) (g : row Tagents) : Prop :=
  g_scope g = sc /\ g_token g = TokenHash token /\ g_revoked g = false /\ g_role g = Collector /\
  g_epoch g = Fleet.Epoch f /\ at_ < g_expires g.

Lemma authorized_lease_ok `{Env} `{AEAD} f token s sc id attempt t w a l w' :
  authorized_lease (collector f token) s sc id attempt false t w = (Ok (a, l), w') ->
  db w' = db w /\ ValidID id = true /\ exists (g : row Tagents) (j : row Tjobs) k n,
    g ∈ db w Tagents /\ a = agent_of g /\ live_collector f (scope t) token (go_now k) g /\
    j ∈ db w Tjobs /\ attempt_row t id attempt g (pg_now n) j /\
    l = mkLease (job_brief j) attempt (default 0 (d_lease_until j)) (d_authority j) (d_input j) (d_refresh j) /\
    exists p k', OpenPrincipal (Some (Queue.Q_Policy s)) (go_now k') (d_authority j) sc Investigate = Ok p.
Proof.
  unfold authorized_lease, collector, AgentDiagnostic. intros Hr. run.
  apply AuthenticateTx_ok in Hm as (Ed & g & Hin & -> & Hs & Ht & Hrv & He & Hro & _ & _ & k & _ & Hk).
  apply query_row_ok in Hm3 as [[rest Ej] ->]. apply filter_cons_in in Ej as [Hj Hf]. rewrite Ed in Hj.
  apply time_now_ok in Hm1 as [-> ->]. unfold of_res in Hm2. injection Hm2 as Ep <-. subst w'.
  split; [done|]. split; [by apply andb_true_iff in Hg as [[[? _]%andb_true_iff _]%andb_true_iff _]|]. exists g, r3. do 2 eexists. split; [done|]. split; [done|]. split; [done|]. split; [done|].
  split; [by apply fenced_row|]. split; [done|]. exists r2. eexists. exact Ep.
Qed.

(** ** The engine *)

(** An assessment is an abstention with a listed reason, or what the rubric says
    of a candidate on this evidence. *)
Inductive verdict (state : Snapshot) : Assessment -> Prop :=
| verdict_waiting reason : reason ∈ waiting_reasons -> verdict state (needs reason)
| verdict_failed reason : reason ∈ failure_reasons -> verdict state (abstained reason)
| verdict_assessed c at_ a : AssessCandidate c (SN_Evidence state) at_ = Ok a -> verdict state a.

Definition round_fits (r : Round) : Prop := 0 <= RD_ChecksRequested r <= 2 /\ 0 <= RD_EvidenceCount r.

(** The rounds that [n] more turns of the loop add. *)
Record added (n : nat) (round : Z) (old all : list Round) (new : list Round) : Prop := {
  added_app : all = old ++ new;
  added_length : (length new <= n)%nat;
  added_numbers : map RD_Number new = seqZ round (Z.of_nat (length new));
  added_fit : Forall round_fits new
}.

Lemma added_none n round old : added n round old old [].
Proof. constructor; [by rewrite app_nil_r|cbn; lia|done|constructor]. Qed.

Lemma added_one n round old r : RD_Number r = round -> round_fits r -> added (S n) round old (old ++ [r]) [r].
Proof. intros <- Hf. constructor; [done|cbn; lia|done|by constructor]. Qed.

Lemma added_cons n round old all r new :
  RD_Number r = round -> round_fits r -> added n (round + 1) (old ++ [r]) all new -> added (S n) round old all (r :: new).
Proof.
  intros Hn Hf [-> Hl Hs Hr]. constructor; [by rewrite <- app_assoc|cbn; lia| |by constructor].
  cbn [map length]. rewrite Hs, Hn. rewrite Nat2Z.inj_succ, (seqZ_cons round) by lia. by rewrite Z.pred_succ, Z.add_1_r.
Qed.

Section Engine.
Context `{Env} (run : Runner) (guidance : list GoldenCase)
  (refresh : list DiagnosticCheck -> Snapshot -> M (Snapshot * bool)).

Lemma rounds_loop_ok n : forall round tentative seen a0 rounds state w a all final w',
  round = 4 - Z.of_nat n -> (n = 0%nat -> verdict state a0) ->
  rounds_loop run guidance refresh n round tentative seen a0 rounds state w = (Ok (a, all, final), w') ->
  verdict final a /\ exists new, added n round rounds all new.
Proof.
  induction n as [|n IH]; intros round tentative seen a0 rounds state w a all final w' Hround Hv; cbn [rounds_loop].
  { intros [= <- <- <- _]. split; [by apply Hv|]. exists []. apply added_none. }
  intros Hl. apply bind_ok in Hl as ([[latency usage] text] & w1 & _ & Hl). cbv zeta in Hl.
  assert (Hstop : forall reason w0, reason ∈ failure_reasons ->
    ret (abstained reason, record_round rounds latency usage round (abstained reason) state 0, state) w0
      = (Ok (a, all, final), w') -> verdict final a /\ exists new, added (S n) round rounds all new).
  { intros reason w0 Hr [= <- <- <- _]. split; [by constructor 2|]. eexists. apply added_one; [done|]. split; cbn; lia. }
  destruct text as [text|]; [|apply (Hstop "PROVIDER_UNAVAILABLE" w1); [left|exact Hl]].
  destruct (decode_conclusion text) as [c|]; [|apply (Hstop "INVALID_PROVIDER_OUTPUT" w1); [right; left|exact Hl]].
  apply bind_ok in Hl as (at_ & w2 & _ & Hl).
  destruct (AssessCandidate c (SN_Evidence state) at_) as [x|] eqn:Ex;
    [|apply (Hstop "INVALID_PROVIDER_EVIDENCE" w2); [right; right; left|exact Hl]].
  destruct (AssessCandidate_status _ _ _ _ Ex) as (_ & Hw & _). apply well_cited_checks in Hw.
  set (r := mkRound latency usage round (AS_Status x) (AS_ReasonCode x) (Z.of_nat (length (SN_Evidence state)))
              (Z.of_nat (length (elems (CN_RequestedChecks c))))) in *.
  assert (Hr : round_fits r) by (split; cbn; lia).
  change (record_round rounds latency usage round x state _) with (rounds ++ [r]) in Hl.
  assert (Hend : forall b w0, verdict state b -> ret (b, rounds ++ [r], state) w0 = (Ok (a, all, final), w') ->
    verdict final a /\ exists new, added (S n) round rounds all new).
  { intros b w0 Hb [= <- <- <- _]. split; [done|]. exists [r]. by apply added_one. }
  pose proof (verdict_assessed state c at_ x Ex) as Hx.
  case_if_in Hl; [by apply (Hend x w2)|].
  assert (Hgo : forall tentative' seen' b state' w3, (n = 0%nat -> verdict state' b) ->
    rounds_loop run guidance refresh n (round + 1) tentative' seen' b (rounds ++ [r]) state' w3 = (Ok (a, all, final), w') ->
    verdict final a /\ exists new, added (S n) round rounds all new).
  { intros tentative' seen' b state' w3 Hb Hrec. apply IH in Hrec as [Ha [new Hnew]]; [|lia|done].
    split; [done|]. exists (r :: new). by apply added_cons. }
  destruct (elems (CN_RequestedChecks c)) as [|ck cks] eqn:Ec; [by eapply Hgo; [|exact Hl]|].
  case_if_in Hl; [apply (Hend (needs "COLLECTION_BUDGET_EXHAUSTED") w2); [constructor 1; do 2 right; left|done]|].
  destruct (see seen (ck :: cks)) as [seen'|];
    [|apply (Hend (needs "REPEATED_CHECK_WITHOUT_PROGRESS") w2); [constructor 1; do 3 right; left|done]].
  apply bind_ok in Hl as ([next ready] & w3 & _ & Hl). cbv beta iota in Hl.
  destruct ready; cbn [negb] in Hl.
  - apply bind_ok in Hl as ([] & w4 & _ & Hl). eapply Hgo; [|exact Hl]. intros ->. exfalso. breflect. lia.
  - apply (Hend (needs "FRESH_COLLECTION_UNAVAILABLE") w3); [|exact Hl]. constructor 1. do 4 right. left.
Qed.
End Engine.

Lemma ExecuteRounds_ok `{Env} runner state guidance refresh w a rounds final w' :
  ExecuteRounds runner state guidance refresh w = (Ok (a, rounds, final), w') ->
  verdict final a /\ exists new, added 3 1 [] rounds new.
Proof.
  unfold ExecuteRounds. destruct runner as [run|].
  - apply rounds_loop_ok; [lia|done].
  - intros [= <- <- <- _]. split; [constructor 1; right; left|]. exists []. apply added_none.
Qed.

Lemma not_waiting reason : reason ∈ failure_reasons -> reason ∉ waiting_reasons.
Proof. revert reason. apply Forall_forall. apply (bool_decide_eq_true_1 _). vm_compute. reflexivity. Qed.

(** What the engine reports passes the check that the orchestrator makes of a
    submitted result. *)
Lemma verdict_accepted state a :
  verdict state a ->
  AS_Status a ∈ [Hypothesis_; Inconclusive; NeedsEvidence] /\
  exists at_, forall result, RR_Assessment result = a -> (length (RR_Rounds result) <= 3)%nat ->
    ValidateAgentResult result state at_ = Ok a.
Proof.
  assert (Hlong : forall result : RunResult, (length (RR_Rounds result) <= 3)%nat ->
            (3 <? Z.of_nat (length (RR_Rounds result))) = false) by (intros; apply Z.ltb_ge; lia).
  intros [reason Hr|reason Hr|c at_ b Ha].
  - split; [do 2 right; left|]. exists 0. intros result Er Hl. unfold ValidateAgentResult.
    rewrite (Hlong _ Hl), Er.
    cbn [AS_Conclusion AS_ReasonCode needs unconcluded]. rewrite bool_decide_true by done. unfold mem_str. by rewrite bool_decide_true.
  - split; [right; left|]. exists 0. intros result Er Hl. unfold ValidateAgentResult. rewrite (Hlong _ Hl), Er.
    cbn [AS_Conclusion AS_ReasonCode abstained unconcluded]. rewrite bool_decide_true by done. unfold mem_str.
    rewrite (bool_decide_true (reason ∈ failure_reasons)), bool_decide_false; [done|by apply not_waiting|done].
  - destruct (AssessCandidate_status _ _ _ _ Ha) as (Ec & Hw & Hs). split; [done|]. exists at_. intros result Er Hl.
    unfold ValidateAgentResult. rewrite (Hlong _ Hl), Er, Ec, bool_decide_false; [done|]. by eapply well_cited_nonzero.
Qed.

(** C30: the diagnostic engine is bounded and cannot raise its own verdict.
    Whatever the provider answers and whatever a refresh brings, at most three
    rounds are recorded, numbered from one, each with at most two requested
    checks; the status is hypothesis, inconclusive or needs-evidence; and a
    report of these rounds and this assessment, checked against the engine's last
    snapshot at the instant of its assessment, is accepted unchanged. *)
Theorem engine_is_bounded `{Env} runner state guidance refresh w a rounds final w' :
  ExecuteRounds runner state guidance refresh w = (Ok (a, rounds, final), w') ->
  (length rounds <= 3)%nat /\ map RD_Number rounds = seqZ 1 (Z.of_nat (length rounds)) /\
  (forall r, r ∈ rounds -> 0 <= RD_ChecksRequested r <= 2) /\
  AS_Status a ∈ [Hypothesis_; Inconclusive; NeedsEvidence] /\
  exists at_, forall result, RR_Rounds result = rounds -> RR_Assessment result = a ->
    ValidateAgentResult result final at_ = Ok a.
Proof.
  intros Hr. apply ExecuteRounds_ok in Hr as [Hv [new [Happ Hl Hn Hf]]]. cbn in Happ. subst rounds.
  destruct (verdict_accepted _ _ Hv) as [Hs [at_ Ha]].
  split; [done|]. split; [done|]. split; [|split; [done|]].
  - intros r Hin. rewrite Forall_forall in Hf. by apply Hf in Hin as [? _].
  - exists at_. intros result E1 E2. apply Ha; [done|by rewrite E1].
Qed.

Lemma diagnosed_run c : is_ok (Demo.result (Attempt.engine c) Attempt.world0) = true ->
  exists a rounds final w', Attempt.diagnosed c = (a, rounds, final) /\
    Attempt.engine c Attempt.world0 = (Ok (a, rounds, final), w').
Proof.
  intros Hok. exists (fst (fst (Attempt.diagnosed c))), (snd (fst (Attempt.diagnosed c))), (snd (Attempt.diagnosed c)),
    (Demo.after (Attempt.engine c) Attempt.world0).
  rewrite <- !surjective_pairing. split; [done|]. by apply Demo.run_value.
Qed.

Lemma engine_is_bounded_witness :
  (length (snd (fst (Attempt.diagnosed Attempt.curious))) <= 3)%nat /\
  map RD_Number (snd (fst (Attempt.diagnosed Attempt.conclusion))) = [1; 2; 3].
Proof.
  destruct Attempt.engine_runs as (H1 & H2 & _ & _ & _ & Hl). split.
  - destruct (diagnosed_run _ H1) as (a & rounds & final & w' & -> & Hr).
    exact (proj1 (engine_is_bounded _ _ _ _ _ _ _ _ _ Hr)).
  - revert Hl. destruct (diagnosed_run _ H2) as (a & rounds & final & w' & -> & Hr). cbn [fst snd]. intros Hl.
    rewrite (proj1 (proj2 (engine_is_bounded _ _ _ _ _ _ _ _ _ Hr))), Hl. reflexivity.
Defined.


(** ** The snapshot at completion *)
Lemma for_each_pure `{Env} {A} (f : A -> M unit) l : (forall a, Steps eq (f a)) -> forall w x w',
  for_each f l w = (Ok x, w') -> db w' = db w /\ forall a, a ∈ l -> exists w1 w2, f a w1 = (Ok tt, w2) /\ db w1 = db w.
Proof.
  intros Hf. induction l as [|a l IH]; intros w x w'; cbn [for_each].
  { intros [= _ <-]. split; [done|]. by intros a Ha%elem_of_nil. }
  intros Hr. apply bind_ok in Hr as ([] & w1 & Ha & Hr). pose proof (Hf _ _ _ _ Ha) as E.
  apply IH in Hr as [Ed Hl]. split; [congruence|]. intros b [->|Hb]%elem_of_cons; [by exists w, w1|].
  destruct (Hl b Hb) as (w2 & w3 & Hb2 & E2). exists w2, w3. split; [done|congruence].
Qed.

(** An observation that may still be argued from: eligible, and reported by an
    agent that is still the one that reported it. *)
Record admitted (s : Queue.Service) (t : Tx) (d : DB) (at_ : Time) (e : EvidenceSnapshot) : Prop := {
  adm_eligible : all_of (lineage t d (ES_Ref e)) (node_eligible t d (pgTime at_)) = inr true;
  adm_reporter : match O_Source (ES_Observation e) with
    | Some src => exists g : row Tagents, g ∈ d Tagents /\ g_scope g = scope t /\ g_id g = S_AgentID src /\
        g_role g = "COLLECTOR" /\ g_revoked g = false /\ g_generation g = S_Generation src /\ g_epoch g = S_Epoch src /\
        at_ < g_expires g
    | None => Queue.Q_AuthorityEpoch s = ""
    end
}.

Lemma check_evidence_ok `{Env} s t at_ refs e w x w' :
  check_evidence s t at_ refs e w = (Ok x, w') -> ES_Ref e ∈ refs /\ admitted s t (db w) at_ e.
Proof.
  unfold check_evidence. intros Hr. apply bind_ok in Hr as ([] & w1 & Hin & Hr). apply guard_ok in Hin as [Hin ->].
  apply bind_ok in Hr as (b & w1 & He & Hr). apply Eligible_ok in He as [-> He].
  apply bind_ok in Hr as ([] & w1 & Hb & Hr). apply guard_ok in Hb as [-> ->]. apply bool_decide_eq_true in Hin.
  split; [done|]. constructor; [done|]. unfold check_reporter in Hr. destruct (O_Source _) as [src|].
  - apply bind_ok in Hr as (a & w1 & Ha & Hr). apply guard_ok in Hr as [Hg _]. apply AgentByID_ok in Ha as (-> & g & Hg1 & Hs & Hi & ->). unfold After in *. breflect. cbn in *. eauto 12.
  - apply guard_ok in Hr as [Hg _]. by breflect.
Qed.

(** The references that [current_refs] collects: each current item that is
    eligible with a current observation, once. *)
Lemma add_ref_in r l x : x ∈ add_ref r l <-> x = r \/ x ∈ l.
Proof.
  unfold add_ref. destruct (decide (r ∈ l)) as [Hin|Hn].
  - rewrite bool_decide_true by done. split; [by right|]. by intros [->|].
  - rewrite bool_decide_false by done. rewrite elem_of_app, list_elem_of_singleton. tauto.
Qed.

Lemma current_refs_ok `{Env} t at_ items : forall acc w refs w',
  current_refs t at_ acc items w = (Ok refs, w') ->
  (forall r, r ∈ acc -> r ∈ refs) /\
  forall i o, i ∈ items -> all_of (lineage t (db w) (self_ref i)) (node_eligible t (db w) (pgTime at_)) = inr true ->
    strict_observation (I_Body i) = Some o -> current_at o at_ = true -> self_ref i ∈ refs.
Proof.
  induction items as [|y items IH]; intros acc w refs w'; cbn [current_refs].
  { intros [= <- _]. split; [done|]. by intros i o Hi%elem_of_nil. }
  intros Hr. apply bind_ok in Hr as (b & w1 & He & Hr). pose proof (pure_Eligible _ _ _ _ _ _ He) as Ed.
  apply Eligible_ok in He as [_ He]. destruct b; cbn [negb] in Hr.
  - destruct (strict_observation (I_Body y)) as [oy|] eqn:Ey; [|done].
    apply IH in Hr as [Hacc Hin]. rewrite <- Ed in Hin. split.
    + intros r Hr. apply Hacc. case_if as E; [|done]. apply add_ref_in. by right.
    + intros i o [->|Hi]%elem_of_cons Hel Ho Hc; [|by eapply Hin]. apply Hacc. assert (oy = o) as -> by congruence.
      rewrite Hc. apply add_ref_in. by left.
  - apply IH in Hr as [Hacc Hin]. rewrite <- Ed in Hin. split; [done|].
    intros i o [->|Hi]%elem_of_cons Hel Ho Hc; [|by eapply Hin]. congruence.
Qed.

Lemma validateAgentSnapshot_ok `{Env} s t i at_ w x w' :
  validateAgentSnapshot validated s t i at_ w = (Ok x, w') ->
  at_ < SN_ValidUntil (IN_Snapshot i) /\
  (forall e, e ∈ SN_Evidence (IN_Snapshot i) -> admitted s t (db w) at_ e) /\
  exists current refs w1 w2 w3, CurrentEvidence t (IN_IncidentID i) at_ 100 w1 = (Ok current, w2) /\ db w1 = db w /\
    current_refs t at_ [] current w2 = (Ok refs, w3) /\ db w2 = db w /\
    length refs = length (SN_Evidence (IN_Snapshot i)) /\
    forall e, e ∈ SN_Evidence (IN_Snapshot i) -> ES_Ref e ∈ refs.
Proof.
  unfold validateAgentSnapshot. destruct (Queue.profile s _) as [pf|]; [|done]. intros Hr.
  apply bind_ok in Hr as ([] & w1 & Hg1 & Hr). apply guard_ok in Hg1 as [_ ->].
  apply bind_ok in Hr as ([] & w1 & Hg2 & Hr). apply guard_ok in Hg2 as [Hv ->].
  apply bind_ok in Hr as (current & w1 & Hc & Hr). pose proof (pure_CurrentEvidence _ _ _ _ _ _ _ Hc) as E1.
  apply bind_ok in Hr as (refs & w2 & Hcr & Hr). pose proof (pure_current_refs _ _ _ _ _ _ _ Hcr) as E2.
  apply bind_ok in Hr as ([] & w3 & Hl & Hr). apply guard_ok in Hl as [Hl ->].
  apply bind_ok in Hr as ([] & w3 & Hf & Hr).
  apply for_each_pure in Hf as [_ Hf].
  2:{ intros e. unfold check_evidence, check_reporter, AgentByID. repeat first [apply pure_Eligible | steps_one]. }
  assert (Hall : forall e, e ∈ SN_Evidence (IN_Snapshot i) -> ES_Ref e ∈ refs /\ admitted s t (db w) at_ e).
  { intros e He. destruct (Hf e He) as (wa & wb & Hce & Ea). apply check_evidence_ok in Hce as [Hin Ha].
    split; [done|]. by rewrite Ea, <- E2, <- E1 in Ha. }
  unfold After in Hv. breflect. split; [done|]. split; [by intros e He; apply Hall|].
  apply Nat.eqb_eq in Hl. exists current, refs, w, w1, w2. do 5 (split; [first [done|congruence]|]).
  intros e He. by apply Hall.
Qed.

(** ** What a completion writes *)
Definition claim_item (i : AgentInput) (sc : Scope) (id claim_id : string) (now : Time) (a : Assessment)
  (rounds : list Round) : Item :=
  mkItem sc (IN_IncidentID i) claim_id 1 Incident.Claim (encode (run_json (recorded_result i id a rounds))) now
    (SN_ValidUntil (IN_Snapshot i)) (SN_Parents (IN_Snapshot i)) "".

(** The job row after it has been finished with [result]. *)
Definition finished (t : Tx) (id : string) (result : ItemRef) (j : row Tjobs) : row Tjobs :=
  if job_at t id j && is_active (d_state j) then set_job j "COMPLETED" "" (Some result) None None else j.

Definition ask_human (i : AgentInput) (sc : Scope) (id actor : string) (now : Time) (a : Assessment) (tx : Tx)
  `{Env} : M unit :=
  if str_eqb (AS_Status a) NeedsEvidence then
    let* question := NewID in
    CreateInteraction tx (mkRequest sc question (IN_IncidentID i) id Clarification "CHANGE_CONTEXT" 1 "PENDING"
      (Add now Hour) "" "" "" None) actor
  else ret tt.

Section Frames.
Context `{Env}.
Lemma frame_PutItem t i : Steps (touches [Titems; Teligibility; Tparents; Thistory]) (PutItem t i).
Proof. unfold PutItem, linkGuidance, GetGoldenCase, GetRecoveryAssessment, GetItem, check_item_scope. steps. Qed.
Lemma frame_FinishRun t id st re r : Steps (touches [Truns]) (FinishRun t id st re r).
Proof. unfold FinishRun. steps. Qed.
Lemma frame_FinishDiagnosticJob t id st r : Steps (touches [Tjobs]) (FinishDiagnosticJob t id st r).
Proof. unfold FinishDiagnosticJob. steps. Qed.
Lemma frame_ask_human i sc id actor now a t : Steps (touches [Tinteractions; Toutbox]) (ask_human i sc id actor now a t).
Proof. unfold ask_human, CreateInteraction, Records.Enqueue, EnqueueOnce, NewID. steps. Qed.
Lemma frame_Enqueue t key kind payload : Steps (touches [Toutbox]) (Records.Enqueue t key kind payload).
Proof. unfold Records.Enqueue, EnqueueOnce, NewID. steps. Qed.

Lemma framed {A} ts (m : M A) w r w' tb :
  Steps (touches ts) m -> m w = (r, w') -> bool_decide (tb ∈ ts) = false -> db w' tb = db w tb.
Proof. intros Hs Hr Hn%bool_decide_eq_false. by apply (Hs _ _ _ Hr). Qed.
End Frames.

Lemma record_claim_ok `{Env} i sc id actor now a rounds t w item w' :
  record_claim i sc id actor now a rounds t w = (Ok item, w') ->
  (exists claim_id, Seal (claim_item i sc id claim_id now a rounds) = Ok item) /\
  (exists (r : row Titems) b, r ∈ db w' Titems /\ i_scope r = scope t /\ i_ref r = self_ref item /\
    jsonb_text (I_Body item) = Some b /\ i_envelope r = with_body b item) /\
  db w' Tjobs = map (finished t id (self_ref item)) (db w Tjobs).
Proof.
  unfold record_claim. intros Hr.
  apply bind_ok in Hr as (claim_id & w1 & Hid & Hr). pose proof (NewID_pure _ _ _ Hid) as E1.
  apply bind_ok in Hr as (claim & w2 & Hs & Hr). unfold of_res in Hs. injection Hs as Hs <-.
  apply bind_ok in Hr as ([] & w2 & Hp & Hr).
  pose proof (PutItem_row _ _ _ _ _ Hp) as (sealed & b & row & Hseal & Hb & Hrow & Rs & Ri & Re & _).
  assert (sealed = claim) as -> by (apply Seal_idempotent in Hs; congruence).
  apply bind_ok in Hr as ([] & w3 & Hf & Hr). apply bind_ok in Hr as ([] & w4 & Hj & Hr).
  apply bind_ok in Hr as ([] & w5 & Hq & Hr). apply bind_ok in Hr as ([] & w6 & He & Hr). injection Hr as <- <-.
  split; [by exists claim_id|].
  pose proof (fun tb => framed _ _ _ _ _ tb (frame_PutItem _ _) Hp) as Fp.
  pose proof (fun tb => framed _ _ _ _ _ tb (frame_FinishRun _ _ _ _ _) Hf) as Ff.
  pose proof (fun tb => framed _ _ _ _ _ tb (frame_FinishDiagnosticJob _ _ _ _) Hj) as Fj.
  pose proof (fun tb => framed _ _ _ _ _ tb (frame_ask_human i sc id actor now a t) Hq) as Fq.
  pose proof (fun tb => framed _ _ _ _ _ tb (frame_Enqueue _ _ _ _) He) as Fe. split.
  - exists row, b. rewrite Fe, Fq, Fj, Ff by reflexivity. done.
  - unfold FinishDiagnosticJob in Hj. apply bind_ok in Hj as ([] & wa & Hg & Hj). apply guard_ok in Hg as [_ ->].
    apply bind_ok in Hj as (n & wa & Hu & Hj). injection Hj as ->. apply update_ok in Hu as (_ & Hu & _).
    rewrite Fe, Fq by reflexivity. rewrite Hu, upd_same, Ff, Fp, E1 by reflexivity. done.
Qed.

(** Everything a completed attempt rests on and leaves behind. *)
Record completion `{Env} `{AEAD} (f : Fleet.Service) (token : string) (s : Queue.Service) (sc : Scope) (id attempt : string)
  (submitted : RunResult) (d d' : DB) (item : Item) (t : Tx) (g : row Tagents) (j : row Tjobs) (i : AgentInput)
  (a : Assessment) (at_ : Time) : Prop := {
  co_tx : scope t = sc /\ authorityEpoch t = Queue.Q_Epoch s;
  co_agent : g ∈ d Tagents /\ exists now, live_collector f sc token now g;
  co_job : j ∈ d Tjobs /\ exists now, attempt_row t id attempt g now j;
  co_authority : exists p now, OpenPrincipal (Some (Queue.Q_Policy s)) now (d_authority j) sc Investigate = Ok p;
  co_input : decode_input (default "" (d_input j)) = Some i;
  co_id : ValidID id = true;
  co_submitted : submission_ok i sc id submitted = true;
  co_valid : at_ < SN_ValidUntil (IN_Snapshot i);
  co_evidence : forall e, e ∈ SN_Evidence (IN_Snapshot i) -> admitted s t d at_ e;
  co_complete : NoDup (map ES_Ref (SN_Evidence (IN_Snapshot i))) ->
    forall (r : row Titems) x o, current_evidence t d (IN_IncidentID i) at_ r -> decodeItem (i_envelope r) = Ok x ->
      all_of (lineage t d (self_ref x)) (node_eligible t d (pgTime at_)) = inr true ->
      strict_observation (I_Body x) = Some o -> current_at o at_ = true ->
      self_ref x ∈ map ES_Ref (SN_Evidence (IN_Snapshot i)) \/ crowded_out t d (IN_IncidentID i) at_ r;
  co_assessed : ValidateAgentResult submitted (IN_Snapshot i) at_ = Ok a;
  co_recorded : exists claim_id rounds, accept_rounds a 1 (RR_Rounds submitted) = Ok rounds /\
    Seal (claim_item i sc id claim_id at_ a rounds) = Ok item;
  co_stored : exists (r : row Titems) b, r ∈ d' Titems /\ i_scope r = sc /\ i_ref r = self_ref item /\
    jsonb_text (I_Body item) = Some b /\ i_envelope r = with_body b item;
  co_finished : d' Tjobs = map (finished t id (self_ref item)) (d Tjobs)
}.

(** Distinct references that all occur in a list of the same length are that list. *)
Lemma no_other_ref (l refs : list ItemRef) :
  NoDup l -> (forall x, x ∈ l -> x ∈ refs) -> length refs = length l -> forall x, x ∈ refs -> x ∈ l.
Proof.
  intros Hn Hin Hlen x Hx. assert (Hp : l ≡ₚ refs).
  { apply submseteq_length_Permutation; [by apply NoDup_submseteq|lia]. }
  by rewrite Hp.
Qed.

Lemma CompleteTx_ok `{Env} `{AEAD} f token s id attempt submitted t w item w' :
  authorityEpoch t = Queue.Q_Epoch s ->
  CompleteTx validated (collector f token) s (scope t) id attempt submitted t w = (Ok item, w') ->
  exists g j i a at_, completion f token s (scope t) id attempt submitted (db w) (db w') item t g j i a at_.
Proof.
  intros Het. unfold CompleteTx. intros Hr. apply bind_ok in Hr as ([ag l] & wa & Hl & Hr).
  apply authorized_lease_ok in Hl as (Ea & Hvid & g & j & kg & kj & Hg & -> & Hlive & Hj & Hat & -> & p & kp & Hp). cbn in Hr.
  destruct (decode_input (default "" (d_input j))) as [i|] eqn:Ei; [|done].
  apply bind_ok in Hr as ([] & wb & Hs & Hr). apply guard_ok in Hs as [Hs ->].
  apply bind_ok in Hr as (at_ & wb & Ht & Hr). assert (db wb = db wa) as Eb by (by apply time_now_ok in Ht as [_ ->]).
  apply bind_ok in Hr as ([] & wc & Hv & Hr). pose proof (pure_validateAgentSnapshot _ _ _ _ _ _ _ Hv) as Ec.
  apply validateAgentSnapshot_ok in Hv as (Hvu & Hadm & current & refs & w2 & w3 & w4 & Hc & E2 & Hcr & E3 & Hlen & Hin).
  apply bind_ok in Hr as (a & wd & Ha & Hr). unfold of_res in Ha. injection Ha as Ha <-.
  apply bind_ok in Hr as (rounds & wd & Hro & Hr). unfold of_res in Hro. injection Hro as Hro <-.
  apply record_claim_ok in Hr as ((claim_id & Hseal) & Hrow & Hjobs).
  assert (Edb : db wb = db w) by congruence. rewrite <- Ec, Edb in Hjobs. rewrite Edb in Hadm, E2, E3.
  exists g, j, i, a, at_. constructor; eauto.
  intros Hn row x o Hrow' Hx Hel Ho Hcur. apply CurrentEvidence_ok in Hc as [_ Hc]. rewrite E2 in Hc.
  destruct (Hc row x Hrow' Hx) as [Hin'|]; [left|by right].
  apply (no_other_ref _ refs); [done| |by rewrite length_map|].
  - intros y (e & -> & He)%list_elem_of_fmap. by apply Hin.
  - apply current_refs_ok in Hcr as [_ Hcr]. rewrite E3 in Hcr. by eapply Hcr.
Qed.

Lemma CompleteAgent_ok `{Env} `{AEAD} f token s sc id attempt submitted w item w' :
  CompleteAgent validated (collector f token) s sc id attempt submitted w = (Ok item, w') ->
  exists t g j i a at_, completion f token s sc id attempt submitted (db w) (db w') item t g j i a at_.
Proof.
  unfold CompleteAgent. intros Hr. apply Transact_ok in Hr as (_ & w0 & w1 & Ed & Hr & ->). rewrite <- Ed.
  exists (mkTx sc (Queue.Q_Epoch s) (pg_now (tick w))). by apply (CompleteTx_ok f token s id attempt) in Hr.
Qed.

(** A job that is not running cannot be completed: the request fails and leaves
    the database alone. *)
Lemma CompleteAgent_refused `{Env} `{AEAD} f token s sc id attempt submitted w r w' :
  (forall j : row Tjobs, j ∈ db w Tjobs -> d_scope j = sc -> d_id j = id -> d_state j <> "RUNNING") ->
  CompleteAgent validated (collector f token) s sc id attempt submitted w = (r, w') ->
  is_ok r = false /\ db w' = db w.
Proof.
  intros Hn Hr.
  assert (Hcontra : forall t g j i a at_ d' item, completion f token s sc id attempt submitted (db w) d' item t g j i a at_ -> False).
  { intros t g j i a at_ d' item [[Es _] _ [Hj [now Hat]] _ _ _ _ _ _ _ _ _ _ _]. destruct Hat as [As Ai _ _ _ Ast _ _].
    apply (Hn j); try done. congruence. }
  split.
  - destruct r as [item|e]; [|done]. exfalso. apply CompleteAgent_ok in Hr as (t & g & j & i & a & at_ & Hc). by eapply Hcontra.
  - unfold CompleteAgent in Hr. apply Transact_atomic in Hr as [Hr|(_ & item & w0 & w1 & Ed & Hr & _)]; [done|]. exfalso.
    apply (CompleteTx_ok f token s id attempt) in Hr as (g & j & i & a & at_ & Hc); [|done]. rewrite Ed in Hc. by eapply Hcontra.
Qed.


#[local] Existing Instance Demo.env.
#[local] Existing Instance Toy.cipher.



(** An attempt is completed once.  After a result of a job has been
    accepted, no request of any attempt, agent or service completes that job
    again, in whatever database later requests lead to, under any clock, fault
    or randomness; the refused request changes nothing. *)
Theorem completion_is_final (E1 E2 : Env) `{AEAD} f1 f2 token1 token2 s1 s2 sc id attempt1 attempt2 r1 r2 w item w1 w2 r w3 :
  system (db w) ->
  @CompleteAgent E1 _ (@validated E1) (@collector E1 f1 token1) s1 sc id attempt1 r1 w = (Ok item, w1) ->
  rtc step (db w1) (db w2) ->
  @CompleteAgent E2 _ (@validated E2) (@collector E2 f2 token2) s2 sc id attempt2 r2 w2 = (r, w3) ->
  is_ok r = false /\ db w3 = db w2.
Proof.
  intros Hsys H1 Hst H2. refine (CompleteAgent_refused f2 token2 s2 sc id attempt2 r2 w2 r w3 _ H2).
  assert (Hs1 : system (db w1)).
  { eapply system_step; [exact Hsys|]. apply rtc_once. destruct w as [d k].
    eapply (step_request _ _ E1 (RComplete _ s1 f1 sc token1 id attempt1 r1) k (Ok tt) w1); [|done].
    cbn [run_request db]. unfold bind. by rewrite H1. }
  apply CompleteAgent_ok in H1 as (t & g & j & i & a & at_ & Hc). destruct Hc as [[Es _] _ [Hj [now Hat]] _ _ _ _ _ _ _ _ _ _ Hfin].
  intros j2 Hj2 Hsc2 Hid2. destruct Hat as [Hsc Hid _ _ _ Hrun _ _].
  assert (Hdone : set_job j "COMPLETED" "" (Some (self_ref item)) None None ∈ db w1 Tjobs).
  { rewrite Hfin. apply list_elem_of_fmap. exists j. split; [|done]. unfold finished, job_at, in_scope.
    by rewrite Hsc, Hid, scope_eqb_refl, str_eqb_refl, Hrun. }
  destruct (rows_kept (db w1) (db w2) Tjobs _ (system_ok _ Hs1) Hst eq_refl Hdone) as (j' & Hj' & K1 & K2 & _ & _ & _ & [K|[K3 _]]);
    [done|]. cbn in K1, K2, K3.
  assert (j2 = j') as ->; [|by rewrite K3].
  apply (jobs_inj (db w2)); [apply system_ok; by apply (system_step (db w1))|done|done|congruence|congruence].
Qed.

Lemma completion_is_final_witness :
  is_ok (Demo.result (CompleteAgent validated (collector Demo.svc Attempt.token) Attempt.service Attempt.sc
    (D_ID Attempt.job) (AC_AttemptID Attempt.claimed) Attempt.submitted) Attempt.world4) = false.
Proof.
  exact (proj1 (completion_is_final Demo.env Demo.env Demo.svc Demo.svc Attempt.token Attempt.token Attempt.service
    Attempt.service Attempt.sc (D_ID Attempt.job) (AC_AttemptID Attempt.claimed) (AC_AttemptID Attempt.claimed)
    Attempt.submitted Attempt.submitted Attempt.world3 Attempt.recorded Attempt.world4 Attempt.world4 _ _
    AttemptFacts.system3 AttemptFacts.completed (rtc_refl _ _) (Demo.run_pair _ Attempt.world4))).
Defined.

(** C34: what was recorded is what is reviewed.  Once an attempt has completed,
    every later read of its claim returns exactly the sealed claim, after any
    further requests of anyone, and its body decodes to the run that the
    orchestrator recorded: the rubric's verdict, the knowledge and environment
    versions of the stored input and the accepted rounds, whatever the agent had
    written in their place.  The strings concerned are UTF-8 without NUL, the
    versions are int64 and a list of requested checks is not empty but present,
    which the record would not tell from an absent one. *)
Theorem recorded_run_reads_back (E1 E2 : Env) `{AEAD} f token s sc id attempt submitted w item w1 w2 t (j : row Tjobs) i :
  system (db w) -> j ∈ db w Tjobs -> d_scope j = sc -> d_id j = id ->
  decode_input (default "" (d_input j)) = Some i -> input_ok i -> conclusion_ok (AS_Conclusion (RR_Assessment submitted)) ->
  @CompleteAgent E1 _ (@validated E1) (@collector E1 f token) s sc id attempt submitted w = (Ok item, w1) ->
  rtc step (db w1) (db w2) -> scope t = sc ->
  @GetItem E2 t (self_ref item) w2 =
    (match @fault E2 (tick w2) with Some e => Err (safeError e) | None => Ok item end, next w2) /\
  exists a at_ rounds, ValidateAgentResult submitted (IN_Snapshot i) at_ = Ok a /\
    accept_rounds a 1 (RR_Rounds submitted) = Ok rounds /\
    decode_run (I_Body item) = Some (recorded_result i id a rounds).
Proof.
  intros Hsys Hj Hjs Hji Hdi Hi Hcon H1 Hst Et.
  assert (Hs1 : system (db w1))
    by exact (system_step _ _ Hsys (complete_steps (rtc step) f token s sc (fun q _ => requests_step q) id attempt submitted _ _ _ H1)).
  apply CompleteAgent_ok in H1 as (t1 & g & j' & i' & a & at_ & Hc).
  destruct Hc as [[Es _] _ [Hj' [now Hat]] _ Hin Hid _ _ _ _ Ha (claim_id & rounds & Hro & Hseal) (r & b & Hr & Rs & Ri & Hb & Re) _].
  destruct Hat as [Hsc' Hid' _ _ _ _ _ _].
  assert (j' = j) as -> by (apply (jobs_inj (db w)); [by apply system_ok|done|done|congruence|congruence]).
  assert (i' = i) as -> by congruence.
  pose proof (recorded_result_ok _ _ _ _ _ _ _ Hi Hid Hcon Ha Hro) as Hok.
  destruct (recorded_run_text _ (claim_item i sc id claim_id at_ a rounds) _ Hok eq_refl Hseal) as [(b' & Hb' & Hcan) Hdec].
  assert (b' = b) as -> by congruence. split; [|by exists a, at_, rounds].
  pose proof (Seal_sealed _ _ Hseal) as Hsl.
  rewrite (GetItem_row t (self_ref item) w2 r); [| |by eapply audit_kept; [by apply system_ok|exact Hst|right; left|]|congruence|done|by apply sealed_ref].
  2:{ apply system_ok. by apply (system_step (db w1)). }
  destruct (fault (tick w2)); [done|]. rewrite Re. unfold decodeItem. rewrite (Seal_same _ _ _ Hseal Hcan).
  change (I_Hash (with_body b item)) with (I_Hash item). rewrite str_eqb_refl.
  apply Seal_fields in Hseal as (Hsc & _). cbn in Hsc. rewrite Hsc, Et. by rewrite scope_eqb_refl.
Qed.

Lemma recorded_run_reads_back_witness : exists r, decode_run (I_Body Attempt.recorded) = Some r.
Proof.
  destruct AttemptFacts.input_stored as (j & i & Hj & Hs & Hi & Hd & Hok).
  destruct (recorded_run_reads_back Demo.env Demo.env Demo.svc Attempt.token Attempt.service Attempt.sc (D_ID Attempt.job)
    (AC_AttemptID Attempt.claimed) Attempt.submitted Attempt.world3 Attempt.recorded Attempt.world4 Attempt.world4
    (mkTx Attempt.sc Demo.epoch Demo.T0) j i AttemptFacts.system3 Hj Hs Hi Hd Hok
    AttemptFacts.conclusion_fits AttemptFacts.completed (rtc_refl _ _) eq_refl) as (_ & a & at_ & rounds & _ & _ & Hr).
  exact (ex_intro _ _ Hr).
Defined.
