(* ===== verification/Review.v ===== *)
(** * Theorems on the steward's review

    [Corroborate] raises a hypothesis to a corroborated claim.  What it read, and
    what it left behind. *)

From stdpp Require Import relations.
From S2P Require Import Prelude.
From S2P Require Import Sha256.
From S2P Require Import Md5.
From S2P Require Import Json.
From S2P Require Import JsonFacts.
From S2P Require Import GoTime.
From S2P Require Import Decode.
From S2P Require Import Identity.
From S2P Require Import Authorization.
From S2P Require Import Incident.
From S2P Require Import Db.
From S2P Require Import Sql.
From S2P Require Import Storage.
From S2P Require Import Lineage.
From S2P Require Import Records.
From S2P Require Import Queues.
From S2P Require Import Privacy.
From S2P Require Import Fleet.
From S2P Require Import Recovery.
From S2P Require Import Governance.
From S2P Require Import Investigation.
From S2P Require Import Knowledge.
From S2P Require Import Execution.
From S2P Require Import ExecutionFacts.
From S2P Require Import ExecutionSafety.
From S2P Require Import System.
From S2P Require Import Evolution.
From S2P Require Import Scenario.
From S2P Require Import ExecutionProps.
From S2P Require Import SystemProps.
From S2P Require Import FleetProps.
From S2P Require Import Bounds.
From S2P Require Import QueueProps.
From S2P Require Import ItemProps.
From S2P Require Import Toy.
From S2P Require Import Snapshot.
From S2P Require Import Rounds.
From S2P Require Import Diagnosis.
From S2P Require Import RunText.
From S2P Require Import Attempt.
From S2P Require Import DiagnosisSteps.
From S2P Require Import DiagnosisProps.

Import Rubric Snapshot Rounds Agents Corroboration.

Section Reads.
Context `{Env}.

Lemma GetItem_ok t ref w i w' :
  GetItem t ref w = (Ok i, w') ->
  db w' = db w /\ exists r : row Titems, r ∈ db w Titems /\ i_scope r = scope t /\ i_ref r = ref /\
    decodeItem (i_envelope r) = Ok i.
Proof.
  intros Hg. pose proof (pure_GetItem _ _ _ _ _ Hg) as Ed. split; [done|]. unfold GetItem, check_item_scope in Hg.
  apply bind_ok in Hg as ([] & w1 & Hv & Hg). apply guard_ok in Hv as [_ ->].
  apply bind_ok in Hg as (raw & w1 & Hq & Hg). apply query_row_ok in Hq as [[l El] _].
  apply bind_ok in Hg as (x & w2 & Hd & Hg). unfold of_res in Hd. injection Hd as Hd _.
  apply bind_ok in Hg as ([] & w3 & _ & Hg). injection Hg as <- _.
  apply map_filter_cons in El as (r & Hr & Hp & <-). unfold item_at, in_scope, scope_eqb in Hp. breflect. by exists r.
Qed.

(** What the review loop has checked of each piece of evidence. *)
Definition reviewed (t : Tx) (d : DB) (incident : string) (e : EvidenceSnapshot) : Prop :=
  Validate (ES_Observation e) = true /\
  exists (r : row Titems) i at_, r ∈ d Titems /\ i_scope r = scope t /\ i_ref r = ES_Ref e /\
    decodeItem (i_envelope r) = Ok i /\ I_Kind i = Evidence /\ I_IncidentID i = incident /\
    decode_observation (I_Body i) = Some (ES_Observation e) /\
    all_of (lineage t d (ES_Ref e)) (node_eligible t d (pgTime at_)) = inr true.

Lemma review_ok t incident l : forall seen acc until w evidence until' w',
  review t incident seen acc until l w = (Ok (evidence, until'), w') ->
  until' <= until /\ NoDup l /\ (forall x, x ∈ l -> x ∉ seen) /\
  exists new, evidence = acc ++ new /\ map ES_Ref new = l /\ forall e, e ∈ new -> reviewed t (db w) incident e.
Proof.
  induction l as [|ref l IH]; intros seen acc until w evidence until' w'; cbn [review].
  { intros [= <- <- _]. split; [lia|]. split; [constructor|]. split; [by intros x Hx%elem_of_nil|]. exists [].
    rewrite app_nil_r. split; [done|]. split; [done|]. by intros e He%elem_of_nil. }
  intros Hr. apply bind_ok in Hr as ([] & w1 & Hs & Hr). apply guard_ok in Hs as [Hs ->].
  apply negb_true_iff, bool_decide_eq_false in Hs.
  apply bind_ok in Hr as (i & w1 & Hg & Hr). apply GetItem_ok in Hg as (E1 & row & Hrow & Rs & Ri & Hdi).
  apply bind_ok in Hr as ([] & w2 & Hk & Hr). apply guard_ok in Hk as [Hk ->].
  apply bind_ok in Hr as (at_ & w2 & Ht & Hr). apply time_now_ok in Ht as [_ ->].
  apply bind_ok in Hr as (ok & w2 & He & Hr). apply Eligible_ok in He as [-> He].
  apply bind_ok in Hr as ([] & w2 & Ho & Hr). apply guard_ok in Ho as [-> ->].
  destruct (decode_observation (I_Body i)) as [o|] eqn:Eo; [|done].
  apply bind_ok in Hr as ([] & w2 & Hv & Hr). apply guard_ok in Hv as [Hv ->].
  apply IH in Hr as (Hu & Hnd & Hns & new & -> & Hm & Hall). cbn [db next] in *. rewrite E1 in *.
  split; [unfold Snapshot.earlier, Before in Hu; case_match; breflect; lia|].
  split; [constructor; [|done]; intros Hin; apply (Hns ref Hin); left|].
  split; [intros x [->|Hx]%elem_of_cons; [done|]; intros Hxs; apply (Hns x Hx); by right|].
  exists (mkEvidence ref o :: new). rewrite <- app_assoc. split; [done|]. cbn [map ES_Ref]. split; [by rewrite Hm|].
  intros e [->|Hin]%elem_of_cons; [|by apply Hall]. split; [done|]. breflect. cbn [ES_Ref ES_Observation].
  exists row, i, at_. done.
Qed.

(** No current eligible observation calls the resource healthy. *)
Lemma no_health_ok t handle items : forall w x w',
  no_health t handle items w = (Ok x, w') ->
  forall i o, i ∈ items -> decode_observation (I_Body i) = Some o -> O_ResourceHandle o = handle -> O_Code o = Healthy ->
  exists at_, all_of (lineage t (db w) (self_ref i)) (node_eligible t (db w) (pgTime at_)) = inr false.
Proof.
  induction items as [|y items IH]; intros w x w'; cbn [no_health]; [by intros _ i o Hi%elem_of_nil|].
  intros Hr i o Hi Ho Hh Hc. apply bind_ok in Hr as (at_ & w1 & Ht & Hr). apply time_now_ok in Ht as [_ ->].
  apply bind_ok in Hr as (b & w1 & He & Hr). apply Eligible_ok in He as [-> He].
  apply bind_ok in Hr as ([] & w1 & Hb & Hr). cbn [db next] in He.
  assert (Ed : db w1 = db w).
  { destruct b; cbn [negb] in Hb; [|by injection Hb as <-]. destruct (decode_observation (I_Body y)); [|by injection Hb as <-].
    by apply guard_ok in Hb as [_ ->]. }
  apply elem_of_cons in Hi as [->|Hi]; [|rewrite <- Ed; by eapply IH].
  exists at_. destruct b; [|done]. exfalso. cbn [negb] in Hb. rewrite Ho in Hb. apply guard_ok in Hb as [Hb _].
  rewrite Hh, Hc, !str_eqb_refl in Hb. done.
Qed.
End Reads.

(** What a corroboration rests on. *)
Record corroboration `{Env} (t : Tx) (p : Principal) (r : CorroborateRequest) (d : DB) (claim : Item) (run : RunResult)
  (evidence : list EvidenceSnapshot) (until : Time) : Prop := {
  cr_claim : exists row : row Titems, row ∈ d Titems /\ i_scope row = scope t /\ i_ref row = CR_Claim r /\
    decodeItem (i_envelope row) = Ok claim;
  cr_hash : I_Kind claim = Incident.Claim /\ I_Hash claim = CR_ClaimHash r;
  cr_eligible : exists at_, all_of (lineage t d (CR_Claim r)) (node_eligible t d (pgTime at_)) = inr true;
  cr_run : decode_run (I_Body claim) = Some run /\ AS_Status (RR_Assessment run) = Hypothesis_ /\
    CN_CauseCode (AS_Conclusion (RR_Assessment run)) ∈ [NetworkBlocked; ConfigurationDrift; ResourcePressure];
  cr_distinct : NoDup (CR_Claim r :: CR_Evidence r);
  cr_evidence : map ES_Ref evidence = CR_Evidence r /\ forall e, e ∈ evidence -> reviewed t d (I_IncidentID claim) e;
  cr_until : until <= I_ValidUntil claim;
  cr_direct : direct_at (AS_Conclusion (RR_Assessment run)) evidence <> zeroTime /\
    exists e, e ∈ evidence /\
      discriminates (AS_Conclusion (RR_Assessment run)) (direct_at (AS_Conclusion (RR_Assessment run)) evidence) e = true;
  cr_assessed : exists at_ a, AS_Status a = Hypothesis_ /\
    AssessCandidate (with_support (AS_Conclusion (RR_Assessment run)) (CR_Evidence r)) evidence at_ = Ok a;
  cr_healthy : exists at_ current w1 w2, CurrentEvidence t (I_IncidentID claim) at_ 100 w1 = (Ok current, w2) /\ db w1 = d /\
    length current <> 100%nat /\
    forall i o, i ∈ current -> decode_observation (I_Body i) = Some o ->
      O_ResourceHandle o = CN_ResourceHandle (AS_Conclusion (RR_Assessment run)) -> O_Code o = Healthy ->
      exists at_, all_of (lineage t d (self_ref i)) (node_eligible t d (pgTime at_)) = inr false
}.

(** The body that [record_corroboration] seals. *)
Definition corroborated_body (p : Principal) (r : CorroborateRequest) (run : RunResult) (a : Assessment) : string :=
  encode (corroborated_json (with_assessment run
    (mkAssessment Corroborated "INDEPENDENT_STEWARD_CAUSAL_REVIEW" (AS_Conclusion a))) (P_ID p) (CR_Claim r)).

Lemma record_corroboration_ok `{Env} p sc r claim run a until t w item w' :
  record_corroboration p sc r claim run a until t w = (Ok item, w') ->
  exists id at_, Seal (mkItem sc (I_IncidentID claim) id 1 Incident.Claim (corroborated_body p r run a) at_ until
      (CR_Claim r :: CR_Evidence r) "") = Ok item /\
    exists (row : row Titems) b, row ∈ db w' Titems /\ i_scope row = scope t /\ i_ref row = self_ref item /\
      jsonb_text (I_Body item) = Some b /\ i_envelope row = with_body b item.
Proof.
  unfold record_corroboration. intros Hr.
  apply bind_ok in Hr as (id & w1 & _ & Hr). apply bind_ok in Hr as (at_ & w2 & _ & Hr).
  apply bind_ok in Hr as (result & w3 & Hs & Hr). unfold of_res in Hs. injection Hs as Hs <-.
  apply bind_ok in Hr as ([] & w4 & Hp & Hr). pose proof (PutItem_row _ _ _ _ _ Hp) as (sealed & b & row & Hseal & Hb & Hrow & Rs & Ri & Re & _).
  assert (sealed = result) as -> by (apply Seal_idempotent in Hs; congruence).
  apply bind_ok in Hr as (eid & w5 & Hid & Hr). apply NewID_pure in Hid.
  apply bind_ok in Hr as (eat & w6 & Ht & Hr). apply time_now_ok in Ht as [_ ->].
  apply bind_ok in Hr as (key & w7 & Hk & Hr). apply NewID_pure in Hk. cbn [db next] in Hk.
  apply bind_ok in Hr as ([] & w8 & Ha & Hr). apply bind_ok in Hr as ([] & w9 & He & Hr). injection Hr as <- <-.
  exists id, at_. split; [exact Hs|]. exists row, b. split; [|done].
  rewrite (framed _ _ _ _ _ Titems (frame_Enqueue _ _ _ _) He) by reflexivity.
  assert (Hf : Steps (touches [Tadjudications]) (PutAdjudication t (mkAdjudication sc eid (I_IncidentID claim) (self_ref result)
    (I_Hash result) "" (P_ID p) "CONFIRMED" [] (I_Hash result) key eat))) by (unfold PutAdjudication; steps).
  rewrite (framed _ _ _ _ _ Titems Hf Ha) by reflexivity. by rewrite Hk, Hid.
Qed.

Lemma CorroborateTx_ok `{Env} p r t w item w' :
  CorroborateTx p (scope t) r t w = (Ok item, w') ->
  exists claim run evidence until a id at_, corroboration t p r (db w) claim run evidence until /\
    AS_Status a = Hypothesis_ /\
    Seal (mkItem (scope t) (I_IncidentID claim) id 1 Incident.Claim (corroborated_body p r run a) at_ until
      (CR_Claim r :: CR_Evidence r) "") = Ok item /\
    exists (row : row Titems) b, row ∈ db w' Titems /\ i_scope row = scope t /\ i_ref row = self_ref item /\
      jsonb_text (I_Body item) = Some b /\ i_envelope row = with_body b item.
Proof.
  unfold CorroborateTx. intros Hr.
  apply bind_ok in Hr as (claim & w1 & Hg & Hr). apply GetItem_ok in Hg as (E1 & row & Hrow & Rs & Ri & Hdi).
  apply bind_ok in Hr as ([] & w2 & Hk & Hr). apply guard_ok in Hk as [Hk ->].
  apply bind_ok in Hr as (a1 & w2 & Ht & Hr). apply time_now_ok in Ht as [_ ->].
  apply bind_ok in Hr as (ok & w2 & He & Hr). apply Eligible_ok in He as [-> He].
  apply bind_ok in Hr as ([] & w2 & Ho & Hr). apply guard_ok in Ho as [-> ->].
  destruct (decode_run (I_Body claim)) as [run|] eqn:Erun; [|done]. cbv zeta in Hr.
  apply bind_ok in Hr as ([] & w2 & Hh & Hr). apply guard_ok in Hh as [Hh ->].
  apply bind_ok in Hr as ([evidence until] & w2 & Hrev & Hr). pose proof (pure_review _ _ _ _ _ _ _ _ _ Hrev) as E2.
  apply review_ok in Hrev as (Hu & Hnd & Hns & new & Hnew & Hm & Hall). cbn [app] in Hnew. subst new. cbn [db next] in *.
  apply bind_ok in Hr as ([] & w3 & Hd & Hr). apply guard_ok in Hd as [Hd ->].
  apply bind_ok in Hr as (a2 & w3 & Ht & Hr). apply time_now_ok in Ht as [_ ->].
  destruct (AssessCandidate _ evidence a2) as [a|] eqn:Ea; [|done].
  apply bind_ok in Hr as ([] & w3 & Hst & Hr). apply guard_ok in Hst as [Hst ->].
  apply bind_ok in Hr as (a3 & w3 & Ht & Hr). apply time_now_ok in Ht as [_ ->].
  apply bind_ok in Hr as (current & w3 & Hc & Hr). pose proof (pure_CurrentEvidence _ _ _ _ _ _ _ Hc) as E3.
  apply bind_ok in Hr as ([] & w4 & Hl & Hr). apply guard_ok in Hl as [Hl ->].
  apply bind_ok in Hr as ([] & w4 & Hn & Hr). pose proof (pure_no_health _ _ _ _ _ _ Hn) as E4.
  pose proof (no_health_ok _ _ _ _ _ _ Hn) as Hhealth. cbn [db next] in *. rewrite E1 in *. rewrite <- E2 in *. rewrite <- E3 in *.
  apply record_corroboration_ok in Hr as (id & at_ & Hseal & Hstored).
  exists claim, run, evidence, until, a, id, at_.
  apply andb_true_iff in Hk as [Hk1%bool_decide_eq_true Hk2%bool_decide_eq_true].
  apply andb_true_iff in Hh as [Hh1%bool_decide_eq_true Hh2%bool_decide_eq_true].
  apply andb_true_iff in Hd as [Hd1%negb_true_iff%Z.eqb_neq Hd2]. apply existsb_exists in Hd2 as (e & Hin & Hdisc).
  apply bool_decide_eq_true in Hst. apply negb_true_iff, Z.eqb_neq in Hl.
  split; [|by split; [|split]]. constructor; try done; try by eauto.
  - constructor; [|done]. intros Hc'. by apply (Hns _ Hc'), list_elem_of_singleton.
  - split; [done|]. exists e. split; [by apply list_elem_of_In|done].
  - exists a3, current, (next (next w2)), w3. split; [done|]. split; [done|]. split; [lia|]. exact Hhealth.
Qed.

#[local] Existing Instance Demo.env.
#[local] Existing Instance Toy.cipher.

(** C35: corroboration is an authorized, independent review.  A claim becomes
    corroborated only for a principal that may adjudicate in the scope, with the
    three checks affirmed, from a stored, eligible hypothesis of one of three
    structural causes whose hash the reviewer named, and from two to thirty-two
    distinct stored pieces of evidence of the same incident, each eligible and
    valid: one shows the cause on the resource, another discriminates it, the
    rubric still finds a hypothesis on exactly that evidence, and no current
    eligible observation of the incident calls the resource healthy.  The new
    claim descends from the hypothesis and from all of that evidence, expires no
    later than the hypothesis, and is stored. *)
Theorem corroboration_is_reviewed `{Env} s p sc r w item w' :
  Corroborate s p sc r w = (Ok item, w') ->
  Authorize (Some (BE_Policy s)) (go_now (tick w)) p sc Authorization.Adjudicate = true /\
  CR_UpstreamChecked r && CR_TemporalOrderChecked r && CR_AlternativesTested r = true /\
  2 <= Z.of_nat (length (CR_Evidence r)) <= 32 /\
  exists t claim run evidence until, scope t = sc /\ corroboration t p r (db w) claim run evidence until /\
    I_Kind item = Incident.Claim /\ I_IncidentID item = I_IncidentID claim /\ I_ValidUntil item = until /\
    Permutation (I_Parents item) (CR_Claim r :: CR_Evidence r) /\
    exists row : row Titems, row ∈ db w' Titems /\ i_scope row = sc /\ i_ref row = self_ref item.
Proof.
  unfold Corroborate. intros Hr. apply bind_ok in Hr as ([] & w1 & Ha & Hr). apply authorize_ok in Ha as [Ha ->].
  apply bind_ok in Hr as ([] & w1 & Hg & Hr). apply guard_ok in Hg as [Hg ->].
  apply Transact_ok in Hr as (_ & w0 & w1 & Ed & Hr & Ed'). cbn [db next] in *.
  repeat match goal with H : _ && _ = true |- _ => apply andb_true_iff in H as [? ?] end. breflect.
  split; [done|]. split; [by repeat (apply andb_true_iff; split)|]. split; [lia|].
  set (t := mkTx sc _ _) in Hr. apply (CorroborateTx_ok p r t) in Hr as
    (claim & run & evidence & until & a & id & at_ & Hc & _ & Hs & row & b & Hrow & Rs & Ri & _).
  exists t, claim, run, evidence, until. split; [done|]. rewrite <- Ed, Ed'. split; [done|].
  apply Seal_parents in Hs as Hp. apply Seal_fields in Hs as F. cbn in F, Hp. destruct F as (_ & F1 & _ & _ & F2 & _ & F3).
  split; [done|]. split; [done|]. split; [done|]. split; [done|]. by exists row.
Qed.

Lemma corroboration_is_reviewed_witness :
  I_Kind Attempt.corroborated = Incident.Claim /\
  Permutation (I_Parents Attempt.corroborated) [self_ref Attempt.recorded; Attempt.ref1; Attempt.ref2].
Proof.
  destruct (corroboration_is_reviewed Attempt.backend Demo.owner Attempt.sc Attempt.review Attempt.world4
    Attempt.corroborated Attempt.world5 AttemptFacts.reviewed)
    as (_ & _ & _ & t & claim & run & evidence & until & _ & _ & Hk & _ & _ & Hp & _).
  exact (conj Hk Hp).
Defined.
