(* ===== verification/RecoveryProps.v ===== *)
(** * Theorems on recovery, feedback and knowledge *)

From stdpp Require Import relations.
From S2P Require Import Prelude.
From S2P Require Import Sha256.
From S2P Require Import Md5.
From S2P Require Import Json.
From S2P Require Import JsonFacts.
From S2P Require Import GoTime.
From S2P Require Import Decode.
From S2P Require Import Identity.
From S2P Require Import Authorization.
From S2P Require Import Incident.
From S2P Require Import Db.
From S2P Require Import Sql.
From S2P Require Import Storage.
From S2P Require Import Lineage.
From S2P Require Import Records.
From S2P Require Import Queues.
From S2P Require Import Privacy.
From S2P Require Import Fleet.
From S2P Require Import Recovery.
From S2P Require Import Governance.
From S2P Require Import Investigation.
From S2P Require Import Knowledge.
From S2P Require Import Execution.
From S2P Require Import ExecutionFacts.
From S2P Require Import ExecutionSafety.
From S2P Require Import System.
From S2P Require Import Evolution.
From S2P Require Import Scenario.
From S2P Require Import ExecutionProps.
From S2P Require Import SystemProps.
From S2P Require Import FleetProps.
From S2P Require Import Bounds.
From S2P Require Import QueueProps.
From S2P Require Import ItemProps.
From S2P Require Import Toy.
From S2P Require Import Snapshot.
From S2P Require Import Attempt.
From S2P Require Import DiagnosisSteps.
From S2P Require Import DiagnosisProps.

(** ** A recovered resource, run on the model *)
Module Mended.
#[local] Existing Instance Demo.env.
Definition svc : Recovery.Service := Recovery.mkService Demo.epoch Demo.policy.
Definition profile : RecoveryProfile := mkProfile Demo.sc "web" 1 [Demo.handle] 60 60 3 1.
Definition sample (age : Z) : HealthSample :=
  mkSample Demo.sc "incident" Attempt.ref1 Demo.handle "uid" "collector" 1 Demo.epoch "COMPLETE" true 2
    (Demo.T0 - age * Second).
Definition prepare : M unit :=
  Recovery.SetProfile svc Demo.admin profile ;;
  run_request (RTransaction Demo.epoch Demo.sc
    [TPutHealthSample (sample 60); TPutHealthSample (sample 30); TPutHealthSample (sample 0)]).
Definition world : World := Demo.after prepare Attempt.world1.
Definition assess : M RecoveryAssessment := Recovery.Assess svc Demo.owner Demo.sc "incident" "web".
Definition zero : RecoveryAssessment := mkRecovery "" Demo.sc "" "" 0 "" "" [] 0.
Definition assessed : RecoveryAssessment := Demo.value zero (Demo.result assess world).
Definition after : World := Demo.after assess world.
Lemma mended_runs : is_ok (Demo.result prepare Attempt.world1) = true /\ is_ok (Demo.result assess world) = true /\
  RA_Status assessed = Recovery.RECOVERED.
Proof. vm_compute. repeat split. Qed.
Lemma assess_eq : assess = Recovery.Assess svc Demo.owner Demo.sc "incident" "web".
Proof. reflexivity. Qed.
Lemma assess_run : Recovery.Assess svc Demo.owner Demo.sc "incident" "web" world = (Ok assessed, after).
Proof. destruct mended_runs as (_ & Hok & _). rewrite <- assess_eq. exact (Demo.run_value assess world zero Hok). Qed.
End Mended.

(** The first row in descending order is a greatest one. *)
Lemma isort_first {A} (v : A -> Z) l x rest :
  isort (fun a b => v b <=? v a) l = x :: rest -> x ∈ l /\ forall y, y ∈ l -> v y <= v x.
Proof.
  intros E.
  assert (Hs : StronglySorted (fun a b => (v b <=? v a) = true) (isort (fun a b => v b <=? v a) l)).
  { apply isort_sorted; [intros; lia|]. intros a b c. rewrite !Z.leb_le. lia. }
  split; [rewrite <- (isort_elem (fun a b => v b <=? v a)), E; left|].
  intros y Hy. rewrite <- (isort_elem (fun a b => v b <=? v a)), E in Hy. rewrite E in Hs.
  apply StronglySorted_inv in Hs as [_ Hf]. apply elem_of_cons in Hy as [->|Hy]; [lia|].
  rewrite Forall_forall in Hf. apply Hf in Hy. lia.
Qed.

Section Reads.
Context `{Env}.

Lemma GetRecoveryProfile_ok t id w p w' :
  GetRecoveryProfile t id w = (Ok p, w') ->
  db w' = db w /\ exists row : row Tprofiles, row ∈ db w Tprofiles /\ rp_scope row = scope t /\ rp_id row = id /\
    rp_envelope row = p /\
    forall row' : Db.row Tprofiles, row' ∈ db w Tprofiles -> rp_scope row' = scope t -> rp_id row' = id ->
      rp_version row' <= rp_version row.
Proof.
  unfold GetRecoveryProfile. intros Hr. apply bind_ok in Hr as ([] & w1 & Hv & Hr). apply guard_ok in Hv as [_ ->].
  apply bind_ok in Hr as (x & w1 & Hq & Hr). apply query_row_ok in Hq as [[l E] ->].
  apply bind_ok in Hr as ([] & w1 & Hg & Hr). apply guard_ok in Hg as [_ ->]. injection Hr as <- <-. split; [done|].
  destruct (isort _ _) as [|row rows] eqn:Es; [done|]. injection E as E _. apply isort_first in Es as [Hin Hmax].
  apply list_elem_of_In, filter_In in Hin as [Hin Hp]. unfold in_scope in Hp.
  apply andb_true_iff in Hp as [Hp1%scope_eqb_eq Hp2%bool_decide_eq_true]. exists row.
  split; [by apply list_elem_of_In|]. split; [done|]. split; [done|]. split; [done|].
  intros row' Hin' Hs Hi. apply Hmax. apply list_elem_of_In, filter_In. split; [by apply list_elem_of_In|].
  unfold in_scope. by rewrite Hs, Hi, scope_eqb_refl, str_eqb_refl.
Qed.
End Reads.

(** C36: recovery is observed.  An assessment says RECOVERED only for a principal
    that may read the scope, under the newest stored, valid profile, and when for
    every handle of the profile the stored samples since the assessment's horizon,
    newest first, all of them or the newest 512, begin with a run of healthy,
    complete observations of one source without a gap longer than allowed, long
    enough in number and in time, whose newest evidence is eligible and whose
    evidence is all uncontested and cited; the assessment names that profile
    version and is stored. *)
Theorem recovery_is_observed `{Env} s p sc incident profileID w a w' :
  Recovery.Assess s p sc incident profileID w = (Ok a, w') -> RA_Status a = Recovery.RECOVERED ->
  Authorize (Some (Recovery.Policy_ s)) (go_now (tick w)) p sc Read = true /\
  exists t (profile : RecoveryProfile) (row : row Tprofiles), scope t = sc /\
    row ∈ db w Tprofiles /\ rp_scope row = sc /\ rp_id row = profileID /\ rp_envelope row = profile /\
    (forall row' : Db.row Tprofiles, row' ∈ db w Tprofiles -> rp_scope row' = sc -> rp_id row' = profileID ->
       rp_version row' <= rp_version row) /\
    Recovery.ValidateProfile profile = true /\ RA_ProfileVersion a = RP_Version profile /\
    (forall h, h ∈ RP_Handles profile ->
       Recovery.handle_recovered t (db w) profile incident (RA_At a) (RA_Evidence a) h) /\
    exists stored : Db.row Tassessments, stored ∈ db w' Tassessments /\ ra_scope stored = sc /\ ra_envelope stored = a.
Proof.
  unfold Recovery.Assess. intros Hr Hst. apply bind_ok in Hr as ([] & w1 & Ha & Hr). apply authorize_ok in Ha as [Ha ->].
  split; [done|]. apply Transact_ok in Hr as (_ & w0 & w1 & Ed & Hr & Ed'). cbn [db next] in Ed. set (t := mkTx sc _ _) in Hr.
  apply bind_ok in Hr as (at_ & wa & Ht & Hr). apply time_now_ok in Ht as [_ ->]. unfold Recovery.AssessTx in Hr.
  apply bind_ok in Hr as (pf & wb & Hp & Hr). apply GetRecoveryProfile_ok in Hp as (Eb & row & Hrow & Rs & Ri & Re & Hmax).
  apply bind_ok in Hr as ([] & wc & Hv & Hr). apply guard_ok in Hv as [Hv ->].
  apply bind_ok in Hr as (id & wc & Hid & Hr). apply NewID_pure in Hid.
  apply bind_ok in Hr as ([[status reason] cited] & wd & Hh & Hr). cbv zeta beta iota in Hr.
  apply bind_ok in Hr as ([] & we & Hput & Hr). apply bind_ok in Hr as ([] & wf & He & Hr). injection Hr as <- <-.
  cbn [RA_Status RA_ProfileVersion RA_At RA_Evidence db next] in *. subst status.
  apply Recovery.assess_handles_ok in Hh as (_ & _ & Hall). rewrite Hid, Eb, Ed in Hall. rewrite Ed in Hrow, Hmax.
  exists t, pf, row. do 8 (split; [first [done|rewrite Ed'; done]|]). split.
  - intros h Hin. rewrite Forall_forall in Hall. by apply Hall.
  - unfold PutRecoveryAssessment in Hput. apply bind_ok in Hput as ([] & wg & Hg & Hput). apply guard_ok in Hg as [_ ->].
    apply insert_ok in Hput as (Ei & _). eexists. split; [|split]; cycle 1; [| |].
    3:{ rewrite Ed'. rewrite (framed _ _ _ _ _ Tassessments (frame_Enqueue _ _ _ _) He) by reflexivity.
      rewrite Ei, upd_same. apply elem_of_app. right. by left. }
    all: reflexivity.
Qed.

Lemma recovery_is_observed_witness : exists profile : RecoveryProfile,
  RP_Version profile = RA_ProfileVersion Mended.assessed /\ Recovery.ValidateProfile profile = true.
Proof.
  destruct (@recovery_is_observed Demo.env Mended.svc Demo.owner Demo.sc "incident" "web" Mended.world Mended.assessed
    Mended.after Mended.assess_run (proj2 (proj2 Mended.mended_runs)))
    as (_ & t & profile & row & _ & _ & _ & _ & _ & _ & Hv & Hver & _).
  exists profile. exact (conj (eq_sym Hver) Hv).
Defined.

(** ** Feedback *)
(** The event stored for an actor's idempotency key. *)
Definition kept_event (d : DB) (sc : Scope) (actor key : string) (e : FeedbackEvent) : Prop :=
  exists row : row Tfeedback, row ∈ d Tfeedback /\ f_scope row = sc /\ f_actor row = actor /\ f_key row = key /\
    f_event row = e.

Lemma kept_event_inj d sc actor key e e' :
  unique_ok Tfeedback (d Tfeedback) = true -> kept_event d sc actor key e -> kept_event d sc actor key e' -> e = e'.
Proof.
  intros Hu (r & Hr & Es & Ea & Ek & <-) (r' & Hr' & Es' & Ea' & Ek' & <-).
  assert (r = r') as ->; [|done].
  eapply (unique_inj Tfeedback _ _ r r' (kscope sc ++ [KS actor; KS key])); [done|right; by left|done|done|..]; cbn.
  - by rewrite Es, Ea, Ek.
  - by rewrite Es', Ea', Ek'.
Qed.

(** The event a first submission of the prepared request [r] stores. *)
Definition first_event (p : Principal) (sc : Scope) (r : Feedback.Request) (id : string) (at_ : Time) : FeedbackEvent :=
  mkFeedback sc (Feedback.FR_IncidentID r) id (P_ID p) (Feedback.FR_Item r) (Feedback.FR_ItemHash r)
    (Feedback.FR_Assessment r) (Feedback.FR_ReasonCode r) (Feedback.FR_Evidence r) (Feedback.FR_Supersedes r)
    (Feedback.FR_IdempotencyKey r) (Feedback.request_hash r) at_.

Section FeedbackFacts.
Context `{Env}.

Lemma FeedbackForKey_ok t actor key w e w' :
  FeedbackForKey t actor key w = (Ok e, w') -> db w' = db w /\ kept_event (db w) (scope t) actor key e.
Proof.
  unfold FeedbackForKey. intros Hr. apply bind_ok in Hr as ([] & w1 & Hg & Hr). apply guard_ok in Hg as [_ ->].
  apply query_row_ok in Hr as [[l E] ->]. split; [done|].
  assert (Hin : e ∈ e :: l) by left. rewrite <- E in Hin. apply list_elem_of_fmap in Hin as (row & -> & Hin).
  apply list_elem_of_In, filter_In in Hin as [Hin Hp]. unfold in_scope, scope_eqb in Hp. breflect. exists row.
  split; [by apply list_elem_of_In|done].
Qed.

Lemma AddFeedback_ok t e w x w' :
  AddFeedback t e w = (Ok x, w') -> F_Scope e = scope t /\
  exists row : row Tfeedback, db w' = upd (db w) Tfeedback (db w Tfeedback ++ [row]) /\
    unique_ok Tfeedback (db w' Tfeedback) = true /\ f_scope row = scope t /\ f_actor row = F_ActorID e /\
    f_key row = F_IdempotencyKey e /\ f_event row = e.
Proof.
  unfold AddFeedback. intros Hr. apply bind_ok in Hr as ([] & w1 & Hg & Hr). apply guard_ok in Hg as [Hg ->].
  apply insert_ok in Hr as (E & _ & Hu). split; [unfold scope_eqb in Hg; by breflect|]. eexists. split; [exact E|]. split; [exact Hu|]. done.
Qed.

Lemma Quarantine_ok t ref w x w' :
  Quarantine t ref w = (Ok x, w') -> marked (db w') (scope t) ref.
Proof.
  unfold Quarantine. intros Hr. apply bind_ok in Hr as ([] & w1 & Hg & Hr). apply guard_ok in Hg as [_ ->].
  apply bind_ok in Hr as (n & w1 & Hu & Hr). apply guard_ok in Hr as [Hn ->]. apply update_ok in Hu as (-> & E & _).
  destruct (List.filter _ _) as [|r l] eqn:Ef; [done|].
  assert (Hin : In r (r :: l)) by (by left). rewrite <- Ef in Hin. apply filter_In in Hin as [Hin Hp].
  assert (Hat : in_scope t (e_scope r) && bool_decide (e_item r = ref) = true) by exact Hp.
  eexists. rewrite E, upd_same. split; [apply list_elem_of_fmap; exists r; split; [reflexivity|by apply list_elem_of_In]|].
  cbv beta. rewrite Hat. unfold in_scope, scope_eqb in Hat. by breflect.
Qed.

Lemma frame_Quarantine t ref : Steps (touches [Teligibility]) (Quarantine t ref).
Proof. unfold Quarantine. steps. Qed.

(** The newest stored version of an item, as it was sealed. *)
Definition newest (d : DB) (t : Tx) (id : string) (x : Item) : Prop :=
  exists row : row Titems, row ∈ d Titems /\ i_scope row = scope t /\ R_ID (i_ref row) = id /\
    Seal (i_envelope row) = Ok x /\ I_Hash (i_envelope row) = I_Hash x /\
    forall row' : Db.row Titems, row' ∈ d Titems -> i_scope row' = scope t -> R_ID (i_ref row') = id ->
      R_Version (i_ref row') <= R_Version (i_ref row).

Lemma CurrentItem_newest t id w x w' : CurrentItem t id w = (Ok x, w') -> w' = next w /\ newest (db w) t id x.
Proof.
  unfold CurrentItem. intros Hr. apply bind_ok in Hr as ([] & w1 & Hv & Hr). apply guard_ok in Hv as [_ ->].
  apply bind_ok in Hr as (raw & w1 & Hq & Hr). apply query_row_ok in Hq as [[l E] ->].
  unfold of_res in Hr. injection Hr as Hr <-. split; [done|]. apply decodeItem_ok in Hr as [Hs Hh].
  destruct (isort _ _) as [|row rows] eqn:Es; [done|]. injection E as E _. apply isort_first in Es as [Hin Hmax].
  apply list_elem_of_In, filter_In in Hin as [Hin Hp]. unfold in_scope, scope_eqb in Hp. breflect. exists row.
  split; [by apply list_elem_of_In|]. do 4 (split; [congruence|]).
  intros row' Hin' Hs' Hi'. apply Hmax. apply list_elem_of_In, filter_In. split; [by apply list_elem_of_In|].
  unfold in_scope. by rewrite Hs', Hi', scope_eqb_refl, str_eqb_refl.
Qed.

(** What a first submission of the prepared request [r] rests on and stores. *)
Record first_submission (p : Principal) (t : Tx) (r : Feedback.Request) (d d' : DB) (e : FeedbackEvent) : Prop := {
  fs_event : exists id at_, e = first_event p (scope t) r id at_;
  fs_kept : kept_event d' (scope t) (P_ID p) (Feedback.FR_IdempotencyKey r) e;
  fs_first : forall e0, ~ kept_event d (scope t) (P_ID p) (Feedback.FR_IdempotencyKey r) e0;
  fs_item : exists x, newest d t (R_ID (Feedback.FR_Item r)) x /\ I_IncidentID x = Feedback.FR_IncidentID r /\
    I_Version x = R_Version (Feedback.FR_Item r) /\ I_Hash x = Feedback.FR_ItemHash r;
  fs_false : Feedback.FR_Assessment r = AFalse -> marked d' (scope t) (Feedback.FR_Item r) }.

Lemma record_ok p sc r t w e w' :
  scope t = sc -> Feedback.record p sc r t w = (Ok e, w') -> first_submission p t r (db w) (db w') e.
Proof.
  intros <-. unfold Feedback.record. intros Hr.
  apply bind_ok in Hr as (item & w1 & Hc & Hr). apply CurrentItem_newest in Hc as (-> & Hnew).
  apply bind_ok in Hr as ([] & w2 & Hg & Hr). apply guard_ok in Hg as [Hg ->].
  apply bind_ok in Hr as ([] & w3 & Hev & Hr).
  assert (E3 : db (next w) = db w3).
  { revert Hev. apply (steps_pure eq). unfold GetItem, check_item_scope. steps. }
  apply bind_ok in Hr as ([] & w4 & Hsup & Hr).
  assert (E4 : db w3 = db w4). { revert Hsup. apply (steps_pure eq). unfold FeedbackByID. steps. }
  apply bind_ok in Hr as (id & w5 & Hid & Hr). apply NewID_pure in Hid.
  apply bind_ok in Hr as (at_ & w6 & Ht & Hr). apply time_now_ok in Ht as [_ ->]. cbv zeta in Hr.
  apply bind_ok in Hr as ([] & w7 & Ha & Hr).
  apply AddFeedback_ok in Ha as (_ & row & Ed & Hu & Rs & Ra & Rk & Re).
  apply bind_ok in Hr as ([] & w8 & Hq & Hr). apply bind_ok in Hr as ([] & w9 & He & Hr). injection Hr as <- <-.
  pose proof (fun tb => framed _ _ _ _ _ tb (frame_Enqueue _ _ _ _) He) as Fe.
  assert (Fq : db w8 Tfeedback = db w7 Tfeedback).
  { case_if_in Hq; [exact (framed _ _ _ _ _ Tfeedback (frame_Quarantine _ _) Hq eq_refl)|]. by injection Hq as <-. }
  cbn [db next F_ActorID F_IdempotencyKey F_Assessment F_Item] in *. breflect.
  assert (Ew : db w5 = db w) by congruence. rewrite Ew in Ed.
  assert (Hrow : row ∈ db w7 Tfeedback) by (rewrite Ed, upd_same; apply elem_of_app; right; by left).
  split.
  - exists id, at_. unfold first_event. congruence.
  - exists row. by rewrite Fe, Fq by reflexivity.
  - intros e0 (row0 & Hin & Es & Ea & Ek & _).
    assert (Hin0 : row0 ∈ db w7 Tfeedback) by (rewrite Ed, upd_same; apply elem_of_app; by left).
    rewrite Ed, upd_same in Hu. revert Hu. unfold unique_ok. rewrite forallb_forall. intros Hu.
    specialize (Hu (fun r => Some (kscope (f_scope r) ++ [KS (f_actor r); KS (f_key r)])) (or_intror (or_introl eq_refl))).
    apply bool_decide_eq_true in Hu. rewrite omap_app in Hu. apply NoDup_app in Hu as (_ & Hd & _).
    apply (Hd (kscope (f_scope row) ++ [KS (f_actor row); KS (f_key row)])); [|by left].
    apply list_elem_of_omap. exists row0. split; [done|]. by rewrite Es, Ea, Ek, Rs, Ra, Rk.
  - by exists item.
  - intros Hf. rewrite Hf in Hq. apply Quarantine_ok in Hq as (m & Hm & Hm'). exists m.
    by rewrite Fe by reflexivity.
Qed.

Lemma SubmitTx_ok p sc r t w e w' :
  scope t = sc -> Feedback.SubmitTx p sc r t w = (Ok e, w') ->
  (kept_event (db w) sc (P_ID p) (Feedback.FR_IdempotencyKey r) e /\ db w' = db w /\
     F_RequestHash e = Feedback.request_hash r) \/
  first_submission p t r (db w) (db w') e.
Proof.
  intros <-. unfold Feedback.SubmitTx. intros Hr. apply bind_ok in Hr as (o & w1 & Ho & Hr).
  apply optional_ok in Ho as [(e0 & -> & Hk)|(-> & Hk)].
  - apply FeedbackForKey_ok in Hk as [Ed Hk]. apply bind_ok in Hr as ([] & w2 & Hg & Hr).
    apply guard_ok in Hg as [Hg ->]. injection Hr as <- <-. left. breflect. done.
  - right. assert (Ed : db w = db w1). { revert Hk. apply (steps_pure eq). unfold FeedbackForKey. steps. }
    rewrite Ed. by apply (record_ok p (scope t)).
Qed.

Lemma Submit_ok s p sc r w e w' :
  Feedback.Submit s p sc r w = (Ok e, w') ->
  exists t, scope t = sc /\
    ((kept_event (db w) sc (P_ID p) (sha256_hex (Feedback.FR_IdempotencyKey r)) e /\ db w' = db w /\
        F_RequestHash e = Feedback.request_hash (Feedback.prepare r)) \/
     first_submission p t (Feedback.prepare r) (db w) (db w') e).
Proof.
  unfold Feedback.Submit. intros Hr. apply bind_ok in Hr as ([] & w1 & Ha & Hr). apply authorize_ok in Ha as [_ ->].
  apply bind_ok in Hr as ([] & w1 & Hg & Hr). apply guard_ok in Hg as [_ ->].
  apply bind_ok in Hr as ([] & w1 & Hg & Hr). apply guard_ok in Hg as [_ ->]. cbv zeta in Hr.
  apply bind_ok in Hr as ([] & w1 & Hg & Hr). apply guard_ok in Hg as [_ ->].
  apply Transact_ok in Hr as (_ & w0 & w1 & Ed & Hr & Ed'). cbn [db next] in Ed.
  eexists. rewrite Ed', <- Ed. refine (conj _ (SubmitTx_ok p sc (Feedback.prepare r) _ w0 e w1 _ Hr)); done.
Qed.

Lemma bind_run {A B} (m : M A) (f : A -> M B) w r w' :
  bind m f w = (r, w') ->
  (exists e, m w = (Err e, w')) \/ exists a w1, m w = (Ok a, w1) /\ f a w1 = (r, w').
Proof. unfold bind. destruct (m w) as [[a|e] w1]; [eauto|]. intros [= <- <-]. eauto. Qed.

Lemma guard_same b e w r w' : guard b e w = (r, w') -> w' = w.
Proof. unfold guard. by destruct b; intros [= _ <-]. Qed.

(** Whatever a submission answers, the commit's lost acknowledgement included. *)
Lemma Submit_atomic s p sc r w x w' :
  Feedback.Submit s p sc r w = (x, w') ->
  db w' = db w \/ exists e t, scope t = sc /\ first_submission p t (Feedback.prepare r) (db w) (db w') e.
Proof.
  unfold Feedback.Submit. intros Hr.
  apply bind_run in Hr as [(e & Ha)|([] & w1 & Ha & Hr)]; [left; symmetry; exact (authorize_pure _ _ _ _ _ _ _ Ha)|].
  apply authorize_ok in Ha as [_ ->].
  do 3 (cbv zeta in Hr; apply bind_run in Hr as [(e & Ha)|([] & w1 & Ha & Hr)];
    [left; by apply guard_same in Ha as ->|apply guard_ok in Ha as [_ ->]]).
  apply Transact_atomic in Hr as [Ed|(_ & e & wa & wb & Ed & Hr & Ed' & _)]; [by left|]. cbn [db next] in Ed.
  apply SubmitTx_ok in Hr as [(_ & E & _)|Hf]; [|right|done].
  - left. congruence.
  - rewrite Ed', <- Ed. exists e. eexists. split; [|exact Hf]. done.
Qed.
End FeedbackFacts.

(** Feedback is recorded once.  A successful submission leaves one event
    stored under the principal and the digest of the idempotency key: the event
    already stored for the same request, with nothing written, or a first
    event for the newest version of the assessed item, and an assessment FALSE
    leaves that item quarantined.  In every later database, whatever requests
    ran in between, a submission of the same principal under the same key
    changes nothing: it fails, or repeats the same request and returns the same
    event. *)
Theorem feedback_is_recorded_once `{Env} s p sc r w e w1 :
  system (db w) -> Feedback.Submit s p sc r w = (Ok e, w1) ->
  let key := sha256_hex (Feedback.FR_IdempotencyKey r) in
  kept_event (db w1) sc (P_ID p) key e /\
  ((kept_event (db w) sc (P_ID p) key e /\ db w1 = db w) \/
   exists t, scope t = sc /\ first_submission p t (Feedback.prepare r) (db w) (db w1) e) /\
  forall s' p' r' w2 x w3, rtc step (db w1) (db w2) -> P_ID p' = P_ID p ->
    Feedback.FR_IdempotencyKey r' = Feedback.FR_IdempotencyKey r -> Feedback.Submit s' p' sc r' w2 = (x, w3) ->
    db w3 = db w2 /\
    forall e', x = Ok e' -> e' = e /\
      Feedback.request_hash (Feedback.prepare r') = Feedback.request_hash (Feedback.prepare r).
Proof.
  intros Hsys Hr key.
  assert (Hfirst : kept_event (db w1) sc (P_ID p) key e /\
    ((kept_event (db w) sc (P_ID p) key e /\ db w1 = db w) \/
     exists t, scope t = sc /\ first_submission p t (Feedback.prepare r) (db w) (db w1) e) /\
    F_RequestHash e = Feedback.request_hash (Feedback.prepare r)).
  { apply Submit_ok in Hr as (t & Et & [(Hk & Ed & Eh)|Hf]).
    - rewrite Ed. auto.
    - split; [|split; [right; by exists t|]].
      + rewrite <- Et. exact (fs_kept _ _ _ _ _ _ Hf).
      + destruct (fs_event _ _ _ _ _ _ Hf) as (id & at_ & ->). done. }
  destruct Hfirst as (Hkept & Hcase & Hash). split; [done|]. split; [done|].
  intros s' p' r' w2 x w3 Hst Ep Ek Hr'.
  assert (Hsys1 : system (db w1)).
  { eapply rtc_r; [exact Hsys|]. eapply (step_request _ _ _ (RFeedback s p sc r) (tick w)).
    - cbn [run_request]. unfold bind. replace (mkWorld (db w) (tick w)) with w by (by destruct w). by rewrite Hr.
    - done. }
  assert (Hkept2 : kept_event (db w2) sc (P_ID p) key e).
  { destruct Hkept as (row & Hrow & Hrest). exists row. split; [|done].
    apply (audit_kept (db w1) (db w2) Tfeedback row); [by apply system_ok|done| |done].
    apply (bool_decide_eq_true_1 _). vm_compute. reflexivity. }
  destruct x as [e'|err].
  - apply Submit_ok in Hr' as (t & Et & [(Hk & Ed & Eh)|Hf]).
    + split; [done|]. intros e0 [= <-].
      assert (e' = e) as ->; [|split; [done|congruence]].
      eapply (kept_event_inj (db w2)); [|exact Hk|cbn; by rewrite Ep, Ek].
      assert (Hs2 : system (db w2)) by exact (system_step _ _ Hsys1 Hst).
      apply system_ok in Hs2 as [Hs2 _]. exact (proj2 (Hs2 Tfeedback)).
    + exfalso. apply (fs_first _ _ _ _ _ _ Hf e). cbn. by rewrite Et, Ep, Ek.
  - split; [|done]. apply Submit_atomic in Hr' as [Ed|(e' & t & Et & Hf)]; [done|].
    exfalso. apply (fs_first _ _ _ _ _ _ Hf e). cbn. by rewrite Et, Ep, Ek.
Qed.

(** A FALSE assessment of an observation, submitted twice. *)
Module Judged.
#[local] Existing Instance Demo.env.
Definition sealed : Item := Demo.value Attempt.zero_item (Seal (Attempt.observed "e1" Attempt.blocked)).
Definition request (a : Assessment) : Feedback.Request :=
  Feedback.mkRequest "incident" Attempt.ref1 (I_Hash sealed) a "FACTUAL_ERROR" [Attempt.ref2] "" "key".
Definition submit (a : Assessment) : M FeedbackEvent :=
  Feedback.Submit Attempt.backend Demo.owner Attempt.sc (request a).
Definition zero : FeedbackEvent := mkFeedback Demo.sc "" "" "" Attempt.ref1 "" AFalse "" [] "" "" "" 0.
Definition event : FeedbackEvent := Demo.value zero (Demo.result (submit AFalse) Attempt.world1).
Definition after : World := Demo.after (submit AFalse) Attempt.world1.
Definition repeated : World := Demo.after (submit AFalse) after.
Lemma judged_runs : is_ok (Demo.result (submit AFalse) Attempt.world1) = true /\
  is_ok (Demo.result (submit AFalse) after) = true /\
  Demo.result (submit ATrue) after = Err ErrConflict.
Proof. vm_compute. repeat split. Qed.
Lemma submit_eq a : submit a = Feedback.Submit Attempt.backend Demo.owner Attempt.sc (request a).
Proof. reflexivity. Qed.
Lemma submit_run : Feedback.Submit Attempt.backend Demo.owner Attempt.sc (request AFalse) Attempt.world1 = (Ok event, after).
Proof. destruct judged_runs as (Hok & _). rewrite <- submit_eq. exact (Demo.run_value (submit AFalse) Attempt.world1 zero Hok). Qed.
End Judged.

Lemma feedback_is_recorded_once_witness : db Judged.repeated = db Judged.after.
Proof.
  refine (proj1 (proj2 (proj2 (@feedback_is_recorded_once Demo.env Attempt.backend Demo.owner Attempt.sc
    (Judged.request AFalse) Attempt.world1 Judged.event Judged.after AttemptFacts.system1 Judged.submit_run))
    Attempt.backend Demo.owner (Judged.request AFalse) Judged.after (Demo.result (Judged.submit AFalse) Judged.after)
    Judged.repeated _ eq_refl eq_refl _)).
  - apply rtc_refl.
  - rewrite <- Judged.submit_eq. exact (Demo.run_pair (Judged.submit AFalse) Judged.after).
Defined.
